(* ===== verification/_CoqProject ===== *)
-Q . S2P
Prelude.v
Types.v
Bytes.v
Extents.v
Keys.v
ChunkStore.v
Pack.v
Placement.v
Auth.v
Sha256.v
Wire.v
Authz.v
Ufs.v
UfsPublish.v
UfsRead.v
UfsLaws.v
MetaDb.v
Namespace.v
NamespaceInv.v
Evolve.v
Rename.v
InodeData.v
Gc.v
GcInv.v
Membership.v
Ledger.v
Apply.v
HeedStore.v
Frame.v
MetaStore.v
Client.v
ClientPath.v
ClientIo.v
ClientCalls.v
ClientFlush.v
Foyer.v
Worker.v
WorkerNet.v
RemoteChunk.v
RemoteProps.v
RemoteMerge.v
RemoteRepair.v
ClientData.v
FlushData.v
ApplyInv.v
Snapshot.v
Calm.v
Programs.v
GcRace.v
Replicated.v
RaftStore.v
Typed.v
MetaMaster.v
RemoteMeta.v
MetaText.v
Open.v
Machine.v
RaftSnap.v
RaftLog.v
GcSystem.v
Refine.v
NsProps.v
StoreProps.v
GcLive.v
Fuse.v
Streams.v
Cli.v
CliPut.v
Mount.v
