(* ===== verification/Prelude.v ===== *)
(** * FluxFS: a verification library

    FluxFS ([src/], about 26k lines of Rust) is a distributed file system: a
    replicated metadata service (Raft over an LMDB store), content-addressed
    chunk stores, and clients that mount the file system, optionally on top of
    an object store (the UFS).  This library models its metadata service, its
    chunk storage, its client and the FUSE and command-line front ends as Rocq
    functions, and proves the properties that make them correct.

    ** How the code is modelled

    A [u64], [u32] or [usize] is an [N] with the width of each addition
    written out (checked, saturating or wrapping), an [i64] time is a [Z].
    [FluxError] keeps its variants and messages.  A LMDB transaction is a state
    transformer [txn S E A := S → result E A * S]; an error keeps the writes
    made before it, and the caller decides between commit and rollback, as in
    the code.  The clock is a function [now : nat → Z] of the samples a
    transaction takes.  blake3 is a parameter [hash]; a [ChunkId] is the [N]
    that its 32 bytes spell in big-endian order, so that the order of ids, of
    their hex forms and of the keys agree.  Random identifiers (request ids,
    tickets, flush ids) are arguments.  Mutexes and [RwLock]s make a call
    atomic within a process, so one call is one step; errors of locks,
    of LMDB and of the file system other than the ones written out are left
    out.

    ** Files

    - [Prelude]: results, the transaction monad, machine integers, sorting.
    - [Types], [Bytes]: [crates/types/src/lib.rs], byte encodings, hex.
    - [Extents]: extent trees and manifests of [crates/types/src/lib.rs].
    - [Keys]: key formats and validation of [crates/meta/src/heed_store.rs].
    - [ChunkStore]: the trait of [crates/chunk/src/store.rs] as a class with
      laws, inventory pages, and the loop that walks them.
    - [Pack]: [crates/chunk/src/pack.rs], an instance of [ChunkStore].
    - [Placement], [Replicated]: the choice of workers and the replication
      over local stores ([crates/chunk/src/placement.rs], [replicated.rs]).
    - [Foyer], [Worker], [WorkerNet]: the cache tier
      ([crates/chunk/src/foyer_store.rs]), the worker process
      ([crates/chunkworker/src/main.rs]), and workers behind a network that
      loses requests and replies, as an instance of the class [ChunkRpc].
    - [RemoteChunk]: the thread of [crates/chunk/src/remote.rs] that calls
      the workers; [RemoteProps], [RemoteMerge], [RemoteRepair]: its theorems,
      against [ChunkRpc].
    - [Auth], [Sha256], [Authz]: identities and capabilities
      ([crates/types/src/auth.rs]), the fingerprint, TLS options and the
      authorisation of a request ([crates/tls]).
    - [Wire]: records and errors as messages ([crates/proto/src/meta_codec.rs],
      [crates/types/src/schema.rs]) over a class of serialisers.
    - [Ufs], [UfsRead]: [crates/ufs/src/lib.rs] and [read_path.rs] over an
      OpenDAL operator; [UfsPublish], [UfsLaws]: the laws of an operator, of
      a UFS, and that the first give the second.
    - [MetaDb], [Namespace], [InodeData], [Gc], [Membership], [Ledger]: the
      [*_in_txn] operations of [crates/meta/src/heed_store.rs] over the record
      [Db] of its LMDB databases.
    - [Apply]: [apply_raft_request] and [with_write_txn];
      [HeedStore]: the [MetaStore] methods of [HeedMetaStore];
      [RaftStore]: the ones of [RaftMetaStore] ([raft_meta.rs]).
    - [MetaMaster], [RemoteMeta]: the handlers of the metadata server
      ([crates/metamaster/src/main.rs]) and the [MetaStore] that calls them
      ([crates/meta/src/remote.rs]); [MetaText]: concrete codecs for both.
    - [Open], [Machine]: opening a store ([schema.rs]) and the Raft state
      machine ([raft_sm.rs]); [Snapshot]: the snapshot stream
      ([snapshot_stream.rs] and the export and install of [heed_store.rs]);
      [RaftSnap]: the snapshot files of [raft_sm.rs], built, received,
      installed and pruned; [RaftLog]: [raft_log_store.rs].
    - [MetaStore]: the trait of [crates/meta/src/store.rs] as a class with
      laws; the embedded store is an instance.
    - [Client], [ClientPath], [ClientCalls], [ClientIo], [ClientFlush]:
      [crates/client/src/lib.rs], against the two classes and [Ufs].
    - [Programs]: the writing operations and the collector of the client cut
      at their calls on a store; [Calm], [GcRace], [GcSystem]: these programs
      interleaved, by rely and guarantee.
    - [Fuse]: the handlers of [crates/fuse/src/lib.rs].
    - [Cli], [Mount]: the commands of [crates/fluxfs/src/cluster_cli.rs] and
      what [main.rs] does around a mount.
    - [NamespaceInv], [Evolve], [Rename], [GcInv], [Frame], [ApplyInv]:
      invariants and the lemmas that every operation preserves them.
    - [Refine], [Typed], [NsProps], [StoreProps], [ClientData], [FlushData],
      [GcLive], [Streams], [CliPut]: theorems.

    ** What the theorems show

    - Metadata: every reachable state machine satisfies the namespace and
      store invariants ([Machine.reachable_inv]): one tree under the root,
      link counts equal to the names, referenced manifests present, no chunk
      both live and tombstoned.  A retried request takes effect once
      ([Machine.exactly_once]).  The state machine refines an abstract map of
      names ([Refine.namespace_refines]), and a standalone store and a Raft
      store answer alike ([RaftStore.stores_agree]), as does a store reached
      through messages and a server ([RemoteMeta.remote_refines]); answers
      have the type their method expects ([Typed.answers_typed]).  [NsProps] and
      [StoreProps] give the behaviour of single operations: rename, unlink
      and close, xattrs, reservations, tombstones, flush, the GC lease.
    - Snapshots and the log: a snapshot that is exported and installed gives
      the same tables ([Snapshot.snapshot_roundtrip]), and one that stops
      early changes nothing ([Snapshot.snapshot_cut_refused]).  However
      nodes build, receive, install and prune snapshots and meet file system
      errors, the current snapshot of each is a file with a complete export of
      a good state and the markers it is announced with
      ([RaftSnap.cluster_snapshots_good]); a follower that installs one has
      the leader's tables and markers ([RaftSnap.follower_catches_up]).  A
      build that runs between the two halves of an installation pairs old
      markers with new tables ([RaftSnap.build_during_install]).
      The log store refines a
      map of entries with a vote and two marks ([RaftLog.log_store_refines]).
    - Extents: [replace_range] changes exactly the written range
      ([Extents.replace_range_spec]); encodings are faithful.
    - Chunks: the pack store refines a set of chunks under puts, deletes,
      compaction, torn writes and reopening ([Pack.pack_refines]) while its
      segments do not roll for the first time; [Pack.first_roll_loses] proves
      that the first roll loses data.  Paging returns every chunk once.
      An acknowledged replicated write survives the loss of all but one of
      the required replicas ([Replicated.put_survives]), and repair restores
      them; placement picks distinct, eligible workers over as many failure
      domains as there are ([Placement.placement_spec]).
      Over the network an acknowledged write is on enough workers, and no
      call loses a copy ([RemoteRepair.remote_put_durable]); the merged
      listing of the workers is exact ([RemoteMerge.inventory_exact]); a full
      repair ends ([RemoteRepair.repair_terminates]) with enough copies of
      every chunk ([RemoteRepair.repair_complete]), while the background
      scrub, once through, checks nothing until the set of healthy workers
      changes ([RemoteRepair.scrub_idle]).  The cache tier answers like its
      durable store ([Foyer.foyer_transparent]), and on a worker collection
      and data traffic do not take each other's permits
      ([Worker.worker_isolated]).
    - Access: a request reaches a handler exactly with a certificate of an
      admitted role that has the capability ([Authz.admission_exact]), the
      metadata server changes nothing without it
      ([MetaMaster.serve_authorised]), and no side speaks plaintext unless
      told to ([Authz.no_silent_plaintext]).  Identities, records and errors
      survive their encodings ([Auth], [Wire.codec_compatible]); the fingerprint is SHA-256
      ([Sha256.sha256_is_fips]).
    - Client: a read after a write or a truncation returns the bytes that a
      plain byte array would hold ([ClientData]), for every metadata store
      and chunk store that satisfies the laws; path resolution ends on every
      tree ([ClientPath.resolve_terminates]).  A flush moves the bytes of a
      file to the object store unchanged ([FlushData.flush_preserves]).
    - Collection: in every interleaving of writers, one collector and other
      requests, with operations stopping anywhere, every chunk of every file
      stays readable ([GcSystem.gc_safe]); with two collectors it need not
      ([GcSystem.two_collectors_lose]).  Left alone, the collector removes
      every unreferenced chunk in finitely many passes ([GcLive.gc_collects]).
    - Front ends: listing a directory through FUSE shows every entry once,
      whatever the size of the replies ([Fuse.listing_complete]), unless
      entries are removed meanwhile ([Fuse.listing_skips]).  Copying a file in
      replaces the destination by the whole file or changes no name but the
      temporary one ([CliPut.put_replaces]).  A mount keeps its identity
      ([Mount.session_lasts]), and does not start while a collection's lease
      is left over ([Mount.lease_blocks_mount]).
    - Object store: a publication replaces an object by the whole verified
      upload or not at all ([UfsPublish.publish_atomic]); cached, split reads
      return slices of the pinned version ([UfsRead.read_is_slice]).

    ** Fuel and bounds

    Loops that are not structural carry fuel: the subtree search of rename,
    with [descend_fuel], which is proved enough ([NsProps.descendant_exact]);
    path resolution and the page walk, whose theorems prove that some fuel
    suffices; the merge of inventories, for which the page limit is enough;
    and repair, for which workers times chunks is.  [store_room] and [pack_room] state that counters are below
    [2^64], where the code would saturate or refuse.

    ** Not modelled

    The queues in front of the chunk client's threads, process start-up and
    connecting, the Raft network and the configuration of openraft, request
    ids of traces, generated code, the probe and check commands, metrics and
    the test kit: glue around the parts above or around libraries (tonic,
    foyer, openraft, fuser, rustls).  openraft itself appears as a hypothesis of
    [RaftStore], [MetaMaster] and [RemoteMeta]; OpenDAL as the parameter
    [Operator] of [Ufs] with the laws [OperatorLaws] and [OperatorReads],
    which an object store in memory satisfies; serde_json as the class
    [Serde] with its laws; X.509 parsing as a parameter of [Authz].  The
    manifest [PROJECT.json] lists every part with its status. *)

From stdpp Require Export base numbers gmap strings pretty sorting option.
From stdpp Require Export list_basics list_relations list_misc list.

(** ** Machine integers

    Rust's [u64]/[u32]/[usize] values are [N] values; the operations that the
    source uses are written with the width explicit.  [usize] is 64 bits wide
    (the only targets of the repository). *)

Definition U64_MAX : N := 18446744073709551615.
Definition U32_MAX : N := 4294967295.

(** [a.checked_add(b)] at a width whose largest value is [max]. *)
Definition checked_add_w (max a b : N) : option N :=
  if bool_decide (a + b ≤ max)%N then Some (a + b)%N else None.

(** [a.saturating_add(b)]. *)
Definition sat_add_w (max a b : N) : N := N.min (a + b) max.

(** [a + b] in a release build: wrap-around. *)
Definition wrap_add_w (max a b : N) : N := ((a + b) mod (max + 1))%N.

Abbreviation checked_add := (checked_add_w U64_MAX).
Abbreviation sat_add := (sat_add_w U64_MAX).
Abbreviation wrap_add := (wrap_add_w U64_MAX).

Lemma checked_add_Some max a b c :
  checked_add_w max a b = Some c ↔ c = (a + b)%N ∧ (a + b ≤ max)%N.
Proof. unfold checked_add_w. case_bool_decide; split; intros; simplify_eq; try lia; naive_solver. Qed.

Lemma checked_add_None max a b :
  checked_add_w max a b = None ↔ (max < a + b)%N.
Proof. unfold checked_add_w. case_bool_decide; split; intros; simplify_eq; try lia; naive_solver. Qed.

Lemma sat_add_small max a b : (a + b ≤ max)%N → sat_add_w max a b = (a + b)%N.
Proof. unfold sat_add_w. lia. Qed.

Lemma sat_add_le max a b : (sat_add_w max a b ≤ max)%N.
Proof. unfold sat_add_w. lia. Qed.

Lemma wrap_add_small max a b : (a + b ≤ max)%N → wrap_add_w max a b = (a + b)%N.
Proof. intros. unfold wrap_add_w. apply N.mod_small. lia. Qed.

Lemma wrap_add_0 max a : (a ≤ max)%N → wrap_add_w max a 0 = a.
Proof. intros. rewrite wrap_add_small; lia. Qed.

(** ** Results

    Rust's [Result<A, E>], with stdpp's monad notations. *)

Inductive result (E A : Type) : Type :=
  | Ok (a : A)
  | Err (e : E).
Arguments Ok {E A} a.
Arguments Err {E A} e.

#[export] Instance result_ret E : MRet (result E) := λ A a, Ok a.
#[export] Instance result_bind E : MBind (result E) := λ A B f m,
  match m with Ok a => f a | Err e => Err e end.
#[export] Instance result_fmap E : FMap (result E) := λ A B f m,
  match m with Ok a => Ok (f a) | Err e => Err e end.

#[export] Instance result_eq_dec E A `{EqDecision E, EqDecision A} :
  EqDecision (result E A).
Proof. solve_decision. Defined.

Lemma bind_Ok {E A B} (m : result E A) (k : A → result E B) b :
  m ≫= k = Ok b ↔ ∃ a, m = Ok a ∧ k a = Ok b.
Proof. destruct m as [a|e]; cbn; [|naive_solver]. split; [by eauto|]. by intros (?&[= ->]&?). Qed.

(** [opt.ok_or(e)]. *)
Definition ok_or {E A} (e : E) (o : option A) : result E A :=
  match o with Some a => Ok a | None => Err e end.

Lemma ok_or_Ok {E A} (e : E) (o : option A) a : ok_or e o = Ok a ↔ o = Some a.
Proof. destruct o; simpl; naive_solver. Qed.

Definition is_ok {E A} (r : result E A) : bool :=
  match r with Ok _ => true | Err _ => false end.

Definition is_some {A} (o : option A) : bool :=
  match o with Some _ => true | None => false end.

Definition is_none {A} (o : option A) : bool := negb (is_some o).

(** ** Write transactions

    Code that runs inside an LMDB write transaction is a function from the
    transaction's view of the database to a result and the view after it.  An
    [Err] keeps the writes made before it: whether they survive is decided by
    the caller, which commits or drops the transaction. *)

Definition txn (S E A : Type) : Type := S → result E A * S.

#[export] Instance txn_ret S E : MRet (txn S E) := λ A a s, (Ok a, s).
#[export] Instance txn_bind S E : MBind (txn S E) := λ A B f m s,
  match m s with
  | (Ok a, s') => f a s'
  | (Err e, s') => (Err e, s')
  end.

Section txn.
Context {S E : Type}.

Definition throw {A} (e : E) : txn S E A := λ s, (Err e, s).
Definition gets {A} (f : S → A) : txn S E A := λ s, (Ok (f s), s).
Definition modify (f : S → S) : txn S E unit := λ s, (Ok tt, f s).
(** [expr?] on a pure [Result]. *)
Definition lift {A} (r : result E A) : txn S E A := λ s, (r, s).
(** [if b { return Err(e) }]. *)
Definition fail_if (b : bool) (e : E) : txn S E unit :=
  λ s, (if b then Err e else Ok tt, s).
(** [if b { m }]. *)
Definition when (b : bool) (m : txn S E unit) : txn S E unit :=
  if b then m else mret tt.
(** [for x in l { f(x)?; }]. *)
Fixpoint for_each {A} (f : A → txn S E unit) (l : list A) : txn S E unit :=
  match l with
  | [] => mret tt
  | x :: l' => _ ← f x; for_each f l'
  end.
(** [match m { Ok(a) => f(a), Err(e) => g(e) }]: both arms continue with the
    transaction as [m] left it. *)
Definition try_catch {A B} (m : txn S E A) (f : A → B) (g : E → B) : txn S E B :=
  λ s, match m s with
       | (Ok a, s') => (Ok (f a), s')
       | (Err e, s') => (Ok (g e), s')
       end.

Lemma txn_bind_inv {A B} (m : txn S E A) (k : A → txn S E B) s r s' :
  (m ≫= k) s = (r, s') →
  (∃ a s1, m s = (Ok a, s1) ∧ k a s1 = (r, s')) ∨
  (∃ e, m s = (Err e, s') ∧ r = Err e).
Proof.
  unfold mbind, txn_bind. destruct (m s) as [[a|e] s1] eqn:Hm; intros; simplify_eq; eauto.
Qed.

Lemma txn_bind_ok {A B} (m : txn S E A) (k : A → txn S E B) s a s1 :
  m s = (Ok a, s1) → (m ≫= k) s = k a s1.
Proof. intros H. unfold mbind, txn_bind. by rewrite H. Qed.

Lemma txn_bind_err {A B} (m : txn S E A) (k : A → txn S E B) s e s1 :
  m s = (Err e, s1) → (m ≫= k) s = (Err e, s1).
Proof. intros H. unfold mbind, txn_bind. by rewrite H. Qed.

(** [keeps I m]: [m] preserves [I], on the success path and on the error
    path. *)
Definition keeps {A} (I : S → Prop) (m : txn S E A) : Prop :=
  ∀ s r s', I s → m s = (r, s') → I s'.

Lemma keeps_ret {A} I (a : A) : keeps I (mret a).
Proof. by intros s r s' ? [= <- <-]. Qed.

Lemma keeps_throw {A} I (e : E) : keeps I (throw (A:=A) e).
Proof. by intros s r s' ? [= <- <-]. Qed.

Lemma keeps_gets {A} I (f : S → A) : keeps I (gets f).
Proof. by intros s r s' ? [= <- <-]. Qed.

Lemma keeps_lift {A} I (r0 : result E A) : keeps I (lift r0).
Proof. by intros s r s' ? [= <- <-]. Qed.

Lemma keeps_fail_if I b e : keeps I (fail_if b e).
Proof. by intros s r s' ? [= <- <-]. Qed.

Lemma keeps_modify I f : (∀ s, I s → I (f s)) → keeps I (modify f).
Proof. intros Hf s r s' ? [= <- <-]. auto. Qed.

Lemma keeps_bind {A B} I (m : txn S E A) (k : A → txn S E B) :
  keeps I m → (∀ a, keeps I (k a)) → keeps I (m ≫= k).
Proof.
  intros Hm Hk s r s' Hs H. apply txn_bind_inv in H as [(a&s1&H1&H2)|(e&H1&->)].
  - eapply Hk; [eapply Hm; eauto|done].
  - eapply Hm; eauto.
Qed.

Lemma keeps_when I b m : keeps I m → keeps I (when b m).
Proof. destruct b; simpl; eauto using keeps_ret. Qed.

Lemma keeps_for_each {A} I (f : A → txn S E unit) l :
  (∀ x, x ∈ l → keeps I (f x)) → keeps I (for_each f l).
Proof.
  induction l as [|x l IH]; intros Hf; simpl; [apply keeps_ret|].
  apply keeps_bind; [apply Hf; left|]. intros _. apply IH. intros y ?. apply Hf. by right.
Qed.

Lemma keeps_try_catch {A B} I (m : txn S E A) (f : A → B) g :
  keeps I m → keeps I (try_catch m f g).
Proof.
  intros Hm s r s' Hs H. unfold try_catch in H.
  destruct (m s) as [[a|e] s1] eqn:Hms; simplify_eq; eapply Hm; eauto.
Qed.
End txn.

(** ** Lists *)

Lemma filter_none {A} (P : A → Prop) `{∀ x, Decision (P x)} (l : list A) :
  (∀ x, x ∈ l → ¬ P x) → filter P l = [].
Proof.
  induction l as [|x l IH]; intros Hl; [done|].
  rewrite filter_cons_False by (apply Hl; left). apply IH. intros y ?. apply Hl. by right.
Qed.

Lemma filter_all {A} (P : A → Prop) `{∀ x, Decision (P x)} (l : list A) :
  (∀ x, x ∈ l → P x) → filter P l = l.
Proof.
  induction l as [|x l IH]; intros Hl; [done|].
  rewrite filter_cons_True by (apply Hl; left). f_equal. apply IH. intros y ?. apply Hl. by right.
Qed.

Lemma StronglySorted_filter {A} (R : relation A) (P : A → Prop) `{∀ x, Decision (P x)} l :
  StronglySorted R l → StronglySorted R (filter P l).
Proof.
  induction 1 as [|x l _ IH Hx]; [constructor|]. rewrite filter_cons.
  case_decide; [|done]. constructor; [done|]. apply Forall_forall. intros y [_ Hy]%list_elem_of_filter.
  rewrite Forall_forall in Hx. auto.
Qed.

Lemma cons_tail_inj {A} (x y : A) l k : x :: l = y :: k → l = k.
Proof. by intros [=]. Qed.

(** [v.sort_by_key(f)] for an integer key and for a string key (byte order). *)
Definition key_le {A} (f : A → N) : relation A := λ a b, (f a ≤ f b)%N.
#[export] Instance key_le_dec {A} (f : A → N) : RelDecision (key_le f).
Proof. intros a b. unfold key_le. apply _. Defined.
#[export] Instance key_le_trans {A} (f : A → N) : Transitive (key_le f).
Proof. intros a b c. unfold key_le. lia. Qed.
#[export] Instance key_le_total {A} (f : A → N) : Total (key_le f).
Proof. intros a b. unfold key_le. lia. Qed.

Definition name_le {A} (f : A → string) : relation A :=
  λ a b, Is_true (String.leb (f a) (f b)).
#[export] Instance name_le_dec {A} (f : A → string) : RelDecision (name_le f).
Proof. intros a b. unfold name_le. apply _. Defined.

Definition sort_by_key {A} (f : A → N) (l : list A) : list A := merge_sort (key_le f) l.
Definition sort_by_name {A} (f : A → string) (l : list A) : list A :=
  merge_sort (name_le f) l.

Lemma sort_by_key_perm {A} (f : A → N) l : sort_by_key f l ≡ₚ l.
Proof. apply merge_sort_Permutation. Qed.

Lemma sort_by_name_perm {A} (f : A → string) l : sort_by_name f l ≡ₚ l.
Proof. apply merge_sort_Permutation. Qed.

Lemma sort_by_key_sorted {A} (f : A → N) l : StronglySorted (key_le f) (sort_by_key f l).
Proof. apply (StronglySorted_merge_sort _). Qed.

(** [Vec::dedup]. *)
Fixpoint dedup (l : list N) : list N :=
  match l with
  | [] => []
  | x :: l' => match dedup l' with
               | (y :: _) as r => if (x =? y)%N then r else x :: r
               | [] => [x]
               end
  end.

(** [v.sort(); v.dedup()]; for chunk ids also [sort_by_key(ChunkId::to_hex)],
    the hexadecimal order being the order of the ids. *)
Definition sort_dedup (l : list N) : list N := dedup (sort_by_key (λ c, c) l).

Lemma elem_of_dedup l x : x ∈ dedup l ↔ x ∈ l.
Proof.
  induction l as [|y l IH]; [done|]. simpl. rewrite elem_of_cons, <-IH.
  destruct (dedup l) as [|z r].
  { set_solver. } destruct (N.eqb_spec y z); set_solver.
Qed.

Lemma elem_of_sort_dedup l c : c ∈ sort_dedup l ↔ c ∈ l.
Proof. unfold sort_dedup. by rewrite elem_of_dedup, sort_by_key_perm. Qed.

Lemma sort_dedup_sorted l : StronglySorted N.lt (sort_dedup l).
Proof.
  unfold sort_dedup. assert (Hs := sort_by_key_sorted (λ c, c) l).
  induction Hs as [|x r _ IH Hx]; [constructor|]. simpl.
  destruct (dedup r) as [|y r'] eqn:Hr; [repeat constructor|].
  destruct (N.eqb_spec x y) as [->|Hne]; [done|]. constructor; [done|].
  assert (x < y)%N.
  { assert (y ∈ r) as Hy by (apply elem_of_dedup; rewrite Hr; left).
    rewrite Forall_forall in Hx. specialize (Hx _ Hy). unfold key_le in Hx. lia. }
  constructor; [done|]. apply StronglySorted_inv in IH as [_ IH].
  eapply Forall_impl; [exact IH|]. intros z ?. simpl in *. lia.
Qed.

Lemma sorted_NoDup (l : list N) : StronglySorted N.lt l → NoDup l.
Proof.
  induction 1 as [|x l _ IH Hx]; constructor; [|done].
  rewrite Forall_forall in Hx. intros Hin. specialize (Hx _ Hin). lia.
Qed.

Create HintDb fluxfs.
#[export] Hint Resolve keeps_ret keeps_throw keeps_gets keeps_lift keeps_fail_if
  keeps_when keeps_try_catch : fluxfs.

(** Boolean tests read from a branch, as propositions. *)
Lemma is_some_true {A} (o : option A) : is_some o = true → ∃ a, o = Some a.
Proof. destruct o; naive_solver. Qed.
Lemma is_some_false {A} (o : option A) : is_some o = false → o = None.
Proof. by destruct o. Qed.

Ltac bools :=
  repeat match goal with
  | H : bool_decide (_ ≠ _) = false |- _ => apply bool_decide_eq_false, dec_stable in H
  | H : bool_decide _ = true |- _ => apply bool_decide_eq_true in H
  | H : bool_decide _ = false |- _ => apply bool_decide_eq_false in H
  | H : (_ && _) = true |- _ => apply andb_true_iff in H as [? ?]
  | H : (_ || _) = false |- _ => apply orb_false_iff in H as [? ?]
  | H : negb _ = true |- _ => apply negb_true_iff in H
  | H : negb _ = false |- _ => apply negb_false_iff in H
  | H : (_ =? _)%N = true |- _ => apply N.eqb_eq in H
  | H : (_ =? _)%N = false |- _ => apply N.eqb_neq in H
  | H : (_ <? _)%N = true |- _ => apply N.ltb_lt in H
  | H : (_ <? _)%N = false |- _ => apply N.ltb_ge in H
  | H : (_ <=? _)%N = true |- _ => apply N.leb_le in H
  | H : (_ <=? _)%N = false |- _ => apply N.leb_gt in H
  | H : is_some _ = false |- _ => apply is_some_false in H
  | H : is_some _ = true |- _ => apply is_some_true in H as [? H]
  end.
