(* ===== verification/Types.v ===== *)
(** * Shared types ([crates/types/src/lib.rs])

    The data every other component exchanges: identifiers, locality state,
    inodes, extents, write reservations, GC records, worker registrations and
    the error type, with the operations the crate defines on them.  Extent
    trees and manifests have a file of their own ([Extents]). *)

From S2P Require Import Prelude.

Local Open Scope N_scope.

(** ** Identifiers

    [InodeId], [Generation], [DataGen], [ManifestId], [FlushId], [GcLeaseId],
    [WriteTicketId], [WorkerTargetId] and [HydrateToken] are [u64] values and
    written [N].  A [ChunkId] is a 32-byte array; it is modelled by the number
    whose big-endian digits these bytes are, so that the derived [Ord] (the
    lexicographic one) is the order of [N]. *)

Abbreviation InodeId := N (only parsing).
Abbreviation ChunkId := N (only parsing).
Abbreviation WorkerTargetId := N (only parsing).
Abbreviation WriteTicketId := N (only parsing).
Abbreviation GcLeaseId := N (only parsing).
Abbreviation FlushId := N (only parsing).
Abbreviation UfsVersion := string (only parsing).

Definition ROOT_INODE : InodeId := 1.
Definition CHUNK_SIZE : N := 4 * 1024 * 1024.
Definition CLIENT_REQUEST_RETENTION_MS : N := 24 * 60 * 60 * 1000.
Definition CLIENT_REQUEST_PRUNE_BATCH : N := 256.
Definition CLIENT_REQUEST_LEDGER_SOFT_CAP : N := 10000.

(** ** Errors *)

Inductive FluxError :=
  | NotFound
  | AlreadyExists
  | NotDirectory
  | IsDirectory
  | NotEmpty
  | NoData
  | NoSpace
  | NotPermitted
  | InvalidArg (msg : string)
  | Capability (msg : string)
  | CasFailed (expected actual : N)
  | EDirtyConflict
  | Busy
  | ReadOnly
  | Io (msg : string)
  | Meta (msg : string)
  | UfsErr (msg : string)
  | Unauthenticated (msg : string)
  | Unauthorized (msg : string).

#[export] Instance FluxError_eq_dec : EqDecision FluxError.
Proof. solve_decision. Defined.

Abbreviation Result := (result FluxError).

(** The [Display] of an error. *)
Definition FluxError_to_string (e : FluxError) : string :=
  match e with
  | NotFound => "not found"
  | AlreadyExists => "already exists"
  | NotDirectory => "not a directory"
  | IsDirectory => "is a directory"
  | NotEmpty => "directory not empty"
  | NoData => "attribute not found"
  | NoSpace => "metadata capacity exceeded"
  | NotPermitted => "operation not permitted"
  | InvalidArg msg => "invalid argument: " +:+ msg
  | Capability msg => "capability exceeded: " +:+ msg
  | CasFailed expected actual => "CAS failed: expected=" +:+ pretty expected +:+ " actual=" +:+ pretty actual
  | EDirtyConflict => "dirty conflict: external UFS version drift"
  | Busy => "inode busy: op in flight"
  | ReadOnly => "read-only filesystem"
  | Io msg => "io: " +:+ msg
  | Meta msg => "meta: " +:+ msg
  | UfsErr msg => "ufs: " +:+ msg
  | Unauthenticated msg => "unauthenticated: " +:+ msg
  | Unauthorized msg => "unauthorized: " +:+ msg
  end.

(** ** Locality state *)

Inductive FileType := Directory | Regular | Symlink.
#[export] Instance FileType_eq_dec : EqDecision FileType.
Proof. solve_decision. Defined.

Inductive XattrSetMode := Upsert | Create | Replace.
#[export] Instance XattrSetMode_eq_dec : EqDecision XattrSetMode.
Proof. solve_decision. Defined.

Inductive LocalityLabel :=
  | LDirty | LFlushing | LClean | LExternal | LEphemeral | LDirtyConflict.
#[export] Instance LocalityLabel_eq_dec : EqDecision LocalityLabel.
Proof. solve_decision. Defined.

Inductive BackingMode := UfsBacked | BEphemeral.
#[export] Instance BackingMode_eq_dec : EqDecision BackingMode.
Proof. solve_decision. Defined.

Inductive DataState := UfsClean | Dirty | DirtyConflict | DEphemeral.
#[export] Instance DataState_eq_dec : EqDecision DataState.
Proof. solve_decision. Defined.

Inductive Origin := FluxCreated | Imported.
#[export] Instance Origin_eq_dec : EqDecision Origin.
Proof. solve_decision. Defined.

Record FlushIntent := mkFlushIntent {
  fi_flush_id : FlushId;
  fi_snapshot_gen : N;
  fi_snapshot_manifest_root : ChunkId;
  fi_expected_ufs_version : option UfsVersion;
  fi_target_digest : ChunkId
}.
#[export] Instance FlushIntent_eq_dec : EqDecision FlushIntent.
Proof. solve_decision. Defined.

Inductive OpState :=
  | OpNone
  | Hydrating (token : N)
  | Flushing (intent : FlushIntent).
#[export] Instance OpState_eq_dec : EqDecision OpState.
Proof. solve_decision. Defined.

Record LocalityFields := mkLocalityFields {
  lf_backing_mode : BackingMode;
  lf_data_state : DataState;
  lf_op_state : OpState;
  lf_origin : Origin
}.
#[export] Instance LocalityFields_eq_dec : EqDecision LocalityFields.
Proof. solve_decision. Defined.

(** [LocalityFields::default]. *)
Definition LocalityFields_default : LocalityFields :=
  mkLocalityFields UfsBacked UfsClean OpNone FluxCreated.

(** [LocalityLabel::derive]: the product label of the orthogonal fields. *)
Definition derive (f : LocalityFields) (head_gen ufs_gen : N) : LocalityLabel :=
  if bool_decide (lf_backing_mode f = BEphemeral) then LEphemeral else
  match lf_op_state f with
  | Flushing _ => LFlushing
  | _ =>
    if bool_decide (lf_data_state f = DirtyConflict) then LDirtyConflict else
    match lf_data_state f with
    | Dirty => LDirty
    | UfsClean =>
        if ufs_gen <? head_gen then LDirty
        else if bool_decide (lf_origin f = Imported) then LExternal else LClean
    | DirtyConflict => LDirtyConflict
    | DEphemeral => LEphemeral
    end
  end.

(** ** Inodes *)

Record UfsObject := mkUfsObject {
  uo_key : string;
  uo_size : N;
  uo_etag : option string;
  uo_mtime_ms : option Z
}.
#[export] Instance UfsObject_eq_dec : EqDecision UfsObject.
Proof. solve_decision. Defined.

Record Inode := mkInode {
  i_id : N;
  i_file_type : FileType;
  i_mode : N;
  i_uid : N;
  i_gid : N;
  i_size : N;
  i_mtime_ms : Z;
  i_ctime_ms : Z;
  i_atime_ms : Z;
  i_link_count : N;
  i_symlink_target : option string;
  i_generation : N;
  i_head_gen : N;
  i_ufs_gen : N;
  i_ufs_base_version : option UfsVersion;
  i_locality : LocalityLabel;
  i_locality_fields : option LocalityFields;
  i_ufs : option UfsObject;
  i_extent_root : option N;
  i_manifest_id : option N;
  i_flush_intent : option FlushIntent;
  i_last_error : option string
}.

#[export] Instance Inode_eq_dec : EqDecision Inode.
Proof. solve_decision. Defined.

(** Assignments to one field of a [let mut inode]. *)
Definition set_id (v : N) (i : Inode) : Inode :=
  mkInode v (i_file_type i) (i_mode i) (i_uid i) (i_gid i) (i_size i)
    (i_mtime_ms i) (i_ctime_ms i) (i_atime_ms i) (i_link_count i)
    (i_symlink_target i) (i_generation i) (i_head_gen i) (i_ufs_gen i)
    (i_ufs_base_version i) (i_locality i) (i_locality_fields i) (i_ufs i)
    (i_extent_root i) (i_manifest_id i) (i_flush_intent i)
    (i_last_error i).
Definition set_mode (v : N) (i : Inode) : Inode :=
  mkInode (i_id i) (i_file_type i) v (i_uid i) (i_gid i) (i_size i)
    (i_mtime_ms i) (i_ctime_ms i) (i_atime_ms i) (i_link_count i)
    (i_symlink_target i) (i_generation i) (i_head_gen i) (i_ufs_gen i)
    (i_ufs_base_version i) (i_locality i) (i_locality_fields i) (i_ufs i)
    (i_extent_root i) (i_manifest_id i) (i_flush_intent i)
    (i_last_error i).
Definition set_uid (v : N) (i : Inode) : Inode :=
  mkInode (i_id i) (i_file_type i) (i_mode i) v (i_gid i) (i_size i)
    (i_mtime_ms i) (i_ctime_ms i) (i_atime_ms i) (i_link_count i)
    (i_symlink_target i) (i_generation i) (i_head_gen i) (i_ufs_gen i)
    (i_ufs_base_version i) (i_locality i) (i_locality_fields i) (i_ufs i)
    (i_extent_root i) (i_manifest_id i) (i_flush_intent i)
    (i_last_error i).
Definition set_gid (v : N) (i : Inode) : Inode :=
  mkInode (i_id i) (i_file_type i) (i_mode i) (i_uid i) v (i_size i)
    (i_mtime_ms i) (i_ctime_ms i) (i_atime_ms i) (i_link_count i)
    (i_symlink_target i) (i_generation i) (i_head_gen i) (i_ufs_gen i)
    (i_ufs_base_version i) (i_locality i) (i_locality_fields i) (i_ufs i)
    (i_extent_root i) (i_manifest_id i) (i_flush_intent i)
    (i_last_error i).
Definition set_size (v : N) (i : Inode) : Inode :=
  mkInode (i_id i) (i_file_type i) (i_mode i) (i_uid i) (i_gid i) v
    (i_mtime_ms i) (i_ctime_ms i) (i_atime_ms i) (i_link_count i)
    (i_symlink_target i) (i_generation i) (i_head_gen i) (i_ufs_gen i)
    (i_ufs_base_version i) (i_locality i) (i_locality_fields i) (i_ufs i)
    (i_extent_root i) (i_manifest_id i) (i_flush_intent i)
    (i_last_error i).
Definition set_mtime_ms (v : Z) (i : Inode) : Inode :=
  mkInode (i_id i) (i_file_type i) (i_mode i) (i_uid i) (i_gid i)
    (i_size i) v (i_ctime_ms i) (i_atime_ms i) (i_link_count i)
    (i_symlink_target i) (i_generation i) (i_head_gen i) (i_ufs_gen i)
    (i_ufs_base_version i) (i_locality i) (i_locality_fields i) (i_ufs i)
    (i_extent_root i) (i_manifest_id i) (i_flush_intent i)
    (i_last_error i).
Definition set_ctime_ms (v : Z) (i : Inode) : Inode :=
  mkInode (i_id i) (i_file_type i) (i_mode i) (i_uid i) (i_gid i)
    (i_size i) (i_mtime_ms i) v (i_atime_ms i) (i_link_count i)
    (i_symlink_target i) (i_generation i) (i_head_gen i) (i_ufs_gen i)
    (i_ufs_base_version i) (i_locality i) (i_locality_fields i) (i_ufs i)
    (i_extent_root i) (i_manifest_id i) (i_flush_intent i)
    (i_last_error i).
Definition set_atime_ms (v : Z) (i : Inode) : Inode :=
  mkInode (i_id i) (i_file_type i) (i_mode i) (i_uid i) (i_gid i)
    (i_size i) (i_mtime_ms i) (i_ctime_ms i) v (i_link_count i)
    (i_symlink_target i) (i_generation i) (i_head_gen i) (i_ufs_gen i)
    (i_ufs_base_version i) (i_locality i) (i_locality_fields i) (i_ufs i)
    (i_extent_root i) (i_manifest_id i) (i_flush_intent i)
    (i_last_error i).
Definition set_link_count (v : N) (i : Inode) : Inode :=
  mkInode (i_id i) (i_file_type i) (i_mode i) (i_uid i) (i_gid i)
    (i_size i) (i_mtime_ms i) (i_ctime_ms i) (i_atime_ms i) v
    (i_symlink_target i) (i_generation i) (i_head_gen i) (i_ufs_gen i)
    (i_ufs_base_version i) (i_locality i) (i_locality_fields i) (i_ufs i)
    (i_extent_root i) (i_manifest_id i) (i_flush_intent i)
    (i_last_error i).
Definition set_generation (v : N) (i : Inode) : Inode :=
  mkInode (i_id i) (i_file_type i) (i_mode i) (i_uid i) (i_gid i)
    (i_size i) (i_mtime_ms i) (i_ctime_ms i) (i_atime_ms i)
    (i_link_count i) (i_symlink_target i) v (i_head_gen i) (i_ufs_gen i)
    (i_ufs_base_version i) (i_locality i) (i_locality_fields i) (i_ufs i)
    (i_extent_root i) (i_manifest_id i) (i_flush_intent i)
    (i_last_error i).
Definition set_head_gen (v : N) (i : Inode) : Inode :=
  mkInode (i_id i) (i_file_type i) (i_mode i) (i_uid i) (i_gid i)
    (i_size i) (i_mtime_ms i) (i_ctime_ms i) (i_atime_ms i)
    (i_link_count i) (i_symlink_target i) (i_generation i) v (i_ufs_gen i)
    (i_ufs_base_version i) (i_locality i) (i_locality_fields i) (i_ufs i)
    (i_extent_root i) (i_manifest_id i) (i_flush_intent i)
    (i_last_error i).
Definition set_ufs_gen (v : N) (i : Inode) : Inode :=
  mkInode (i_id i) (i_file_type i) (i_mode i) (i_uid i) (i_gid i)
    (i_size i) (i_mtime_ms i) (i_ctime_ms i) (i_atime_ms i)
    (i_link_count i) (i_symlink_target i) (i_generation i) (i_head_gen i)
    v (i_ufs_base_version i) (i_locality i) (i_locality_fields i)
    (i_ufs i) (i_extent_root i) (i_manifest_id i) (i_flush_intent i)
    (i_last_error i).
Definition set_ufs_base_version (v : option UfsVersion) (i : Inode) : Inode :=
  mkInode (i_id i) (i_file_type i) (i_mode i) (i_uid i) (i_gid i)
    (i_size i) (i_mtime_ms i) (i_ctime_ms i) (i_atime_ms i)
    (i_link_count i) (i_symlink_target i) (i_generation i) (i_head_gen i)
    (i_ufs_gen i) v (i_locality i) (i_locality_fields i) (i_ufs i)
    (i_extent_root i) (i_manifest_id i) (i_flush_intent i)
    (i_last_error i).
Definition set_locality (v : LocalityLabel) (i : Inode) : Inode :=
  mkInode (i_id i) (i_file_type i) (i_mode i) (i_uid i) (i_gid i)
    (i_size i) (i_mtime_ms i) (i_ctime_ms i) (i_atime_ms i)
    (i_link_count i) (i_symlink_target i) (i_generation i) (i_head_gen i)
    (i_ufs_gen i) (i_ufs_base_version i) v (i_locality_fields i) (i_ufs i)
    (i_extent_root i) (i_manifest_id i) (i_flush_intent i)
    (i_last_error i).
Definition set_locality_fields (v : option LocalityFields) (i : Inode) : Inode :=
  mkInode (i_id i) (i_file_type i) (i_mode i) (i_uid i) (i_gid i)
    (i_size i) (i_mtime_ms i) (i_ctime_ms i) (i_atime_ms i)
    (i_link_count i) (i_symlink_target i) (i_generation i) (i_head_gen i)
    (i_ufs_gen i) (i_ufs_base_version i) (i_locality i) v (i_ufs i)
    (i_extent_root i) (i_manifest_id i) (i_flush_intent i)
    (i_last_error i).
Definition set_ufs (v : option UfsObject) (i : Inode) : Inode :=
  mkInode (i_id i) (i_file_type i) (i_mode i) (i_uid i) (i_gid i)
    (i_size i) (i_mtime_ms i) (i_ctime_ms i) (i_atime_ms i)
    (i_link_count i) (i_symlink_target i) (i_generation i) (i_head_gen i)
    (i_ufs_gen i) (i_ufs_base_version i) (i_locality i)
    (i_locality_fields i) v (i_extent_root i) (i_manifest_id i)
    (i_flush_intent i) (i_last_error i).
Definition set_manifest_id (v : option N) (i : Inode) : Inode :=
  mkInode (i_id i) (i_file_type i) (i_mode i) (i_uid i) (i_gid i)
    (i_size i) (i_mtime_ms i) (i_ctime_ms i) (i_atime_ms i)
    (i_link_count i) (i_symlink_target i) (i_generation i) (i_head_gen i)
    (i_ufs_gen i) (i_ufs_base_version i) (i_locality i)
    (i_locality_fields i) (i_ufs i) (i_extent_root i) v (i_flush_intent i)
    (i_last_error i).
Definition set_flush_intent (v : option FlushIntent) (i : Inode) : Inode :=
  mkInode (i_id i) (i_file_type i) (i_mode i) (i_uid i) (i_gid i)
    (i_size i) (i_mtime_ms i) (i_ctime_ms i) (i_atime_ms i)
    (i_link_count i) (i_symlink_target i) (i_generation i) (i_head_gen i)
    (i_ufs_gen i) (i_ufs_base_version i) (i_locality i)
    (i_locality_fields i) (i_ufs i) (i_extent_root i) (i_manifest_id i) v
    (i_last_error i).
Definition set_last_error (v : option string) (i : Inode) : Inode :=
  mkInode (i_id i) (i_file_type i) (i_mode i) (i_uid i) (i_gid i)
    (i_size i) (i_mtime_ms i) (i_ctime_ms i) (i_atime_ms i)
    (i_link_count i) (i_symlink_target i) (i_generation i) (i_head_gen i)
    (i_ufs_gen i) (i_ufs_base_version i) (i_locality i)
    (i_locality_fields i) (i_ufs i) (i_extent_root i) (i_manifest_id i)
    (i_flush_intent i) v.

(** ** Directory entries *)

Record Dentry := mkDentry {
  d_parent : InodeId;
  d_name : string;
  d_child : InodeId
}.
#[export] Instance Dentry_eq_dec : EqDecision Dentry.
Proof. solve_decision. Defined.

(** [str::contains(char)]. *)
Fixpoint str_contains (c : Ascii.ascii) (s : string) : bool :=
  match s with
  | EmptyString => false
  | String c' s' => bool_decide (c = c') || str_contains c s'
  end.

Definition str_len (s : string) : N := N.of_nat (String.length s).

Definition SLASH : Ascii.ascii := Ascii.Ascii true true true true false true false false.
Definition NUL : Ascii.ascii := Ascii.zero.

(** [Dentry::validate]; only the name is inspected. *)
Definition Dentry_validate (d : Dentry) : Result unit :=
  if bool_decide (d_name d = "") then Err (InvalidArg "empty dentry name") else
  if str_contains SLASH (d_name d) then
    Err (InvalidArg ("dentry name contains '/': " +:+ d_name d)) else
  if bool_decide (d_name d = ".") || bool_decide (d_name d = "..") then
    Err (InvalidArg ("reserved dentry name: " +:+ d_name d)) else
  if 255 <? str_len (d_name d) then
    Err (InvalidArg ("dentry name too long: " +:+ pretty (str_len (d_name d))
                     +:+ " bytes (NAME_MAX=255)")) else
  Ok tt.

(** ** Write reservations and garbage collection *)

Record GcPlan := mkGcPlan {
  gp_lease_id : GcLeaseId;
  gp_live_chunks : list ChunkId;
  gp_removed_manifests : N
}.
#[export] Instance GcPlan_eq_dec : EqDecision GcPlan.
Proof. solve_decision. Defined.

Record ChunkReservation := mkChunkReservation {
  cr_ticket : WriteTicketId;
  cr_inode : InodeId;
  cr_expected_generation : N;
  cr_chunks : list ChunkId;
  cr_expires_at_unix_ms : N
}.
#[export] Instance ChunkReservation_eq_dec : EqDecision ChunkReservation.
Proof. solve_decision. Defined.

Record GcBatch := mkGcBatch {
  gb_tombstoned_chunks : list ChunkId;
  gb_removed_manifests : N
}.
#[export] Instance GcBatch_eq_dec : EqDecision GcBatch.
Proof. solve_decision. Defined.

Record GcTombstone := mkGcTombstone {
  gt_chunk : ChunkId;
  gt_targets_initialized : bool;
  gt_pending_targets : list WorkerTargetId
}.
#[export] Instance GcTombstone_eq_dec : EqDecision GcTombstone.
Proof. solve_decision. Defined.

(** ** Workers *)

Record WorkerRegistration := mkWorkerRegistration {
  wr_id : WorkerTargetId;
  wr_endpoint : string;
  wr_failure_domain : string;
  wr_capacity_bytes : N;
  wr_available_bytes : N;
  wr_lease_deadline_ms : N
}.
#[export] Instance WorkerRegistration_eq_dec : EqDecision WorkerRegistration.
Proof. solve_decision. Defined.

(** [WorkerRegistration::validate]. *)
Definition WorkerRegistration_validate (w : WorkerRegistration) : Result unit :=
  if wr_id w =? 0 then Err (InvalidArg "worker id 0 is reserved") else
  if bool_decide (wr_endpoint w = "") || bool_decide (wr_failure_domain w = "") then
    Err (InvalidArg "worker endpoint and failure domain must be non-empty") else
  if (wr_capacity_bytes w =? 0) || (wr_capacity_bytes w <? wr_available_bytes w) then
    Err (InvalidArg "invalid worker capacity/available bytes") else
  Ok tt.

Record WorkerMembership := mkWorkerMembership {
  wm_epoch : N;
  wm_workers : list WorkerRegistration
}.
#[export] Instance WorkerMembership_eq_dec : EqDecision WorkerMembership.
Proof. solve_decision. Defined.

Definition WorkerMembership_default : WorkerMembership := mkWorkerMembership 0 [].

(** [WorkerMembership::active_at]. *)
Definition active_at (m : WorkerMembership) (now_ms : N) : list WorkerRegistration :=
  filter (λ w, now_ms < wr_lease_deadline_ms w) (wm_workers m).

(** ** Properties *)

(** The label of a flush in flight, and the coherence of the label with the
    generations: an UFS-backed inode without a flush in flight and without a
    conflict is labelled dirty exactly when its data state is [Dirty], or it is
    nominally clean but its head generation is ahead of the flushed one. *)
Lemma derive_dirty_iff f head ufs :
  derive f head ufs = LDirty ↔
  lf_backing_mode f = UfsBacked ∧ (∀ i, lf_op_state f ≠ Flushing i) ∧
  (lf_data_state f = Dirty ∨ (lf_data_state f = UfsClean ∧ ufs < head)).
Proof.
  destruct f as [[] [] [|t|i] []]; unfold derive; simpl;
    repeat case_bool_decide; repeat (case_match; try done);
    repeat match goal with
    | H : (_ <? _) = true |- _ => apply N.ltb_lt in H
    | H : (_ <? _) = false |- _ => apply N.ltb_ge in H
    end; split; intros; try naive_solver lia; naive_solver.
Qed.

Lemma Dentry_validate_ok d :
  Dentry_validate d = Ok tt ↔
  d_name d ≠ "" ∧ str_contains SLASH (d_name d) = false ∧
  d_name d ≠ "." ∧ d_name d ≠ ".." ∧ str_len (d_name d) ≤ 255.
Proof.
  unfold Dentry_validate.
  repeat (case_bool_decide; simpl; [naive_solver|]).
  destruct (str_contains _ _); [naive_solver|].
  repeat (case_bool_decide; simpl; [naive_solver|]).
  destruct (N.ltb_spec 255 (str_len (d_name d))); split; naive_solver lia.
Qed.

Lemma WorkerRegistration_validate_ok w :
  WorkerRegistration_validate w = Ok tt ↔
  wr_id w ≠ 0 ∧ wr_endpoint w ≠ "" ∧ wr_failure_domain w ≠ "" ∧
  wr_capacity_bytes w ≠ 0 ∧ wr_available_bytes w ≤ wr_capacity_bytes w.
Proof.
  unfold WorkerRegistration_validate.
  destruct (N.eqb_spec (wr_id w) 0); [naive_solver|].
  repeat (case_bool_decide; simpl; [naive_solver|]).
  destruct (N.eqb_spec (wr_capacity_bytes w) 0); [naive_solver|]. simpl.
  destruct (N.ltb_spec (wr_capacity_bytes w) (wr_available_bytes w)); split; naive_solver lia.
Qed.
