(* ===== verification/Bytes.v ===== *)
(** * Byte strings

    Little- and big-endian encodings of machine integers, the bytes of
    strings, and [prefix_inj], the property of an encoding that it can be
    read back from the front of a longer byte string.  Used for the digest
    encoding of manifests, the LMDB keys, the pack-file records and the
    snapshot stream. *)

From Stdlib Require Export Strings.Byte.
From S2P Require Import Prelude.

Local Open Scope N_scope.

Abbreviation byte := Byte.byte.
Abbreviation bytes := (list Byte.byte).

#[export] Instance byte_eq_dec : EqDecision byte := Byte.byte_eq_dec.
#[export] Instance byte_inhabited : Inhabited byte := populate "000"%byte.

#[export] Instance byte_countable : Countable byte.
Proof. apply (inj_countable Byte.to_N Byte.of_N). apply Byte.of_to_N. Defined.

(** The low byte of [n]. *)
Definition byte_of (n : N) : byte := default "000"%byte (Byte.of_N (n mod 256)).

(** [n.to_le_bytes()] of a [k]-byte integer, and back. *)
Fixpoint le_bytes (k : nat) (n : N) : bytes :=
  match k with
  | O => []
  | S k => byte_of n :: le_bytes k (n / 256)
  end.

Fixpoint of_le_bytes (l : bytes) : N :=
  match l with
  | [] => 0
  | b :: l => Byte.to_N b + 256 * of_le_bytes l
  end.

(** [n.to_be_bytes()] and [from_be_bytes]. *)
Definition be_bytes (k : nat) (n : N) : bytes := reverse (le_bytes k n).
Definition of_be_bytes (l : bytes) : N := of_le_bytes (reverse l).

(** [s.as_bytes()]. *)
Definition str_bytes (s : string) : bytes := String.list_byte_of_string s.

(** [hex::encode_slice]: two lower-case digits per byte. *)
Definition hex_digit (n : N) : Ascii.ascii :=
  if n <? 10 then Ascii.ascii_of_N (48 + n) else Ascii.ascii_of_N (87 + n).

Fixpoint hex_encode (l : bytes) : string :=
  match l with
  | [] => ""
  | b :: l =>
      String (hex_digit (Byte.to_N b / 16))
        (String (hex_digit (Byte.to_N b mod 16)) (hex_encode l))
  end.

(** ** Lemmas *)

Lemma to_N_byte_of n : Byte.to_N (byte_of n) = n mod 256.
Proof.
  unfold byte_of. destruct (Byte.of_N (n mod 256)) as [b|] eqn:Hb; simpl.
  - by apply Byte.to_of_N.
  - apply Byte.of_N_None_iff in Hb. pose proof (N.mod_lt n 256). lia.
Qed.

Lemma to_N_inj b1 b2 : Byte.to_N b1 = Byte.to_N b2 → b1 = b2.
Proof.
  intros H. assert (Some b1 = Some b2) as [=]; [|done].
  by rewrite <-(Byte.of_to_N b1), <-(Byte.of_to_N b2), H.
Qed.

Lemma byte_of_to_N b : byte_of (Byte.to_N b) = b.
Proof.
  apply to_N_inj. rewrite to_N_byte_of. apply N.mod_small.
  pose proof (Byte.to_N_bounded b). lia.
Qed.

Lemma le_bytes_length k n : length (le_bytes k n) = k.
Proof. induction k in n |- *; simpl; auto. Qed.

Lemma of_le_bytes_le k n : n < 256 ^ N.of_nat k → of_le_bytes (le_bytes k n) = n.
Proof.
  induction k as [|k IH] in n |- *; intros Hn; [simpl in *; lia|].
  cbn [le_bytes of_le_bytes]. rewrite to_N_byte_of, IH.
  - pose proof (N.div_mod n 256). lia.
  - rewrite Nat2N.inj_succ, N.pow_succ_r in Hn by lia.
    by apply N.Div0.div_lt_upper_bound.
Qed.

Lemma le_bytes_of_le l : le_bytes (length l) (of_le_bytes l) = l.
Proof.
  induction l as [|b l IH]; [done|]. cbn [le_bytes of_le_bytes length].
  pose proof (Byte.to_N_bounded b). f_equal.
  - apply to_N_inj. rewrite to_N_byte_of, N.mul_comm, N.Div0.mod_add. apply N.mod_small. lia.
  - rewrite N.mul_comm, N.div_add by lia. rewrite (N.div_small (Byte.to_N b)) by lia. done.
Qed.

Lemma of_le_bytes_bound l : of_le_bytes l < 256 ^ N.of_nat (length l).
Proof.
  induction l as [|b l IH]; [done|].
  cbn [of_le_bytes length]. rewrite Nat2N.inj_succ, N.pow_succ_r by lia.
  pose proof (Byte.to_N_bounded b). lia.
Qed.

Lemma be_bytes_length k n : length (be_bytes k n) = k.
Proof. unfold be_bytes. by rewrite length_reverse, le_bytes_length. Qed.

Lemma of_be_bytes_be k n : n < 256 ^ N.of_nat k → of_be_bytes (be_bytes k n) = n.
Proof. intros. unfold of_be_bytes, be_bytes. rewrite reverse_involutive. by apply of_le_bytes_le. Qed.

Lemma be_bytes_of_be l : be_bytes (length l) (of_be_bytes l) = l.
Proof.
  unfold of_be_bytes, be_bytes. rewrite <-(length_reverse l), le_bytes_of_le.
  apply reverse_involutive.
Qed.

Lemma str_bytes_inj s1 s2 : str_bytes s1 = str_bytes s2 → s1 = s2.
Proof.
  intros H. rewrite <-(String.string_of_list_byte_of_string s1),
    <-(String.string_of_list_byte_of_string s2). unfold str_bytes in H. by rewrite H.
Qed.

(** ** Encodings readable from the front *)

Definition prefix_inj {A} (P : A → Prop) (f : A → bytes) : Prop :=
  ∀ a b r r', P a → P b → f a ++ r = f b ++ r' → a = b ∧ r = r'.

Lemma prefix_inj_inj {A} (P : A → Prop) f a b :
  prefix_inj P f → P a → P b → f a = f b → a = b.
Proof. intros Hf Ha Hb H. apply (Hf a b [] [] Ha Hb). by rewrite H. Qed.

(** A fixed-length injective encoding. *)
Lemma prefix_inj_fixed {A} (P : A → Prop) f n :
  (∀ a, P a → length (f a) = n) → (∀ a b, P a → P b → f a = f b → a = b) → prefix_inj P f.
Proof.
  intros Hlen Hinj a b r r' Ha Hb H.
  apply app_inj_1 in H as [H ->]; [|by rewrite !Hlen]. auto.
Qed.

Lemma le_bytes_prefix_inj k : prefix_inj (λ n, n < 256 ^ N.of_nat k) (le_bytes k).
Proof.
  apply (prefix_inj_fixed _ _ k); [auto using le_bytes_length|].
  intros a b Ha Hb H. by rewrite <-(of_le_bytes_le k a), <-(of_le_bytes_le k b), H.
Qed.

Lemma be_bytes_prefix_inj k : prefix_inj (λ n, n < 256 ^ N.of_nat k) (be_bytes k).
Proof.
  apply (prefix_inj_fixed _ _ k); [auto using be_bytes_length|].
  intros a b Ha Hb H. by rewrite <-(of_be_bytes_be k a), <-(of_be_bytes_be k b), H.
Qed.

(** A sequence of encodings, its length known. *)
Lemma prefix_inj_concat {A} (P : A → Prop) f l1 l2 r r' :
  prefix_inj P f → Forall P l1 → Forall P l2 → length l1 = length l2 →
  (l1 ≫= f) ++ r = (l2 ≫= f) ++ r' → l1 = l2 ∧ r = r'.
Proof.
  intros Hf H1. revert l2. induction H1 as [|a l1 Ha _ IH]; intros [|b l2] H2 Hlen H;
    simplify_eq/=; [done|].
  apply Forall_cons in H2 as [Hb H2]. rewrite <-!(assoc_L (++)) in H.
  apply Hf in H as [-> H]; [|done|done].
  apply IH in H as [-> ->]; done.
Qed.

(** The bounds of the widths in use, in the form the encodings need. *)
Lemma u64_width n : n ≤ U64_MAX → n < 256 ^ N.of_nat 8.
Proof. unfold U64_MAX. intros. change (256 ^ N.of_nat 8) with 18446744073709551616. lia. Qed.

Lemma u32_width n : n ≤ U32_MAX → n < 256 ^ N.of_nat 4.
Proof. unfold U32_MAX. intros. change (256 ^ N.of_nat 4) with 4294967296. lia. Qed.
#[export] Hint Resolve u64_width u32_width : fluxfs.

#[global] Opaque byte_of le_bytes be_bytes.
