(* ===== verification/Extents.v ===== *)
(** * Extents and manifests ([crates/types/src/lib.rs])

    [ExtentTree] is a [BTreeMap<u64, Extent>]; the map is modelled by the list
    of its entries in key order, with [BTreeMap]'s operations on it.  The file
    translates [ExtentTree], [Manifest::validate], [Manifest::replace_range]
    and the digest encoding, and relates them to byte-level specifications:
    which stored byte backs each byte of a file. *)

From S2P Require Import Prelude Types Bytes.

Local Open Scope N_scope.

(** ** [BTreeMap<u64, V>] *)

Section btree.
Context {V : Type}.
Implicit Types m : list (N * V).

(** [map.insert(k, v)]: the previous value and the map after it. *)
Fixpoint bt_insert (k : N) (v : V) m : option V * list (N * V) :=
  match m with
  | [] => (None, [(k, v)])
  | (k', v') :: m' =>
      match k ?= k' with
      | Lt => (None, (k, v) :: m)
      | Eq => (Some v', (k, v) :: m')
      | Gt => let r := bt_insert k v m' in (r.1, (k', v') :: r.2)
      end
  end.

(** [map.remove(&k)]. *)
Fixpoint bt_remove (k : N) m : list (N * V) :=
  match m with
  | [] => []
  | (k', v') :: m' => if k =? k' then m' else (k', v') :: bt_remove k m'
  end.

(** [map.get(&k)]. *)
Fixpoint bt_get (k : N) m : option V :=
  match m with
  | [] => None
  | (k', v') :: m' => if k =? k' then Some v' else bt_get k m'
  end.

(** [map.range(..=k).next_back()]. *)
Definition bt_last_le (k : N) m : option (N * V) :=
  last (filter (λ kv, kv.1 ≤ k) m).

(** [map.range((Excluded(a), Excluded(b)))]. *)
Definition bt_range_excl (a b : N) m : list (N * V) :=
  filter (λ kv, a < kv.1 ∧ kv.1 < b) m.
End btree.

(** ** Extents *)

Inductive Extent :=
  | Local (offset len : N) (chunk : ChunkId)
  | UfsRange (offset len : N) (ufs_key : string) (ufs_version : UfsVersion)
      (offset_in_object : N).
#[export] Instance Extent_eq_dec : EqDecision Extent.
Proof. solve_decision. Defined.

Definition ext_offset (e : Extent) : N :=
  match e with Local o _ _ => o | UfsRange o _ _ _ _ => o end.
Definition ext_len (e : Extent) : N :=
  match e with Local _ l _ => l | UfsRange _ l _ _ _ => l end.
Definition ext_is_empty (e : Extent) : bool := ext_len e =? 0.

Definition ExtentTree := list (N * Extent).

Definition WIRE_VERSION : N := 1.

(** [ExtentTree::iter] and both [IntoIterator] implementations. *)
Definition iter (t : ExtentTree) : list Extent := t.*2.

(** [ExtentTree::overlapping]. *)
Definition overlapping (t : ExtentTree) (offset len : N) : list Extent :=
  if len =? 0 then [] else
  let end_ := sat_add offset len in
  let hits :=
    match bt_last_le offset t with
    | Some (_, e) =>
        if (ext_offset e <? end_) && (offset <? sat_add (ext_offset e) (ext_len e))
        then [e] else []
    | None => []
    end in
  hits ++ (bt_range_excl offset end_ t).*2.

(** [BTreeMap::range] panics on two equal excluded bounds: [overlapping] is
    defined where this is [false]. *)
Definition overlapping_panics (offset len : N) : bool :=
  negb (len =? 0) && (sat_add offset len =? offset).

(** [ExtentTree::insert]; the tree is mutated before the duplicate is
    reported, but its only callers drop it on [Err]. *)
Definition et_insert (e : Extent) (t : ExtentTree) : Result ExtentTree :=
  match bt_insert (ext_offset e) e t with
  | (Some _, _) =>
      Err (InvalidArg ("duplicate extent offset " +:+ pretty (ext_offset e)))
  | (None, t') => Ok t'
  end.

(** The two loops of [TryFrom<Vec<Extent>> for ExtentTree]. *)
Fixpoint try_from_insert (l : list Extent) (t : ExtentTree) : Result ExtentTree :=
  match l with
  | [] => Ok t
  | e :: l' => t' ← et_insert e t; try_from_insert l' t'
  end.

Fixpoint try_from_check (previous_end : option N) (t : ExtentTree) : Result unit :=
  match t with
  | [] => Ok tt
  | (_, e) :: t' =>
      if ext_is_empty e then
        Err (InvalidArg ("zero-length extent at offset " +:+ pretty (ext_offset e)))
      else
      end_ ← ok_or (InvalidArg "extent end overflow")
               (checked_add (ext_offset e) (ext_len e));
      if (match previous_end with Some p => ext_offset e <? p | None => false end) then
        Err (InvalidArg ("extent overlap at offset " +:+ pretty (ext_offset e)))
      else try_from_check (Some end_) t'
  end.

Definition try_from (l : list Extent) : Result ExtentTree :=
  t ← try_from_insert l [];
  _ ← try_from_check None t;
  Ok t.

(** [ExtentTree::singleton]. *)
Definition singleton (e : Extent) : Result ExtentTree := try_from [e].

(** The wire forms of [Serialize]/[Deserialize for ExtentTree]. *)
Inductive Wire :=
  | Legacy (entries : list Extent)
  | Versioned (version : N) (entries : list Extent).

Definition et_serialize (t : ExtentTree) : Wire := Versioned WIRE_VERSION (iter t).

Definition et_deserialize (w : Wire) : Result ExtentTree :=
  entries ←
    match w with
    | Legacy entries => Ok entries
    | Versioned version entries =>
        if negb (version =? WIRE_VERSION) then
          Err (Meta ("unsupported extent tree version " +:+ pretty version))
        else Ok entries
    end;
  try_from entries.

(** ** Manifests *)

Record Manifest := mkManifest {
  m_inode : InodeId;
  m_gen : N;
  m_size : N;
  m_extents : ExtentTree
}.
#[export] Instance Manifest_eq_dec : EqDecision Manifest.
Proof. solve_decision. Defined.

(** [Manifest::validate]; [start + e.len()] wraps. *)
Fixpoint validate_loop (prev_end : option N) (l : list Extent) : Result unit :=
  match l with
  | [] => Ok tt
  | e :: l' =>
      let start := ext_offset e in
      let end_ := wrap_add start (ext_len e) in
      match prev_end with
      | Some pe =>
          if start <? pe then
            Err (InvalidArg ("extent overlap at offset " +:+ pretty start
                             +:+ " (prev_end=" +:+ pretty pe +:+ ")"))
          else validate_loop (Some end_) l'
      | None => validate_loop (Some end_) l'
      end
  end.

Definition Manifest_validate (m : Manifest) : Result unit :=
  validate_loop None (iter (m_extents m)).

(** [Manifest::empty]. *)
Definition Manifest_empty (inode : InodeId) (gen : N) : Manifest :=
  mkManifest inode gen 0 [].

(** [Manifest::extents_in_range]. *)
Definition extents_in_range (m : Manifest) (offset len : N) : list Extent :=
  overlapping (m_extents m) offset len.

(** One iteration of the loop of [Manifest::replace_range]. *)
Definition replace_step (new_start new_end : N) (existing : Extent)
    (result : ExtentTree) : Result ExtentTree :=
  let ex_start := ext_offset existing in
  ex_end ← ok_or (InvalidArg "existing extent len overflow")
             (checked_add ex_start (ext_len existing));
  let result := bt_remove ex_start result in
  match existing with
  | UfsRange _ _ ufs_key ufs_version obj_base =>
      result ←
        (if ex_start <? new_start then
           et_insert (UfsRange ex_start (new_start - ex_start) ufs_key ufs_version
                        obj_base) result
         else Ok result);
      if new_end <? ex_end then
        et_insert (UfsRange new_end (ex_end - new_end) ufs_key ufs_version
                     (wrap_add obj_base (new_end - ex_start))) result
      else Ok result
  | Local _ _ _ =>
      if (new_start <=? ex_start) && (ex_end <=? new_end) then Ok result
      else Err (InvalidArg
        ("Local extent [" +:+ pretty ex_start +:+ "," +:+ pretty ex_end
         +:+ ") partially overlapped by new [" +:+ pretty new_start +:+ ","
         +:+ pretty new_end +:+ "); caller must RMW to produce a fresh chunk"))
  end.

Fixpoint replace_loop (new_start new_end : N) (l : list Extent)
    (result : ExtentTree) : Result ExtentTree :=
  match l with
  | [] => Ok result
  | e :: l' =>
      result' ← replace_step new_start new_end e result;
      replace_loop new_start new_end l' result'
  end.

(** [Manifest::replace_range]. *)
Definition replace_range (self : Manifest) (new_extent : Extent) (new_gen : N)
    : Result Manifest :=
  if ext_is_empty new_extent then
    Err (InvalidArg "replace_range: new_extent has len=0")
  else
  let new_start := ext_offset new_extent in
  new_end ← ok_or (InvalidArg "new_extent len overflow")
              (checked_add new_start (ext_len new_extent));
  let hits := overlapping (m_extents self) new_start (ext_len new_extent) in
  result ← replace_loop new_start new_end hits (m_extents self);
  result ← et_insert new_extent result;
  let m := mkManifest (m_inode self) new_gen (N.max (m_size self) new_end) result in
  _ ← Manifest_validate m;
  Ok m.

(** ** Digest of a manifest

    [push_bytes] and the [encoded] buffer of [Manifest::root_digest]; the hash
    of the buffer (blake3) is a parameter. *)

Definition push_bytes (b : bytes) : bytes := le_bytes 8 (N.of_nat (length b)) ++ b.

Definition encode_extent (e : Extent) : bytes :=
  match e with
  | Local offset len chunk =>
      "000"%byte :: le_bytes 8 offset ++ le_bytes 8 len ++ be_bytes 32 chunk
  | UfsRange offset len ufs_key ufs_version offset_in_object =>
      "001"%byte :: le_bytes 8 offset ++ le_bytes 8 len ++
      push_bytes (str_bytes ufs_key) ++ push_bytes (str_bytes ufs_version) ++
      le_bytes 8 offset_in_object
  end.

Definition encode_manifest (m : Manifest) : bytes :=
  str_bytes "fluxfs-manifest-v1" ++ ["000"%byte] ++
  le_bytes 8 (m_inode m) ++ le_bytes 8 (m_gen m) ++ le_bytes 8 (m_size m) ++
  le_bytes 8 (N.of_nat (length (m_extents m))) ++
  (iter (m_extents m) ≫= encode_extent).

Definition root_digest (hash : bytes → ChunkId) (m : Manifest) : ChunkId :=
  hash (encode_manifest m).

(** ** Well-formed trees

    [wf_from lo t]: the entries are keyed by their own offset, non-empty, end
    within [u64], and lie in order and without overlap above [lo]. *)

Fixpoint wf_from (lo : N) (t : ExtentTree) : Prop :=
  match t with
  | [] => True
  | (k, e) :: t' =>
      k = ext_offset e ∧ lo ≤ k ∧ 0 < ext_len e ∧ k + ext_len e ≤ U64_MAX ∧
      wf_from (k + ext_len e) t'
  end.

Abbreviation et_wf := (wf_from 0).

(** The reference meaning of a range query. *)
Definition overlaps (s end_ : N) (e : Extent) : Prop :=
  ext_offset e < end_ ∧ s < ext_offset e + ext_len e.
#[export] Instance overlaps_dec s end_ e : Decision (overlaps s end_ e).
Proof. unfold overlaps. apply _. Defined.

(** What an extent leaves outside [[s, end_)]. *)
Definition cut_one (s end_ : N) (kv : N * Extent) : ExtentTree :=
  let '(k, e) := kv in
  if decide (overlaps s end_ e) then
    match e with
    | UfsRange o l key ver base =>
        (if o <? s then [(o, UfsRange o (s - o) key ver base)] else []) ++
        (if end_ <? o + l then
           [(end_, UfsRange end_ (o + l - end_) key ver (wrap_add base (end_ - o)))]
         else [])
    | Local _ _ _ => []
    end
  else [kv].

Arguments cut_one : simpl never.

Definition cut (s end_ : N) (t : ExtentTree) : ExtentTree := t ≫= cut_one s end_.

(** A local extent that [[s, end_)] overlaps without covering it. *)
Definition partial_local (s end_ : N) (e : Extent) : Prop :=
  match e with
  | Local o l _ => overlaps s end_ e ∧ ¬ (s ≤ o ∧ o + l ≤ end_)
  | UfsRange _ _ _ _ _ => False
  end.
#[export] Instance partial_local_dec s end_ e : Decision (partial_local s end_ e).
Proof. destruct e; apply _. Defined.

(** ** Byte sources: which stored byte backs a byte of the file. *)

Inductive ByteSource :=
  | SrcChunk (c : ChunkId) (at_ : N)
  | SrcUfs (key : string) (ver : UfsVersion) (at_ : N).

Definition ext_covers (e : Extent) (x : N) : Prop :=
  ext_offset e ≤ x ∧ x < ext_offset e + ext_len e.
#[export] Instance ext_covers_dec e x : Decision (ext_covers e x).
Proof. unfold ext_covers. apply _. Defined.

Definition ext_source (e : Extent) (x : N) : ByteSource :=
  match e with
  | Local o _ c => SrcChunk c (x - o)
  | UfsRange o _ key ver base => SrcUfs key ver (base + (x - o))
  end.

Fixpoint source (t : ExtentTree) (x : N) : option ByteSource :=
  match t with
  | [] => None
  | (_, e) :: t' => if decide (ext_covers e x) then Some (ext_source e x) else source t' x
  end.

(** Object offsets of the tree stay within [u64]. *)
Definition object_bounds (t : ExtentTree) : Prop :=
  Forall (λ kv, match kv.2 with
                | UfsRange _ l _ _ base => base + l ≤ U64_MAX
                | Local _ _ _ => True end) t.

(** ** Lemmas *)

Lemma wf_from_weaken lo lo' t : lo' ≤ lo → wf_from lo t → wf_from lo' t.
Proof. destruct t as [|[k e] t]; simpl; naive_solver lia. Qed.

Lemma wf_from_In lo t k e :
  wf_from lo t → (k, e) ∈ t →
  k = ext_offset e ∧ lo ≤ k ∧ 0 < ext_len e ∧ k + ext_len e ≤ U64_MAX.
Proof.
  induction t as [|[k' e'] t IH] in lo |- *; simpl; intros Hwf Hin.
  - by apply elem_of_nil in Hin.
  - destruct Hwf as (?&?&?&?&Hwf). apply elem_of_cons in Hin as [Heq|Hin].
    + simplify_eq. auto.
    + destruct (IH _ Hwf Hin) as (?&?&?&?). repeat split; try done. lia.
Qed.

Lemma bt_insert_mid {V} k (v : V) pre post :
  Forall (λ kv, kv.1 < k) pre → Forall (λ kv, k < kv.1) post →
  bt_insert k v (pre ++ post) = (None, pre ++ (k, v) :: post).
Proof.
  intros Hpre Hpost. induction Hpre as [|[k' v'] pre Hk Hpre IH]; simpl in *.
  - destruct Hpost as [|[k' v'] post Hk _]; simpl in *; [done|].
    by rewrite (proj2 (N.compare_lt_iff k k')).
  - rewrite (proj2 (N.compare_gt_iff k k')) by done. by rewrite IH.
Qed.

Lemma bt_remove_mid {V} k (v : V) pre post :
  Forall (λ kv, kv.1 < k) pre →
  bt_remove k (pre ++ (k, v) :: post) = pre ++ post.
Proof.
  induction 1 as [|[k' v'] pre Hk Hpre IH]; simpl in *.
  - by rewrite N.eqb_refl.
  - rewrite (proj2 (N.eqb_neq k k')) by lia. by rewrite IH.
Qed.

Lemma wf_from_keys lo t : wf_from lo t → Forall (λ kv, lo ≤ kv.1) t.
Proof.
  intros Hwf. apply Forall_forall. intros [k e] Hin.
  eapply wf_from_In in Hin; [|done]. simpl. lia.
Qed.

Lemma overlapping_cons lo k e t offset len :
  wf_from lo ((k, e) :: t) → 0 < len → offset + len ≤ U64_MAX →
  overlapping ((k, e) :: t) offset len =
  (if decide (overlaps offset (offset + len) e) then [e] else []) ++
  overlapping t offset len.
Proof.
  intros (->&?&?&?&Hwf) Hlen Hend. unfold overlapping.
  rewrite (proj2 (N.eqb_neq len 0)) by lia.
  rewrite (sat_add_small _ offset len) by done.
  assert (Hkeys := wf_from_keys _ _ Hwf).
  unfold bt_last_le, bt_range_excl. rewrite !filter_cons.
  destruct (decide ((ext_offset e, e).1 ≤ offset)) as [Hle|Hgt]; simpl in *.
  - rewrite (decide_False (P := offset < ext_offset e ∧ _)) by lia.
    destruct (decide (overlaps offset (offset + len) e)) as [[? Hov]|Hno].
    + replace (filter (λ kv : N * Extent, kv.1 ≤ offset) t) with (@nil (N * Extent)).
      * simpl. rewrite sat_add_small by lia.
        by rewrite (proj2 (N.ltb_lt _ _)), (proj2 (N.ltb_lt _ _)) by lia.
      * symmetry. apply filter_none. intros kv Hin.
        rewrite Forall_forall in Hkeys. specialize (Hkeys _ Hin). lia.
    + rewrite last_cons.
      destruct (last (filter _ t)) as [[]|] eqn:Hl; [done|]. simpl.
      rewrite sat_add_small by lia. unfold overlaps in Hno.
      destruct (N.ltb_spec (ext_offset e) (offset + len)); [|done].
      by rewrite (proj2 (N.ltb_ge _ _)) by lia.
  - replace (filter (λ kv : N * Extent, kv.1 ≤ offset) t) with (@nil (N * Extent)).
    2:{ symmetry. apply filter_none. intros kv Hin.
        rewrite Forall_forall in Hkeys. specialize (Hkeys _ Hin). lia. }
    simpl. unfold overlaps.
    destruct (decide (offset < ext_offset e ∧ ext_offset e < offset + len)); simpl.
    + by rewrite decide_True by lia.
    + by rewrite decide_False by lia.
Qed.

(** [overlapping] is the filter that its name promises. *)
Lemma overlapping_spec lo t offset len :
  wf_from lo t → 0 < len → offset + len ≤ U64_MAX →
  overlapping t offset len = filter (overlaps offset (offset + len)) (iter t).
Proof.
  intros Hwf Hlen Hend. induction t as [|[k e] t IH] in lo, Hwf |- *.
  - unfold overlapping. by rewrite (proj2 (N.eqb_neq len 0)) by lia.
  - rewrite (overlapping_cons lo) by done. unfold iter in *. simpl.
    rewrite filter_cons, (IH _ (proj2 (proj2 (proj2 (proj2 Hwf))))). by case_decide.
Qed.

Lemma et_insert_mid e pre post :
  Forall (λ kv, kv.1 < ext_offset e) pre → Forall (λ kv, ext_offset e < kv.1) post →
  et_insert e (pre ++ post) = Ok (pre ++ (ext_offset e, e) :: post).
Proof. intros. unfold et_insert. by rewrite bt_insert_mid. Qed.

Lemma replace_step_ok s end_ k e t pre :
  s < end_ → wf_from k ((k, e) :: t) → Forall (λ kv, kv.1 < k) pre →
  overlaps s end_ e → ¬ partial_local s end_ e →
  replace_step s end_ e (pre ++ (k, e) :: t) = Ok (pre ++ cut_one s end_ (k, e) ++ t).
Proof.
  intros Hse (->&?&?&?&Hwf) Hpre Hov Hnp. apply wf_from_keys in Hwf.
  unfold replace_step, cut_one. rewrite decide_True by done.
  rewrite (proj2 (checked_add_Some _ _ _ _)) by done. simpl.
  rewrite bt_remove_mid by done.
  destruct Hov as [Ho1 Ho2], e as [o l c|o l key ver base]; simpl in *.
  - destruct (N.leb_spec s o), (N.leb_spec (o + l) end_); simpl; try done;
      destruct Hnp; (split; [done|lia]).
  - destruct (N.ltb_spec o s); simpl.
    + rewrite et_insert_mid; simpl; [|done|eapply Forall_impl; naive_solver lia].
      destruct (N.ltb_spec end_ (o + l)); simpl; [|done].
      rewrite !(cons_middle _ pre), !(assoc_L (++)). apply et_insert_mid; simpl.
      * apply Forall_app; split; [eapply Forall_impl; naive_solver lia|].
        apply Forall_singleton. simpl. lia.
      * eapply Forall_impl; naive_solver lia.
    + destruct (N.ltb_spec end_ (o + l)); simpl; [|done].
      apply et_insert_mid; simpl; eapply Forall_impl; naive_solver lia.
Qed.

Lemma cut_one_keys s end_ k e kv :
  s < end_ → k = ext_offset e → 0 < ext_len e →
  kv ∈ cut_one s end_ (k, e) → kv.1 < k + ext_len e.
Proof.
  intros Hse -> Hlen. unfold cut_one.
  case_decide as Hov.
  - destruct Hov, e; simpl in *; [by rewrite elem_of_nil|].
    rewrite elem_of_app. repeat case_match;
      rewrite ?elem_of_nil, ?list_elem_of_singleton; intros [|]; simplify_eq/=; try done;
      rewrite ?N.ltb_lt in *; lia.
  - rewrite list_elem_of_singleton. intros ->. simpl. lia.
Qed.

Lemma replace_loop_ok lo s end_ t pre :
  s < end_ → wf_from lo t → Forall (λ kv, kv.1 < lo) pre →
  Forall (λ e, ¬ partial_local s end_ e) (iter t) →
  replace_loop s end_ (filter (overlaps s end_) (iter t)) (pre ++ t)
  = Ok (pre ++ cut s end_ t).
Proof.
  intros Hse. induction t as [|[k e] t IH] in lo, pre |- *; intros Hwf Hpre Hnp; [done|].
  unfold iter in *. simpl in *. rewrite filter_cons.
  apply Forall_cons in Hnp as [He Hnp]. destruct Hwf as (Hk&?&?&?&Hwf).
  assert (Forall (λ kv : N * Extent, kv.1 < k + ext_len e) (pre ++ cut_one s end_ (k, e))) as Hpre'.
  { apply Forall_app; split; [eapply Forall_impl; naive_solver lia|].
    apply Forall_forall. intros kv ?. by apply (cut_one_keys s end_). }
  specialize (IH _ _ Hwf Hpre' Hnp). rewrite <-!(assoc_L (++)) in IH.
  case_decide as Hov; simpl.
  - rewrite replace_step_ok; [exact IH|done| |eapply Forall_impl; naive_solver lia|done|done].
    split_and!; auto with lia.
  - unfold cut_one in *. by rewrite decide_False in * by done.
Qed.

Lemma wf_from_app lo t1 t2 hi :
  wf_from lo t1 → (∀ kv, kv ∈ t1 → kv.1 + ext_len kv.2 ≤ hi) → lo ≤ hi → wf_from hi t2 →
  wf_from lo (t1 ++ t2).
Proof.
  induction t1 as [|[k e] t1 IH] in lo |- *; simpl; intros Hwf Hhi ? Ht2.
  - by eapply wf_from_weaken.
  - destruct Hwf as (?&?&?&?&Hwf). repeat split; try done. apply IH; try done.
    + intros. apply Hhi. by right.
    + apply (Hhi (k, e)). left.
Qed.

Lemma cut_one_wf s end_ lo k e :
  s < end_ → k = ext_offset e → lo ≤ k → 0 < ext_len e → k + ext_len e ≤ U64_MAX →
  wf_from lo (cut_one s end_ (k, e)) ∧
  ∀ kv, kv ∈ cut_one s end_ (k, e) → kv.1 + ext_len kv.2 ≤ k + ext_len e.
Proof.
  intros Hse -> Hlo Hlen Hmax. unfold cut_one. case_decide as Hov.
  - destruct Hov, e as [|o l key ver base]; simpl in *; [split; [done|]; intros kv; by rewrite elem_of_nil|].
    destruct (N.ltb_spec o s), (N.ltb_spec end_ (o + l)); simpl; split;
      try (repeat split; lia); intros kv;
      rewrite ?elem_of_cons, ?elem_of_nil; intros; destruct_or?; simplify_eq/=; lia.
  - split; [by repeat split|]. intros kv. rewrite list_elem_of_singleton. by intros ->.
Qed.

Lemma cut_wf s end_ lo t : s < end_ → wf_from lo t → wf_from lo (cut s end_ t).
Proof.
  intros Hse. induction t as [|[k e] t IH] in lo |- *; [done|].
  intros (Hk&?&?&?&Hwf). unfold cut. rewrite bind_cons.
  destruct (cut_one_wf s end_ lo k e) as [Hw1 Hw2]; try done.
  eapply wf_from_app; [done|done|lia|by apply IH].
Qed.

Lemma cut_disjoint s end_ t k e :
  s < end_ → (k, e) ∈ cut s end_ t → ¬ overlaps s end_ e.
Proof.
  intros Hse. unfold cut. rewrite list_elem_of_bind. intros ([k' e']&Hin&_).
  unfold cut_one in Hin. case_decide as Hov.
  - destruct Hov, e' as [|o l key ver base]; simpl in *; [by rewrite elem_of_nil in Hin|].
    apply elem_of_app in Hin as [Hin|Hin]; case_match; unfold overlaps;
      rewrite ?elem_of_nil, ?list_elem_of_singleton, ?N.ltb_lt in *; simplify_eq/=; try done; lia.
  - apply list_elem_of_singleton in Hin. by simplify_eq.
Qed.

Lemma et_insert_gap lo e t :
  wf_from lo t → lo ≤ ext_offset e → 0 < ext_len e → ext_offset e + ext_len e ≤ U64_MAX →
  (∀ k x, (k, x) ∈ t → ¬ overlaps (ext_offset e) (ext_offset e + ext_len e) x) →
  ∃ t', et_insert e t = Ok t' ∧ wf_from lo t' ∧
        ∀ kv, kv ∈ t' ↔ kv = (ext_offset e, e) ∨ kv ∈ t.
Proof.
  intros Hwf Hlo Hlen Hmax Hgap. unfold et_insert.
  induction t as [|[k x] t IH] in lo, Hwf, Hlo, Hgap |- *; simpl.
  - exists [(ext_offset e, e)]. split_and!; simpl; auto using N.le_refl.
    intros kv. by rewrite elem_of_nil, list_elem_of_singleton; tauto.
  - destruct Hwf as (->&?&?&?&Hwf). assert (Hx := Hgap _ _ (list_elem_of_here _ _)).
    unfold overlaps in Hx. destruct (N.compare_spec (ext_offset e) (ext_offset x)).
    + lia.
    + eexists. split_and!; [done| |intros kv; by rewrite elem_of_cons].
      simpl. repeat split; try done. lia.
    + destruct (IH (ext_offset x + ext_len x)) as (t'&Ht'&Hwf'&Hel); [done|lia| |].
      { intros. eapply Hgap. by right. }
      destruct (bt_insert _ _ t) as [[]  t''] eqn:Hins; simplify_eq/=.
      eexists. split_and!; [done|by repeat split|].
      intros kv. rewrite !elem_of_cons, Hel. tauto.
Qed.

Lemma validate_loop_wf lo p t :
  wf_from lo t → from_option (λ p, p ≤ lo) True p → validate_loop p (iter t) = Ok tt.
Proof.
  induction t as [|[k e] t IH] in lo, p |- *; [done|].
  intros (->&?&?&?&Hwf) Hp. unfold iter in *. simpl. rewrite wrap_add_small by done.
  destruct p as [p|]; simpl in *.
  - rewrite (proj2 (N.ltb_ge _ _)) by lia. eapply IH; done || simpl; lia.
  - eapply IH; done || simpl; lia.
Qed.

Lemma source_app t1 t2 x :
  source (t1 ++ t2) x = match source t1 x with Some b => Some b | None => source t2 x end.
Proof. induction t1 as [|[k e] t1 IH]; simpl; [done|]. by case_decide. Qed.

Lemma source_elem lo t k e x :
  wf_from lo t → (k, e) ∈ t → ext_covers e x → source t x = Some (ext_source e x).
Proof.
  induction t as [|[k' e'] t IH] in lo |- *; intros Hwf Hin Hcov; [by apply elem_of_nil in Hin|].
  destruct Hwf as (->&?&?&?&Hwf). simpl. apply elem_of_cons in Hin as [Heq|Hin].
  - simplify_eq. by rewrite decide_True.
  - rewrite decide_False; [by eapply IH|].
    eapply wf_from_In in Hin; [|done]. unfold ext_covers in *. lia.
Qed.

Lemma source_None t x : source t x = None ↔ ∀ k e, (k, e) ∈ t → ¬ ext_covers e x.
Proof.
  induction t as [|[k e] t IH]; simpl.
  - split; [|done]. intros _ k e Hin. by apply elem_of_nil in Hin.
  - case_decide as Hc; split.
    + done.
    + intros Hall. by destruct (Hall k e (list_elem_of_here _ _)).
    + intros Hs k' e' [Heq|Hin]%elem_of_cons; [by simplify_eq|]. by eapply IH.
    + intros Hall. apply IH. intros. eapply Hall. by right.
Qed.

Lemma source_cons k e t x :
  source ((k, e) :: t) x = if decide (ext_covers e x) then Some (ext_source e x) else source t x.
Proof. done. Qed.

(** A tree whose entries are those of a well-formed [t] and one more. *)
Lemma source_extend lo t t' e x :
  wf_from lo t' → wf_from lo t → (∀ kv, kv ∈ t' ↔ kv = (ext_offset e, e) ∨ kv ∈ t) →
  source t' x = if decide (ext_covers e x) then Some (ext_source e x) else source t x.
Proof.
  intros Hwf' Hwf Hel. case_decide as Hc.
  - eapply source_elem; [done| |done]. apply Hel. by left.
  - destruct (source t x) as [b|] eqn:Hs.
    + assert (∃ k y, (k, y) ∈ t ∧ ext_covers y x ∧ b = ext_source y x) as (k&y&Hin&Hy&->).
      { clear -Hs. induction t as [|[k y] t IH]; simpl in *; [done|].
        case_decide; simplify_eq; [by exists k, y; split; [left|]|].
        destruct (IH Hs) as (k'&y'&?&?&?). exists k', y'. split; [by right|done]. }
      eapply source_elem; [done| |done]. apply Hel. by right.
    + apply source_None. intros k y [Heq|Hin]%Hel; [by simplify_eq|].
      by eapply source_None.
Qed.

Lemma source_cut_one s end_ k e x :
  s < end_ → ¬ partial_local s end_ e → ¬ (s ≤ x ∧ x < end_) →
  (match e with UfsRange _ l _ _ base => base + l ≤ U64_MAX | _ => True end) →
  source (cut_one s end_ (k, e)) x =
  if decide (ext_covers e x) then Some (ext_source e x) else None.
Proof.
  intros Hse Hnp Hx Hb. unfold cut_one. case_decide as Hov; [|done].
  destruct e as [o l c|o l key ver base]; simpl in *.
  - rewrite decide_False; [done|]. unfold ext_covers. simpl.
    intros ?. apply Hnp. split; [done|lia].
  - unfold ext_covers, overlaps in *. simpl in *.
    rewrite source_app.
    destruct (N.ltb_spec o s), (N.ltb_spec end_ (o + l)); simpl;
      unfold ext_covers; simpl; repeat case_decide; try lia; try done;
      rewrite ?wrap_add_small by lia; do 2 f_equal; lia.
Qed.

Lemma source_cut s end_ t x :
  s < end_ → Forall (λ e, ¬ partial_local s end_ e) (iter t) → object_bounds t →
  ¬ (s ≤ x ∧ x < end_) → source (cut s end_ t) x = source t x.
Proof.
  intros Hse Hnp Hb Hx. unfold object_bounds, iter in *.
  induction t as [|[k e] t IH]; [done|].
  apply Forall_cons in Hnp as [? ?], Hb as [? ?]. unfold cut. rewrite bind_cons, source_app.
  rewrite source_cut_one by done. rewrite source_cons. case_decide; [done|]. by apply IH.
Qed.

Lemma object_bounds_cut s end_ t : object_bounds t → object_bounds (cut s end_ t).
Proof.
  unfold object_bounds, cut. intros Hb. rewrite Forall_bind. eapply Forall_impl; [exact Hb|].
  intros [k e] He. simpl in *. unfold cut_one. case_decide as Hov; [|by apply Forall_singleton].
  destruct Hov, e as [|o l key ver base]; simpl in *; [done|].
  assert (wrap_add base (end_ - o) ≤ base + (end_ - o)) by (apply N.Div0.mod_le).
  apply Forall_app; split; case_match; rewrite ?N.ltb_lt in *; constructor; simpl in *;
    try done; lia.
Qed.

Lemma replace_loop_partial lo s end_ t pre :
  s < end_ → wf_from lo t → Forall (λ kv, kv.1 < lo) pre →
  Exists (partial_local s end_) (iter t) →
  ∃ msg, replace_loop s end_ (filter (overlaps s end_) (iter t)) (pre ++ t)
         = Err (InvalidArg msg).
Proof.
  intros Hse. induction t as [|[k e] t IH] in lo, pre |- *; intros Hwf Hpre Hex;
    [by apply Exists_nil in Hex|].
  unfold iter in *. simpl in *. rewrite filter_cons. destruct Hwf as (Hk&?&?&?&Hwf).
  destruct (decide (partial_local s end_ e)) as [Hp|Hnp].
  - destruct e as [o l c|]; [|done]. simpl in Hp. destruct Hp as [Hov Hp]. subst k.
    rewrite decide_True by done. simpl. unfold replace_step. simpl in *.
    rewrite (proj2 (checked_add_Some _ _ _ _)) by done. simpl.
    destruct (N.leb_spec s o), (N.leb_spec (o + l) end_); simpl; eauto; lia.
  - apply Exists_cons in Hex as [?|Hex]; [done|].
    assert (Forall (λ kv : N * Extent, kv.1 < k + ext_len e) (pre ++ cut_one s end_ (k, e))) as Hpre'.
    { apply Forall_app; split; [eapply Forall_impl; naive_solver lia|].
      apply Forall_forall. intros kv ?. by apply (cut_one_keys s end_). }
    specialize (IH _ _ Hwf Hpre' Hex). rewrite <-!(assoc_L (++)) in IH.
    case_decide as Hov; simpl.
    + rewrite replace_step_ok; [exact IH|done| |eapply Forall_impl; naive_solver lia|done|done].
      split_and!; auto with lia.
    + unfold cut_one in IH. by rewrite decide_False in IH by done.
Qed.

(** [replace_range] where no local extent is cut: it succeeds, keeps the tree
    well formed and redirects exactly the bytes of the new extent. *)
Lemma replace_range_ok m e g :
  et_wf (m_extents m) → object_bounds (m_extents m) →
  0 < ext_len e → ext_offset e + ext_len e ≤ U64_MAX →
  Forall (λ x, ¬ partial_local (ext_offset e) (ext_offset e + ext_len e) x)
    (iter (m_extents m)) →
  ∃ t, replace_range m e g =
         Ok (mkManifest (m_inode m) g (N.max (m_size m) (ext_offset e + ext_len e)) t) ∧
       et_wf t ∧
       (∀ kv, kv ∈ t ↔ kv = (ext_offset e, e) ∨
              kv ∈ cut (ext_offset e) (ext_offset e + ext_len e) (m_extents m)) ∧
       (∀ x, source t x = if decide (ext_covers e x) then Some (ext_source e x)
                          else source (m_extents m) x).
Proof.
  intros Hwf Hb Hlen Hmax Hnp. unfold replace_range.
  unfold ext_is_empty. rewrite (proj2 (N.eqb_neq _ _)) by lia.
  rewrite (proj2 (checked_add_Some _ _ _ _)) by done. simpl.
  rewrite (overlapping_spec 0) by done.
  assert (ext_offset e < ext_offset e + ext_len e) as Hse by lia.
  assert (Hloop := replace_loop_ok 0 _ _ _ [] Hse Hwf (Forall_nil_2 _) Hnp).
  simpl in Hloop. rewrite Hloop. simpl.
  assert (Hcut := cut_wf _ _ _ _ Hse Hwf).
  destruct (et_insert_gap 0 e _ Hcut) as (t&Hins&Ht&Hel); [lia|done|done| |].
  { intros k x. by apply cut_disjoint. }
  rewrite Hins. simpl. exists t. split_and!; [|done|done|].
  - unfold Manifest_validate. simpl. by rewrite (validate_loop_wf 0).
  - intros x. erewrite source_extend; [|done|exact Hcut|done].
    case_decide as Hc; [done|]. by apply source_cut.
Qed.

Lemma replace_range_partial m e g :
  et_wf (m_extents m) → 0 < ext_len e → ext_offset e + ext_len e ≤ U64_MAX →
  Exists (partial_local (ext_offset e) (ext_offset e + ext_len e)) (iter (m_extents m)) →
  ∃ msg, replace_range m e g = Err (InvalidArg msg).
Proof.
  intros Hwf Hlen Hmax Hp. unfold replace_range, ext_is_empty.
  rewrite (proj2 (N.eqb_neq _ _)) by lia.
  rewrite (proj2 (checked_add_Some _ _ _ _)) by done. simpl.
  rewrite (overlapping_spec 0) by done.
  edestruct (replace_loop_partial 0) with (pre := @nil (N * Extent)) as [msg Hmsg];
    [|exact Hwf|done|exact Hp|]; [lia|]. simpl in Hmsg. rewrite Hmsg. simpl. eauto.
Qed.

Lemma replace_range_reject m e g :
  ¬ (0 < ext_len e ∧ ext_offset e + ext_len e ≤ U64_MAX) →
  ∃ msg, replace_range m e g = Err (InvalidArg msg).
Proof.
  intros Hno. unfold replace_range, ext_is_empty.
  destruct (N.eqb_spec (ext_len e) 0); [eauto|].
  rewrite (proj2 (checked_add_None _ _ _)) by lia. simpl. eauto.
Qed.

(** ** Building a tree from a list *)

Definition bt_sorted {V} (m : list (N * V)) : Prop :=
  StronglySorted (λ a b, a.1 < b.1) m.

Lemma bt_insert_sorted {V} k (v : V) m old m' :
  bt_sorted m → bt_insert k v m = (old, m') →
  bt_sorted m' ∧
  match old with
  | None => (k ∉ m.*1) ∧ m' ≡ₚ (k, v) :: m
  | Some v0 => (k, v0) ∈ m
  end ∧ (∀ lo, lo < k → Forall (λ kv, lo < kv.1) m → Forall (λ kv, lo < kv.1) m').
Proof.
  unfold bt_sorted. induction m as [|[k' v'] m IH] in old, m' |- *; simpl; intros Hs Hins.
  - simplify_eq. split_and!; [by repeat constructor|apply not_elem_of_nil|done|].
    intros. by repeat constructor.
  - apply StronglySorted_inv in Hs as [Hs Hall].
    destruct (N.compare_spec k k') as [->|Hlt|Hgt].
    + simplify_eq. split_and!; [by constructor|left|].
      intros lo ? [??]%Forall_cons. by constructor.
    + simplify_eq. split_and!.
      * repeat constructor; try done. simpl. eapply Forall_impl; naive_solver lia.
      * intros [Heq|Hin]%elem_of_cons; [lia|].
        apply list_elem_of_fmap in Hin as ([k2 v2]&->&Hin).
        rewrite Forall_forall in Hall. specialize (Hall _ Hin). simpl in *. lia.
      * done.
      * intros. by constructor.
    + destruct (bt_insert k v m) as [old1 m1] eqn:Hi. simplify_eq/=.
      destruct (IH _ _ Hs eq_refl) as (Hs1&Hold&Hlo). split_and!.
      * constructor; [done|]. by apply Hlo.
      * destruct old; [by right|]. destruct Hold as [Hni Hp]. split.
        -- rewrite not_elem_of_cons. split; [lia|done].
        -- rewrite Hp. apply Permutation_swap.
      * intros lo ? [??]%Forall_cons. constructor; [done|]. by apply Hlo.
Qed.

(** Entries keyed by their own offset, in order; extents may still overlap. *)
Definition keyed (t : ExtentTree) : Prop :=
  bt_sorted t ∧ Forall (λ kv, kv.1 = ext_offset kv.2) t.

Lemma keyed_iter t : keyed t → t = (λ e, (ext_offset e, e)) <$> iter t.
Proof.
  intros [_ Hk]. unfold iter. induction Hk as [|[k e] t Hke _ IH]; simpl in *; [done|].
  by f_equal; [f_equal|].
Qed.

Lemma keyed_unique t1 t2 : keyed t1 → keyed t2 → iter t1 ≡ₚ iter t2 → t1 = t2.
Proof.
  intros H1 H2 Hp. assert (t1 ≡ₚ t2) as Hp'.
  { rewrite (keyed_iter t1), (keyed_iter t2) by done. by rewrite Hp. }
  destruct H1 as [H1 _], H2 as [H2 _]. unfold bt_sorted in *.
  eapply StronglySorted_unique_strong; [|exact H1|exact H2|done].
  intros [] [] ????; simpl in *. lia.
Qed.

Lemma try_from_insert_ok l t :
  keyed t →
  match try_from_insert l t with
  | Ok t' => keyed t' ∧ iter t' ≡ₚ (l ++ iter t)
  | Err _ => ¬ NoDup (ext_offset <$> (l ++ iter t))
  end.
Proof.
  induction l as [|e l IH] in t |- *; intros Ht; [done|]. simpl. unfold et_insert.
  destruct (bt_insert (ext_offset e) e t) as [old t1] eqn:Hi.
  destruct Ht as [Hs Hk]. destruct (bt_insert_sorted _ _ _ _ _ Hs Hi) as (Hs1&Hold&_).
  destruct old as [v0|]; simpl.
  - intros [Hn _]%NoDup_cons. apply Hn. rewrite fmap_app. apply elem_of_app. right.
    rewrite Forall_forall in Hk. specialize (Hk _ Hold). simpl in Hk. rewrite Hk.
    apply list_elem_of_fmap. exists v0. split; [done|].
    apply list_elem_of_fmap. by exists (ext_offset e, v0).
  - destruct Hold as [_ Hp]. assert (keyed t1) as Ht1.
    { split; [done|]. rewrite Hp. by constructor. }
    assert (iter t1 ≡ₚ e :: iter t) as Hit by (unfold iter; by rewrite Hp).
    specialize (IH _ Ht1). destruct (try_from_insert l t1).
    + destruct IH as [? IH]. split; [done|]. rewrite IH, Hit. symmetry. apply Permutation_middle.
    + intros Hn. apply IH. rewrite Hit, <-Permutation_middle. done.
Qed.

Lemma try_from_check_wf p t :
  keyed t → (∃ u, try_from_check p t = Ok u) ↔ wf_from (default 0 p) t.
Proof.
  intros [_ Hk]. induction Hk as [|[k e] t Hke _ IH] in p |- *; simpl in *; [naive_solver|].
  unfold ext_is_empty. destruct (N.eqb_spec (ext_len e) 0).
  { split; [naive_solver|]. lia. }
  unfold checked_add_w. case_bool_decide; simpl.
  2:{ split; [naive_solver|]. subst. lia. }
  destruct p as [p|]; simpl.
  - destruct (N.ltb_spec (ext_offset e) p); [split; [naive_solver|lia]|].
    rewrite IH. subst k. simpl. split; [|naive_solver]. intros. split_and!; auto; lia.
  - rewrite IH. subst k. simpl. split; [|naive_solver]. intros. split_and!; auto; lia.
Qed.

Lemma wf_from_keyed lo t : wf_from lo t → keyed t.
Proof.
  induction t as [|[k e] t IH] in lo |- *; [repeat constructor|].
  intros (Hk&?&?&?&Hwf). destruct (IH _ Hwf) as [Hs Hf]. split; constructor; try done.
  eapply Forall_impl; [by eapply wf_from_keys|]. simpl. intros. lia.
Qed.

Lemma wf_keys_NoDup lo t : wf_from lo t → NoDup (ext_offset <$> iter t).
Proof.
  intros Hwf. induction t as [|[k e] t IH] in lo, Hwf |- *; [constructor|].
  destruct Hwf as (->&?&?&?&Hwf). unfold iter. simpl. constructor; [|by eapply IH].
  rewrite list_elem_of_fmap. intros (e'&Heq&([k' e'']&->&Hin)%list_elem_of_fmap).
  eapply wf_from_In in Hin; [|done]. simpl in *. lia.
Qed.

(** [try_from] accepts exactly the permutations of well-formed trees. *)
Lemma try_from_correct l t : try_from l = Ok t ↔ et_wf t ∧ l ≡ₚ iter t.
Proof.
  assert (keyed []) as Hnil by repeat constructor.
  assert (Hins := try_from_insert_ok l [] Hnil).
  unfold try_from. split.
  - destruct (try_from_insert l []) as [t1|]; simpl; [|done].
    destruct Hins as [Hk Hp]. destruct (try_from_check None t1) as [u|] eqn:Hc; simpl; [|done].
    intros. simplify_eq. split; [apply (try_from_check_wf None); eauto|].
    by rewrite Hp, app_nil_r.
  - intros [Hwf Hp]. destruct (try_from_insert l []) as [t1|]; simpl.
    + destruct Hins as [Hk Hp1]. rewrite app_nil_r in Hp1.
      assert (t1 = t) as ->.
      { apply keyed_unique; [done|by eapply wf_from_keyed|]. by rewrite Hp1. }
      destruct (proj2 (try_from_check_wf None t Hk) Hwf) as [u Hu].
      rewrite Hu. by destruct u.
    + destruct Hins. rewrite app_nil_r, Hp. by eapply wf_keys_NoDup.
Qed.

(** ** The digest encoding is injective *)

(** Values that exist as Rust values: every integer within its width. *)
Definition extent_machine (e : Extent) : Prop :=
  match e with
  | Local offset len chunk => offset ≤ U64_MAX ∧ len ≤ U64_MAX ∧ chunk < 256 ^ 32
  | UfsRange offset len key ver at_ =>
      offset ≤ U64_MAX ∧ len ≤ U64_MAX ∧ str_len key ≤ U64_MAX ∧
      str_len ver ≤ U64_MAX ∧ at_ ≤ U64_MAX
  end.

Definition manifest_machine (m : Manifest) : Prop :=
  m_inode m ≤ U64_MAX ∧ m_gen m ≤ U64_MAX ∧ m_size m ≤ U64_MAX ∧
  N.of_nat (length (m_extents m)) ≤ U64_MAX ∧
  Forall extent_machine (iter (m_extents m)).

Lemma str_bytes_length s : length (str_bytes s) = String.length s.
Proof. induction s; simpl; [done|]. f_equal. exact IHs. Qed.

Lemma push_bytes_prefix_inj :
  prefix_inj (λ s, str_len s ≤ U64_MAX) (λ s, push_bytes (str_bytes s)).
Proof.
  intros a b r r' Ha Hb. unfold push_bytes. rewrite <-!(assoc_L (++)). intros H.
  unfold str_len in *. rewrite !str_bytes_length in H.
  apply le_bytes_prefix_inj in H as [Hlen H]; [|eauto with fluxfs..].
  apply app_inj_1 in H as [H ->]; [|rewrite !str_bytes_length; lia].
  split; [|done]. by apply str_bytes_inj.
Qed.

Lemma encode_extent_prefix_inj : prefix_inj extent_machine encode_extent.
Proof.
  intros [o l c|o l k v a] [o' l' c'|o' l' k' v' a'] r r' Ha Hb H; simpl in *;
    try discriminate H.
  - destruct Ha as (?&?&?), Hb as (?&?&?).
    rewrite <-!(assoc_L (++)) in H. apply cons_tail_inj in H.
    apply le_bytes_prefix_inj in H as [-> H]; [|eauto with fluxfs..].
    apply le_bytes_prefix_inj in H as [-> H]; [|eauto with fluxfs..].
    apply be_bytes_prefix_inj in H as [-> H]; [|done..]. done.
  - destruct Ha as (?&?&?&?&?), Hb as (?&?&?&?&?).
    rewrite <-!(assoc_L (++)) in H. apply cons_tail_inj in H.
    apply le_bytes_prefix_inj in H as [-> H]; [|eauto with fluxfs..].
    apply le_bytes_prefix_inj in H as [-> H]; [|eauto with fluxfs..].
    apply push_bytes_prefix_inj in H as [-> H]; [|done..].
    apply push_bytes_prefix_inj in H as [-> H]; [|done..].
    apply le_bytes_prefix_inj in H as [-> H]; [|eauto with fluxfs..]. done.
Qed.

Lemma encode_manifest_inj m1 m2 :
  manifest_machine m1 → manifest_machine m2 →
  keyed (m_extents m1) → keyed (m_extents m2) →
  encode_manifest m1 = encode_manifest m2 → m1 = m2.
Proof.
  intros (?&?&?&?&Hf1) (?&?&?&?&Hf2) Hk1 Hk2 He. unfold encode_manifest in He.
  apply app_inv_head, app_inv_head in He.
  apply le_bytes_prefix_inj in He as [Hi He]; [|eauto with fluxfs..].
  apply le_bytes_prefix_inj in He as [Hg He]; [|eauto with fluxfs..].
  apply le_bytes_prefix_inj in He as [Hs He]; [|eauto with fluxfs..].
  apply le_bytes_prefix_inj in He as [Hl He]; [|eauto with fluxfs..].
  assert (iter (m_extents m1) = iter (m_extents m2)) as Hit.
  { refine (proj1 (prefix_inj_concat _ _ _ _ [] [] encode_extent_prefix_inj Hf1 Hf2 _ _)).
    - unfold iter. rewrite !length_fmap. lia.
    - by rewrite !app_nil_r. }
  destruct m1, m2; simpl in *; f_equal; try done.
  by apply keyed_unique; [..|rewrite Hit].
Qed.

(** ** Properties *)

(** C15: [Manifest::replace_range] on a well-formed manifest.  It fails with
    [InvalidArg] exactly when the new extent is empty, its end does not fit in
    [u64], or it cuts a local extent without covering it; otherwise it yields
    a well-formed manifest of the new generation whose size is the maximum of
    the old size and the new end, in which every byte of the new range is
    backed by the new extent and every other byte by what backed it before. *)
Theorem replace_range_spec m e g :
  et_wf (m_extents m) → object_bounds (m_extents m) →
  let new_end := ext_offset e + ext_len e in
  match replace_range m e g with
  | Ok m' =>
      0 < ext_len e ∧ new_end ≤ U64_MAX ∧
      (∀ x, x ∈ iter (m_extents m) → ¬ partial_local (ext_offset e) new_end x) ∧
      et_wf (m_extents m') ∧ m_inode m' = m_inode m ∧ m_gen m' = g ∧
      m_size m' = N.max (m_size m) new_end ∧
      ∀ x, source (m_extents m') x =
           if decide (ext_covers e x) then Some (ext_source e x)
           else source (m_extents m) x
  | Err err =>
      (∃ msg, err = InvalidArg msg) ∧
      (ext_len e = 0 ∨ U64_MAX < new_end ∨
       ∃ x, x ∈ iter (m_extents m) ∧ partial_local (ext_offset e) new_end x)
  end.
Proof.
  intros Hwf Hb. simpl.
  destruct (decide (0 < ext_len e ∧ ext_offset e + ext_len e ≤ U64_MAX)) as [[Hl Hm]|Hno].
  - destruct (decide (Exists (partial_local (ext_offset e) (ext_offset e + ext_len e))
      (iter (m_extents m)))) as [Hex|Hnp].
    + destruct (replace_range_partial m e g Hwf Hl Hm Hex) as [msg ->].
      split; [eauto|]. right; right. by apply Exists_exists.
    + apply not_Exists_Forall in Hnp; [|apply _].
      destruct (replace_range_ok m e g Hwf Hb Hl Hm Hnp) as (t&->&Ht&_&Hsrc). simpl.
      rewrite Forall_forall in Hnp. done.
  - destruct (replace_range_reject m e g Hno) as [msg ->]. split; [eauto|]. lia.
Qed.

Definition example_tree : ExtentTree :=
  [(0, UfsRange 0 100 "k" "v" 7); (100, Local 100 50 9)].

Lemma replace_range_spec_witness :
  et_wf example_tree ∧ object_bounds example_tree ∧
  ∃ m', replace_range (mkManifest 2 1 150 example_tree) (Local 40 20 5) 2 = Ok m' ∧
        source (m_extents m') 59 = Some (SrcChunk 5 19) ∧
        source (m_extents m') 60 = Some (SrcUfs "k" "v" 67).
Proof.
  assert (et_wf example_tree) as Hwf by (by vm_compute).
  assert (object_bounds example_tree) as Hb by (repeat constructor; by vm_compute).
  assert (H := replace_range_spec (mkManifest 2 1 150 example_tree) (Local 40 20 5) 2 Hwf Hb).
  split; [exact Hwf|]. split; [exact Hb|].
  destruct (replace_range (mkManifest 2 1 150 example_tree) (Local 40 20 5) 2) as [m'|] eqn:Hr.
  - exists m'. destruct H as (_&_&_&_&_&_&_&Hs). split; [reflexivity|].
    rewrite !Hs. split; vm_compute; reflexivity.
  - vm_compute in Hr. discriminate Hr.
Defined.

(** [ExtentTree::try_from] accepts a vector of extents exactly when,
    ordered by offset, they are non-empty, end within [u64] and do not
    overlap, and then returns that ordering. *)
Theorem try_from_spec l t :
  try_from l = Ok t ↔ et_wf t ∧ l ≡ₚ iter t.
Proof. apply try_from_correct. Qed.

(** The wire form round-trips: what [Serialize] writes of a well-formed
    tree, and the legacy bare list of its extents, both deserialize to it. *)
Theorem wire_roundtrip t :
  et_wf t →
  et_deserialize (et_serialize t) = Ok t ∧ et_deserialize (Legacy (iter t)) = Ok t.
Proof.
  intros Hwf. unfold et_deserialize, et_serialize. simpl.
  by rewrite (proj2 (try_from_correct (iter t) t)).
Qed.

Lemma wire_roundtrip_witness :
  et_deserialize (et_serialize example_tree) = Ok example_tree ∧
  et_deserialize (Legacy (iter example_tree)) = Ok example_tree.
Proof. apply wire_roundtrip. by vm_compute. Defined.

(** [Manifest::root_digest] identifies the manifest: when the hash does
    not collide on the two encodings, equal digests mean equal manifests
    (every integer within its width, extents keyed by their offsets). *)
Theorem root_digest_identifies hash m1 m2 :
  (∀ b1 b2, b1 ∈ [encode_manifest m1; encode_manifest m2] →
            b2 ∈ [encode_manifest m1; encode_manifest m2] →
            hash b1 = hash b2 → b1 = b2) →
  manifest_machine m1 → manifest_machine m2 →
  keyed (m_extents m1) → keyed (m_extents m2) →
  root_digest hash m1 = root_digest hash m2 ↔ m1 = m2.
Proof.
  intros Hcoll ????. split; [|by intros ->]. intros Heq. apply encode_manifest_inj; try done.
  apply Hcoll; [left|right; left|done].
Qed.

Lemma root_digest_identifies_witness :
  length (encode_manifest (mkManifest 2 1 150 example_tree)) =
    length (encode_manifest (mkManifest 2 9 150 example_tree)) ∧
  root_digest of_le_bytes (mkManifest 2 1 150 example_tree)
    ≠ root_digest of_le_bytes (mkManifest 2 9 150 example_tree).
Proof.
  assert (length (encode_manifest (mkManifest 2 1 150 example_tree)) =
    length (encode_manifest (mkManifest 2 9 150 example_tree))) as Hlen by reflexivity.
  split; [exact Hlen|]. intros H. apply root_digest_identifies in H.
  - discriminate H.
  - intros b1 b2 H1 H2 Heq.
    rewrite <-(le_bytes_of_le b1), <-(le_bytes_of_le b2), Heq.
    rewrite !elem_of_cons, elem_of_nil in H1, H2.
    destruct H1 as [->|[->|[]]], H2 as [->|[->|[]]]; rewrite ?Hlen; reflexivity.
  - split_and!; try (repeat constructor); vm_compute; intros; discriminate.
  - split_and!; try (repeat constructor); vm_compute; intros; discriminate.
  - by apply (wf_from_keyed 0).
  - by apply (wf_from_keyed 0).
Defined.
