(* ===== verification/Keys.v ===== *)
(** * LMDB keys and validators ([crates/meta/src/heed_store.rs])

    The key formats of the metadata databases, their parsers, and the
    argument validators that precede the transactions.  [MetaDb] stores each
    database as a map with structured keys; the properties below are what
    makes that view faithful: keys are injective, a prefix scan sees exactly
    one directory (one inode, one session) and the families that share the
    [meta] database do not collide. *)

From S2P Require Import Prelude Types Bytes.

Local Open Scope N_scope.

(** ** Strings *)

(** [str::split_once(char)]. *)
Fixpoint split_once (c : Ascii.ascii) (s : string) : option (string * string) :=
  match s with
  | EmptyString => None
  | String c' s' =>
      if bool_decide (c = c') then Some ("", s')
      else match split_once c s' with
           | Some (a, b) => Some (String c' a, b)
           | None => None
           end
  end.

(** [str::strip_prefix(&str)]. *)
Fixpoint strip_prefix (p s : string) : option string :=
  match p, s with
  | EmptyString, _ => Some s
  | String a p', String b s' => if bool_decide (a = b) then strip_prefix p' s' else None
  | String _ _, EmptyString => None
  end.

Definition starts_with (p s : string) : bool := is_some (strip_prefix p s).

(** [char::to_digit(16)]. *)
Definition hex_value (c : Ascii.ascii) : option N :=
  let n := Ascii.N_of_ascii c in
  if (48 <=? n) && (n <=? 57) then Some (n - 48)
  else if (97 <=? n) && (n <=? 102) then Some (n - 87)
  else if (65 <=? n) && (n <=? 70) then Some (n - 55)
  else None.

(** [uN::from_str_radix(s, 16)] at the width whose largest value is [max]. *)
Fixpoint radix16_digits (max acc : N) (s : string) : option N :=
  match s with
  | EmptyString => Some acc
  | String c s' =>
      d ← hex_value c;
      let acc' := acc * 16 + d in
      if max <? acc' then None else radix16_digits max acc' s'
  end.

Definition PLUS : Ascii.ascii := Ascii.ascii_of_N 43.

Definition from_str_radix16 (max : N) (s : string) : option N :=
  match s with
  | EmptyString => None
  | String c EmptyString => if bool_decide (c = PLUS) then None else radix16_digits max 0 s
  | String c s' => if bool_decide (c = PLUS) then radix16_digits max 0 s'
                   else radix16_digits max 0 s
  end.

(** [format!("{n:016x}")] of a [u64]. *)
Definition fmt_016x (n : N) : string := hex_encode (be_bytes 8 n).

(** [ChunkId::to_hex]. *)
Definition to_hex (c : ChunkId) : string := hex_encode (be_bytes 32 c).

(** ** Keys *)

Definition KEY_SM_LAST_APPLIED := "raft_sm_last_applied".
Definition KEY_SM_LAST_MEMBERSHIP := "raft_sm_last_membership".
Definition KEY_GC_LEASE := "gc_lease".
Definition KEY_META_SCHEMA_VERSION := "meta_schema_version".
Definition KEY_WORKER_MEMBERSHIP := "worker_membership".
Definition RESERVATION_PREFIX := "write_reservation:".
Definition TOMBSTONE_PREFIX := "gc_tombstone:".
Definition OPEN_PRESENCE_PREFIX := "open_presence:".

Definition inode_key (id : InodeId) : bytes := be_bytes 8 id.

Definition dentry_prefix (parent : InodeId) : string :=
  fmt_016x parent +:+ String NUL "".
Definition dentry_key (parent : InodeId) (name : string) : string :=
  dentry_prefix parent +:+ name.

Definition xattr_prefix (inode : InodeId) : string :=
  fmt_016x inode +:+ String NUL "".
Definition xattr_key (inode : InodeId) (name : string) : string :=
  xattr_prefix inode +:+ name.

Definition u64_from_radix16 (s : string) : Result N :=
  ok_or (Meta "invalid digit found in string") (from_str_radix16 U64_MAX s).

Definition parse_xattr_key (key : string) : Result (InodeId * string) :=
  '(inode_hex, name) ← ok_or (Meta "bad xattr key") (split_once NUL key);
  inode ← u64_from_radix16 inode_hex;
  Ok (inode, name).

Definition open_presence_inode_prefix (inode : InodeId) : string :=
  OPEN_PRESENCE_PREFIX +:+ fmt_016x inode +:+ ":".
Definition open_presence_key (inode : InodeId) (session_id : string) : string :=
  open_presence_inode_prefix inode +:+ session_id.

Definition COLON : Ascii.ascii := Ascii.ascii_of_N 58.

Definition ascii_alphanumeric (n : N) : bool :=
  ((48 <=? n) && (n <=? 57)) || ((65 <=? n) && (n <=? 90)) || ((97 <=? n) && (n <=? 122)).

(** The byte test of [validate_session_id]. *)
Definition session_byte (b : byte) : bool :=
  let n := Byte.to_N b in
  ascii_alphanumeric n || (n =? 45) || (n =? 95) || (n =? 46).

Definition validate_session_id (session_id : string) : Result unit :=
  if bool_decide (session_id = "") || (128 <? str_len session_id)
     || negb (forallb session_byte (str_bytes session_id))
  then Err (InvalidArg "invalid mount session id")
  else Ok tt.

Definition parse_open_presence_key (key : string) : Result (InodeId * string) :=
  rest ← ok_or (Meta "bad open-presence key prefix") (strip_prefix OPEN_PRESENCE_PREFIX key);
  '(inode_hex, session_id) ← ok_or (Meta "bad open-presence key") (split_once COLON rest);
  inode ← u64_from_radix16 inode_hex;
  _ ← validate_session_id session_id;
  Ok (inode, session_id).

Definition reservation_key (ticket : WriteTicketId) : string :=
  RESERVATION_PREFIX +:+ fmt_016x ticket.
Definition tombstone_key (chunk : ChunkId) : string :=
  TOMBSTONE_PREFIX +:+ to_hex chunk.

(** The loop of [chunk_from_hex]: two characters per byte. *)
Fixpoint hex_pairs (s : string) : option bytes :=
  match s with
  | EmptyString => Some []
  | String a (String b s') =>
      n ← from_str_radix16 255 (String a (String b ""));
      l ← hex_pairs s';
      Some (byte_of n :: l)
  | String _ EmptyString => None
  end.

Definition chunk_from_hex (value : string) : Result ChunkId :=
  if negb (str_len value =? 64) then Err (Meta "bad tombstone chunk id") else
  raw ← ok_or (Meta "invalid digit found in string") (hex_pairs value);
  Ok (of_be_bytes raw).

(** ** Validators *)

Definition XATTR_VALUE_MAX : N := 64 * 1024.
Definition XATTR_COUNT_MAX : N := 64.
Definition XATTR_TOTAL_MAX : N := 256 * 1024.

Definition validate_xattr_name (name : string) : Result unit :=
  if bool_decide (name = "") || (255 <? str_len name) || str_contains NUL name then
    Err (InvalidArg "invalid xattr name") else
  if negb (existsb (λ prefix, starts_with prefix name && (str_len prefix <? str_len name))
             ["user."; "trusted."; "security."; "system."]) then
    Err (InvalidArg "xattr name must use user/trusted/security/system namespace") else
  Ok tt.

Record acl_state := mkAcl {
  user_obj : bool; group_obj : bool; other : bool; mask : bool; has_named_entry : bool }.

(** The body of the loop of [validate_posix_acl_ea]. *)
Definition acl_entry (tag perm : N) (s : acl_state) : Result acl_state :=
  if negb (existsb (N.eqb tag) [1; 2; 4; 8; 16; 32]) || negb (N.ldiff perm 7 =? 0) then
    Err (InvalidArg "invalid POSIX ACL entry")
  else if (tag =? 1) && negb (user_obj s) then
    Ok (mkAcl true (group_obj s) (other s) (mask s) (has_named_entry s))
  else if (tag =? 4) && negb (group_obj s) then
    Ok (mkAcl (user_obj s) true (other s) (mask s) (has_named_entry s))
  else if (tag =? 32) && negb (other s) then
    Ok (mkAcl (user_obj s) (group_obj s) true (mask s) (has_named_entry s))
  else if (tag =? 16) && negb (mask s) then
    Ok (mkAcl (user_obj s) (group_obj s) (other s) true (has_named_entry s))
  else if (tag =? 2) || (tag =? 8) then
    Ok (mkAcl (user_obj s) (group_obj s) (other s) (mask s) true)
  else Err (InvalidArg "duplicate required POSIX ACL entry").

(** [value[4..].chunks_exact(8)] as (tag, perm) pairs. *)
Fixpoint acl_entries (v : bytes) : list (N * N) :=
  match v with
  | t0 :: t1 :: p0 :: p1 :: _ :: _ :: _ :: _ :: v' =>
      (of_le_bytes [t0; t1], of_le_bytes [p0; p1]) :: acl_entries v'
  | _ => []
  end.

Fixpoint acl_loop (l : list (N * N)) (s : acl_state) : Result acl_state :=
  match l with
  | [] => Ok s
  | (tag, perm) :: l' => s' ← acl_entry tag perm s; acl_loop l' s'
  end.

Definition validate_posix_acl_ea (value : bytes) : Result unit :=
  if (N.of_nat (length value) <? 4) || negb ((N.of_nat (length value) - 4) mod 8 =? 0) then
    Err (InvalidArg "malformed POSIX ACL xattr") else
  let version := of_le_bytes (take 4 value) in
  if negb (version =? 2) then
    Err (InvalidArg ("unsupported POSIX ACL xattr version " +:+ pretty version)) else
  s ← acl_loop (acl_entries (drop 4 value)) (mkAcl false false false false false);
  if negb (user_obj s && group_obj s && other s) || (has_named_entry s && negb (mask s)) then
    Err (InvalidArg "POSIX ACL is missing required base or mask entries")
  else Ok tt.

Definition validate_xattr (inode : Inode) (name : string) (value : bytes) : Result unit :=
  _ ← validate_xattr_name name;
  if XATTR_VALUE_MAX <? N.of_nat (length value) then Err NoSpace else
  if bool_decide (name = "system.posix_acl_access")
     || bool_decide (name = "system.posix_acl_default") then
    if bool_decide (i_file_type inode = Symlink) then
      Err (InvalidArg "POSIX ACL xattrs are not supported on symlinks") else
    if bool_decide (name = "system.posix_acl_default")
       && bool_decide (i_file_type inode ≠ Directory) then
      Err (InvalidArg "default POSIX ACL requires a directory") else
    validate_posix_acl_ea value
  else Ok tt.

Definition validate_dentry_name (name : string) : Result unit :=
  Dentry_validate (mkDentry ROOT_INODE name ROOT_INODE).

(** ** Lemmas *)

Lemma str_app_inj_len a b c d :
  String.length a = String.length b → a +:+ c = b +:+ d → a = b ∧ c = d.
Proof.
  induction a as [|x a IH] in b |- *; destruct b as [|y b]; simpl; intros Hl H; simplify_eq; [done|].
  destruct (IH b) as [-> ->]; auto.
Qed.

Lemma strip_prefix_app p s : strip_prefix p (p +:+ s) = Some s.
Proof. induction p; simpl; [done|]. by rewrite bool_decide_true. Qed.

Lemma strip_prefix_Some p s r : strip_prefix p s = Some r → s = p +:+ r.
Proof.
  induction p as [|a p IH] in s |- *; simpl; [by intros [= ->]|].
  destruct s as [|b s]; [done|]. case_bool_decide; [|done]. intros Hr%IH. by subst.
Qed.

(** The facts about hexadecimal digits are finite. *)
Lemma hex_digit_facts n :
  n < 16 →
  hex_value (hex_digit n) = Some n ∧ hex_digit n ≠ PLUS ∧ hex_digit n ≠ NUL ∧
  hex_digit n ≠ COLON.
Proof.
  intros Hn. assert (n ∈ N.of_nat <$> seq 0 16) as Hin.
  { apply list_elem_of_fmap. exists (N.to_nat n). rewrite elem_of_seq. lia. }
  clear Hn. revert n Hin. apply Forall_forall. vm_compute.
  repeat constructor; discriminate.
Qed.

Lemma hex_digits_of_byte b : Byte.to_N b / 16 < 16 ∧ Byte.to_N b mod 16 < 16.
Proof.
  pose proof (Byte.to_N_bounded b). split; [|by apply N.mod_lt].
  apply N.Div0.div_lt_upper_bound. lia.
Qed.

Lemma hex_encode_length l : String.length (hex_encode l) = (2 * length l)%nat.
Proof. induction l as [|b l IH]; simpl; [done|]. rewrite IH. lia. Qed.

Lemma hex_encode_inj l1 l2 : hex_encode l1 = hex_encode l2 → l1 = l2.
Proof.
  induction l1 as [|b1 l1 IH] in l2 |- *; destruct l2 as [|b2 l2]; simpl; intros H; try done.
  injection H as Hd Hm H. f_equal; [|by apply IH]. apply to_N_inj.
  destruct (hex_digits_of_byte b1) as [D1 M1], (hex_digits_of_byte b2) as [D2 M2].
  apply (f_equal hex_value) in Hd, Hm.
  rewrite (proj1 (hex_digit_facts _ D1)), (proj1 (hex_digit_facts _ D2)) in Hd.
  rewrite (proj1 (hex_digit_facts _ M1)), (proj1 (hex_digit_facts _ M2)) in Hm.
  injection Hd as Hd. injection Hm as Hm.
  rewrite (N.div_mod (Byte.to_N b1) 16), (N.div_mod (Byte.to_N b2) 16) by lia. congruence.
Qed.

Lemma split_once_hex c l s :
  c = NUL ∨ c = COLON → split_once c (hex_encode l +:+ String c s) = Some (hex_encode l, s).
Proof.
  intros Hc. induction l as [|b l IH]; simpl; [by rewrite bool_decide_true|].
  destruct (hex_digits_of_byte b) as [HD HM].
  destruct (hex_digit_facts _ HD) as (_&_&?&?), (hex_digit_facts _ HM) as (_&_&?&?).
  rewrite !bool_decide_false by (destruct Hc; subst; congruence). by rewrite IH.
Qed.

Lemma of_le_bytes_app l1 l2 :
  of_le_bytes (l1 ++ l2) = of_le_bytes l1 + 256 ^ N.of_nat (length l1) * of_le_bytes l2.
Proof.
  induction l1 as [|b l1 IH]; cbn [of_le_bytes app length]; [simpl; lia|].
  rewrite IH, Nat2N.inj_succ, N.pow_succ_r by lia. lia.
Qed.

Lemma of_be_bytes_cons b l :
  of_be_bytes (b :: l) = Byte.to_N b * 256 ^ N.of_nat (length l) + of_be_bytes l.
Proof.
  unfold of_be_bytes. rewrite reverse_cons, of_le_bytes_app, length_reverse.
  cbn [of_le_bytes]. lia.
Qed.

Lemma radix16_hex_encode max acc l :
  acc * 256 ^ N.of_nat (length l) + of_be_bytes l ≤ max →
  radix16_digits max acc (hex_encode l) =
  Some (acc * 256 ^ N.of_nat (length l) + of_be_bytes l).
Proof.
  induction l as [|b l IH] in acc |- *; intros Hmax.
  { simpl. f_equal. cbn. lia. }
  rewrite of_be_bytes_cons in *. cbn [length] in *.
  rewrite Nat2N.inj_succ, N.pow_succ_r in * by lia.
  destruct (hex_digits_of_byte b) as [HD HM]. simpl.
  rewrite (proj1 (hex_digit_facts _ HD)), (proj1 (hex_digit_facts _ HM)). simpl.
  pose proof (N.div_mod (Byte.to_N b) 16 ltac:(done)) as Hb.
  assert (256 ^ N.of_nat (length l) ≠ 0) as HP by (by apply N.pow_nonzero).
  assert (acc * 256 + Byte.to_N b ≤ max) by nia.
  set (q := Byte.to_N b / 16) in *. set (r := Byte.to_N b mod 16) in *.
  clearbody q r.
  rewrite (proj2 (N.ltb_ge max (acc * 16 + q))) by lia.
  rewrite (proj2 (N.ltb_ge max _)) by lia.
  replace ((acc * 16 + q) * 16 + r)
    with (acc * 256 + Byte.to_N b) by lia.
  rewrite IH by lia. f_equal. lia.
Qed.

Lemma from_str_radix16_hex max b1 l :
  of_be_bytes (b1 :: l) ≤ max →
  from_str_radix16 max (hex_encode (b1 :: l)) = Some (of_be_bytes (b1 :: l)).
Proof.
  intros Hmax. unfold from_str_radix16.
  destruct (hex_digits_of_byte b1) as [HD _].
  destruct (hex_digit_facts _ HD) as (_&Hp&_).
  change (hex_encode (b1 :: l)) with
    (String (hex_digit (Byte.to_N b1 / 16))
       (String (hex_digit (Byte.to_N b1 mod 16)) (hex_encode l))) at 1.
  cbv iota. rewrite bool_decide_false by done.
  rewrite radix16_hex_encode by lia. f_equal.
Qed.

Lemma u64_from_radix16_fmt n : n ≤ U64_MAX → u64_from_radix16 (fmt_016x n) = Ok n.
Proof.
  intros Hn. unfold u64_from_radix16, fmt_016x.
  destruct (be_bytes 8 n) as [|b l] eqn:Hb.
  { pose proof (be_bytes_length 8 n) as Hl. by rewrite Hb in Hl. }
  assert (of_be_bytes (b :: l) = n) as Hv by (rewrite <-Hb; eauto using of_be_bytes_be with fluxfs).
  rewrite from_str_radix16_hex by lia. by rewrite Hv.
Qed.

Lemma fmt_016x_length n : String.length (fmt_016x n) = 16%nat.
Proof. unfold fmt_016x. by rewrite hex_encode_length, be_bytes_length. Qed.

Lemma fmt_016x_inj a b : a ≤ U64_MAX → b ≤ U64_MAX → fmt_016x a = fmt_016x b → a = b.
Proof.
  intros Ha Hb H%hex_encode_inj.
  apply (prefix_inj_inj _ _ _ _ (be_bytes_prefix_inj 8)); auto with fluxfs.
Qed.

Lemma fmt_016x_split c n s :
  c = NUL ∨ c = COLON → split_once c (fmt_016x n +:+ String c s) = Some (fmt_016x n, s).
Proof. apply split_once_hex. Qed.

Lemma hex_pairs_encode l : hex_pairs (hex_encode l) = Some l.
Proof.
  induction l as [|b l IH]; [done|]. cbn [hex_encode hex_pairs].
  assert (from_str_radix16 255 (String (hex_digit (Byte.to_N b / 16))
    (String (hex_digit (Byte.to_N b mod 16)) "")) = Some (Byte.to_N b)) as ->.
  { assert (of_be_bytes [b] = Byte.to_N b) as Hb by (cbn; lia).
    change (from_str_radix16 255 (hex_encode [b]) = Some (Byte.to_N b)).
    rewrite from_str_radix16_hex; rewrite Hb; [done|]. pose proof (Byte.to_N_bounded b). lia. }
  simpl. rewrite IH. simpl. by rewrite byte_of_to_N.
Qed.

Lemma str_app_assoc a b c : (a +:+ b) +:+ c = a +:+ (b +:+ c).
Proof. induction a as [|x a IH]; [done|]. exact (f_equal (String x) IH). Qed.

Lemma starts_with_app p s : starts_with p (p +:+ s) = true.
Proof. unfold starts_with. by rewrite strip_prefix_app. Qed.

Lemma starts_with_split p s : starts_with p s = true → ∃ r, s = p +:+ r.
Proof.
  unfold starts_with. destruct (strip_prefix p s) eqn:H; [|done]. eauto using strip_prefix_Some.
Qed.

Lemma str_length_app a b : String.length (a +:+ b) = (String.length a + String.length b)%nat.
Proof. induction a; simpl; auto. Qed.

Lemma dentry_prefix_length p : String.length (dentry_prefix p) = 17%nat.
Proof. unfold dentry_prefix. by rewrite str_length_app, fmt_016x_length. Qed.

Lemma dentry_prefix_inj p q :
  p ≤ U64_MAX → q ≤ U64_MAX → dentry_prefix p = dentry_prefix q → p = q.
Proof.
  intros ?? H. unfold dentry_prefix in H.
  apply str_app_inj_len in H as [H _]; [|by rewrite !fmt_016x_length]. by apply fmt_016x_inj.
Qed.

(** A session that passes validation contains no separator. *)
Lemma validate_session_id_ok s :
  validate_session_id s = Ok tt → s ≠ "" ∧ str_len s ≤ 128.
Proof.
  unfold validate_session_id. case_bool_decide; [done|].
  destruct (N.ltb_spec 128 (str_len s)); [done|]. done.
Qed.

(** ** Properties *)

(** The directory index is faithful: within [u64] ids, a dentry key
    determines parent and name, and a scan of the prefix of [p] meets the key
    of an entry of [q] exactly when [p = q], whatever bytes the names hold. *)
Theorem dentry_key_faithful p q n m :
  p ≤ U64_MAX → q ≤ U64_MAX →
  (dentry_key p n = dentry_key q m ↔ p = q ∧ n = m) ∧
  (starts_with (dentry_prefix p) (dentry_key q m) = true ↔ p = q).
Proof.
  intros Hp Hq. assert (∀ a b, dentry_prefix p +:+ a = dentry_prefix q +:+ b → p = q ∧ a = b) as Hinj.
  { intros a b H. apply str_app_inj_len in H as [H ->]; [|by rewrite !dentry_prefix_length].
    split; [by apply dentry_prefix_inj|done]. }
  unfold dentry_key. split; split.
  - apply Hinj.
  - by intros [-> ->].
  - intros [r Hr]%starts_with_split. symmetry in Hr. by apply Hinj in Hr as [-> _].
  - intros ->. apply starts_with_app.
Qed.

Lemma dentry_key_faithful_witness :
  (dentry_key 1 "a" = dentry_key 2 "a" ↔ 1 = 2 ∧ "a" = "a") ∧
  (starts_with (dentry_prefix 1) (dentry_key 2 "a") = true ↔ 1 = 2).
Proof. apply (dentry_key_faithful 1 2 "a" "a"); by vm_compute. Defined.

(** Every key that is parsed back when a snapshot is taken or installed
    round-trips: xattr keys, open-presence keys of valid sessions and the
    hexadecimal chunk ids of tombstone keys. *)
Theorem key_parsers_roundtrip inode name session chunk :
  inode ≤ U64_MAX → chunk < 256 ^ 32 → validate_session_id session = Ok tt →
  parse_xattr_key (xattr_key inode name) = Ok (inode, name) ∧
  parse_open_presence_key (open_presence_key inode session) = Ok (inode, session) ∧
  (rest ← strip_prefix TOMBSTONE_PREFIX (tombstone_key chunk);
   Some (chunk_from_hex rest)) = Some (Ok chunk).
Proof.
  intros Hi Hc Hs. split_and!.
  - unfold parse_xattr_key, xattr_key, xattr_prefix.
    rewrite str_app_assoc. change (String NUL "" +:+ name) with (String NUL name).
    rewrite fmt_016x_split by auto. simpl.
    by rewrite u64_from_radix16_fmt.
  - unfold parse_open_presence_key, open_presence_key, open_presence_inode_prefix.
    rewrite !str_app_assoc, strip_prefix_app. cbn [ok_or mbind result_bind].
    change (":" +:+ session) with (String COLON session).
    rewrite fmt_016x_split by auto. simpl. rewrite u64_from_radix16_fmt by done. simpl.
    by rewrite Hs.
  - unfold tombstone_key. rewrite strip_prefix_app. simpl. do 2 f_equal.
    unfold chunk_from_hex, to_hex, str_len. rewrite hex_encode_length, be_bytes_length.
    simpl. rewrite hex_pairs_encode. simpl. by rewrite of_be_bytes_be.
Qed.

Lemma key_parsers_roundtrip_witness :
  parse_xattr_key (xattr_key 7 "user.a") = Ok (7, "user.a") ∧
  parse_open_presence_key (open_presence_key 7 "mount-1") = Ok (7, "mount-1") ∧
  (rest ← strip_prefix TOMBSTONE_PREFIX (tombstone_key 255);
   Some (chunk_from_hex rest)) = Some (Ok 255).
Proof. apply (key_parsers_roundtrip 7 "user.a" "mount-1" 255); by vm_compute. Defined.
