(* ===== verification/ChunkStore.v ===== *)
(** * Chunk stores ([crates/chunk/src/store.rs])

    The contract between the clients of a chunk store and its
    implementations, and the paged inventory that garbage collection reads. *)

From S2P Require Import Prelude Types Bytes.

Local Open Scope N_scope.

(** ** The contract

    [ChunkStore] is a content-addressed store: [put] returns the hash of the
    data and makes it readable, [delete] removes one chunk, and neither
    disturbs the others.  [cs_room] is the condition under which an
    implementation can take another chunk. *)

Class ChunkStore (hash : bytes → ChunkId) (St : Type) := {
  cs_put : bytes → txn St FluxError ChunkId;
  cs_get : St → ChunkId → Result bytes;
  cs_delete : ChunkId → txn St FluxError unit;
  cs_list : St → Result (list ChunkId);
  cs_wf : St → Prop;
  cs_room : St → bytes → Prop;
  cs_put_law s data :
    cs_wf s → cs_room s data →
    ∃ s', cs_put data s = (Ok (hash data), s') ∧ cs_wf s' ∧
          cs_get s' (hash data) = Ok data ∧
          ∀ id, id ≠ hash data → cs_get s' id = cs_get s id;
  cs_get_law s id data : cs_wf s → cs_get s id = Ok data → hash data = id;
  cs_delete_law s id :
    cs_wf s → ∃ s', cs_delete id s = (Ok tt, s') ∧ cs_wf s' ∧
                    (∃ e, cs_get s' id = Err e) ∧
                    ∀ id', id' ≠ id → cs_get s' id' = cs_get s id';
  cs_list_law s :
    cs_wf s → ∃ l, cs_list s = Ok l ∧ ∀ id, id ∈ l ↔ ∃ data, cs_get s id = Ok data
}.

(** ** Paged inventory *)

Record ChunkPage := mkChunkPage { cp_chunks : list ChunkId; cp_next_cursor : option ChunkId }.

Definition PAGE_LIMIT_ZERO : FluxError :=
  InvalidArg "chunk inventory page limit must be non-zero".

(** [cursor.is_none_or(|cursor| *chunk > cursor)]. *)
Definition after_cursor (cursor : option ChunkId) (chunk : ChunkId) : bool :=
  match cursor with None => true | Some c => c <? chunk end.

(** The page computed from a sorted, duplicate-free inventory. *)
Definition page_of (chunks : list ChunkId) (cursor : option ChunkId) (limit : N) : ChunkPage :=
  let page := take (N.to_nat (sat_add limit 1)) (filter (λ c, after_cursor cursor c = true) chunks) in
  let has_more := limit <? N.of_nat (length page) in
  let page := take (N.to_nat limit) page in
  mkChunkPage page (if has_more then last page else None).

(** [ChunkStore::list_chunks_page]. *)
Definition list_chunks_page (listed : Result (list ChunkId)) (cursor : option ChunkId) (limit : N) :
    Result ChunkPage :=
  if limit =? 0 then Err PAGE_LIMIT_ZERO else
  chunks ← listed;
  Ok (page_of (sort_dedup chunks) cursor limit).

(** The loop of [RemoteReplicatedChunkStore::list_chunks]: ask for pages until
    there is no next cursor. *)
Fixpoint walk (fuel : nat) (listed : Result (list ChunkId)) (cursor : option ChunkId) (limit : N) :
    option (Result (list ChunkId)) :=
  match fuel with
  | O => None
  | S fuel =>
      match list_chunks_page listed cursor limit with
      | Err e => Some (Err e)
      | Ok page =>
          match cp_next_cursor page with
          | None => Some (Ok (cp_chunks page))
          | Some c =>
              match walk fuel listed (Some c) limit with
              | Some (Ok rest) => Some (Ok (cp_chunks page ++ rest))
              | r => r
              end
          end
      end
  end.

(** ** Properties *)

Lemma sorted_filter_drop (rest : list N) k c :
  StronglySorted N.lt rest → last (take (S k) rest) = Some c →
  filter (λ x, (c <? x) = true) rest = drop (S k) rest.
Proof.
  intros Hs Hl. rewrite <-(take_drop (S k) rest) at 1. rewrite filter_app.
  assert (c ∈ take (S k) rest) as Hc by (by apply last_Some_elem_of).
  rewrite (filter_none _ (take (S k) rest)), (filter_all _ (drop (S k) rest)); [done| |].
  - intros x Hx. apply N.ltb_lt. rewrite <-(take_drop (S k) rest) in Hs.
    by eapply StronglySorted_app_1_elem_of.
  - intros x Hx. apply last_Some in Hl as [l Hl]. rewrite Hl in Hx.
    rewrite <-(take_drop (S k) rest), Hl, <-app_assoc in Hs.
    apply elem_of_app in Hx as [Hx|Hx%list_elem_of_singleton]; bools; rewrite N.ltb_lt; [|lia].
    assert (x < c); [|lia].
    eapply StronglySorted_app_1_elem_of; [exact Hs|done|set_solver].
Qed.

Lemma after_cursor_suffix (chunks : list N) cursor c :
  after_cursor cursor c = true →
  filter (λ x, after_cursor (Some c) x = true) (filter (λ x, after_cursor cursor x = true) chunks) =
  filter (λ x, after_cursor (Some c) x = true) chunks.
Proof.
  intros Hc. rewrite list_filter_filter. apply list_filter_iff. intros x.
  destruct cursor as [c0|]; simpl in *; bools; rewrite ?N.ltb_lt in *; intuition lia.
Qed.

Lemma walk_from l limit fuel cursor :
  0 < limit < U64_MAX →
  let rest := filter (λ x, after_cursor cursor x = true) (sort_dedup l) in
  (length rest < fuel)%nat → walk fuel (Ok l) cursor limit = Some (Ok rest).
Proof.
  intros Hlim. revert cursor. induction fuel as [|fuel IH]; intros cursor rest Hlen; [lia|].
  assert (StronglySorted N.lt rest) as Hs by (apply StronglySorted_filter, sort_dedup_sorted).
  cbn [walk]. unfold list_chunks_page. destruct (N.eqb_spec limit 0) as [|_]; [lia|]. cbn -[filter].
  fold rest. rewrite take_take, sat_add_small, Nat.min_l by lia.
  rewrite length_take. destruct (N.ltb_spec limit (N.of_nat (N.to_nat (limit + 1) `min` length rest))%N) as [Hmore|].
  2: { by rewrite take_ge by lia. }
  destruct (N.to_nat limit) as [|k] eqn:Hk; [lia|].
  destruct (last (take (S k) rest)) as [c|] eqn:Hc.
  2: { apply last_None in Hc. apply (f_equal length) in Hc. rewrite length_take in Hc. cbn [length] in Hc. lia. }
  assert (after_cursor cursor c = true) as Hac.
  { apply last_Some_elem_of, elem_of_take in Hc as (i&Hc&_).
    apply list_elem_of_lookup_2 in Hc. by apply list_elem_of_filter in Hc as [? _]. }
  rewrite IH; rewrite <-(after_cursor_suffix (sort_dedup l) cursor c Hac); fold rest;
    cbn [after_cursor]; rewrite (sorted_filter_drop rest k c) by done.
  - by rewrite take_drop.
  - rewrite length_drop. lia.
Qed.

(** Paging loses nothing and repeats nothing: the loop that asks for
    pages of any non-zero size until there is no next cursor stops after at
    most one page per chunk and has then collected exactly the inventory,
    sorted and without duplicates. *)
Theorem paging_complete l limit fuel :
  0 < limit < U64_MAX → (length (sort_dedup l) < fuel)%nat →
  walk fuel (Ok l) None limit = Some (Ok (sort_dedup l)).
Proof.
  intros Hlim Hfuel.
  assert (filter (λ x, after_cursor None x = true) (sort_dedup l) = sort_dedup l) as Hall
    by (by apply filter_all).
  rewrite (walk_from l limit fuel None Hlim); rewrite Hall; done.
Qed.

Lemma paging_complete_witness :
  0 < 2 < U64_MAX ∧ walk 6 (Ok [9; 4; 7; 4; 1; 8]) None 2 = Some (Ok [1; 4; 7; 8; 9]).
Proof.
  split; [done|]. apply (paging_complete [9; 4; 7; 4; 1; 8] 2 6 ltac:(done)).
  vm_compute. lia.
Defined.
