(* ===== verification/Pack.v ===== *)
(** * Pack segments ([crates/chunk/src/pack.rs])

    The durable chunk store of a worker: append-only segment files of framed
    records and an index [ChunkId → {segment, offset, len}].  The model keeps
    the bytes of every segment file; [hash] is [ChunkId::from_bytes] (blake3,
    a library), of which only the 32-byte width of its result is used.  File
    operations succeed except where the code itself makes them fail (a missing
    segment, a short read). *)

From S2P Require Import Prelude Types Bytes ChunkStore.

Local Open Scope N_scope.

Definition RECORD_MAGIC : N := 1180191537.
Definition DEFAULT_SEGMENT_ROLL_BYTES : N := 256 * 1024 * 1024.
Definition HEADER_LEN : nat := 40.

Record IndexEntry := mkIndexEntry { ie_segment : N; ie_offset : N; ie_len : N }.
#[export] Instance IndexEntry_eq_dec : EqDecision IndexEntry.
Proof. solve_decision. Defined.

(** The disk state: [pk_active] and [pk_next] are the two counters of the
    index environment's meta table, [pk_objects] the legacy [objects/] tree
    (its depth-three regular files with their path components), if it is
    there. *)
Record PackStore := mkPackStore {
  pk_segments : gmap N bytes;
  pk_index : gmap ChunkId IndexEntry;
  pk_active : option N;
  pk_next : option N;
  pk_objects : option (list (string * string * string * bytes));
  pk_roll : N
}.

Definition set_segments (m : gmap N bytes) (s : PackStore) : PackStore :=
  mkPackStore m (pk_index s) (pk_active s) (pk_next s) (pk_objects s) (pk_roll s).
Definition set_index (m : gmap ChunkId IndexEntry) (s : PackStore) : PackStore :=
  mkPackStore (pk_segments s) m (pk_active s) (pk_next s) (pk_objects s) (pk_roll s).
Definition set_objects o (s : PackStore) : PackStore :=
  mkPackStore (pk_segments s) (pk_index s) (pk_active s) (pk_next s) o (pk_roll s).
Definition put_u64_meta (active next : N) (s : PackStore) : PackStore :=
  mkPackStore (pk_segments s) (pk_index s) (Some active) (Some next) (pk_objects s) (pk_roll s).

Abbreviation P := (txn PackStore FluxError).

(** ** Files *)

Definition EOF : FluxError := Io "failed to fill whole buffer".
Definition ENOENT : FluxError := Io "No such file or directory (os error 2)".

(** [file.seek(SeekFrom::Start(off))] and [file.read_exact] of [n] bytes. *)
Definition read_exact (file : bytes) (off : N) (n : nat) : Result bytes :=
  let got := take n (drop (N.to_nat off) file) in
  if bool_decide (length got = n) then Ok got else Err EOF.

Definition seg_len (seg : N) (s : PackStore) : N :=
  N.of_nat (length (default [] (pk_segments s !! seg))).

(** [File::create]: an existing file is truncated. *)
Definition create_file (seg : N) (s : PackStore) : PackStore :=
  set_segments (<[seg := []]> (pk_segments s)) s.

Definition append (seg : N) (data : bytes) (s : PackStore) : PackStore :=
  set_segments (<[seg := default [] (pk_segments s !! seg) ++ data]> (pk_segments s)) s.

(** The four [write_all] calls of a record. *)
Definition record_bytes (id : ChunkId) (data : bytes) : bytes :=
  le_bytes 4 RECORD_MAGIC ++ le_bytes 4 (N.of_nat (length data)) ++ be_bytes 32 id ++ data.

Definition u32_len (data : bytes) : Result N :=
  if N.of_nat (length data) <=? U32_MAX then Ok (N.of_nat (length data))
  else Err (InvalidArg "chunk larger than u32::MAX").

Definition read_u64_meta (key : string) (v : option N) : Result N :=
  ok_or (Io ("missing pack meta " +:+ key)) v.

Section pack.
Context (hash : bytes → ChunkId).

(** ** Reading *)

Definition read_record (s : PackStore) (e : IndexEntry) : Result bytes :=
  file ← ok_or ENOENT (pk_segments s !! ie_segment e);
  header ← read_exact file (ie_offset e) HEADER_LEN;
  let magic := of_le_bytes (take 4 header) in
  let len := of_le_bytes (take 4 (drop 4 header)) in
  let stored_id := of_be_bytes (take 32 (drop 8 header)) in
  if negb (magic =? RECORD_MAGIC) || negb (len =? ie_len e)
  then Err (Io "pack record header mismatch") else
  data ← read_exact file (ie_offset e + N.of_nat HEADER_LEN) (N.to_nat len);
  if stored_id =? hash data then Ok data
  else Err (Io "pack record content-hash mismatch").

Definition get_if_valid_unlocked (s : PackStore) (id : ChunkId) : Result (option bytes) :=
  match pk_index s !! id with
  | None => Ok None
  | Some entry =>
      match read_record s entry with
      | Ok data => if hash data =? id then Ok (Some data) else Ok None
      | Err _ => Ok None
      end
  end.

Definition get (s : PackStore) (id : ChunkId) : Result bytes :=
  found ← get_if_valid_unlocked s id; ok_or NotFound found.

Definition contains (s : PackStore) (id : ChunkId) : Result bool :=
  found ← get_if_valid_unlocked s id; Ok (is_some found).

(** ** Writing *)

Definition commit_entry (id : ChunkId) (e : IndexEntry) (next : N) (s : PackStore) : PackStore :=
  put_u64_meta (ie_segment e) next (set_index (<[id := e]> (pk_index s)) s).

Definition put_locked (data : bytes) (id : ChunkId) : P ChunkId :=
  existing ← (λ s, (get_if_valid_unlocked s id, s));
  if bool_decide (existing = Some data) then mret id else
  active ← (λ s, (read_u64_meta "active_segment" (pk_active s), s));
  next_seg ← (λ s, (read_u64_meta "next_segment" (pk_next s), s));
  created_new ← gets (λ s, is_none (pk_segments s !! active));
  _ ← when created_new (modify (create_file active));
  offset ← gets (seg_len active);
  roll ← gets pk_roll;
  '(active, next_seg) ←
    (if roll <=? offset then
       _ ← modify (create_file next_seg); mret (next_seg, sat_add next_seg 1)
     else mret (active, next_seg));
  offset ← gets (seg_len active);
  len ← lift (u32_len data);
  _ ← modify (append active (record_bytes id data));
  _ ← modify (commit_entry id (mkIndexEntry active offset len) next_seg);
  mret id.

Definition put (data : bytes) : P ChunkId := put_locked data (hash data).

Definition delete (id : ChunkId) : P unit :=
  modify (λ s, set_index (base.delete id (pk_index s)) s).

Definition list_chunks (s : PackStore) : Result (list ChunkId) :=
  Ok (sort_dedup (fst <$> filter (λ kv, is_ok (read_record s kv.2) = true)
                          (map_to_list (pk_index s)))).

Definition segment_file_count (s : PackStore) : nat := size (pk_segments s).

(** ** Compaction *)

Record CompactReport := mkCompactReport { live_chunks : nat; removed_segments : nat }.

(** The loop that looks for an unused segment number from [next_segment]. *)
Fixpoint free_segment (fuel : nat) (s : PackStore) (target : N) : option (N * N) :=
  match fuel with
  | O => None
  | S fuel =>
      let next_seg := sat_add target 1 in
      match pk_segments s !! target with
      | None => Some (target, next_seg)
      | Some _ => free_segment fuel s next_seg
      end
  end.

(** The copy loop: every live chunk is appended to the target segment. *)
Fixpoint rewrite_live (target : N) (live : list ChunkId) : P (list (ChunkId * IndexEntry)) :=
  match live with
  | [] => mret []
  | id :: live =>
      found ← (λ s, (get_if_valid_unlocked s id, s));
      data ← lift (ok_or NotFound found);
      offset ← gets (seg_len target);
      len ← lift (u32_len data);
      _ ← modify (append target (record_bytes id data));
      entries ← rewrite_live target live;
      mret ((id, mkIndexEntry target offset len) :: entries)
  end.

Definition replace_index (entries : list (ChunkId * IndexEntry)) (s : PackStore) : PackStore :=
  set_index (foldl (λ m kv, <[kv.1 := kv.2]> m) ∅ entries) s.

(** Unlink every segment file but [target]. *)
Definition unlink_others (target : N) (s : PackStore) : PackStore :=
  set_segments (filter (λ kv, kv.1 = target) (pk_segments s)) s.

(** [compact] with the target segment found. *)
Definition compact_into (target next_seg : N) (live : list ChunkId) : P CompactReport :=
  _ ← modify (create_file target);
  entries ← rewrite_live target live;
  _ ← modify (replace_index entries);
  _ ← modify (put_u64_meta target next_seg);
  n ← gets (λ s, size (pk_segments s));
  _ ← modify (unlink_others target);
  m ← gets (λ s, size (pk_segments s));
  mret (mkCompactReport (length entries) (n - m)).

(** [None] stands for the segment search that does not end: it runs past the
    last number only when every number from [next_segment] up is taken. *)
Definition compact (s : PackStore) : option (Result CompactReport * PackStore) :=
  match list_chunks s, read_u64_meta "next_segment" (pk_next s) with
  | Err e, _ | _, Err e => Some (Err e, s)
  | Ok live, Ok next_seg =>
      '(target, next_seg) ← free_segment (S (size (pk_segments s))) s next_seg;
      Some (compact_into target next_seg live s)
  end.

(** ** Opening *)

(** [hex[..2]], [hex[2..4]] and [hex]. *)
Definition object_path (id : ChunkId) : string * string * string :=
  let hex := hex_encode (be_bytes 32 id) in
  (String.substring 0 2 hex, String.substring 2 2 hex, hex).

(** One object of the legacy tree. *)
Definition migrate_object (o : string * string * string * bytes) : P unit :=
  let id := hash o.2 in
  if negb (bool_decide (o.1 = object_path id)) then mret tt else
  present ← (λ s, (contains s id, s));
  _ ← (if present : bool then mret tt else _ ← put o.2; mret tt);
  modify (λ s, set_objects (filter (λ p, p.1 ≠ o.1) <$> pk_objects s) s).

Definition migrate_legacy_objects : P unit :=
  objects ← gets pk_objects;
  match objects with
  | None => mret tt
  | Some l => _ ← for_each migrate_object l; modify (set_objects None)
  end.

Definition open : P unit :=
  _ ← modify (λ s, match pk_next s with None => put_u64_meta 1 1 s | Some _ => s end);
  _ ← modify (λ s, mkPackStore (pk_segments s) (pk_index s) (pk_active s) (pk_next s)
                      (pk_objects s) DEFAULT_SEGMENT_ROLL_BYTES);
  migrate_legacy_objects.

(** ** Growth

    Appending to a segment, or creating one, disturbs no record that can be
    read. *)

Definition grows (s s' : PackStore) : Prop :=
  ∀ seg f, pk_segments s !! seg = Some f → ∃ x, pk_segments s' !! seg = Some (f ++ x).

#[local] Instance grows_preorder : PreOrder grows.
Proof.
  split.
  - intros s seg f ?. exists []. by rewrite app_nil_r.
  - intros s1 s2 s3 H1 H2 seg f Hf. destruct (H1 _ _ Hf) as [x Hx].
    destruct (H2 _ _ Hx) as [y Hy]. exists (x ++ y). by rewrite assoc_L by apply _.
Qed.

Lemma grows_append seg x s : grows s (append seg x s).
Proof.
  intros seg' f Hf. cbn. destruct (decide (seg' = seg)) as [->|].
  - exists x. by rewrite lookup_insert_eq, Hf.
  - exists []. by rewrite lookup_insert_ne, app_nil_r.
Qed.

Lemma grows_create seg s :
  default [] (pk_segments s !! seg) = [] → grows s (create_file seg s).
Proof.
  intros Hn seg' f Hf. cbn. exists []. rewrite app_nil_r. destruct (decide (seg' = seg)) as [->|].
  - rewrite lookup_insert_eq. rewrite Hf in Hn. by rewrite <-Hn.
  - by rewrite lookup_insert_ne.
Qed.

Lemma read_exact_app file x off n r :
  read_exact file off n = Ok r → read_exact (file ++ x) off n = Ok r.
Proof.
  unfold read_exact. case_bool_decide as Hl; [|done]. intros [= <-].
  rewrite length_take, length_drop in Hl.
  destruct (decide (n = 0%nat)) as [->|]; [by rewrite !take_0|].
  rewrite drop_app_le by lia. rewrite take_app_le by (rewrite length_drop; lia).
  rewrite bool_decide_true; [done|]. rewrite length_take, length_drop. lia.
Qed.

Lemma read_record_grows s s' e data :
  grows s s' → read_record s e = Ok data → read_record s' e = Ok data.
Proof.
  intros Hg. unfold read_record. intros (f&Hf%ok_or_Ok&(h&Hh&H)%bind_Ok)%bind_Ok.
  destruct (Hg _ _ Hf) as [x Hx]. apply bind_Ok. exists (f ++ x). split; [by rewrite Hx|].
  apply bind_Ok. exists h. split; [by apply read_exact_app|].
  case_match; [done|]. apply bind_Ok in H as (d&Hd&H). apply bind_Ok. eauto using read_exact_app.
Qed.

(** ** Well-formedness and the readable chunks *)

(** The counters are there, and every index entry leads to the record of its
    own chunk. *)
Record pack_wf (s : PackStore) : Prop := {
  wf_active : is_Some (pk_active s);
  wf_next : is_Some (pk_next s);
  wf_index id e : pk_index s !! id = Some e → ∃ data, read_record s e = Ok data ∧ hash data = id
}.

(** The room a [put] needs: the length fits [u32], and if the active segment
    is full then the number the roll takes has not been used. *)
Definition pack_room (s : PackStore) (data : bytes) : Prop :=
  N.of_nat (length data) ≤ U32_MAX ∧
  ∀ a n, pk_active s = Some a → pk_next s = Some n → pk_roll s ≤ seg_len a s →
         pk_segments s !! n = None.

Lemma get_hash s id data : get s id = Ok data → hash data = id.
Proof.
  unfold get, get_if_valid_unlocked. destruct (pk_index s !! id); [|done].
  destruct (read_record s _); [|done]. destruct (N.eqb_spec (hash a) id); cbn; [|done].
  by intros [= <-].
Qed.

Lemma get_indexed s id e data :
  pk_index s !! id = Some e → read_record s e = Ok data → hash data = id → get s id = Ok data.
Proof.
  intros He Hr Hd. unfold get, get_if_valid_unlocked. by rewrite He, Hr, Hd, N.eqb_refl.
Qed.

Lemma get_unindexed s id : pk_index s !! id = None → get s id = Err NotFound.
Proof. intros H. unfold get, get_if_valid_unlocked. by rewrite H. Qed.

Lemma get_grows s s' id :
  pack_wf s → grows s s' → pk_index s' !! id = pk_index s !! id → get s' id = get s id.
Proof.
  intros Hwf Hg Hi. destruct (pk_index s !! id) as [e|] eqn:He.
  - destruct (wf_index s Hwf _ _ He) as (data&Hr&Hd).
    rewrite (get_indexed s id e data), (get_indexed s' id e data); eauto using read_record_grows.
  - by rewrite !get_unindexed.
Qed.

Lemma wf_grows s s' :
  pack_wf s → grows s s' → pk_index s' = pk_index s →
  pk_active s' = pk_active s → pk_next s' = pk_next s → pack_wf s'.
Proof.
  intros [Ha Hn Hi] Hg HI HA HN. split; [by rewrite HA|by rewrite HN|].
  intros id e He. rewrite HI in He. destruct (Hi _ _ He) as (d&?&?). eauto using read_record_grows.
Qed.

(** ** Writing *)

Context (hash_width : ∀ data, hash data < 256 ^ N.of_nat 32).

Lemma read_exact_at pre x post off n :
  N.to_nat off = length pre → n = length x → read_exact (pre ++ x ++ post) off n = Ok x.
Proof.
  intros Hoff ->. unfold read_exact. rewrite Hoff, drop_app_length, take_app_length.
  by rewrite bool_decide_true.
Qed.

(** A record that has just been appended reads back. *)
Lemma read_back s seg f data :
  pk_segments s !! seg = Some (f ++ record_bytes (hash data) data) →
  N.of_nat (length data) ≤ U32_MAX →
  read_record s (mkIndexEntry seg (N.of_nat (length f)) (N.of_nat (length data))) = Ok data.
Proof.
  intros Hs Hlen. unfold read_record. cbn [ie_segment ie_offset ie_len]. rewrite Hs.
  apply bind_Ok. exists (f ++ record_bytes (hash data) data). split; [done|].
  set (header := le_bytes 4 RECORD_MAGIC ++ le_bytes 4 (N.of_nat (length data)) ++
                 be_bytes 32 (hash data)).
  assert (record_bytes (hash data) data = header ++ data) as ->
    by (unfold record_bytes, header; by rewrite <-!(assoc_L (++))).
  assert (length header = HEADER_LEN) as Hh.
  { unfold header. by rewrite !length_app, !le_bytes_length, be_bytes_length. }
  apply bind_Ok. exists header. split; [apply read_exact_at; [lia|done]|].
  assert (take 4 header = le_bytes 4 RECORD_MAGIC) as ->.
  { unfold header. by rewrite take_app_length' by (by rewrite le_bytes_length). }
  assert (take 4 (drop 4 header) = le_bytes 4 (N.of_nat (length data))) as ->.
  { unfold header. rewrite drop_app_length' by (by rewrite le_bytes_length).
    by rewrite take_app_length' by (by rewrite le_bytes_length). }
  assert (take 32 (drop 8 header) = be_bytes 32 (hash data)) as ->.
  { unfold header. rewrite (assoc_L (++)), drop_app_length'
      by (by rewrite length_app, !le_bytes_length). rewrite take_ge; [done|].
    by rewrite be_bytes_length. }
  rewrite !of_le_bytes_le by (by apply u32_width).
  rewrite of_be_bytes_be by done. rewrite !N.eqb_refl. cbn [negb orb].
  apply bind_Ok. exists data. split; [|by rewrite N.eqb_refl].
  rewrite <-(app_nil_r (f ++ _)), <-!(assoc_L (++)), (assoc_L (++)).
  apply read_exact_at; [|lia]. rewrite length_app, Hh. lia.
Qed.

Lemma get_not s id data :
  get s id ≠ Ok data → ∃ o, get_if_valid_unlocked s id = Ok o ∧ o ≠ Some data.
Proof.
  unfold get, get_if_valid_unlocked. intros Hget.
  destruct (pk_index s !! id); [|by eauto]. destruct (read_record s i); [|by eauto].
  destruct (hash a =? id); [|by eauto]. cbn in Hget. eexists; split; [done|congruence].
Qed.

(** What [put_locked] does when the chunk has to be written and there is
    room. *)
Lemma put_appends s data :
  pack_wf s → pack_room s data → get s (hash data) ≠ Ok data →
  ∃ s1 seg f next,
    grows s s1 ∧ pk_index s1 = pk_index s ∧ pk_segments s1 !! seg = Some f ∧
    put data s = (Ok (hash data),
      commit_entry (hash data)
        (mkIndexEntry seg (N.of_nat (length f)) (N.of_nat (length data))) next
        (append seg (record_bytes (hash data) data) s1)).
Proof.
  intros [[a Ha] [n Hn] _] [Hlen Hroom] Hget. specialize (Hroom a n Ha Hn).
  assert (u32_len data = Ok (N.of_nat (length data))) as Hu.
  { unfold u32_len. by rewrite (proj2 (N.leb_le _ _)). }
  set (s0 := if is_none (pk_segments s !! a) then create_file a s else s).
  assert (grows s s0 ∧ pk_index s0 = pk_index s ∧ pk_roll s0 = pk_roll s ∧ seg_len a s0 = seg_len a s
          ∧ ∃ f, pk_segments s0 !! a = Some f) as (Hg0&Hi0&Hr0&Hl0&f0&Hf0).
  { unfold s0. destruct (pk_segments s !! a) as [f|] eqn:Hf; cbn; [split_and!; eauto; reflexivity|].
    split_and!; [by apply grows_create; rewrite Hf|done|done| |].
    - unfold seg_len. cbn. by rewrite lookup_insert_eq, Hf.
    - eexists. apply lookup_insert_eq. }
  destruct (get_not s (hash data) data Hget) as (o&Ho&Hod).
  assert (put data s =
    ((if pk_roll s <=? seg_len a s0 then
       _ ← modify (create_file n); mret (n, sat_add n 1)
     else mret (a, n)) ≫= λ '(active, next_seg),
    offset ← gets (seg_len active);
    _ ← modify (append active (record_bytes (hash data) data));
    _ ← modify (commit_entry (hash data) (mkIndexEntry active offset (N.of_nat (length data))) next_seg);
    mret (M:=P) (hash data)) s0) as ->.
  { unfold put, put_locked. rewrite (txn_bind_ok _ _ s o s) by (by rewrite Ho).
    rewrite bool_decide_false by done. rewrite (txn_bind_ok _ _ s a s) by (by rewrite Ha).
    rewrite (txn_bind_ok _ _ s n s) by (by rewrite Hn). erewrite txn_bind_ok by done.
    rewrite (txn_bind_ok _ _ s tt s0) by (by unfold s0; destruct (is_none _)).
    erewrite txn_bind_ok by done. rewrite (txn_bind_ok _ _ s0 (pk_roll s) s0) by (unfold gets; by rewrite Hr0).
    unfold lift. rewrite Hu. by destruct (pk_roll s <=? seg_len a s0). }
  rewrite Hl0. destruct (N.leb_spec (pk_roll s) (seg_len a s)) as [Hroll|_].
  - specialize (Hroom Hroll). exists (create_file n s0), n, [], (sat_add n 1). split_and!.
    + etrans; [done|]. apply grows_create. unfold s0.
      destruct (is_none _) eqn:Hnone; [|by rewrite Hroom]. cbn.
      destruct (decide (n = a)) as [->|]; [by rewrite lookup_insert_eq|].
      by rewrite lookup_insert_ne, Hroom.
    + done.
    + cbn. by rewrite lookup_insert_eq.
    + unfold mbind, txn_bind, gets, modify. cbn -[append create_file seg_len]. unfold seg_len at 1. cbn -[append].
      by rewrite lookup_insert_eq.
  - exists s0, a, f0, n. split_and!; [done..|].
    unfold mbind, txn_bind, gets, modify. cbn -[append create_file seg_len].
    unfold seg_len at 1. by rewrite Hf0.
Qed.

Lemma put_law s data :
  pack_wf s → pack_room s data →
  ∃ s', put data s = (Ok (hash data), s') ∧ pack_wf s' ∧ get s' (hash data) = Ok data ∧
        ∀ id, id ≠ hash data → get s' id = get s id.
Proof.
  intros Hwf Hroom. destruct (decide (get s (hash data) = Ok data)) as [Hg|Hg].
  { exists s. split_and!; [|done..]. unfold put, put_locked, get in *.
    apply bind_Ok in Hg as (o&Ho&Hd%ok_or_Ok). rewrite (txn_bind_ok _ _ s o s) by (by rewrite Ho).
    by rewrite bool_decide_true. }
  destruct (put_appends s data Hwf Hroom Hg) as (s1&seg&f&next&Hgr&Hi&Hf&->).
  set (e := mkIndexEntry seg _ _). set (s2 := append _ _ s1).
  assert (grows s s2) as Hg2 by (etrans; [done|]; apply grows_append).
  assert (read_record (commit_entry (hash data) e next s2) e = Ok data) as Hback.
  { apply (read_back _ seg f); [|apply Hroom]. cbn. by rewrite lookup_insert_eq, Hf. }
  assert (grows s (commit_entry (hash data) e next s2)) as Hg3 by exact Hg2.
  eexists. split_and!; [done| | |].
  - split; [done|done|]. intros id e'. cbn. destruct (decide (id = hash data)) as [->|].
    + rewrite lookup_insert_eq. intros [= <-]. eauto.
    + rewrite lookup_insert_ne, Hi by done. intros He.
      destruct (wf_index s Hwf _ _ He) as (d&Hr&?). exists d. split; [|done].
      by apply (read_record_grows s).
  - eapply get_indexed; [apply lookup_insert_eq|done|done].
  - intros id Hid. apply get_grows; [done..|]. cbn. by rewrite lookup_insert_ne, Hi by done.
Qed.

Lemma delete_law s id :
  pack_wf s →
  ∃ s', delete id s = (Ok tt, s') ∧ pack_wf s' ∧ get s' id = Err NotFound ∧
        ∀ id', id' ≠ id → get s' id' = get s id'.
Proof.
  intros Hwf. eexists. split; [done|]. split_and!.
  - destruct Hwf as [? ? Hi]. split; [done|done|]. intros id' e. cbn.
    rewrite lookup_delete_Some. intros [_ He]. apply (Hi _ _ He).
  - apply get_unindexed. cbn. apply lookup_delete_eq.
  - intros id' Hne. apply get_grows; [done|change (grows s s); reflexivity|].
    cbn. by rewrite lookup_delete_ne.
Qed.

Lemma elem_of_list_chunks s :
  pack_wf s → ∃ l, list_chunks s = Ok l ∧ StronglySorted N.lt l ∧
                   ∀ id, id ∈ l ↔ ∃ data, get s id = Ok data.
Proof.
  intros Hwf. eexists. split; [done|]. split; [apply sort_dedup_sorted|].
  intros id. rewrite elem_of_sort_dedup, list_elem_of_fmap. split.
  - intros ((id'&e)&->&[_ He%elem_of_map_to_list]%list_elem_of_filter).
    destruct (wf_index s Hwf _ _ He) as (d&?&?). eauto using get_indexed.
  - intros (d&Hd). destruct (pk_index s !! id) as [e|] eqn:He;
      [|by rewrite get_unindexed in Hd].
    exists (id, e). split; [done|]. apply list_elem_of_filter. rewrite elem_of_map_to_list.
    split; [|done]. destruct (wf_index s Hwf _ _ He) as (d'&Hr&_). cbn. by rewrite Hr.
Qed.

Lemma get_cases s id : get s id = Err NotFound ∨ ∃ data, get s id = Ok data.
Proof.
  unfold get, get_if_valid_unlocked. destruct (pk_index s !! id); [|by left].
  destruct (read_record s _); [|by left]. destruct (hash a =? id); [right|left]; cbn; eauto.
Qed.

Lemma read_record_len s e data :
  read_record s e = Ok data → N.of_nat (length data) ≤ U32_MAX.
Proof.
  unfold read_record. intros (f&_&(h&_&H)%bind_Ok)%bind_Ok. case_match; [done|].
  apply bind_Ok in H as (d&Hd&H). case_match; simplify_eq. unfold read_exact in Hd.
  case_bool_decide as Hl; simplify_eq. rewrite Hl, N2Nat.id.
  set (l := take 4 (drop 4 h)). pose proof (of_le_bytes_bound l) as Hb.
  assert (length l ≤ 4)%nat by (apply firstn_le_length).
  assert (256 ^ N.of_nat (length l) ≤ 256 ^ 4) by (apply N.pow_le_mono_r; lia).
  change (256 ^ 4) with (U32_MAX + 1) in *. lia.
Qed.

(** ** Compaction *)

(** Segment numbers stay below the end of their range. *)
Definition numbered (s : PackStore) : Prop :=
  (∀ n, pk_next s = Some n → n < U64_MAX) ∧
  (∀ seg, is_Some (pk_segments s !! seg) → seg + 1 < U64_MAX).

Lemma free_segment_found s fuel t :
  (∀ seg, is_Some (pk_segments s !! seg) → seg + 1 < U64_MAX) → t < U64_MAX →
  (size (filter (λ kv, (t ≤ kv.1)%N) (pk_segments s)) < fuel)%nat →
  ∃ t', free_segment fuel s t = Some (t', t' + 1) ∧ t' < U64_MAX ∧ pk_segments s !! t' = None.
Proof.
  intros Hs. revert t. induction fuel as [|fuel IH]; intros t Ht Hsz; [lia|].
  cbn [free_segment]. rewrite sat_add_small by lia. destruct (pk_segments s !! t) as [f|] eqn:Hf.
  2: { by exists t. }
  apply IH; [apply Hs; by rewrite Hf|].
  assert (filter (λ kv, t ≤ kv.1) (pk_segments s) =
          <[t := f]> (filter (λ kv, t + 1 ≤ kv.1) (pk_segments s))) as Heq.
  { apply map_eq. intros k. destruct (decide (k = t)) as [->|].
    - rewrite lookup_insert_eq. apply map_lookup_filter_Some. split; [done|cbn; lia].
    - rewrite lookup_insert_ne by done. apply option_eq. intros x.
      rewrite !map_lookup_filter_Some. cbn. intuition lia. }
  rewrite Heq, map_size_insert_None in Hsz; [lia|].
  apply map_lookup_filter_None. right. intros x _. cbn. lia.
Qed.

(** The copy loop copies every chunk it is given. *)
Lemma rewrite_live_spec target live s :
  pack_wf s → is_Some (pk_segments s !! target) →
  (∀ id, id ∈ live → ∃ data, get s id = Ok data) →
  ∃ entries s', rewrite_live target live s = (Ok entries, s') ∧
    grows s s' ∧ pk_index s' = pk_index s ∧ dom (pk_segments s') = dom (pk_segments s) ∧
    pk_roll s' = pk_roll s ∧ entries.*1 = live ∧
    (∀ id e, (id, e) ∈ entries →
       ie_segment e = target ∧ ∃ data, get s id = Ok data ∧ read_record s' e = Ok data).
Proof.
  revert s. induction live as [|id live IH]; intros s Hwf [f Hf] Hlive.
  { exists [], s. split_and!; try done. intros ? ?. by rewrite elem_of_nil. }
  destruct (Hlive id) as [data Hdata]; [left|]. pose proof Hdata as Hd.
  apply bind_Ok in Hd as (o&Ho&->%ok_or_Ok).
  assert (hash data = id) as <- by (by apply get_hash in Hdata).
  assert (N.of_nat (length data) ≤ U32_MAX) as Hlen.
  { unfold get_if_valid_unlocked in Ho. destruct (pk_index s !! _); [|done].
    destruct (read_record s _) eqn:Hr; [|done]. destruct (hash a =? _); simplify_eq.
    by apply read_record_len in Hr. }
  set (s1 := append target (record_bytes (hash data) data) s).
  assert (grows s s1) as Hg1 by apply grows_append.
  assert (pack_wf s1) as Hwf1 by (by apply (wf_grows s)).
  destruct (IH s1) as (entries&s'&Hrw&Hg&Hi&Hdom&Hro&Hkeys&Hent); [done| |intros id' Hid'|].
  { cbn. rewrite lookup_insert_eq. eauto. }
  { destruct (Hlive id') as [d Hd]; [by right|]. exists d. by rewrite (get_grows s). }
  eexists (_ :: entries), s'. cbn [rewrite_live]. split_and!.
  - erewrite txn_bind_ok by (by rewrite Ho). erewrite txn_bind_ok by done.
    erewrite txn_bind_ok by done. rewrite (txn_bind_ok _ _ s (N.of_nat (length data)) s).
    2: { unfold lift, u32_len. by rewrite (proj2 (N.leb_le _ _)). }
    erewrite txn_bind_ok by done. erewrite txn_bind_ok by exact Hrw. done.
  - by etrans.
  - done.
  - rewrite Hdom. cbn. rewrite dom_insert_L.
    apply elem_of_dom_2 in Hf. set_solver.
  - done.
  - cbn. by rewrite Hkeys.
  - intros id' e [[= -> ->]|He]%elem_of_cons.
    + split; [done|]. exists data. split; [done|]. apply (read_record_grows s1); [done|].
      unfold seg_len. rewrite Hf. apply (read_back s1 target f data); [|done].
      cbn. by rewrite lookup_insert_eq, Hf.
    + destruct (Hent _ _ He) as (?&d&Hd&?). split; [done|]. exists d. split; [|done].
      rewrite <-Hd. symmetry. by apply get_grows.
Qed.

Lemma foldl_insert_lookup (entries : list (ChunkId * IndexEntry)) (m : gmap ChunkId IndexEntry) id e :
  NoDup (entries.*1) →
  foldl (λ m kv, <[kv.1 := kv.2]> m) m entries !! id = Some e ↔
  (id, e) ∈ entries ∨ ((id ∉ entries.*1) ∧ m !! id = Some e).
Proof.
  revert m. induction entries as [|[id' e'] entries IH]; intros m Hnd; cbn.
  { set_solver. }
  apply NoDup_cons in Hnd as [Hni Hnd]. rewrite IH, !elem_of_cons by done.
  destruct (decide (id = id')) as [->|Hne].
  - rewrite lookup_insert_eq. split; [|naive_solver].
    intros [?|[? [= ->]]]; [|by left; left]. by left; right.
  - rewrite lookup_insert_ne by done. naive_solver.
Qed.

Lemma compact_into_spec target next live s :
  pack_wf s → pk_segments s !! target = None → StronglySorted N.lt live →
  (∀ id, id ∈ live ↔ ∃ data, get s id = Ok data) →
  ∃ s', compact_into target next live s =
          (Ok (mkCompactReport (length live) (size (pk_segments s))), s') ∧
    pack_wf s' ∧ (∀ id, get s' id = get s id) ∧ dom (pk_segments s') = {[target]} ∧
    pk_active s' = Some target ∧ pk_next s' = Some next ∧ pk_roll s' = pk_roll s.
Proof.
  intros Hwf Hfree Hsorted Hlive. set (s1 := create_file target s).
  assert (grows s s1) as Hg1 by (apply grows_create; by rewrite Hfree).
  assert (pack_wf s1) as Hwf1 by (by apply (wf_grows s)).
  assert (∀ id, get s1 id = get s id) as Hget1 by (intros id; by apply get_grows).
  destruct (rewrite_live_spec target live s1) as (entries&s2&Hrw&Hg2&Hi2&Hdom&Hro&Hkeys&Hent).
  { done. } { cbn. rewrite lookup_insert_eq. eauto. }
  { intros id. rewrite Hlive. by setoid_rewrite Hget1. }
  assert (size (pk_segments s2) = S (size (pk_segments s))) as Hsize.
  { rewrite <-!size_dom, Hdom. cbn. rewrite dom_insert_L, size_union, size_singleton; [done|].
    apply disjoint_singleton_l. by apply not_elem_of_dom. }
  assert (∃ f, pk_segments s2 !! target = Some f) as [f Hf].
  { apply elem_of_dom. rewrite Hdom. cbn. rewrite dom_insert_L. set_solver. }
  set (s3 := unlink_others target (put_u64_meta target next (replace_index entries s2))).
  assert (pk_segments s3 = {[target := f]}) as Hs3.
  { apply map_eq. intros k. cbn. apply option_eq. intros x.
    rewrite map_lookup_filter_Some, lookup_singleton_Some. cbn. naive_solver. }
  assert (∀ e data, ie_segment e = target → read_record s2 e = Ok data → read_record s3 e = Ok data)
    as Hread.
  { intros e data He. unfold read_record. by rewrite He, Hs3, Hf, lookup_singleton_eq. }
  assert (∀ id e, pk_index s3 !! id = Some e ↔ (id, e) ∈ entries) as Hidx.
  { intros id e. cbn. rewrite foldl_insert_lookup; [set_solver|]. rewrite Hkeys.
    by apply sorted_NoDup. }
  exists s3. split_and!.
  - unfold compact_into. erewrite txn_bind_ok by done. rewrite (txn_bind_ok _ _ _ _ _ Hrw).
    do 5 (erewrite txn_bind_ok by done). unfold mret, txn_ret. fold s3. rewrite Hs3. cbn -[size].
    rewrite Hsize, map_size_singleton, <-Hkeys, length_fmap. by rewrite Nat.sub_succ, Nat.sub_0_r.
  - split; [done|done|]. intros id e He%Hidx. destruct (Hent _ _ He) as (Ht&d&Hd&Hr).
    exists d. split; [by apply Hread|]. by apply get_hash in Hd.
  - intros id. destruct (get_cases s id) as [Hno|[d Hd]].
    + rewrite Hno. apply get_unindexed. destruct (pk_index s3 !! id) as [e|] eqn:He; [|done].
      apply Hidx, Hent in He as (_&d&Hd&_). rewrite Hget1 in Hd. congruence.
    + assert (id ∈ entries.*1) as ((id'&e)&->&He)%list_elem_of_fmap by (rewrite Hkeys, Hlive; eauto).
      cbn in Hd. destruct (Hent _ _ He) as (Ht&d'&Hd'&Hr). rewrite Hget1, Hd in Hd'. simplify_eq.
      cbn. rewrite Hd. apply (get_indexed _ _ e); [by apply Hidx|by apply Hread|].
      by apply get_hash in Hd.
  - rewrite Hs3. apply dom_singleton_L.
  - done.
  - done.
  - done.
Qed.

Lemma compact_run s :
  pack_wf s → numbered s →
  ∃ live t s', list_chunks s = Ok live ∧
    compact s = Some (Ok (mkCompactReport (length live) (size (pk_segments s))), s') ∧
    pack_wf s' ∧ (∀ id, get s' id = get s id) ∧ dom (pk_segments s') = {[t]} ∧
    pk_active s' = Some t ∧ pk_next s' = Some (t + 1).
Proof.
  intros Hwf [Hnext Hsegs]. destruct (wf_next s Hwf) as [n Hn].
  destruct (elem_of_list_chunks s Hwf) as (live&Hl&Hsorted&Hlive).
  destruct (free_segment_found s (S (size (pk_segments s))) n) as (t&Ht&_&Hfree).
  { done. } { by apply Hnext. } { apply le_n_S, map_subseteq_size, map_filter_subseteq. }
  destruct (compact_into_spec t (t + 1) live s) as (s'&Hc&Hwf'&Hget&Hdom&Ha&Hn'&_); [done..|].
  exists live, t, s'. split_and!; try done.
  unfold compact. rewrite Hl, Hn. cbn -[compact_into free_segment]. rewrite Ht.
  cbn -[compact_into]. by rewrite Hc.
Qed.

(** Compaction changes no readable chunk.  On a well-formed store it
    always ends and succeeds; afterwards every chunk reads exactly as before,
    one segment file is left, the report counts the live chunks and the
    segments removed, and every chunk of at most [u32::MAX] bytes can be
    written next. *)
Theorem compact_preserves s :
  pack_wf s → numbered s →
  ∃ live s', list_chunks s = Ok live ∧
    compact s = Some (Ok (mkCompactReport (length live) (segment_file_count s)), s') ∧
    pack_wf s' ∧ (∀ id, get s' id = get s id) ∧ segment_file_count s' = 1%nat ∧
    (∀ data, N.of_nat (length data) ≤ U32_MAX → pack_room s' data).
Proof.
  intros Hwf Hnum. destruct (compact_run s Hwf Hnum) as (live&t&s'&Hl&Hc&Hwf'&Hget&Hdom&Ha&Hn).
  exists live, s'. split_and!; try done.
  - unfold segment_file_count. by rewrite <-size_dom, Hdom, size_singleton.
  - intros data Hlen. split; [done|]. rewrite Ha, Hn. intros ? ? [= <-] [= <-] _.
    apply not_elem_of_dom. rewrite Hdom, elem_of_singleton. lia.
Qed.

(** ** Abstract specification: a map of chunks *)

Inductive pack_event :=
  | EvPut (data : bytes)
  | EvDelete (id : ChunkId)
  | EvCompact
  | EvTorn (data : bytes) (n : nat)
  | EvReopen.

(** What the events mean for the abstract map of chunks.  A crash in the
    middle of an append, a compaction and a reopening mean nothing. *)
Definition spec_event (ev : pack_event) (m : gmap ChunkId bytes) : gmap ChunkId bytes :=
  match ev with
  | EvPut data => <[hash data := data]> m
  | EvDelete id => base.delete id m
  | EvCompact | EvTorn _ _ | EvReopen => m
  end.

(** The implementation's steps.  [EvTorn data n] is a [put] that stops after
    [n] bytes of its record have reached the active segment, before the index
    commit. *)
Inductive pack_step : pack_event → PackStore → PackStore → Prop :=
  | step_put data s id s' :
      pack_room s data → put data s = (Ok id, s') → pack_step (EvPut data) s s'
  | step_delete id s s' : delete id s = (Ok tt, s') → pack_step (EvDelete id) s s'
  | step_compact r s s' : numbered s → compact s = Some (r, s') → pack_step EvCompact s s'
  | step_torn data n a s :
      pk_active s = Some a →
      pack_step (EvTorn data n) s (append a (take n (record_bytes (hash data) data)) s)
  | step_reopen s s' : pk_objects s = None → open s = (Ok tt, s') → pack_step EvReopen s s'.

Inductive pack_steps : list pack_event → PackStore → PackStore → Prop :=
  | steps_nil s : pack_steps [] s s
  | steps_cons ev evs s s1 s2 :
      pack_step ev s s1 → pack_steps evs s1 s2 → pack_steps (ev :: evs) s s2.

(** The store holds exactly the chunks of the map. *)
Definition holds (s : PackStore) (m : gmap ChunkId bytes) : Prop :=
  pack_wf s ∧ ∀ id, get s id = ok_or NotFound (m !! id).

Lemma step_holds ev s s' m :
  holds s m → pack_step ev s s' → holds s' (spec_event ev m).
Proof.
  intros [Hwf Hm] Hstep. destruct Hstep as [data s id s' Hroom H|id s s' H|r s s' Hnum H|data n a s Ha|s s' Ho H].
  - destruct (put_law s data Hwf Hroom) as (s2&Hput&Hwf'&Hnew&Hold). rewrite Hput in H. simplify_eq.
    split; [done|]. intros id. cbn. destruct (decide (id = hash data)) as [->|].
    + by rewrite Hnew, lookup_insert_eq.
    + by rewrite Hold, Hm, lookup_insert_ne.
  - destruct (delete_law s id Hwf) as (s2&Hdel&Hwf'&Hgone&Hold). rewrite Hdel in H. simplify_eq.
    split; [done|]. intros id'. cbn. destruct (decide (id' = id)) as [->|].
    + by rewrite Hgone, lookup_delete_eq.
    + by rewrite Hold, Hm, lookup_delete_ne.
  - destruct (compact_run s Hwf Hnum) as (live&t&s2&_&Hc&Hwf'&Hget&_). rewrite Hc in H. simplify_eq.
    split; [done|]. intros id. cbn. by rewrite Hget, Hm.
  - assert (Hg := grows_append a (take n (record_bytes (hash data) data)) s).
    split; [by apply (wf_grows s)|]. intros id. cbn [spec_event]. rewrite <-Hm. by apply get_grows.
  - destruct (wf_next s Hwf) as [nx Hnx]. unfold open, mbind, txn_bind, modify in H. cbn in H.
    rewrite Hnx in H. unfold migrate_legacy_objects, mbind, txn_bind, gets in H. cbn in H.
    rewrite Ho in H. unfold mret, txn_ret in H. cbn in H. simplify_eq. split; [|exact Hm].
    destruct Hwf as [HA HN Hi]. split; [exact HA|eauto|exact Hi].
Qed.

(** C35: the pack store implements a map of chunks.  Whatever sequence of
    puts that have room, deletes, compactions, reopenings and crashes in the
    middle of an append is run on a store that holds the chunks of a map, the
    store afterwards is well formed and returns for every id exactly what the
    map after the same events holds: a write that was acknowledged is never
    lost, and one that was not leaves no trace. *)
Theorem pack_refines evs s s' m :
  holds s m → pack_steps evs s s' → holds s' (foldl (λ m ev, spec_event ev m) m evs).
Proof.
  intros Hh Hs. revert m Hh. induction Hs; intros m Hh; [done|]. eauto using step_holds.
Qed.

(** ** The first roll of a new store

    [open] starts a new store with [active_segment = next_segment = 1], and
    puts into a segment that is not full keep the counters equal. *)

Lemma short_read file off n :
  (0 < n)%nat → (length file < N.to_nat off + n)%nat → read_exact file off n = Err EOF.
Proof.
  intros Hn H. unfold read_exact. rewrite bool_decide_false; [done|].
  rewrite length_take, length_drop. lia.
Qed.

Lemma read_record_beyond s e f :
  pk_segments s !! ie_segment e = Some f → N.of_nat (length f) ≤ ie_offset e →
  read_record s e = Err EOF.
Proof.
  intros Hf Hoff. unfold read_record. rewrite Hf. cbn [ok_or mbind result_bind].
  rewrite short_read; [done|unfold HEADER_LEN; lia..].
Qed.

Lemma length_record id data : length (record_bytes id data) = (HEADER_LEN + length data)%nat.
Proof. unfold record_bytes. by rewrite !length_app, !le_bytes_length, be_bytes_length. Qed.

(** C36: the first segment roll of a store destroys acknowledged data.  While
    the active and the next segment number are equal, as [open] leaves them,
    the put that finds the active segment full truncates that same segment
    before it writes: the put is acknowledged, and every chunk of the segment
    whose record starts at or behind the end of the new record can no longer
    be read. *)
Theorem first_roll_loses s n data id e :
  pk_active s = Some n → pk_next s = Some n → is_Some (pk_segments s !! n) →
  pk_roll s ≤ seg_len n s → get s (hash data) ≠ Ok data → N.of_nat (length data) ≤ U32_MAX →
  id ≠ hash data → pk_index s !! id = Some e → ie_segment e = n →
  N.of_nat (HEADER_LEN + length data) ≤ ie_offset e →
  ∃ s', put data s = (Ok (hash data), s') ∧ get s' id = Err NotFound.
Proof.
  intros Ha Hn [f Hf] Hroll Hget Hlen Hne He Hseg Hoff.
  destruct (get_not s (hash data) data Hget) as (o&Ho&Hod).
  unfold put, put_locked. rewrite (txn_bind_ok _ _ s o s) by (by rewrite Ho).
  rewrite bool_decide_false by done. rewrite (txn_bind_ok _ _ s n s) by (by rewrite Ha).
  rewrite (txn_bind_ok _ _ s n s) by (by rewrite Hn).
  rewrite (txn_bind_ok _ _ s false s) by (unfold gets; by rewrite Hf).
  do 3 (erewrite txn_bind_ok by done). rewrite (proj2 (N.leb_le _ _)) by done.
  rewrite (txn_bind_ok _ _ s (n, sat_add n 1) (create_file n s)) by done.
  rewrite (txn_bind_ok _ _ (create_file n s) 0 (create_file n s)).
  2: { unfold gets, seg_len. cbn. by rewrite lookup_insert_eq. }
  rewrite (txn_bind_ok _ _ (create_file n s) (N.of_nat (length data)) (create_file n s)).
  2: { unfold lift, u32_len. by rewrite (proj2 (N.leb_le _ _)). }
  do 2 (erewrite txn_bind_ok by done). eexists. split; [done|].
  match goal with |- get ?x id = _ => set (s' := x) end.
  assert (pk_index s' !! id = Some e) as Hi by (cbn; by rewrite lookup_insert_ne).
  unfold get, get_if_valid_unlocked. rewrite Hi.
  rewrite (read_record_beyond s' e (record_bytes (hash data) data)); [done| |].
  - rewrite Hseg. cbn. by rewrite !lookup_insert_eq.
  - by rewrite length_record.
Qed.

Lemma list_law s :
  pack_wf s → ∃ l, list_chunks s = Ok l ∧ ∀ id, id ∈ l ↔ ∃ data, get s id = Ok data.
Proof. intros Hwf. destruct (elem_of_list_chunks s Hwf) as (l&?&_&?). eauto. Qed.

Lemma delete_gone s id :
  pack_wf s →
  ∃ s', delete id s = (Ok tt, s') ∧ pack_wf s' ∧ (∃ e, get s' id = Err e) ∧
        ∀ id', id' ≠ id → get s' id' = get s id'.
Proof. intros (s'&?&?&?&?)%(delete_law s id). exists s'. eauto. Qed.

#[export] Instance pack_chunk_store : ChunkStore hash PackStore := {
  cs_put := put;
  cs_get := get;
  cs_delete := delete;
  cs_list := list_chunks;
  cs_wf := pack_wf;
  cs_room := pack_room;
  cs_put_law := put_law;
  cs_get_law s id data _ := get_hash s id data;
  cs_delete_law := delete_gone;
  cs_list_law := list_law
}.
End pack.

(** ** Witnesses: a toy hash and small stores *)

(** A 32-byte checksum in the place of blake3. *)
Definition toy_hash (data : bytes) : ChunkId := of_le_bytes data mod 256 ^ N.of_nat 32.

Lemma toy_hash_width data : toy_hash data < 256 ^ N.of_nat 32.
Proof. apply N.mod_lt. apply N.pow_nonzero. lia. Qed.

(** A new store, and the same with two chunks of 3 and 4 bytes written to it;
    its segments roll at 64 bytes. *)
Definition new_store : PackStore := mkPackStore ∅ ∅ (Some 1) (Some 1) None 64.
Definition chunk_a : bytes := [x61; x62; x63]%byte.
Definition chunk_b : bytes := [x64; x65; x66; x67]%byte.
Definition chunk_c : bytes := [x68]%byte.
Definition two_chunks : PackStore :=
  (put toy_hash chunk_b (put toy_hash chunk_a new_store).2).2.

Lemma new_store_wf : pack_wf toy_hash new_store.
Proof. split; [by eexists..|]. intros id e. cbn. by rewrite lookup_empty. Qed.

Lemma small_room s data n :
  pk_active s = Some n → seg_len n s < pk_roll s → N.of_nat (length data) ≤ U32_MAX →
  pack_room s data.
Proof. intros Ha Hl Hd. split; [done|]. intros a' n' Ha' _ ?. simplify_eq. lia. Qed.

Lemma two_chunks_wf : pack_wf toy_hash two_chunks.
Proof.
  destruct (put_law toy_hash toy_hash_width new_store chunk_a new_store_wf) as (s1&H1&Hwf1&_).
  { by apply (small_room _ _ 1). }
  assert (s1 = (put toy_hash chunk_a new_store).2) as -> by (by rewrite H1).
  destruct (put_law toy_hash toy_hash_width _ chunk_b Hwf1) as (s2&H2&Hwf2&_).
  { apply (small_room _ _ 1); vm_compute; done. }
  unfold two_chunks. by rewrite H2.
Qed.

Lemma compact_preserves_witness :
  ∃ live s', list_chunks toy_hash two_chunks = Ok live ∧
    compact toy_hash two_chunks = Some (Ok (mkCompactReport (length live) 1), s') ∧
    get toy_hash s' (toy_hash chunk_a) = Ok chunk_a.
Proof.
  destruct (compact_preserves toy_hash toy_hash_width two_chunks two_chunks_wf)
    as (live&s'&Hl&Hc&_&Hget&_).
  - split; [by intros n [= <-]|]. intros seg [f Hf].
    destruct (decide (seg = 1)) as [->|Hne]; [done|]. exfalso.
    assert (pk_segments two_chunks = {[1 := default [] (pk_segments two_chunks !! 1)]}) as Heq
      by (vm_compute; reflexivity).
    rewrite Heq, lookup_singleton_ne in Hf; congruence.
  - exists live, s'. split; [done|]. split; [rewrite Hc; vm_compute; reflexivity|].
    rewrite Hget. vm_compute. reflexivity.
Defined.

Definition after_put : PackStore := (put toy_hash chunk_a new_store).2.
Definition after_crash : PackStore := append 1 (take 20 (record_bytes (toy_hash chunk_b) chunk_b)) after_put.
Definition after_reopen : PackStore := (open toy_hash after_crash).2.

Lemma pack_refines_witness :
  get toy_hash after_reopen (toy_hash chunk_a) = Ok chunk_a ∧
  get toy_hash after_reopen (toy_hash chunk_b) = Err NotFound.
Proof.
  destruct (pack_refines toy_hash toy_hash_width [EvPut chunk_a; EvTorn chunk_b 20; EvReopen]
              new_store after_reopen ∅) as [_ Hget].
  - split; [exact new_store_wf|]. intros id. by apply get_unindexed.
  - apply (steps_cons _ _ _ _ after_put).
    { apply (step_put _ chunk_a new_store (toy_hash chunk_a)); [by apply (small_room _ _ 1)|reflexivity]. }
    apply (steps_cons _ _ _ _ after_crash); [by apply step_torn|].
    apply (steps_cons _ _ _ _ after_reopen); [by apply step_reopen|constructor].
  - split; rewrite Hget; vm_compute; reflexivity.
Defined.

Lemma first_roll_loses_witness :
  get toy_hash two_chunks (toy_hash chunk_b) = Ok chunk_b ∧
  ∃ s', put toy_hash chunk_c two_chunks = (Ok (toy_hash chunk_c), s') ∧
        get toy_hash s' (toy_hash chunk_b) = Err NotFound.
Proof.
  split; [vm_compute; reflexivity|].
  apply (first_roll_loses toy_hash two_chunks 1 chunk_c (toy_hash chunk_b) (mkIndexEntry 1 43 4));
    try (vm_compute; reflexivity); try (vm_compute; discriminate).
  vm_compute. by eexists.
Defined.
