(* ===== verification/Placement.v ===== *)
(** * Placement of chunks on workers ([crates/chunk/src/placement.rs])

    [select_worker_targets] ranks the usable workers by a weighted hash of the
    chunk and the worker, takes the best worker of each failure domain first,
    and fills up with the rest of the ranking.  Every client computes the
    targets of a chunk by itself, so the choice must depend on nothing but
    the membership, and must move as little as possible when workers go. *)

From S2P Require Import Prelude Types Bytes.

Local Open Scope N_scope.

Lemma take_snoc {A} n (l : list A) x k : (length l + 1)%nat = n → take n (l ++ x :: k) = l ++ [x].
Proof. intros <-. rewrite take_app_add. by rewrite firstn_cons, take_0. Qed.

Lemma filter_ext_in {A} (P Q : A → Prop) `{∀ x, Decision (P x), ∀ x, Decision (Q x)} (l : list A) :
  (∀ x, x ∈ l → P x ↔ Q x) → filter P l = filter Q l.
Proof.
  induction l as [|x l IH]; intros Hl; [done|]. rewrite !filter_cons, IH by (intros; apply Hl; by right).
  assert (Hx := Hl x (list_elem_of_here x l)). by repeat case_decide; try naive_solver.
Qed.

Lemma take_filter_away {A} `{EqDecision A} (w : A) n l :
  w ∉ take n l → take n (filter (λ x, x ≠ w) l) = take n l.
Proof.
  revert n. induction l as [|x l IH]; intros [|n]; [done..|]. cbn [take]. rewrite not_elem_of_cons.
  intros [? Hl]. rewrite filter_cons_True by done. cbn [take]. by rewrite IH.
Qed.

Lemma NoDup_fmap_eq {A B} (f : A → B) (l : list A) x y :
  NoDup (f <$> l) → x ∈ l → y ∈ l → f x = f y → x = y.
Proof.
  intros Hnd [i Hi]%list_elem_of_lookup [j Hj]%list_elem_of_lookup He.
  assert (i = j) as <- by (eapply NoDup_lookup; [exact Hnd|rewrite list_lookup_fmap, ?Hi, ?Hj..]; cbn; by rewrite ?He).
  congruence.
Qed.

Lemma NoDup_fmap_filter {A B} (f : A → B) (P : A → Prop) `{∀ x, Decision (P x)} (l : list A) :
  NoDup (f <$> l) → NoDup (f <$> filter P l).
Proof.
  induction l as [|x l IH]; [done|]. rewrite fmap_cons. intros [Hx Hnd]%NoDup_cons. rewrite filter_cons.
  case_decide; [|by apply IH]. rewrite fmap_cons. apply NoDup_cons. split; [|by apply IH].
  contradict Hx. apply list_elem_of_fmap in Hx as (y&->&[_ Hy]%list_elem_of_filter).
  by apply list_elem_of_fmap_2.
Qed.

Section placement.
Context (hash : bytes → ChunkId).

(** The product of two [u64] fits a [u128]. *)
Definition placement_score (chunk : ChunkId) (worker : WorkerRegistration) : N :=
  let input := be_bytes 32 chunk ++ be_bytes 8 (wr_id worker) in
  let digest := hash input in
  let raw := of_be_bytes (take 8 (be_bytes 32 digest)) in
  raw * wr_available_bytes worker.

(** The comparison of [candidates.sort_by]: a higher score first, then the
    smaller id. *)
Definition ranked_before (chunk : ChunkId) : relation WorkerRegistration := λ left right,
  placement_score chunk right < placement_score chunk left ∨
  (placement_score chunk right = placement_score chunk left ∧ wr_id left ≤ wr_id right).
#[export] Instance ranked_before_dec chunk : RelDecision (ranked_before chunk).
Proof. intros a b. unfold ranked_before. apply _. Defined.

Definition usable (worker : WorkerRegistration) : bool :=
  is_ok (WorkerRegistration_validate worker) && (CHUNK_SIZE <=? wr_available_bytes worker).

(** The loop over failure domains; [inl] is its early return. *)
Fixpoint spread (required : nat) (candidates : list WorkerRegistration) (domains : gset string)
    (selected : list WorkerRegistration) : list WorkerRegistration + list WorkerRegistration :=
  match candidates with
  | [] => inr selected
  | worker :: candidates =>
      if bool_decide (wr_failure_domain worker ∈ domains) then spread required candidates domains selected
      else
        let domains := {[wr_failure_domain worker]} ∪ domains in
        let selected := selected ++ [worker] in
        if bool_decide (length selected = required) then inl selected
        else spread required candidates domains selected
  end.

(** The loop that fills up. *)
Fixpoint fill (required : nat) (candidates : list WorkerRegistration)
    (selected : list WorkerRegistration) : list WorkerRegistration + list WorkerRegistration :=
  match candidates with
  | [] => inr selected
  | worker :: candidates =>
      if existsb (λ chosen, wr_id chosen =? wr_id worker) selected then fill required candidates selected
      else
        let selected := selected ++ [worker] in
        if bool_decide (length selected = required) then inl selected
        else fill required candidates selected
  end.

Definition select_worker_targets (membership : WorkerMembership) (chunk : ChunkId)
    (required : nat) (now_ms : N) : Result (list WorkerRegistration) :=
  if bool_decide (required = 0%nat) then Err (InvalidArg "replication factor must be non-zero") else
  let candidates := filter (λ w, usable w = true) (active_at membership now_ms) in
  let candidates := merge_sort (ranked_before chunk) candidates in
  if bool_decide (length candidates < required)%nat then Err Busy else
  match spread required candidates ∅ [] with
  | inl selected => Ok selected
  | inr selected =>
      match fill required candidates selected with
      | inl selected => Ok selected
      | inr _ => Err Busy
      end
  end.

(** ** What is selected *)

(** The first worker of each failure domain, and the ranking they lead. *)
Fixpoint firsts (seen : gset string) (l : list WorkerRegistration) : list WorkerRegistration :=
  match l with
  | [] => []
  | w :: l =>
      if bool_decide (wr_failure_domain w ∈ seen) then firsts seen l
      else w :: firsts ({[wr_failure_domain w]} ∪ seen) l
  end.

Definition ranking (l : list WorkerRegistration) : list WorkerRegistration :=
  let leaders := firsts ∅ l in
  leaders ++ filter (λ w, wr_id w ∉ wr_id <$> leaders) l.

Lemma spread_spec required l seen selected :
  (length selected < required)%nat →
  spread required l seen selected =
    if bool_decide (required ≤ length selected + length (firsts seen l))%nat
    then inl (take required (selected ++ firsts seen l)) else inr (selected ++ firsts seen l).
Proof.
  revert seen selected. induction l as [|w l IH]; intros seen selected Hlt; cbn [spread firsts].
  { rewrite bool_decide_false by (cbn; lia). by rewrite app_nil_r. }
  case_bool_decide; [by apply IH|]. case_bool_decide as Hlen.
  - rewrite length_app in Hlen. cbn in Hlen. rewrite bool_decide_true by (cbn; lia). f_equal.
    symmetry. apply take_snoc. lia.
  - rewrite length_app in Hlen. cbn in Hlen. rewrite IH by (rewrite length_app; cbn; lia).
    rewrite <-app_assoc, length_app. cbn. by rewrite <-Nat.add_assoc.
Qed.

Lemma fill_spec required l selected :
  (length selected < required)%nat → NoDup (wr_id <$> l) →
  let rest := filter (λ w, wr_id w ∉ wr_id <$> selected) l in
  fill required l selected =
    if bool_decide (required ≤ length selected + length rest)%nat
    then inl (take required (selected ++ rest)) else inr (selected ++ rest).
Proof.
  revert selected. induction l as [|w l IH]; intros selected Hlt Hnd; cbn [fill].
  { rewrite bool_decide_false by (cbn; lia). by rewrite app_nil_r. }
  apply NoDup_cons in Hnd as [Hw Hnd]. rewrite filter_cons.
  assert (existsb (λ chosen, wr_id chosen =? wr_id w) selected = true ↔ wr_id w ∈ wr_id <$> selected) as Hex.
  { rewrite existsb_exists, list_elem_of_fmap. setoid_rewrite N.eqb_eq. split.
    - intros (x&Hx&He). exists x. by rewrite list_elem_of_In.
    - intros (x&He&Hx). exists x. by rewrite <-list_elem_of_In. }
  destruct (existsb _ _) eqn:He.
  { rewrite decide_False by naive_solver. by apply IH. }
  rewrite decide_True by (rewrite <-Hex; done). cbn [length].
  assert (filter (λ x, wr_id x ∉ wr_id <$> selected ++ [w]) l = filter (λ x, wr_id x ∉ wr_id <$> selected) l) as Hf.
  { apply filter_ext_in. intros x Hx. rewrite fmap_app, elem_of_app. cbn. rewrite list_elem_of_singleton.
    split; [naive_solver|]. intros ? [?|Heq]; [done|]. apply Hw. rewrite <-Heq. by apply list_elem_of_fmap_2. }
  case_bool_decide as Hlen; rewrite length_app in Hlen; cbn in Hlen.
  - rewrite bool_decide_true by lia. f_equal.
    symmetry. apply take_snoc. lia.
  - rewrite IH, Hf by (rewrite ?length_app; cbn; lia || done).
    rewrite <-app_assoc, length_app. cbn. by rewrite <-Nat.add_assoc.
Qed.

Lemma firsts_app seen l k :
  firsts seen (l ++ k) = firsts seen l ++ firsts (list_to_set (wr_failure_domain <$> l) ∪ seen) k.
Proof.
  revert seen. induction l as [|w l IH]; intros seen; cbn.
  { by rewrite (left_id_L ∅ _). }
  case_bool_decide as Hw.
  - rewrite IH. do 2 f_equal. set_solver.
  - rewrite IH. cbn. do 3 f_equal. set_solver.
Qed.

Lemma firsts_sublist seen l : firsts seen l `sublist_of` l.
Proof.
  revert seen. induction l as [|w l IH]; intros seen; cbn; [constructor|].
  case_bool_decide; by constructor.
Qed.

Lemma firsts_domains seen l :
  NoDup (wr_failure_domain <$> firsts seen l) ∧
  ∀ d, d ∈ wr_failure_domain <$> firsts seen l ↔ d ∈ wr_failure_domain <$> l ∧ d ∉ seen.
Proof.
  revert seen. induction l as [|w l IH]; intros seen; cbn.
  { split; [constructor|set_solver]. }
  case_bool_decide as Hw.
  - destruct (IH seen) as [? Hd]. split; [done|]. intros d. rewrite Hd. set_solver.
  - destruct (IH ({[wr_failure_domain w]} ∪ seen)) as [? Hd]. split.
    + cbn. apply NoDup_cons. split; [|done]. intros Hin%Hd. set_solver.
    + intros d. cbn. rewrite elem_of_cons. setoid_rewrite Hd. destruct (decide (d = wr_failure_domain w)); set_solver.
Qed.

Lemma ranking_perm l : NoDup (wr_id <$> l) → ranking l ≡ₚ l.
Proof.
  intros Hnd. assert (NoDup l) by by eapply NoDup_fmap_1.
  assert (Hs := firsts_sublist ∅ l). unfold ranking.
  assert (filter (λ w, wr_id w ∉ wr_id <$> firsts ∅ l) l = filter (λ w, w ∉ firsts ∅ l) l) as ->.
  { apply filter_ext_in. intros w Hw. rewrite list_elem_of_fmap. split; [naive_solver|].
    intros Hni (v&He&Hv). apply Hni. rewrite (NoDup_fmap_eq wr_id l w v); eauto using elem_of_sublist. }
  apply NoDup_Permutation; [|done|].
  - apply NoDup_app. split_and!; [by eapply sublist_NoDup| |by apply NoDup_filter].
    intros w Hw. rewrite list_elem_of_filter. naive_solver.
  - intros w. rewrite elem_of_app, list_elem_of_filter.
    assert (w ∈ firsts ∅ l → w ∈ l) by eauto using elem_of_sublist.
    destruct (decide (w ∈ firsts ∅ l)); naive_solver.
Qed.

(** The workers a chunk can be placed on, best first. *)
Definition ranked (membership : WorkerMembership) (chunk : ChunkId) (now_ms : N) : list WorkerRegistration :=
  ranking (merge_sort (ranked_before chunk) (filter (λ w, usable w = true) (active_at membership now_ms))).

#[export] Instance ranked_before_total chunk : Total (ranked_before chunk).
Proof. intros a b. unfold ranked_before. lia. Qed.
#[export] Instance ranked_before_trans chunk : Transitive (ranked_before chunk).
Proof. intros a b c. unfold ranked_before. lia. Qed.

Lemma candidates_NoDup chunk (P : WorkerRegistration → Prop) `{∀ w, Decision (P w)} (ws : list WorkerRegistration) now_ms :
  NoDup (wr_id <$> ws) →
  NoDup (wr_id <$> merge_sort (ranked_before chunk) (filter P (filter (λ w, now_ms < wr_lease_deadline_ms w) ws))).
Proof.
  intros Hnd. rewrite (merge_sort_Permutation (ranked_before chunk)).
  by do 2 apply NoDup_fmap_filter.
Qed.

Lemma select_spec membership chunk required now_ms :
  NoDup (wr_id <$> wm_workers membership) →
  let ranked := ranked membership chunk now_ms in
  select_worker_targets membership chunk required now_ms =
    if bool_decide (required = 0%nat) then Err (InvalidArg "replication factor must be non-zero")
    else if bool_decide (length ranked < required)%nat then Err Busy
    else Ok (take required ranked).
Proof.
  intros Hnd. unfold select_worker_targets, ranked. case_bool_decide; [done|].
  assert (Hc := candidates_NoDup chunk (λ w, usable w = true) _ now_ms Hnd). fold (active_at membership now_ms) in Hc.
  set (l := merge_sort _ _) in *. assert (Hp := ranking_perm l Hc). apply Permutation_length in Hp.
  rewrite Hp. case_bool_decide; [done|]. rewrite spread_spec by (cbn; lia). cbn [length app].
  unfold ranking in *. case_bool_decide; [by rewrite take_app_le|].
  rewrite fill_spec by (done || lia). rewrite length_app in Hp. by rewrite bool_decide_true by lia.
Qed.

Lemma firsts_size l :
  length (firsts ∅ l) = size (list_to_set (wr_failure_domain <$> l) : gset string).
Proof.
  destruct (firsts_domains ∅ l) as [Hnd Hd]. rewrite <-(length_fmap wr_failure_domain).
  rewrite <-(size_list_to_set (C := gset string)) by done. f_equal. set_solver.
Qed.

(** The first [n] of a ranking show as many failure domains as [n] workers
    can show. *)
Lemma ranking_domains n l :
  size (list_to_set (wr_failure_domain <$> take n (ranking l)) : gset string)
  = Nat.min n (size (list_to_set (wr_failure_domain <$> l) : gset string)).
Proof.
  destruct (firsts_domains ∅ l) as [Hnd Hd]. rewrite <-(firsts_size l). unfold ranking.
  destruct (decide (n ≤ length (firsts ∅ l))%nat) as [Hle|Hgt].
  - rewrite take_app_le, <-firstn_map by done.
    rewrite size_list_to_set, length_take by (by eapply sublist_NoDup, sublist_take).
    change (map wr_failure_domain (firsts ∅ l)) with (wr_failure_domain <$> firsts ∅ l).
    rewrite length_fmap. lia.
  - rewrite take_app_ge by lia. rewrite Nat.min_r, (firsts_size l) by lia.
    f_equal. apply set_eq. intros d. rewrite fmap_app, list_to_set_app, elem_of_union, !elem_of_list_to_set, Hd.
    split; [|set_solver]. intros [[? _]|Hr]; [done|].
    apply list_elem_of_fmap in Hr as (w&->&Hw). apply list_elem_of_fmap_2.
    apply elem_of_take in Hw as (i&Hw&_). by apply list_elem_of_lookup_2, list_elem_of_filter in Hw as [_ ?].
Qed.

(** A worker outside the first [n] of a ranking leaves without effect on them. *)
Lemma ranking_without n l w :
  NoDup (wr_id <$> l) → w ∉ take n (ranking l) →
  take n (ranking (filter (λ x, x ≠ w) l)) = take n (ranking l).
Proof.
  intros Hnd Hw. destruct (decide (w ∈ l)) as [Hin|Hni].
  2: { f_equal. f_equal. apply filter_all. intros x Hx ->. done. }
  apply list_elem_of_split in Hin as (l1&l2&->).
  assert ((w ∉ l1) ∧ (w ∉ l2)) as [H1 H2].
  { apply NoDup_fmap_1 in Hnd. apply NoDup_app in Hnd as (_&H1&H2). apply NoDup_cons in H2 as [? _].
    split; [|done]. intros Hw1. eapply H1; [done|left]. }
  assert (filter (λ x, x ≠ w) (l1 ++ w :: l2) = l1 ++ l2) as Hf.
  { rewrite filter_app, filter_cons_False by (intros ?; done).
    by rewrite !filter_all by (intros x Hx ->; done). }
  destruct (decide (wr_failure_domain w ∈ wr_failure_domain <$> l1)) as [Hd|Hd].
  - (* another worker leads the domain *)
    rewrite <-(take_filter_away w n (ranking (l1 ++ w :: l2))) by done. f_equal. unfold ranking.
    assert (firsts ∅ (l1 ++ w :: l2) = firsts ∅ (l1 ++ l2)) as Hfs.
    { rewrite !firsts_app. cbn [firsts]. by rewrite bool_decide_true by set_solver. }
    rewrite Hf, Hfs, (filter_app _ (firsts ∅ (l1 ++ l2))). f_equal.
    + rewrite filter_all; [done|]. intros x Hx ->.
      apply elem_of_sublist with (l2 := l1 ++ l2) in Hx; [set_solver|apply firsts_sublist].
    + rewrite list_filter_filter. rewrite <-Hf, list_filter_filter. apply list_filter_iff. intros x. naive_solver.
  - (* the worker leads its domain, and comes too late *)
    assert (n ≤ length (firsts ∅ l1))%nat as Hn.
    { apply not_gt. intros Hgt. apply Hw. unfold ranking. rewrite firsts_app. cbn.
      rewrite bool_decide_false by set_solver. rewrite <-app_assoc. apply elem_of_take.
      exists (length (firsts ∅ l1)). split; [|lia]. by rewrite lookup_app_r, Nat.sub_diag by done. }
    rewrite Hf. unfold ranking. rewrite !firsts_app, <-!app_assoc, !take_app_le by done. done.
Qed.

Lemma ranking_without_all n l (gone : list WorkerRegistration) :
  NoDup (wr_id <$> l) → (∀ w, w ∈ gone → w ∉ take n (ranking l)) →
  take n (ranking (filter (λ x, x ∉ gone) l)) = take n (ranking l).
Proof.
  intros Hnd. induction gone as [|w gone IH]; intros Hg.
  { do 2 f_equal. apply filter_all. intros x _. apply not_elem_of_nil. }
  rewrite <-IH by (intros; apply Hg; by right).
  rewrite <-(ranking_without n (filter (λ x, x ∉ gone) l) w).
  - do 2 f_equal. rewrite list_filter_filter. apply list_filter_iff. intros x. rewrite not_elem_of_cons. done.
  - by apply NoDup_fmap_filter.
  - rewrite IH by (intros; apply Hg; by right). apply Hg. left.
Qed.

Lemma sorted_of_perm chunk l k :
  NoDup (wr_id <$> l) → l ≡ₚ k → merge_sort (ranked_before chunk) l = merge_sort (ranked_before chunk) k.
Proof.
  intros Hnd Hp. apply (StronglySorted_unique_strong (ranked_before chunk)).
  - intros x y Hx Hy H1 H2. rewrite (merge_sort_Permutation _) in Hx. rewrite (merge_sort_Permutation _), <-Hp in Hy.
    eapply (NoDup_fmap_eq wr_id); [done..|]. unfold ranked_before in H1, H2. lia.
  - apply (StronglySorted_merge_sort _).
  - apply (StronglySorted_merge_sort _).
  - by rewrite !(merge_sort_Permutation _).
Qed.

Lemma sorted_filter chunk (P : WorkerRegistration → Prop) `{∀ w, Decision (P w)} l :
  NoDup (wr_id <$> l) →
  merge_sort (ranked_before chunk) (filter P l) = filter P (merge_sort (ranked_before chunk) l).
Proof.
  intros Hnd. apply (StronglySorted_unique_strong (ranked_before chunk)).
  - intros x y Hx Hy H1 H2. rewrite (merge_sort_Permutation _) in Hx.
    apply list_elem_of_filter in Hx as [_ Hx], Hy as [_ Hy]. rewrite (merge_sort_Permutation _) in Hy.
    eapply (NoDup_fmap_eq wr_id); [done..|]. unfold ranked_before in H1, H2. lia.
  - apply (StronglySorted_merge_sort _).
  - apply StronglySorted_filter, (StronglySorted_merge_sort _).
  - by rewrite !(merge_sort_Permutation _).
Qed.

(** C29: placement is exact.  [select_worker_targets] succeeds exactly when the
    replication factor is positive and enough workers can take a chunk, that
    is, hold a lease, are well formed and have a chunk's worth of free space.
    The targets are then as many as asked for, pairwise distinct, all of them
    such workers, and they lie in as many failure domains as that number of
    workers can lie in. *)
Theorem placement_spec membership chunk required now_ms :
  NoDup (wr_id <$> wm_workers membership) →
  let able := filter (λ w, usable w = true) (active_at membership now_ms) in
  match select_worker_targets membership chunk required now_ms with
  | Ok targets =>
      (0 < required)%nat ∧ length targets = required ∧ NoDup (wr_id <$> targets) ∧
      targets ⊆ able ∧
      size (list_to_set (wr_failure_domain <$> targets) : gset string) =
        Nat.min required (size (list_to_set (wr_failure_domain <$> able) : gset string))
  | Err e =>
      (required = 0%nat ∧ e = InvalidArg "replication factor must be non-zero") ∨
      ((length able < required)%nat ∧ e = Busy)
  end.
Proof.
  intros Hnd able. rewrite select_spec by done. case_bool_decide; [by left|].
  assert (Hc := candidates_NoDup chunk (λ w, usable w = true) _ now_ms Hnd). fold (active_at membership now_ms) in Hc.
  assert (ranked membership chunk now_ms ≡ₚ able) as Hp.
  { unfold ranked. by rewrite ranking_perm, (merge_sort_Permutation _). }
  rewrite (Permutation_length Hp). case_bool_decide; [by right|].
  split_and!; [lia|rewrite length_take, (Permutation_length Hp); lia| | |].
  - eapply sublist_NoDup; [|rewrite <-firstn_map; apply sublist_take].
    change (NoDup (wr_id <$> ranked membership chunk now_ms)). rewrite Hp. by rewrite (merge_sort_Permutation _) in Hc.
  - intros w Hw. rewrite <-Hp. by eapply elem_of_sublist, sublist_take.
  - unfold ranked. rewrite ranking_domains. do 2 f_equal. by rewrite (merge_sort_Permutation _).
Qed.

(** Placement is stable.  When workers leave, and however the remaining
    ones are listed, a chunk none of whose targets left keeps exactly its
    targets, in the same order. *)
Theorem placement_stable membership membership' chunk required now_ms targets (gone : list WorkerRegistration) :
  NoDup (wr_id <$> wm_workers membership) →
  select_worker_targets membership chunk required now_ms = Ok targets →
  (∀ w, w ∈ gone → w ∉ targets) →
  wm_workers membership' ≡ₚ filter (λ w, w ∉ gone) (wm_workers membership) →
  select_worker_targets membership' chunk required now_ms = Ok targets.
Proof.
  intros Hnd Hsel Hg Hp.
  assert (NoDup (wr_id <$> wm_workers membership')) as Hnd' by (rewrite Hp; by apply NoDup_fmap_filter).
  rewrite select_spec in Hsel |- * by done. case_bool_decide; [done|].
  destruct (bool_decide _) eqn:Hlen in Hsel; [done|]. apply bool_decide_eq_false in Hlen.
  injection Hsel as <-.
  assert (take required (ranked membership' chunk now_ms) = take required (ranked membership chunk now_ms)) as Ht.
  { assert (Hc := candidates_NoDup chunk (λ w, usable w = true) _ now_ms Hnd).
    fold (active_at membership now_ms) in Hc. unfold ranked in *.
    etrans; [|by apply (ranking_without_all required _ gone Hc)].
    do 2 f_equal. rewrite <-sorted_filter by (by rewrite (merge_sort_Permutation _) in Hc).
    apply sorted_of_perm; [by unfold active_at; do 2 apply NoDup_fmap_filter|].
    unfold active_at. rewrite Hp, !list_filter_filter.
    erewrite list_filter_iff; [done|]. naive_solver. }
  rewrite Ht, bool_decide_false; [done|]. assert (Hl := f_equal length Ht). rewrite !length_take in Hl. lia.
Qed.
End placement.

(** ** A concrete membership *)

Module Example_placement.
Definition node (id : N) (endpoint domain : string) (available : N) : WorkerRegistration :=
  mkWorkerRegistration id endpoint domain (available + 1) available 1000.

Definition members : WorkerMembership := mkWorkerMembership 4
  [ node 1 "http://a:1" "rack-a" (3 * CHUNK_SIZE); node 2 "http://b:1" "rack-a" (5 * CHUNK_SIZE);
    node 3 "http://c:1" "rack-b" (2 * CHUNK_SIZE); node 4 "http://d:1" "rack-b" 10 ].

(** A hash that tells the four workers apart. *)
Definition mix (b : bytes) : ChunkId := (of_be_bytes b * 2654435761 * 2 ^ 200) mod 2 ^ 256.
End Example_placement.

Lemma placement_spec_witness :
  match select_worker_targets Example_placement.mix Example_placement.members 77 2 500 with
  | Ok targets =>
      length targets = 2%nat ∧ size (list_to_set (wr_failure_domain <$> targets) : gset string) = 2%nat
  | Err _ => False
  end.
Proof.
  assert (NoDup (wr_id <$> wm_workers Example_placement.members)) as Hnd by (vm_compute; apply (bool_decide_unpack _); vm_compute; done).
  assert (H := placement_spec Example_placement.mix Example_placement.members 77 2 500 Hnd).
  destruct (select_worker_targets _ _ _ _ _).
  - destruct H as (_&Hl&_&_&Hd). split; [done|]. rewrite Hd. vm_compute. done.
  - exfalso. destruct H as [[? _]|[Hl _]]; [done|]. vm_compute in Hl. lia.
Defined.

Lemma placement_stable_witness :
  ∃ targets, select_worker_targets Example_placement.mix Example_placement.members 77 1 500 = Ok targets ∧
  select_worker_targets Example_placement.mix
    (mkWorkerMembership 5 (rev (filter (λ w, w ∉ [hd (Example_placement.node 0 "" "" 0) (wm_workers Example_placement.members)])
      (wm_workers Example_placement.members)))) 77 1 500 = Ok targets.
Proof.
  eexists. split; [vm_compute; reflexivity|].
  eapply (placement_stable Example_placement.mix Example_placement.members _ _ _ _ _
    [hd (Example_placement.node 0 "" "" 0) (wm_workers Example_placement.members)]).
  - vm_compute. apply (bool_decide_unpack _). vm_compute. done.
  - vm_compute. reflexivity.
  - intros w Hw. apply list_elem_of_singleton in Hw as ->. apply (bool_decide_unpack _). vm_compute. done.
  - cbn [wm_workers]. symmetry. apply Permutation_rev.
Defined.
