(* ===== verification/Auth.v ===== *)
(** * Identities and capabilities ([crates/types/src/auth.rs])

    Workload identities as SPIFFE URIs, the capabilities of the roles, and
    the check a request handler makes. *)

From S2P Require Import Prelude Types Bytes Keys.

Local Open Scope N_scope.

(** ** Mount tokens: 32 bytes *)

Definition TenantId_BOOTSTRAP : N := 0.

Record MountToken := mkMountToken { mt_bytes : bytes }.
Definition ANONYMOUS : MountToken := mkMountToken (repeat "000"%byte 32).
Definition is_anonymous (t : MountToken) : bool := bool_decide (mt_bytes t = repeat "000"%byte 32).

(** The [Debug] of a token: the four leading bytes. *)
Definition MountToken_debug (t : MountToken) : string :=
  if is_anonymous t then "MountToken(ANONYMOUS)"
  else "MountToken(" +:+ hex_encode (take 4 (mt_bytes t)) +:+ "…REDACTED)".

(** ** Roles and identities *)

Inductive WorkloadRole := RoleMeta | RoleWorker | RoleClientAdmin.
#[export] Instance WorkloadRole_eq_dec : EqDecision WorkloadRole.
Proof. solve_decision. Defined.

Definition as_str (r : WorkloadRole) : string :=
  match r with RoleMeta => "meta" | RoleWorker => "worker" | RoleClientAdmin => "client-admin" end.

Definition parse_role (s : string) : option WorkloadRole :=
  if bool_decide (s = "meta") then Some RoleMeta
  else if bool_decide (s = "worker") then Some RoleWorker
  else if bool_decide (s = "client-admin") then Some RoleClientAdmin
  else None.

Record WorkloadIdentity := mkWorkloadIdentity {
  wi_role : WorkloadRole;
  wi_name : string;
  wi_worker_target_id : option WorkerTargetId;
  wi_tenant_id : option N
}.
#[export] Instance WorkloadIdentity_eq_dec : EqDecision WorkloadIdentity.
Proof. solve_decision. Defined.

Definition SPIFFE_PREFIX : string := "spiffe://fluxfs/".

Definition spiffe_uri (i : WorkloadIdentity) : string :=
  SPIFFE_PREFIX +:+ as_str (wi_role i) +:+ String SLASH (wi_name i).

Definition identity_meta (group : string) : WorkloadIdentity :=
  mkWorkloadIdentity RoleMeta group None None.
Definition identity_worker (target_id : WorkerTargetId) : WorkloadIdentity :=
  mkWorkloadIdentity RoleWorker (pretty target_id) (Some target_id) None.
Definition identity_client_admin (name : string) : WorkloadIdentity :=
  mkWorkloadIdentity RoleClientAdmin name None None.

(** [char::to_digit(10)] and [u64::from_str]: a leading plus sign is allowed. *)
Definition dec_value (c : Ascii.ascii) : option N :=
  let n := Ascii.N_of_ascii c in if (48 <=? n) && (n <=? 57) then Some (n - 48) else None.

Fixpoint radix10_digits (max acc : N) (s : string) : option N :=
  match s with
  | EmptyString => Some acc
  | String c s' =>
      d ← dec_value c;
      let acc' := acc * 10 + d in
      if max <? acc' then None else radix10_digits max acc' s'
  end.

Definition parse_u64 (s : string) : option N :=
  match s with
  | EmptyString => None
  | String c EmptyString => if bool_decide (c = PLUS) then None else radix10_digits U64_MAX 0 s
  | String c s' => if bool_decide (c = PLUS) then radix10_digits U64_MAX 0 s' else radix10_digits U64_MAX 0 s
  end.

Definition from_spiffe_uri (uri : string) : option WorkloadIdentity :=
  rest ← strip_prefix SPIFFE_PREFIX uri;
  '(role_str, name) ← split_once SLASH rest;
  if bool_decide (name = "") || str_contains SLASH name then None else
  role ← parse_role role_str;
  match role with
  | RoleMeta => Some (identity_meta name)
  | RoleClientAdmin => Some (identity_client_admin name)
  | RoleWorker => n ← parse_u64 name; Some (identity_worker n)
  end.

(** ** Capabilities *)

Inductive Capability :=
  | ReadMeta | MutateMeta | PutChunk | GetChunk | DeleteChunk | GcControl | Admin.
#[export] Instance Capability_eq_dec : EqDecision Capability.
Proof. solve_decision. Defined.

Definition Capability_to_string (c : Capability) : string :=
  match c with
  | ReadMeta => "read_meta" | MutateMeta => "mutate_meta" | PutChunk => "put_chunk"
  | GetChunk => "get_chunk" | DeleteChunk => "delete_chunk" | GcControl => "gc_control"
  | Admin => "admin"
  end.

Definition default_for (role : WorkloadRole) : list Capability :=
  match role with
  | RoleMeta => [ReadMeta; MutateMeta; GcControl; Admin]
  | RoleWorker => [ReadMeta; MutateMeta; PutChunk; GetChunk; DeleteChunk]
  | RoleClientAdmin => [ReadMeta; MutateMeta; GcControl; Admin; PutChunk; GetChunk; DeleteChunk]
  end.

Record Principal := mkPrincipal { p_identity : WorkloadIdentity; p_cert_fingerprint : string }.
#[export] Instance Principal_eq_dec : EqDecision Principal.
Proof. solve_decision. Defined.

Definition Principal_has (p : Principal) (cap : Capability) : bool :=
  bool_decide (cap ∈ default_for (wi_role (p_identity p))).

Inductive DenyReason :=
  | DenyUnauthenticated (msg : string)
  | DenyUnauthorized (role : WorkloadRole) (required : Capability) (detail : string)
  | DenyTenant (msg : string).

Definition DenyReason_to_string (d : DenyReason) : string :=
  match d with
  | DenyUnauthenticated m => "unauthenticated: " +:+ m
  | DenyUnauthorized role required detail =>
      "unauthorized: role " +:+ as_str role +:+ " lacks " +:+ Capability_to_string required +:+ ": " +:+ detail
  | DenyTenant m => "tenant denied: " +:+ m
  end.

Definition into_flux_error (d : DenyReason) : FluxError :=
  match d with
  | DenyUnauthenticated m => Unauthenticated m
  | DenyUnauthorized _ _ _ => Unauthorized (DenyReason_to_string d)
  | DenyTenant m => Unauthorized ("tenant denied: " +:+ m)
  end.

Definition require (p : Principal) (cap : Capability) : result DenyReason unit :=
  if Principal_has p cap then Ok tt
  else Err (DenyUnauthorized (wi_role (p_identity p)) cap
              ("principal " +:+ spiffe_uri (p_identity p) +:+ " lacks required capability")).

(** ** Properties *)

Lemma split_once_app c a b :
  str_contains c a = false → split_once c (a +:+ String c b) = Some (a, b).
Proof.
  induction a as [|x a IH]; simpl; intros H.
  { by rewrite bool_decide_true. }
  apply orb_false_elim in H as [Hx Ha]. apply bool_decide_eq_false in Hx.
  rewrite bool_decide_false by done. by rewrite IH.
Qed.

Lemma split_once_Some c s a b : split_once c s = Some (a, b) → s = a +:+ String c b.
Proof.
  revert a. induction s as [|x s IH]; intros a; simpl; [done|]. case_bool_decide as Hx.
  { intros [= <- <-]. by subst. }
  destruct (split_once c s) as [[a' b']|]; [|done]. intros [= <- <-]. simpl. by rewrite (IH a').
Qed.

Lemma parse_role_Some s r : parse_role s = Some r ↔ s = as_str r.
Proof.
  unfold parse_role. split.
  - repeat (case_bool_decide; [by intros [= <-]|]). done.
  - intros ->. by destruct r.
Qed.

(** Decimal numbers are read back. *)
Lemma dec_digit_facts n : n < 10 → dec_value (pretty_N_char n) = Some n ∧ pretty_N_char n ≠ PLUS ∧ pretty_N_char n ≠ SLASH.
Proof.
  intros Hn. assert (n ∈ N.of_nat <$> seq 0 10) as Hin.
  { apply list_elem_of_fmap. exists (N.to_nat n). rewrite elem_of_seq. lia. }
  clear Hn. revert n Hin. apply Forall_forall. vm_compute. repeat constructor; discriminate.
Qed.

Lemma radix10_go max n s :
  n ≤ max → radix10_digits max 0 (pretty_N_go n s) = radix10_digits max n s.
Proof.
  revert s. induction (N.lt_wf_0 n) as [n _ IH]; intros s Hn.
  destruct (decide (n = 0)) as [->|Hne]; [by rewrite pretty_N_go_0|].
  rewrite pretty_N_go_step by lia.
  assert (n = 10 * (n / 10) + n mod 10 ∧ n mod 10 < 10) as [Hdm Hm] by (split; [apply N.div_mod'|by apply N.mod_lt]).
  set (q := n / 10) in *. set (r := n mod 10) in *. clearbody q r.
  rewrite IH by lia. simpl. destruct (dec_digit_facts _ Hm) as [-> _]. simpl.
  replace (q * 10 + r) with n by lia. by destruct (N.ltb_spec max n); [lia|].
Qed.

(** The text of a number: it is not empty, and its characters are digits. *)
Lemma pretty_N_go_digits n s :
  (s = "" → n ≠ 0) → ∃ c s', pretty_N_go n s = String c s' ∧
  (n ≠ 0 → c ≠ PLUS) ∧ (str_contains SLASH s = false → str_contains SLASH (String c s') = false).
Proof.
  revert s. induction (N.lt_wf_0 n) as [n _ IH]; intros s Hs.
  destruct (decide (n = 0)) as [->|Hne].
  { rewrite pretty_N_go_0. destruct s as [|c s']; [by destruct Hs|]. by exists c, s'. }
  assert (n mod 10 < 10) as Hm by (by apply N.mod_lt). destruct (dec_digit_facts _ Hm) as (_&Hp&Hsl).
  rewrite pretty_N_go_step by lia.
  destruct (decide (n / 10 = 0)) as [Hz|Hnz].
  - rewrite Hz, pretty_N_go_0. eexists _, _. split_and!; [done|done|]. intros Hn. simpl.
    by rewrite Hn, bool_decide_false by done.
  - destruct (IH (n / 10)) with (s := String (pretty_N_char (n mod 10)) s) as (c&s'&Heq&Hc&Hn); [|done|].
    { apply N.div_lt; lia. }
    exists c, s'. split_and!; [done|by intros _; apply Hc|]. intros Hs'. apply Hn. simpl.
    by rewrite Hs', bool_decide_false by done.
Qed.

Lemma parse_u64_pretty n : n ≤ U64_MAX → parse_u64 (pretty n) = Some n.
Proof.
  intros Hn. unfold pretty, pretty_N. case_decide as Hz; [by subst|].
  destruct (pretty_N_go_digits n "") as (c&s'&Heq&Hc&_); [done|].
  assert (radix10_digits U64_MAX 0 (pretty_N_go n "") = Some n) as Hr by (by rewrite radix10_go).
  rewrite Heq in Hr |- *. unfold parse_u64. rewrite bool_decide_false by (by apply Hc). by destruct s'.
Qed.

Lemma pretty_nonempty (n : N) : pretty n ≠ "".
Proof.
  unfold pretty, pretty_N. case_decide; [done|]. by destruct (pretty_N_go_digits n "") as (?&?&->&_).
Qed.

Lemma pretty_no_slash (n : N) : str_contains SLASH (pretty n) = false.
Proof.
  unfold pretty, pretty_N. case_decide; [done|].
  destruct (pretty_N_go_digits n "") as (c&s'&->&_&Hns); [done|]. by apply Hns.
Qed.

Lemma radix10_bound max acc s n : acc ≤ max → radix10_digits max acc s = Some n → n ≤ max.
Proof.
  revert acc. induction s as [|c s IH]; intros acc Ha; simpl; [by intros [= <-]|].
  destruct (dec_value c) as [d|]; simpl; [|done]. destruct (N.ltb_spec max (acc * 10 + d)); [done|]. by apply IH.
Qed.

Lemma parse_u64_bound s n : parse_u64 s = Some n → n ≤ U64_MAX.
Proof.
  unfold parse_u64. destruct s as [|c [|c' s]]; [done| |]; case_bool_decide; try done;
    apply radix10_bound; unfold U64_MAX; lia.
Qed.

(** The identities a certificate can carry: a non-empty name that is one path
    segment, and the number of a worker in its decimal form. *)
Definition identity_ok (i : WorkloadIdentity) : Prop :=
  wi_tenant_id i = None ∧ wi_name i ≠ "" ∧ str_contains SLASH (wi_name i) = false ∧
  match wi_role i with
  | RoleWorker => ∃ n, n ≤ U64_MAX ∧ wi_worker_target_id i = Some n ∧ wi_name i = pretty n
  | _ => wi_worker_target_id i = None
  end.

(** SPIFFE URIs carry identities faithfully.  Every identity a certificate
    can carry is parsed back from its URI.  Whatever is parsed is such an
    identity, and its URI is the one it was parsed from, except that the
    number of a worker may have been written with a plus sign or with
    leading zeros; so two identities never share a URI, and a role or a name
    cannot be forged by the contents of the other. *)
Theorem spiffe_roundtrip i uri :
  (identity_ok i → from_spiffe_uri (spiffe_uri i) = Some i) ∧
  (from_spiffe_uri uri = Some i →
     identity_ok i ∧
     (wi_role i ≠ RoleWorker → spiffe_uri i = uri) ∧
     (wi_role i = RoleWorker → ∃ name, uri = SPIFFE_PREFIX +:+ "worker" +:+ String SLASH name ∧
                                       parse_u64 name = wi_worker_target_id i)).
Proof.
  split.
  - destruct i as [role name target tenant]. intros (Ht&Hn&Hs&Hr). cbn in Ht, Hn, Hs, Hr. subst tenant.
    unfold from_spiffe_uri, spiffe_uri. cbn [wi_role wi_name]. rewrite strip_prefix_app. cbn [mbind option_bind].
    rewrite split_once_app by (by destruct role). cbn [mbind option_bind].
    rewrite bool_decide_false, Hs by done. cbn [orb].
    rewrite (proj2 (parse_role_Some _ role)) by done. destruct role; cbn; [by rewrite Hr| |by rewrite Hr].
    destruct Hr as (n&Hle&->&->). by rewrite parse_u64_pretty.
  - unfold from_spiffe_uri. destruct (strip_prefix _ _) as [rest|] eqn:Hp; [|done]. cbn -[SPIFFE_PREFIX].
    apply strip_prefix_Some in Hp as ->. destruct (split_once _ _) as [[role_str name]|] eqn:Hsp; [|done].
    apply split_once_Some in Hsp as ->. cbn -[SPIFFE_PREFIX].
    case_bool_decide as Hn; [done|]. destruct (str_contains SLASH name) eqn:Hsl; [done|]. cbn -[SPIFFE_PREFIX].
    destruct (parse_role role_str) as [role|] eqn:Hr; [|done]. apply parse_role_Some in Hr as ->.
    destruct role; cbn -[SPIFFE_PREFIX].
    + intros [= <-]. unfold identity_ok. cbn [wi_role wi_name wi_tenant_id wi_worker_target_id]. by split_and!.
    + destruct (parse_u64 name) as [n|] eqn:Hn'; [|done]. intros [= <-]. unfold identity_ok.
      cbn [wi_role wi_name wi_tenant_id wi_worker_target_id]. split_and!; try done.
      * apply pretty_nonempty.
      * apply pretty_no_slash.
      * exists n. split_and!; [by eapply parse_u64_bound|done|done].
      * intros _. by exists name.
    + intros [= <-]. unfold identity_ok. cbn [wi_role wi_name wi_tenant_id wi_worker_target_id]. by split_and!.
Qed.
