(* ===== verification/Sha256.v ===== *)
(** * Certificate fingerprints ([sha256] of [crates/tls/src/authz.rs])

    The crate computes SHA-256 itself.  The definitions below follow the
    code; [fips_sha256] is the function of FIPS 180-4, with its constants
    computed from the primes they are defined by, and the two are shown to
    agree. *)

From S2P Require Import Prelude Types Bytes.

Local Open Scope N_scope.

(** ** Words of 32 bits *)

Definition wrapping_add32 (a b : N) : N := (a + b) mod 2 ^ 32.
Definition rotate_right (x n : N) : N := N.lor (N.shiftr x n) (N.shiftl x (32 - n) mod 2 ^ 32).
Definition not32 (x : N) : N := N.lxor x (N.ones 32).

#[local] Infix "+₃₂" := wrapping_add32 (at level 50, left associativity).
#[local] Infix "⊕" := N.lxor (at level 49, left associativity).
#[local] Infix "∧₃₂" := N.land (at level 45, left associativity).

(** ** The tables *)

Definition sha_h : list N :=
  [0x6a09e667; 0xbb67ae85; 0x3c6ef372; 0xa54ff53a; 0x510e527f; 0x9b05688c; 0x1f83d9ab; 0x5be0cd19].
Definition sha_k : list N := concat
  [[0x428a2f98; 0x71374491; 0xb5c0fbcf; 0xe9b5dba5; 0x3956c25b; 0x59f111f1; 0x923f82a4; 0xab1c5ed5];
   [0xd807aa98; 0x12835b01; 0x243185be; 0x550c7dc3; 0x72be5d74; 0x80deb1fe; 0x9bdc06a7; 0xc19bf174];
   [0xe49b69c1; 0xefbe4786; 0x0fc19dc6; 0x240ca1cc; 0x2de92c6f; 0x4a7484aa; 0x5cb0a9dc; 0x76f988da];
   [0x983e5152; 0xa831c66d; 0xb00327c8; 0xbf597fc7; 0xc6e00bf3; 0xd5a79147; 0x06ca6351; 0x14292967];
   [0x27b70a85; 0x2e1b2138; 0x4d2c6dfc; 0x53380d13; 0x650a7354; 0x766a0abb; 0x81c2c92e; 0x92722c85];
   [0xa2bfe8a1; 0xa81a664b; 0xc24b8b70; 0xc76c51a3; 0xd192e819; 0xd6990624; 0xf40e3585; 0x106aa070];
   [0x19a4c116; 0x1e376c08; 0x2748774c; 0x34b0bcb5; 0x391c0cb3; 0x4ed8aa4a; 0x5b9cca4f; 0x682e6ff3];
   [0x748f82ee; 0x78a5636f; 0x84c87814; 0x8cc70208; 0x90befffa; 0xa4506ceb; 0xbef9a3f7; 0xc67178f2]].

(** ** The computation *)

(** [while padded.len() % 64 != 56 { padded.push(0) }]. *)
Fixpoint pad_loop (fuel : nat) (padded : bytes) : bytes :=
  match fuel with
  | O => padded
  | S fuel =>
      if negb (Nat.modulo (length padded) 64 =? 56)%nat then pad_loop fuel (padded ++ ["000"%byte])
      else padded
  end.

Definition sha_pad (data : bytes) : bytes :=
  let bit_len := N.of_nat (length data) * 8 mod 2 ^ 64 in
  let padded := data ++ ["128"%byte] in
  let padded := pad_loop 64 padded in
  padded ++ be_bytes 8 bit_len.

(** [chunks_exact(64)]. *)
Fixpoint chunks_exact64 (n : nat) (l : bytes) : list bytes :=
  match n with
  | O => []
  | S n => if (length l <? 64)%nat then [] else take 64 l :: chunks_exact64 n (drop 64 l)
  end.

Definition small_sigma0 (x : N) : N := rotate_right x 7 ⊕ rotate_right x 18 ⊕ N.shiftr x 3.
Definition small_sigma1 (x : N) : N := rotate_right x 17 ⊕ rotate_right x 19 ⊕ N.shiftr x 10.

(** The array [w]: filled from the block, then extended in place. *)
Definition load_word (chunk : bytes) (w : list N) (i : nat) : list N :=
  <[i := of_be_bytes (take 4 (drop (i * 4) chunk))]> w.
Definition extend_word (w : list N) (i : nat) : list N :=
  let s0 := small_sigma0 (w !!! (i - 15)%nat) in
  let s1 := small_sigma1 (w !!! (i - 2)%nat) in
  <[i := w !!! (i - 16)%nat +₃₂ s0 +₃₂ w !!! (i - 7)%nat +₃₂ s1]> w.
Definition schedule (chunk : bytes) : list N :=
  let w := replicate 64 0 in
  let w := foldl (load_word chunk) w (seq 0 16) in
  foldl extend_word w (seq 16 48).

Record ShaState := mkShaState { sa : N; sb : N; sc : N; sd : N; se : N; sf : N; sg : N; sh : N }.

Definition round_step (k w : list N) (st : ShaState) (i : nat) : ShaState :=
  let 'mkShaState a b c d e f g hh := st in
  let s1 := rotate_right e 6 ⊕ rotate_right e 11 ⊕ rotate_right e 25 in
  let ch := (e ∧₃₂ f) ⊕ (not32 e ∧₃₂ g) in
  let t1 := hh +₃₂ s1 +₃₂ ch +₃₂ k !!! i +₃₂ w !!! i in
  let s0 := rotate_right a 2 ⊕ rotate_right a 13 ⊕ rotate_right a 22 in
  let mj := (a ∧₃₂ b) ⊕ (a ∧₃₂ c) ⊕ (b ∧₃₂ c) in
  let t2 := s0 +₃₂ mj in
  mkShaState (t1 +₃₂ t2) a b c (d +₃₂ t1) e f g.

Definition compress (h : list N) (chunk : bytes) : list N :=
  let w := schedule chunk in
  let st := mkShaState (h !!! 0%nat) (h !!! 1%nat) (h !!! 2%nat) (h !!! 3%nat)
                       (h !!! 4%nat) (h !!! 5%nat) (h !!! 6%nat) (h !!! 7%nat) in
  let 'mkShaState a b c d e f g hh := foldl (round_step sha_k w) st (seq 0 64) in
  zip_with wrapping_add32 h [a; b; c; d; e; f; g; hh].

Definition sha256 (data : bytes) : bytes :=
  let padded := sha_pad data in
  let h := foldl compress sha_h (chunks_exact64 (length padded) padded) in
  concat (be_bytes 4 <$> h).

Definition sha256_hex_lower (b : bytes) : string := hex_encode (sha256 b).

(** ** The standard *)

Fixpoint primes_from (fuel n : nat) (found : list N) : list N :=
  match fuel with
  | O => []
  | S fuel =>
      let x := N.of_nat n in
      if forallb (λ p, negb (x mod p =? 0)) found
      then x :: primes_from fuel (S n) (found ++ [x]) else primes_from fuel (S n) found
  end.
(** The primes up to 311, the 64th of them. *)
Definition primes : list N := primes_from 310 2 [].

(** The largest number whose cube is at most [x], bit by bit. *)
Definition cube_root (x : N) : N :=
  foldl (λ r i, let r' := r + 2 ^ N.of_nat i in if r' ^ 3 <=? x then r' else r) 0 (reverse (seq 0 48)).

(** The first 32 bits of the fractional parts of the square roots of the
    first 8 primes and of the cube roots of the first 64. *)
Definition fips_h : list N := (λ p, N.sqrt (p * 2 ^ 64) mod 2 ^ 32) <$> take 8 primes.
Definition fips_k : list N := (λ p, cube_root (p * 2 ^ 96) mod 2 ^ 32) <$> primes.

(** The bit 1, the least number of bits 0, and the length in bits. *)
Definition fips_pad (data : bytes) : bytes :=
  let l := length data in
  data ++ "128"%byte :: replicate (Nat.modulo (119 - Nat.modulo l 64) 64) "000"%byte ++ be_bytes 8 (8 * N.of_nat l).

Definition fips_blocks (padded : bytes) : list bytes :=
  (λ i, take 64 (drop (64 * i) padded)) <$> seq 0 (Nat.div (length padded) 64).

Definition fips_word (block w : list N) (t : nat) : N :=
  if (t <? 16)%nat then block !!! t
  else (small_sigma1 (w !!! (t - 2)%nat) + w !!! (t - 7)%nat
        + small_sigma0 (w !!! (t - 15)%nat) + w !!! (t - 16)%nat) mod 2 ^ 32.
Fixpoint fips_words (block : list N) (n : nat) : list N :=
  match n with
  | O => []
  | S t => let w := fips_words block t in w ++ [fips_word block w t]
  end.

Definition big_sigma0 (x : N) : N := rotate_right x 2 ⊕ rotate_right x 13 ⊕ rotate_right x 22.
Definition big_sigma1 (x : N) : N := rotate_right x 6 ⊕ rotate_right x 11 ⊕ rotate_right x 25.
Definition fips_ch (x y z : N) : N := (x ∧₃₂ y) ⊕ (not32 x ∧₃₂ z).
Definition fips_maj (x y z : N) : N := (x ∧₃₂ y) ⊕ (x ∧₃₂ z) ⊕ (y ∧₃₂ z).

Definition fips_round (w : list N) (st : ShaState) (t : nat) : ShaState :=
  let T1 := (sh st + big_sigma1 (se st) + fips_ch (se st) (sf st) (sg st) + fips_k !!! t + w !!! t) mod 2 ^ 32 in
  let T2 := (big_sigma0 (sa st) + fips_maj (sa st) (sb st) (sc st)) mod 2 ^ 32 in
  mkShaState ((T1 + T2) mod 2 ^ 32) (sa st) (sb st) (sc st) ((sd st + T1) mod 2 ^ 32) (se st) (sf st) (sg st).

Definition fips_block (h : list N) (block : bytes) : list N :=
  let words := (λ i, of_be_bytes (take 4 (drop (4 * i) block))) <$> seq 0 16 in
  let w := fips_words words 64 in
  let st := foldl (fips_round w) (mkShaState (h !!! 0%nat) (h !!! 1%nat) (h !!! 2%nat) (h !!! 3%nat)
                                             (h !!! 4%nat) (h !!! 5%nat) (h !!! 6%nat) (h !!! 7%nat)) (seq 0 64) in
  zip_with (λ x y, (x + y) mod 2 ^ 32) h [sa st; sb st; sc st; sd st; se st; sf st; sg st; sh st].

Definition fips_sha256 (data : bytes) : bytes :=
  concat (be_bytes 4 <$> foldl fips_block fips_h (fips_blocks (fips_pad data))).

(** ** The code computes the standard *)

Lemma tables_ok : sha_h = fips_h ∧ sha_k = fips_k.
Proof. split; vm_compute; reflexivity. Qed.

(** The number of zeros, for each remainder. *)
Lemma pad_count r :
  (r < 64)%nat → r ≠ 56%nat →
  Nat.modulo (120 - r) 64 = S (Nat.modulo (120 - Nat.modulo (r + 1) 64) 64).
Proof. intros Hr. do 64 (destruct r as [|r]; [done|]). lia. Qed.
Lemma pad_count_data r :
  (r < 64)%nat → Nat.modulo (120 - Nat.modulo (r + 1) 64) 64 = Nat.modulo (119 - r) 64.
Proof. intros Hr. do 64 (destruct r as [|r]; [done|]). lia. Qed.

Lemma pad_loop_spec fuel l :
  (Nat.modulo (120 - Nat.modulo (length l) 64) 64 ≤ fuel)%nat →
  pad_loop fuel l = l ++ replicate (Nat.modulo (120 - Nat.modulo (length l) 64) 64) "000"%byte.
Proof.
  revert l. induction fuel as [|fuel IH]; intros l Hf.
  { replace (Nat.modulo _ _) with 0%nat by lia. by rewrite app_nil_r. }
  cbn [pad_loop]. destruct (Nat.eqb_spec (Nat.modulo (length l) 64) 56) as [He|Hne]; cbn [negb].
  { rewrite He. change (Nat.modulo (120 - 56) 64) with 0%nat. by rewrite app_nil_r. }
  assert (Nat.modulo (120 - Nat.modulo (length l) 64) 64
          = S (Nat.modulo (120 - Nat.modulo (length (l ++ ["000"%byte])) 64) 64)) as Hs.
  { rewrite length_app. cbn [length]. rewrite <-Nat.Div0.add_mod_idemp_l.
    apply pad_count; [by apply Nat.mod_upper_bound|done]. }
  rewrite IH by lia. rewrite Hs. cbn [replicate]. by rewrite <-app_assoc.
Qed.

Lemma sha_pad_spec data : 8 * N.of_nat (length data) < 2 ^ 64 → sha_pad data = fips_pad data.
Proof.
  intros Hlen. unfold sha_pad, fips_pad. rewrite N.mod_small by lia.
  rewrite pad_loop_spec by (assert (H := Nat.mod_upper_bound (120 - Nat.modulo (length (data ++ ["128"%byte])) 64) 64); lia).
  rewrite <-!app_assoc. cbn [app]. rewrite length_app. cbn [length]. do 3 f_equal.
  - f_equal. rewrite <-(Nat.Div0.add_mod_idemp_l (length data) 1).
    apply pad_count_data, Nat.mod_upper_bound. done.
  - f_equal. lia.
Qed.

Lemma chunks_spec n l :
  (length l ≤ 64 * n)%nat → chunks_exact64 n l = fips_blocks l.
Proof.
  revert l. induction n as [|n IH]; intros l Hl.
  { destruct l; [done|cbn in Hl; lia]. }
  cbn [chunks_exact64]. unfold fips_blocks. destruct (Nat.ltb_spec (length l) 64).
  { by rewrite Nat.div_small by done. }
  assert (Nat.div (length l) 64 = S (Nat.div (length (drop 64 l)) 64)) as ->.
  { rewrite length_drop. replace (length l) with (1 * 64 + (length l - 64))%nat at 1 by lia.
    by rewrite Nat.div_add_l by lia. }
  rewrite IH by (rewrite length_drop; lia). cbn [seq fmap list_fmap]. f_equal.
  unfold fips_blocks. rewrite <-fmap_S_seq, <-list_fmap_compose. apply list_fmap_ext. intros i x _. cbn.
  rewrite drop_drop. do 2 f_equal. lia.
Qed.

(** *** The message schedule *)

Lemma fips_words_length block n : length (fips_words block n) = n.
Proof. induction n as [|n IH]; cbn; [done|]. rewrite length_app, IH. cbn. lia. Qed.

Lemma fips_words_lookup block n t : (t < n)%nat → fips_words block n !!! t = fips_word block (fips_words block t) t.
Proof.
  induction n as [|n IH]; intros Ht; [lia|]. cbn. destruct (decide (t = n)) as [->|Hne].
  - rewrite lookup_total_app_r by (by rewrite fips_words_length). by rewrite fips_words_length, Nat.sub_diag.
  - rewrite lookup_total_app_l by (rewrite fips_words_length; lia). apply IH. lia.
Qed.

Lemma fips_words_stable block n m t :
  (t < n)%nat → (t < m)%nat → fips_words block n !!! t = fips_words block m !!! t.
Proof. intros. by rewrite !fips_words_lookup. Qed.

Lemma sum4_mod a b c d : a +₃₂ b +₃₂ c +₃₂ d = (a + b + c + d) mod 2 ^ 32.
Proof.
  unfold wrapping_add32. rewrite (N.Div0.add_mod_idemp_l (a + b)).
  rewrite (N.Div0.add_mod_idemp_l (a + b + c)). done.
Qed.

Lemma sum5_mod a b c d e : a +₃₂ b +₃₂ c +₃₂ d +₃₂ e = (a + b + c + d + e) mod 2 ^ 32.
Proof.
  unfold wrapping_add32 at 1. rewrite sum4_mod. by rewrite (N.Div0.add_mod_idemp_l (a + b + c + d)).
Qed.

(** The array holds the first [n] words and zeros after them. *)
Definition filled (block : list N) (n : nat) (w : list N) : Prop :=
  w = fips_words block n ++ replicate (64 - n) 0.

Lemma filled_insert block n w x :
  (n < 64)%nat → filled block n w → x = fips_word block (fips_words block n) n → filled block (S n) (<[n := x]> w).
Proof.
  intros Hn -> ->. unfold filled. rewrite insert_app_r_alt by (by rewrite fips_words_length).
  rewrite fips_words_length, Nat.sub_diag. replace (64 - n)%nat with (S (64 - S n)) by lia. cbn.
  by rewrite <-app_assoc.
Qed.

Lemma filled_lookup block n w t : filled block n w → (t < n)%nat → w !!! t = fips_words block n !!! t.
Proof. intros -> Ht. by rewrite lookup_total_app_l by (by rewrite fips_words_length). Qed.

Lemma fold_filled block (f : list N → nat → list N) from count w :
  (∀ n w, (from ≤ n < from + count)%nat → filled block n w → filled block (S n) (f w n)) →
  filled block from w → filled block (from + count) (foldl f w (seq from count)).
Proof.
  revert from w. induction count as [|count IH]; intros from w Hf Hw; [by rewrite Nat.add_0_r|].
  cbn [seq foldl]. replace (from + S count)%nat with (S from + count)%nat by lia. apply IH.
  - intros n w' Hn. apply Hf. lia.
  - apply Hf; [lia|done].
Qed.

Lemma schedule_spec chunk :
  schedule chunk = fips_words ((λ i, of_be_bytes (take 4 (drop (4 * i) chunk))) <$> seq 0 16) 64.
Proof.
  set (block := _ <$> _).
  assert (filled block 16 (foldl (load_word chunk) (replicate 64 0) (seq 0 16))) as H16.
  { apply (fold_filled block _ 0 16); [|done]. intros n w Hn Hw. apply filled_insert; [lia|done|].
    unfold fips_word. rewrite (proj2 (Nat.ltb_lt n 16)) by lia. unfold block.
    rewrite list_lookup_total_alt, list_lookup_fmap, lookup_seq_lt by lia. cbn -[take drop Nat.mul].
    by rewrite Nat.mul_comm. }
  assert (filled block 64 (schedule chunk)) as H64.
  { apply (fold_filled block extend_word 16 48); [|done]. intros n w Hn Hw. apply filled_insert; [lia|done|].
    unfold fips_word. rewrite (proj2 (Nat.ltb_ge n 16)) by lia.
    rewrite !(filled_lookup block n w) by (done || lia). rewrite sum4_mod. f_equal. lia. }
  rewrite H64. change (replicate (64 - 64) 0) with (@nil N). generalize (fips_words block 64). apply app_nil_r.
Qed.

(** *** The rounds *)

Lemma round_spec w st t : round_step sha_k w st t = fips_round w st t.
Proof.
  destruct st as [a b c d e f g h]. unfold round_step, fips_round. cbn [sa sb sc sd se sf sg sh].
  rewrite (proj2 tables_ok). unfold big_sigma0, big_sigma1, fips_ch, fips_maj.
  rewrite (sum5_mod h). reflexivity.
Qed.

Lemma compress_spec h block : compress h block = fips_block h block.
Proof.
  unfold compress, fips_block. rewrite schedule_spec. set (w := fips_words _ _). clearbody w. set (st := mkShaState _ _ _ _ _ _ _ _).
  assert (foldl (round_step sha_k w) st (seq 0 64) = foldl (fips_round w) st (seq 0 64)) as ->.
  { generalize (seq 0 64). intros ts. clearbody st. revert st. induction ts as [|t ts IH]; intros st; [done|].
    cbn. by rewrite round_spec. }
  by destruct (foldl _ _ _).
Qed.

Lemma compress_length h block : length h = 8%nat → length (compress h block) = 8%nat.
Proof.
  intros Hh. unfold compress. destruct (foldl _ _ _). rewrite length_zip_with, Hh. done.
Qed.

Lemma digest_length blocks : length (concat (be_bytes 4 <$> foldl compress sha_h blocks)) = 32%nat.
Proof.
  assert (length (foldl compress sha_h blocks) = 8%nat) as Hl.
  { assert (length sha_h = 8%nat) as H by done. revert H. generalize sha_h.
    induction blocks as [|b bs IH]; intros h Hh; [done|]. cbn [foldl]. apply IH. by apply compress_length. }
  destruct (foldl _ _ _) as [|? [|? [|? [|? [|? [|? [|? [|? [|]]]]]]]]]; done.
Qed.

(** C31: the fingerprint function is SHA-256.  For every certificate, the code's
    padding loop, its in-place message schedule, its table of constants and
    its wrapping additions compute the function of FIPS 180-4, whose
    constants are the fractional parts of square and cube roots of the
    primes. *)
Theorem sha256_is_fips data :
  8 * N.of_nat (length data) < 2 ^ 64 → sha256 data = fips_sha256 data ∧ length (sha256 data) = 32%nat.
Proof.
  intros Hlen.
  assert (sha256 data = fips_sha256 data) as Heq.
  { unfold sha256, fips_sha256. rewrite sha_pad_spec, chunks_spec by (done || lia).
    do 2 f_equal. rewrite (proj1 tables_ok). generalize fips_h. induction (fips_blocks _) as [|b bs IH]; intros h; [done|].
    cbn [foldl]. by rewrite compress_spec. }
  split; [done|]. unfold sha256. apply digest_length.
Qed.

Lemma sha256_is_fips_witness :
  sha256 (str_bytes "abc") = fips_sha256 (str_bytes "abc") ∧
  sha256_hex_lower (str_bytes "abc") = "ba7816bf8f01cfea414140de5dae2223b00361a396177a9cb410ff61f20015ad".
Proof.
  destruct (sha256_is_fips (str_bytes "abc")) as [H _]; [by vm_compute|]. split; [exact H|by vm_compute].
Defined.
