(* ===== verification/Wire.v ===== *)
(** * Wire formats ([crates/proto/src/meta_codec.rs], [crates/types/src/schema.rs])

    How values and errors cross an RPC boundary.  Values travel as JSON; the
    error of an operation travels in the details of a status, so that the
    client gets the very same error back.  [serde_json] is a library: a
    [Serde] instance gives its two functions on a type and [SerdeLaws] what
    its documentation promises of them. *)

From S2P Require Import Prelude Types Bytes Keys Extents.

Local Open Scope N_scope.

(** ** JSON *)

Class Serde (T : Type) := {
  to_vec : T → result string bytes;
  from_slice : bytes → result string T
}.

(** The values of a model type that the source type has: all of them, except
    that an [ExtentTree] is well formed by construction. *)
Class Carried (T : Type) := carried : T → Prop.
#[export] Instance carried_any {T} : Carried T | 100 := λ _, True.
#[export] Instance carried_manifest : Carried Manifest := λ m, et_wf (m_extents m).

(** Values of the types used here always serialise, to a non-empty text that
    is read back as the same value. *)
Class SerdeLaws (T : Type) `{!Serde T, !Carried T} := {
  to_vec_total (t : T) : carried t → ∃ b, to_vec t = Ok b ∧ b ≠ [];
  from_to_vec (t : T) b : carried t → to_vec t = Ok b → from_slice b = Ok t
}.

(** ** Versioned records *)

Abbreviation SchemaVersion := N (only parsing).
Definition SchemaVersion_LEGACY : SchemaVersion := 0.
Definition SchemaVersion_V1 : SchemaVersion := 1.
Definition SchemaVersion_to_string (v : SchemaVersion) : string := "v" +:+ pretty v.

Record VersionedEnvelope (T : Type) := mkEnvelope { ve_schema_version : SchemaVersion; ve_payload : T }.
Arguments mkEnvelope {T}. Arguments ve_schema_version {T}. Arguments ve_payload {T}.

#[export] Instance carried_envelope {T} `{!Carried T} : Carried (VersionedEnvelope T) := λ e, carried (ve_payload e).

(** [T::CURRENT]; no type overrides it, nor [migrate_from]. *)
Definition CURRENT : SchemaVersion := SchemaVersion_V1.

Definition NEWER (from : SchemaVersion) : FluxError :=
  Meta ("codec schema " +:+ SchemaVersion_to_string from +:+ " newer than current "
        +:+ SchemaVersion_to_string CURRENT +:+ "; upgrade binary to read this data").

Definition migrate_from {T} (payload : T) (from : SchemaVersion) : Result T :=
  if CURRENT <? from then Err (NEWER from) else Ok payload.

Section codec.
Context {T : Type} `{!Serde T, !Serde (VersionedEnvelope T)}.

Definition encode_versioned (t : T) : Result bytes :=
  match to_vec (mkEnvelope CURRENT t) with
  | Ok b => Ok b
  | Err e => Err (Meta ("encode_versioned: " +:+ e))
  end.

Definition decode_versioned (b : bytes) : Result T :=
  match from_slice (T := VersionedEnvelope T) b with
  | Ok env =>
      let from := ve_schema_version env in
      if CURRENT <? from then Err (NEWER from) else migrate_from (ve_payload env) from
  | Err envelope_err =>
      match from_slice (T := T) b with
      | Ok payload => migrate_from payload SchemaVersion_LEGACY
      | Err bare_err =>
          Err (Meta ("decode_versioned failed: envelope err=" +:+ envelope_err +:+ "; bare-T err=" +:+ bare_err))
      end
  end.

(** [encode_legacy] and [decode_legacy_or_envelope], which all the
    [encode_*] and [decode_*] functions of the codec are. *)
Definition encode_legacy (t : T) : Result bytes :=
  match to_vec t with Ok b => Ok b | Err e => Err (Meta e) end.

Definition decode_legacy_or_envelope (b : bytes) : Result T :=
  match from_slice (T := T) b with
  | Ok value => Ok value
  | Err _ => decode_versioned b
  end.
End codec.

(** ** Enumerations *)

Definition file_type_to_wire (ft : FileType) : N :=
  match ft with Directory => 0 | Regular => 1 | Symlink => 2 end.
Definition file_type_from_wire (v : N) : Result FileType :=
  if v =? 0 then Ok Directory else if v =? 1 then Ok Regular else if v =? 2 then Ok Symlink
  else Err (InvalidArg ("bad file_type wire=" +:+ pretty v)).

Definition xattr_set_mode_to_wire (mode : XattrSetMode) : N :=
  match mode with Upsert => 0 | Create => 1 | Replace => 2 end.
Definition xattr_set_mode_from_wire (v : N) : Result XattrSetMode :=
  if v =? 0 then Ok Upsert else if v =? 1 then Ok Create else if v =? 2 then Ok Replace
  else Err (InvalidArg ("bad xattr set mode wire=" +:+ pretty v)).

(** ** Statuses *)

(** [tonic::Code] and [tonic::Status]. *)
Inductive Code :=
  | CodeOk | Cancelled | Unknown | InvalidArgument | DeadlineExceeded | CodeNotFound
  | CodeAlreadyExists | PermissionDenied | ResourceExhausted | FailedPrecondition | Aborted
  | OutOfRange | Unimplemented | Internal | Unavailable | DataLoss | CodeUnauthenticated.
#[export] Instance Code_eq_dec : EqDecision Code.
Proof. solve_decision. Defined.

Record Status := mkStatus { st_code : Code; st_message : string; st_details : bytes }.
#[export] Instance Status_eq_dec : EqDecision Status.
Proof. solve_decision. Defined.

Definition status_new (code : Code) (message : string) : Status := mkStatus code message [].

(** [str::contains(&str)]. *)
Fixpoint str_contains_str (p s : string) : bool :=
  starts_with p s || match s with EmptyString => false | String _ s' => str_contains_str p s' end.

Section statuses.
Context `{!Serde FluxError} (status_to_string : Status → string).

Definition flux_code (err : FluxError) : Code :=
  match err with
  | NotFound => CodeNotFound
  | AlreadyExists => CodeAlreadyExists
  | InvalidArg _ | NotDirectory | IsDirectory => InvalidArgument
  | NotEmpty => FailedPrecondition
  | NoData => CodeNotFound
  | NoSpace => ResourceExhausted
  | NotPermitted => FailedPrecondition
  | Capability _ => ResourceExhausted
  | Busy => Unavailable
  | CasFailed _ _ | EDirtyConflict | ReadOnly => FailedPrecondition
  | Unauthenticated _ => CodeUnauthenticated
  | Unauthorized _ => PermissionDenied
  | _ => Internal
  end.

Definition status_from_flux (err : FluxError) : Status :=
  let details := match to_vec err with Ok b => b | Err _ => [] end in
  mkStatus (flux_code err) (FluxError_to_string err) details.

(** The reconstruction from the code alone. *)
Definition flux_from_code (status : Status) : FluxError :=
  let msg := st_message status in
  match st_code status with
  | CodeNotFound => NotFound
  | CodeAlreadyExists => AlreadyExists
  | InvalidArgument => InvalidArg msg
  | ResourceExhausted => Capability msg
  | Unavailable =>
      if str_contains_str "chunk worker busy" msg then Busy else Meta ("unavailable: " +:+ msg)
  | FailedPrecondition => Meta msg
  | CodeUnauthenticated => Unauthenticated msg
  | PermissionDenied => Unauthorized msg
  | _ => Meta (status_to_string status)
  end.

Definition flux_from_status (status : Status) : FluxError :=
  match st_details status with
  | [] => flux_from_code status
  | details => match from_slice details with Ok err => err | Err _ => flux_from_code status end
  end.
End statuses.

(** ** Properties *)

Lemma encode_decode_legacy {T} `{!Serde T, !Serde (VersionedEnvelope T), !Carried T, !SerdeLaws T} (t : T) :
  carried t → ∃ b, encode_legacy t = Ok b ∧ b ≠ [] ∧ decode_legacy_or_envelope b = Ok t.
Proof.
  intros Ht. destruct (to_vec_total t Ht) as (b&Hb&Hne). exists b. unfold encode_legacy, decode_legacy_or_envelope.
  rewrite Hb. by rewrite (from_to_vec t b Ht Hb).
Qed.

Lemma file_type_wire ft : file_type_from_wire (file_type_to_wire ft) = Ok ft.
Proof. by destruct ft. Qed.
Lemma xattr_set_mode_wire m : xattr_set_mode_from_wire (xattr_set_mode_to_wire m) = Ok m.
Proof. by destruct m. Qed.

Lemma flux_status_roundtrip `{!Serde FluxError, !SerdeLaws FluxError} show err :
  flux_from_status show (status_from_flux err) = err.
Proof.
  unfold flux_from_status, status_from_flux. cbn. destruct (to_vec_total err) as (b&Hb&Hne); [done|].
  rewrite Hb. destruct b as [|x b]; [done|]. by rewrite (from_to_vec err _ I Hb).
Qed.

(** C32: the codec is compatible across versions.  What is written is read back,
    by this version's reader and by a reader that knows nothing of
    envelopes; an enveloped record of this version is read as well, and one
    of a later version is refused, never misread.  The last two rely on the
    field-name invariant: an envelope is not itself a bare value. *)
Theorem codec_compatible {T} `{!Serde T, !Serde (VersionedEnvelope T), !Carried T, !SerdeLaws T,
    !SerdeLaws (VersionedEnvelope T)} :
  (∀ (env : VersionedEnvelope T) b, to_vec env = Ok b → ∃ e, from_slice (T := T) b = Err e) →
  ∀ t : T, carried t →
    (∃ b, encode_legacy t = Ok b ∧ decode_legacy_or_envelope b = Ok t ∧ from_slice b = Ok t) ∧
    (∃ b, encode_versioned t = Ok b ∧ decode_legacy_or_envelope b = Ok t ∧ decode_versioned b = Ok t) ∧
    (∀ v b, CURRENT < v → to_vec (mkEnvelope v t) = Ok b → decode_legacy_or_envelope (T := T) b = Err (NEWER v)).
Proof.
  intros Hbare t Ht. split_and!.
  - destruct (encode_decode_legacy t Ht) as (b&Hb&_&Hd). exists b. split_and!; [done|done|].
    unfold encode_legacy in Hb. destruct (to_vec t) eqn:Hv; [|done]. injection Hb as <-. by apply from_to_vec.
  - destruct (to_vec_total (mkEnvelope CURRENT t)) as (b&Hb&_); [done|]. exists b.
    assert (decode_versioned (T := T) b = Ok t) as Hd.
    { unfold decode_versioned. by rewrite (from_to_vec (mkEnvelope CURRENT t) _ Ht Hb). }
    unfold encode_versioned, decode_legacy_or_envelope. rewrite Hb.
    by destruct (Hbare _ _ Hb) as [e ->].
  - intros v b Hv Hb. unfold decode_legacy_or_envelope, decode_versioned. destruct (Hbare _ _ Hb) as [e ->].
    rewrite (from_to_vec (mkEnvelope v t) _ Ht Hb). cbn. by rewrite (proj2 (N.ltb_lt _ _) Hv).
Qed.

(** *** A stand-in for JSON

    A text for every countable type: the bits of the code of the value, closed
    by a tag that tells bare values and envelopes apart. *)

Fixpoint bits_text (tag : byte) (p : positive) : bytes :=
  match p with
  | xH => [tag]
  | xO p => "000"%byte :: bits_text tag p
  | xI p => "001"%byte :: bits_text tag p
  end.
Fixpoint text_bits (tag : byte) (b : bytes) : option positive :=
  match b with
  | [] => None
  | x :: b =>
      if bool_decide (x = "000"%byte) then xO <$> text_bits tag b
      else if bool_decide (x = "001"%byte) then xI <$> text_bits tag b
      else if bool_decide (x = tag ∧ b = []) then Some xH else None
  end.

Lemma text_bits_text tag tag' p :
  tag ≠ "000"%byte → tag ≠ "001"%byte →
  text_bits tag' (bits_text tag p) = if bool_decide (tag = tag') then Some p else None.
Proof.
  intros H0 H1. induction p as [p IH|p IH|]; cbn.
  - rewrite bool_decide_false, bool_decide_true by done. rewrite IH. by case_bool_decide.
  - rewrite bool_decide_true by done. rewrite IH. by case_bool_decide.
  - rewrite !bool_decide_false by done. do 2 case_bool_decide; naive_solver.
Qed.

Definition text_serde (tag : byte) T `{Countable T} : Serde T := {|
  to_vec t := Ok (bits_text tag (encode t));
  from_slice b := match text_bits tag b ≫= decode with Some t => Ok t | None => Err "syntax" end
|}.

Lemma text_serde_laws tag T `{Countable T, !Carried T} :
  tag ≠ "000"%byte → tag ≠ "001"%byte → SerdeLaws T (Serde0 := text_serde tag T).
Proof.
  intros H0 H1. split.
  - intros t _. eexists. split; [done|]. by destruct (encode t).
  - intros t b _ [= <-]. cbn. rewrite text_bits_text by done. rewrite bool_decide_true by done. cbn.
    by rewrite decode_encode.
Qed.

#[export] Instance VersionedEnvelope_eq_dec {T} `{EqDecision T} : EqDecision (VersionedEnvelope T).
Proof. solve_decision. Defined.
#[export] Instance VersionedEnvelope_countable {T} `{Countable T} : Countable (VersionedEnvelope T).
Proof.
  apply (inj_countable' (λ e, (ve_schema_version e, ve_payload e)) (λ p, mkEnvelope p.1 p.2)). by intros [].
Defined.

Definition bare_text T `{Countable T} : Serde T := text_serde "002" T.
Definition envelope_text T `{Countable T} : Serde (VersionedEnvelope T) := text_serde "003" _.

Lemma codec_compatible_witness :
  let s1 := bare_text (list N) in let s2 := envelope_text (list N) in
  (∃ b, encode_versioned [5; 7] = Ok b ∧ decode_legacy_or_envelope b = Ok [5; 7]) ∧
  ∃ b, to_vec (mkEnvelope 2 [5; 7]) = Ok b ∧ decode_legacy_or_envelope (T := list N) b = Err (NEWER 2).
Proof.
  intros s1 s2.
  assert (SerdeLaws (list N)) as L1 by (by apply (text_serde_laws "002")).
  assert (SerdeLaws (VersionedEnvelope (list N))) as L2 by (by apply (text_serde_laws "003")).
  destruct (codec_compatible (T := list N)) with (t := [5; 7]) as (_&(b&Hb&Hd&_)&Hnew).
  { intros env b [= <-]. eexists. cbn. by rewrite text_bits_text. }
  { done. }
  split; [by exists b|]. destruct (to_vec_total (mkEnvelope 2 [5; 7])) as (b2&Hb2&_); [done|]. exists b2.
  split; [done|]. by apply Hnew.
Defined.
