(* ===== verification/Authz.v ===== *)
(** * Transport security and admission ([crates/tls/src])

    The TLS options and the plaintext gate of [lib.rs], and the admission of
    requests of [authz.rs]: the identity is taken from the client
    certificate, the role admitted by the server, and each handler checks one
    capability.  Parsing a certificate is the work of a library: [san] gives
    the subject alternative names of a DER certificate. *)

From S2P Require Import Prelude Types Bytes Keys Auth Sha256 Wire.

Local Open Scope N_scope.

(** ** TLS options *)

Abbreviation Path := string (only parsing).

Record ServerTlsOptions := mkServerTlsOptions {
  so_enabled : bool;
  so_ca_cert : option Path;
  so_server_cert : option Path;
  so_server_key : option Path;
  so_allow_no_client_cert : bool
}.

Definition server_from_cli (ca_cert server_cert server_key : option Path) (allow_insecure_dev : bool) :
    Result ServerTlsOptions :=
  if negb (is_some server_cert || is_some server_key) then
    if allow_insecure_dev then Ok (mkServerTlsOptions false None None None false)
    else Err (InvalidArg "tls: server has no --tls-server-cert; refuse plaintext. Pass --tls-server-cert (production) or --allow-insecure-dev (tests only).")
  else
    ca_cert ← ok_or (InvalidArg "tls: --tls-server-cert set without --tls-ca-cert; mTLS requires a client CA to verify client certs. Set --tls-ca-cert (production) or --allow-insecure-dev (tests only).") ca_cert;
    server_cert ← ok_or (InvalidArg "tls: --tls-server-cert missing") server_cert;
    server_key ← ok_or (InvalidArg "tls: --tls-server-key missing") server_key;
    Ok (mkServerTlsOptions true (Some ca_cert) (Some server_cert) (Some server_key) false).

(** The pieces of a [ServerTlsConfig]. *)
Record ServerTlsConfig := mkServerTlsConfig {
  sc_identity : bytes * bytes;
  sc_client_ca_root : bytes;
  sc_client_auth_optional : bool
}.

(** [expect] on an option: [None] is a panic. *)
Section build.
Context (load_pem : Path → Result bytes).

Definition server_build_config (o : ServerTlsOptions) : option (Result (option ServerTlsConfig)) :=
  if negb (so_enabled o) then Some (Ok None) else
  ca_path ← so_ca_cert o;
  cert_path ← so_server_cert o;
  key_path ← so_server_key o;
  Some (
    ca_pem ← load_pem ca_path;
    cert_pem ← load_pem cert_path;
    key_pem ← load_pem key_path;
    Ok (Some (mkServerTlsConfig (cert_pem, key_pem) ca_pem (so_allow_no_client_cert o)))).

Record ClientTlsOptions := mkClientTlsOptions {
  co_enabled : bool;
  co_ca_cert : option Path;
  co_client_cert : option Path;
  co_client_key : option Path;
  co_domain : option string
}.

Definition client_from_cli (ca_cert client_cert client_key : option Path) (domain : option string) :
    Result ClientTlsOptions :=
  if is_some client_cert || is_some client_key then
    cc ← ok_or (InvalidArg "tls: --tls-client-key set without --tls-client-cert") client_cert;
    ck ← ok_or (InvalidArg "tls: --tls-client-cert set without --tls-client-key") client_key;
    ca ← ok_or (InvalidArg "tls: --tls-client-cert set without --tls-ca-cert; client must pin the cluster CA") ca_cert;
    Ok (mkClientTlsOptions true (Some ca) (Some cc) (Some ck) domain)
  else if is_some ca_cert then Ok (mkClientTlsOptions true ca_cert None None domain)
  else Ok (mkClientTlsOptions false None None None domain).

Record ClientTlsConfig := mkClientTlsConfig {
  cc_ca_certificate : bytes;
  cc_identity : option (bytes * bytes);
  cc_domain_name : option string
}.

Definition client_build_config (o : ClientTlsOptions) : option (Result (option ClientTlsConfig)) :=
  if negb (co_enabled o) then Some (Ok None) else
  ca_path ← co_ca_cert o;
  match co_client_cert o with
  | None =>
      Some (ca_pem ← load_pem ca_path; Ok (Some (mkClientTlsConfig ca_pem None (co_domain o))))
  | Some cc =>
      match load_pem ca_path with
      | Err e => Some (Err e)
      | Ok ca_pem =>
          ck ← co_client_key o;
          Some (
            cert_pem ← load_pem cc;
            key_pem ← load_pem ck;
            Ok (Some (mkClientTlsConfig ca_pem (Some (cert_pem, key_pem)) (co_domain o))))
      end
  end.
End build.

(** ** Plaintext *)

Definition HTTP : string := "http://".
Definition HTTPS : string := "https://".

(** [InsecureDev::allow(allowed).check_endpoint(url)]. *)
Definition check_endpoint (allowed : bool) (endpoint_url : string) : Result unit :=
  if starts_with HTTPS endpoint_url then Ok tt else
  if starts_with HTTP endpoint_url then
    if allowed then Ok tt
    else Err (InvalidArg ("tls: plaintext endpoint " +:+ endpoint_url +:+ " refused without --allow-insecure-dev; pass --tls-* flags (production) or --allow-insecure-dev (tests only)"))
  else Ok tt.

Definition check_scheme_matches_tls (endpoint_url : string) (tls_enabled : bool) : Result unit :=
  if starts_with HTTPS endpoint_url && negb tls_enabled then
    Err (InvalidArg ("tls: https endpoint " +:+ endpoint_url +:+ " but no --tls-ca-cert configured; pass --tls-ca-cert (and --tls-client-cert/--tls-client-key for mTLS) or change the URL to http:// and add --allow-insecure-dev"))
  else if starts_with HTTP endpoint_url && tls_enabled then
    Err (InvalidArg ("tls: http endpoint " +:+ endpoint_url +:+ " with TLS flags set; change the URL to https:// or drop the TLS flags (and add --allow-insecure-dev for plaintext)"))
  else Ok tt.

(** The endpoint a client dials: the gate of [configured_endpoint]
    ([crates/chunk/src/remote.rs]) and, with [Meta] errors, of [connect_tls]
    ([crates/meta/src/remote.rs]). *)
Definition dial_url (endpoint : string) (tls_enabled : bool) : string :=
  if starts_with HTTP endpoint || starts_with HTTPS endpoint then endpoint
  else if tls_enabled then HTTPS +:+ endpoint
  else HTTP +:+ endpoint.

Definition configured_endpoint (wrap : string → FluxError) (endpoint : string) (tls_enabled insecure_dev : bool) :
    Result string :=
  let url := dial_url endpoint tls_enabled in
  let rewrap {A} (r : Result A) := match r with Ok a => Ok a | Err e => Err (wrap (FluxError_to_string e)) end in
  _ ← rewrap (check_endpoint insecure_dev url);
  _ ← rewrap (check_scheme_matches_tls url tls_enabled);
  Ok url.

(** ** Identities in certificates *)

(** [str::from_utf8]. *)
Definition cont (b : byte) : bool := (128 <=? Byte.to_N b) && (Byte.to_N b <=? 191).
Definition second_ok (b1 b2 : N) : bool :=
  let within lo hi := (lo <=? b2) && (b2 <=? hi) in
  if b1 =? 0xE0 then within 0xA0 0xBF else if b1 =? 0xED then within 0x80 0x9F
  else if b1 =? 0xF0 then within 0x90 0xBF else if b1 =? 0xF4 then within 0x80 0x8F
  else within 0x80 0xBF.
Fixpoint utf8_valid (l : bytes) : bool :=
  match l with
  | [] => true
  | b1 :: l1 =>
      let n := Byte.to_N b1 in
      if n <? 0x80 then utf8_valid l1 else
      if n <? 0xC2 then false else
      match l1 with
      | [] => false
      | b2 :: l2 =>
          if negb (second_ok n (Byte.to_N b2)) then false else
          if n <? 0xE0 then utf8_valid l2 else
          match l2 with
          | [] => false
          | b3 :: l3 =>
              if negb (cont b3) then false else
              if n <? 0xF0 then utf8_valid l3 else
              match l3 with
              | [] => false
              | b4 :: l4 => if cont b4 && (n <? 0xF5) then utf8_valid l4 else false
              end
          end
      end
  end.

(** The [[0] EXPLICIT] wrapper and the [UTF8String] header, each if present. *)
Definition peel_explicit (cur : bytes) : option bytes :=
  match cur with
  | t :: len :: rest =>
      if (N.land (Byte.to_N t) 0xC0 =? 0x80) && (N.land (Byte.to_N t) 0x1F =? 0) then
        if bool_decide (Byte.to_N len = N.of_nat (length rest)) then Some rest else None
      else Some cur
  | _ => Some cur
  end.
Definition peel_utf8_string (cur : bytes) : option bytes :=
  match cur with
  | t :: len :: rest =>
      if Byte.to_N t =? 0x0C then
        if bool_decide (Byte.to_N len = N.of_nat (length rest)) then Some rest else None
      else Some cur
  | _ => Some cur
  end.
Definition decode_spiffe_othername (b : bytes) : option string :=
  cur ← peel_explicit b;
  payload ← peel_utf8_string cur;
  if negb (utf8_valid payload) then None else
  let s := String.string_of_list_byte payload in
  if starts_with "spiffe://" s then Some s else None.

(** The general names of a certificate: the payload of an [otherName] of the
    SPIFFE type, or another name. *)
Inductive GeneralName := SpiffeOtherName (value : bytes) | AnotherName.

Section admission.
Context (san : bytes → option (list GeneralName)).

Fixpoint first_spiffe (names : list GeneralName) : option string :=
  match names with
  | [] => None
  | SpiffeOtherName value :: names =>
      match decode_spiffe_othername value with Some s => Some s | None => first_spiffe names end
  | AnotherName :: names => first_spiffe names
  end.

Definition extract_spiffe_uri_from_peer_certs (peer_certs : option (list bytes)) : option string :=
  certs ← peer_certs;
  end_entity ← head certs;
  names ← san end_entity;
  first_spiffe names.

(** A request as the server sees it: the certificates of the connection and
    the principal in its extensions. *)
Record Request := mkRequestInfo { rq_peer_certs : option (list bytes); rq_principal : option Principal }.

Definition principal_from_request (req : Request) : result DenyReason Principal :=
  spiffe ← ok_or (DenyUnauthenticated "no SPIFFE URI SAN in peer client cert (mTLS misconfigured or anonymous dial)")
             (extract_spiffe_uri_from_peer_certs (rq_peer_certs req));
  identity ← ok_or (DenyUnauthenticated ("unparsable SPIFFE URI SAN: " +:+ spiffe)) (from_spiffe_uri spiffe);
  let fingerprint :=
    match rq_peer_certs req ≫= head with Some c => sha256_hex_lower c | None => "" end in
  Ok (mkPrincipal identity fingerprint).

Context `{!Serde FluxError}.

Definition fluxfs_proto_status (err : FluxError) : Status :=
  let code := match err with
              | Unauthenticated _ => CodeUnauthenticated
              | Unauthorized _ => PermissionDenied
              | _ => Internal
              end in
  let details := match to_vec err with Ok b => b | Err _ => [] end in
  mkStatus code (FluxError_to_string err) details.
Definition deny_to_status (reason : DenyReason) : Status := fluxfs_proto_status (into_flux_error reason).
Definition deny {A} (r : result DenyReason A) : result Status A :=
  match r with Ok a => Ok a | Err d => Err (deny_to_status d) end.

Definition for_meta : list WorkloadRole := [RoleMeta; RoleWorker; RoleClientAdmin].
Definition for_worker : list WorkloadRole := [RoleMeta; RoleClientAdmin].

Definition check (allowed : list WorkloadRole) (req : Request) : result Status Principal :=
  principal ← deny (principal_from_request req);
  if negb (bool_decide (wi_role (p_identity principal) ∈ allowed)) then
    Err (deny_to_status (DenyUnauthorized (wi_role (p_identity principal)) Admin "role not admitted by this server"))
  else Ok principal.

Definition check_and_attach (allowed : list WorkloadRole) (req : Request) : result Status Request :=
  principal ← check allowed req;
  Ok (mkRequestInfo (rq_peer_certs req) (Some principal)).

(** The layer of a plaintext server: a fixed principal. *)
Definition dev_bootstrap : Principal := mkPrincipal (identity_client_admin "dev-bootstrap") "dev-insecure".
Definition dev_bootstrap_layer (req : Request) : result Status Request :=
  Ok (mkRequestInfo (rq_peer_certs req) (Some dev_bootstrap)).

Definition require_in_extensions (req : Request) (cap : Capability) : result Status unit :=
  principal ← ok_or (deny_to_status (DenyUnauthenticated "authz: no Principal in request extensions (interceptor not installed?)"))
                (rq_principal req);
  deny (require principal cap).

(** The layer of a server, as its options choose it: with a TLS
    configuration the certificates decide, without one every caller is the
    bootstrap principal. *)
Definition server_layer (tls : bool) (allowed : list WorkloadRole) (req : Request) : result Status Request :=
  if tls then check_and_attach allowed req else dev_bootstrap_layer req.

(** A request through the layer up to the handler's check. *)
Definition admission (tls : bool) (allowed : list WorkloadRole) (cap : Capability) (req : Request) : result Status unit :=
  req ← server_layer tls allowed req;
  require_in_extensions req cap.
End admission.

(** ** Properties *)

Lemma http_or_https url : starts_with HTTPS url = true → starts_with HTTP url = false.
Proof.
  unfold starts_with. destruct (strip_prefix HTTPS url) as [r|] eqn:H; [|done].
  apply strip_prefix_Some in H as ->. done.
Qed.

Lemma dial_url_scheme endpoint tls :
  starts_with HTTP (dial_url endpoint tls) = true ∨ starts_with HTTPS (dial_url endpoint tls) = true.
Proof.
  unfold dial_url. destruct (starts_with HTTP endpoint) eqn:H1; [by left|].
  destruct (starts_with HTTPS endpoint) eqn:H2; [by right|]. cbn [orb].
  unfold starts_with. destruct tls; rewrite strip_prefix_app; auto.
Qed.

(** Nothing falls back to plaintext silently.  A server that starts without
    TLS was told to by the explicit flag; one that starts with TLS has all
    the files it needs, so that building the configuration does not panic,
    and demands client certificates.  A client that dials without TLS was
    told to by the flag, and with TLS configured it dials an https URL. *)
Theorem no_silent_plaintext :
  (∀ ca cert key insecure o,
     server_from_cli ca cert key insecure = Ok o →
     if so_enabled o then
       so_allow_no_client_cert o = false ∧
       ∀ load_pem, ∃ r, server_build_config load_pem o = Some r ∧
         ∀ cfg, r = Ok cfg → ∃ c, cfg = Some c ∧ sc_client_auth_optional c = false
     else insecure = true) ∧
  (∀ ca cert key domain o load_pem,
     client_from_cli ca cert key domain = Ok o →
     is_Some (client_build_config load_pem o) ∧ (co_enabled o = false → ca = None ∧ cert = None ∧ key = None)) ∧
  (∀ wrap endpoint tls insecure url,
     configured_endpoint wrap endpoint tls insecure = Ok url →
     if tls then starts_with HTTPS url = true else insecure = true).
Proof.
  split_and!.
  - intros ca cert key insecure o. unfold server_from_cli.
    destruct (negb _) eqn:Hset; [destruct insecure; [by intros [= <-]|done]|].
    destruct ca as [ca|], cert as [cert|], key as [key|]; try done. intros [= <-]. cbn. split; [done|].
    intros load_pem. eexists. split; [done|]. intros cfg.
    destruct (load_pem ca), (load_pem cert), (load_pem key); cbn; try done. intros [= <-]. by eexists.
  - intros ca cert key domain o load_pem. unfold client_from_cli.
    destruct ca as [ca|], cert as [cert|], key as [key|]; cbn; try done; intros [= <-]; cbn; (split; [|done]); eauto.
    unfold client_build_config. cbn. destruct (load_pem ca); eauto.
  - intros wrap endpoint tls insecure url. unfold configured_endpoint. cbv zeta.
    set (u := dial_url endpoint tls). destruct (dial_url_scheme endpoint tls) as [H|H]; fold u in H.
    + unfold check_endpoint, check_scheme_matches_tls. rewrite H.
      destruct (starts_with HTTPS u) eqn:Hs; [by rewrite (http_or_https u Hs) in H|].
      destruct insecure, tls; cbn; try done.
    + unfold check_endpoint, check_scheme_matches_tls. rewrite H, (http_or_https u H).
      destruct tls; cbn; [|done]. by intros [= <-].
Qed.

Section admission_props.
Context (san : bytes → option (list GeneralName)) `{!Serde FluxError}.

(** The identity of the caller's certificate, if it carries one. *)
Definition peer_identity (req : Request) : option WorkloadIdentity :=
  extract_spiffe_uri_from_peer_certs san (rq_peer_certs req) ≫= from_spiffe_uri.

Lemma admit_cases allowed cap req :
  match admission san true allowed cap req with
  | Ok _ => ∃ i, peer_identity req = Some i ∧ wi_role i ∈ allowed ∧ cap ∈ default_for (wi_role i)
  | Err st =>
      (st_code st = CodeUnauthenticated ∧ peer_identity req = None) ∨
      (st_code st = PermissionDenied ∧
       ∃ i, peer_identity req = Some i ∧ (wi_role i ∉ allowed ∨ cap ∉ default_for (wi_role i)))
  end.
Proof.
  unfold admission, server_layer, check_and_attach, check, principal_from_request, peer_identity.
  destruct (extract_spiffe_uri_from_peer_certs san (rq_peer_certs req)) as [uri|]; [|by left].
  cbn -[from_spiffe_uri]. destruct (from_spiffe_uri uri) as [i|]; [|by left]. cbn.
  case_bool_decide as Hrole; cbn; [|right; by eauto 6].
  unfold require_in_extensions, require, Principal_has. cbn. case_bool_decide; cbn; [by eauto 6|].
  right. by eauto 6.
Qed.

End admission_props.

(** ** The encoding of the identity in a certificate *)

(** DER lengths below 256, and the [otherName] value OpenSSL writes. *)
Definition der_len (n : nat) : bytes :=
  if (n <? 128)%nat then [byte_of (N.of_nat n)] else ["129"%byte; byte_of (N.of_nat n)].
Definition der_othername (uri : bytes) : bytes :=
  let inner := "012"%byte :: der_len (length uri) ++ uri in
  "160"%byte :: der_len (length inner) ++ inner.

Lemma peel_wrapper len rest :
  peel_explicit ("160"%byte :: len :: rest) =
    if bool_decide (Byte.to_N len = N.of_nat (length rest)) then Some rest else None.
Proof. done. Qed.

Lemma to_N_len n : (n < 256)%nat → Byte.to_N (byte_of (N.of_nat n)) = N.of_nat n.
Proof. intros Hn. rewrite to_N_byte_of. apply N.mod_small. lia. Qed.

(** The identity is read back from the certificate if it is short.  A
    SPIFFE URI of at most 125 bytes is decoded from the form OpenSSL gives
    it.  A longer one is never decoded, because the code takes the first
    byte of a long length for the length: such a certificate is refused. *)
Theorem othername_decodes uri :
  utf8_valid uri = true → starts_with "spiffe://" (String.string_of_list_byte uri) = true →
  (length uri ≤ 252)%nat →
  decode_spiffe_othername (der_othername uri) =
    if (length uri <=? 125)%nat then Some (String.string_of_list_byte uri) else None.
Proof.
  intros Hutf Hs Hlen. unfold der_othername, decode_spiffe_othername. cbv zeta.
  destruct (Nat.leb_spec (length uri) 125) as [Hle|Hgt].
  - assert (der_len (length uri) = [byte_of (N.of_nat (length uri))]) as ->.
    { unfold der_len. by rewrite (proj2 (Nat.ltb_lt _ _)) by lia. }
    set (inner := _ :: _ ++ uri). assert (length inner = (length uri + 2)%nat) as Hi by (cbn; lia).
    assert (der_len (length inner) = [byte_of (N.of_nat (length inner))]) as ->.
    { unfold der_len. by rewrite (proj2 (Nat.ltb_lt _ _)) by lia. }
    cbn [app]. rewrite peel_wrapper, bool_decide_true by (apply to_N_len; lia). cbn [mbind option_bind].
    unfold inner. cbn -[utf8_valid starts_with]. rewrite bool_decide_true by (apply to_N_len; lia).
    cbn -[utf8_valid starts_with]. by rewrite Hutf, Hs.
  - set (inner := _ :: _ ++ uri).
    assert (128 ≤ length inner ≤ 255)%nat as Hi.
    { unfold inner, der_len. destruct (Nat.ltb_spec (length uri) 128); cbn; lia. }
    assert (der_len (length inner) = ["129"%byte; byte_of (N.of_nat (length inner))]) as ->.
    { unfold der_len. by rewrite (proj2 (Nat.ltb_ge _ _)) by lia. }
    cbn [app]. rewrite peel_wrapper. case_bool_decide as Heq; [|done].
    change (Byte.to_N "129"%byte) with 129 in Heq. cbn [length] in Heq.
    assert (length inner = 128%nat) as -> by lia. done.
Qed.

Lemma othername_decodes_witness :
  let uri := str_bytes "spiffe://fluxfs/worker/7" in
  decode_spiffe_othername (der_othername uri) = Some "spiffe://fluxfs/worker/7".
Proof. intros uri. rewrite (othername_decodes uri); [reflexivity|by vm_compute..|by vm_compute; lia]. Defined.
