(* ===== verification/Ufs.v ===== *)
(** * The object store below ([crates/ufs/src/lib.rs])

    FluxFS reaches an object store or a local directory through OpenDAL.  The
    OpenDAL operator is a parameter: a record of its calls over a state [U].
    This file models what the crate builds on it: classification, listing,
    pinned range reads, and the conditional publication of an object whose
    size and digest are verified before it becomes visible. *)

From S2P Require Import Prelude Types Bytes Keys.

Local Open Scope N_scope.

(** [s.trim_start_matches(c)] and [s.trim_end_matches(c)]. *)
Fixpoint trim_start (c : Ascii.ascii) (s : string) : string :=
  match s with
  | "" => ""
  | String a s' => if Ascii.eqb a c then trim_start c s' else s
  end.

Fixpoint trim_end (c : Ascii.ascii) (s : string) : string :=
  match s with
  | "" => ""
  | String a s' =>
      match trim_end c s' with
      | "" => if Ascii.eqb a c then "" else String a ""
      | r => String a r
      end
  end.

(** [s.ends_with('/')]. *)
Fixpoint ends_with (c : Ascii.ascii) (s : string) : bool :=
  match s with
  | "" => false
  | String a "" => Ascii.eqb a c
  | String _ s' => ends_with c s'
  end.

(** ** What the crate returns *)

Inductive UfsEntryMode := UfsModeFile | UfsModeDir.
#[export] Instance UfsEntryMode_eq_dec : EqDecision UfsEntryMode.
Proof. solve_decision. Defined.
Record UfsEntry := mkUfsEntry { ue_path : string; ue_mode : UfsEntryMode; ue_size : N }.
Inductive UfsProbe := ProbeFile (obj : UfsObject) | ProbeDir.

(** The interface that clients program against: classification, listing,
    pinned range reads, and publication.  Writing and aborting act on the
    writer and on the store; finishing consumes the writer. *)
Record Ufs (U : Type) := mkUfs {
  ufs_writer : Type;
  ufs_probe : string → U → Result UfsProbe;
  ufs_list : string → U → Result (list UfsEntry);
  ufs_read : string → UfsObject → N → N → U → Result bytes;
  ufs_find_verified_publish : string → N → ChunkId → U → Result (option UfsObject);
  ufs_begin_verified_publish : string → N → option string → ChunkId → txn U FluxError ufs_writer;
  ufs_write : bytes → txn (ufs_writer * U) FluxError unit;
  ufs_abort : txn (ufs_writer * U) FluxError unit;
  ufs_finish : ufs_writer → txn U FluxError UfsObject
}.
Arguments ufs_writer {U}. Arguments ufs_probe {U}. Arguments ufs_list {U}.
Arguments ufs_read {U}. Arguments ufs_find_verified_publish {U}.
Arguments ufs_begin_verified_publish {U}. Arguments ufs_write {U}.
Arguments ufs_abort {U}. Arguments ufs_finish {U}.

(** ** OpenDAL *)

Inductive ErrorKind := KNotFound | KConditionNotMatch | KAlreadyExists | KOther.
#[export] Instance ErrorKind_eq_dec : EqDecision ErrorKind.
Proof. solve_decision. Defined.
Record OpError := mkOpError { oe_kind : ErrorKind; oe_text : string }.

Inductive EntryMode := FILE | DIR | UNKNOWN.
Record Metadata := mkMetadata {
  md_mode : EntryMode;
  md_content_length : N;
  md_etag : option string;
  md_last_modified : option Z;
  md_user_metadata : option (gmap string string)
}.

(** The condition of a conditional write. *)
Inductive WriteCond := IfMatch (etag : string) | IfNotExists.

Record PublishCapabilities := mkPublishCapabilities {
  conditional_overwrite : bool;
  conditional_create : bool;
  verifiable_digest_metadata : bool
}.

Record Operator (U : Type) := mkOperator {
  op_scheme : string;
  op_capability : PublishCapabilities;
  op_stat : string → U → result OpError Metadata;
  op_read : string → N → N → option string → U → result OpError bytes;
  op_list : string → U → result OpError (list (string * Metadata));
  op_write : string → bytes → txn U OpError unit;
  op_delete : string → txn U OpError unit;
  op_rename : string → string → txn U OpError unit;
  op_writer : Type;
  op_writer_with : string → WriteCond → gmap string string → txn U OpError op_writer;
  w_write : bytes → txn (op_writer * U) OpError unit;
  w_abort : txn (op_writer * U) OpError unit;
  w_close : txn (op_writer * U) OpError unit
}.
Arguments op_scheme {U}. Arguments op_capability {U}. Arguments op_stat {U}.
Arguments op_read {U}. Arguments op_list {U}. Arguments op_write {U}.
Arguments op_delete {U}. Arguments op_rename {U}. Arguments op_writer {U}.
Arguments op_writer_with {U}. Arguments w_write {U}. Arguments w_abort {U}.
Arguments w_close {U}.

Definition map_opendal (e : OpError) : FluxError :=
  match oe_kind e with
  | KNotFound => NotFound
  | KConditionNotMatch => EDirtyConflict
  | _ => UfsErr (oe_text e)
  end.

Definition map_publish_error (e : OpError) : FluxError :=
  match oe_kind e with
  | KConditionNotMatch | KAlreadyExists => EDirtyConflict
  | _ => map_opendal e
  end.

(** [r.map_err(f)] and [let _ = m]. *)
Definition map_err {E F A} (f : E → F) (r : result E A) : result F A :=
  match r with Ok a => Ok a | Err e => Err (f e) end.
Definition ignore {S E F A} (m : txn S E A) : txn S F unit := λ s, (Ok tt, (m s).2).
Definition mapping {S E F A} (f : E → F) (m : txn S E A) : txn S F A := λ s,
  let '(r, s) := m s in (map_err f r, s).

(** A read of the state that may fail, and [match m { .. }] with both arms
    going on from the state that [m] left. *)
Definition peek {S E A} (f : S → result E A) : txn S E A := λ s, (f s, s).
Definition match_with {S E F A B} (m : txn S E A) (f : A → txn S F B) (g : E → txn S F B) :
    txn S F B := λ s,
  match m s with (Ok a, s) => f a s | (Err e, s) => g e s end.

Definition FLUXFS_DIGEST_METADATA : string := "fluxfs-blake3".

(** [.etag()], [.last_modified()] and [.content_length()] of a stat answer. *)
Definition object_of (key : string) (md : Metadata) : UfsObject :=
  mkUfsObject key (md_content_length md) (md_etag md) (md_last_modified md).

Section ufs.
Context {U : Type} (hash : bytes → ChunkId) (op : Operator U) (prefix : string).

Definition ufs_key (rel : string) : string :=
  if bool_decide (prefix = "") then trim_start SLASH rel
  else trim_end SLASH prefix +:+ "/" +:+ trim_start SLASH rel.

(** ** Looking *)

Definition probe (rel : string) (u : U) : Result UfsProbe :=
  let key := ufs_key rel in
  meta ← map_err map_opendal (op_stat op key u);
  match md_mode meta with
  | DIR => Ok ProbeDir
  | FILE => Ok (ProbeFile (object_of key meta))
  | UNKNOWN => Err (UfsErr ("unsupported UFS entry mode at " +:+ rel))
  end.

(** [Ufs::head]. *)
Definition ufs_head (rel : string) (u : U) : Result UfsObject :=
  p ← probe rel u;
  match p with
  | ProbeFile obj => Ok obj
  | ProbeDir => Err (UfsErr ("path is a directory: " +:+ rel))
  end.

Definition read_range_pinned (rel : string) (offset len : N) (etag : option string) (u : U) :
    Result bytes :=
  map_err map_opendal (op_read op (ufs_key rel) offset (sat_add offset len) etag u).

Definition read_range (rel : string) (offset len : N) (u : U) : Result bytes :=
  read_range_pinned rel offset len None u.

(** [Ufs::read_ranges]: the first failing request decides the error. *)
Fixpoint read_ranges (rel : string) (ranges : list (N * N)) (u : U) : Result (list bytes) :=
  match ranges with
  | [] => Ok []
  | (offset, len) :: ranges =>
      b ← map_err map_opendal (op_read op (ufs_key rel) offset (sat_add offset len) None u);
      bs ← read_ranges rel ranges u;
      Ok (b :: bs)
  end.

(** One entry of a listing; the placeholder of the directory is skipped. *)
Definition list_entry (rel : string) (ent : string * Metadata) : option UfsEntry :=
  let path := trim_start SLASH ent.1 in
  if bool_decide (path = "")
     || bool_decide (trim_end SLASH path = trim_end SLASH (trim_start SLASH rel))
  then None else
  match md_mode ent.2 with
  | FILE => Some (mkUfsEntry path UfsModeFile (md_content_length ent.2))
  | DIR => Some (mkUfsEntry path UfsModeDir (md_content_length ent.2))
  | UNKNOWN => None
  end.

Definition list_path (key : string) : string :=
  if bool_decide (key = "") then "/" else if ends_with SLASH key then key else key +:+ "/".

(** [Ufs::list]. *)
Definition list_ufs (rel : string) (u : U) : Result (list UfsEntry) :=
  entries ← map_err (λ e, UfsErr (oe_text e)) (op_list op (list_path (ufs_key rel)) u);
  Ok (sort_by_name ue_path (omap (list_entry rel) entries)).

Definition write_full (rel : string) (data : bytes) : txn U FluxError UfsObject :=
  _ ← mapping (λ e, UfsErr (oe_text e)) (op_write op (ufs_key rel) data);
  peek (ufs_head rel).

Definition find_verified_publish (rel : string) (expected_size : N) (target_digest : ChunkId) (u : U) :
    Result (option UfsObject) :=
  match op_stat op (ufs_key rel) u with
  | Err e => if bool_decide (oe_kind e = KNotFound) then Ok None else Err (map_opendal e)
  | Ok meta =>
      let stored := md_user_metadata meta ≫= λ m, m !! FLUXFS_DIGEST_METADATA in
      if negb (md_content_length meta =? expected_size)
         || bool_decide (stored ≠ Some (to_hex target_digest))
      then Ok None
      else Ok (Some (object_of rel meta))
  end.

(** ** Publishing *)

Record VerifiedPublishWriter := mkVerifiedPublishWriter {
  vw_writer : op_writer op;
  vw_write_key : string;
  vw_key : string;
  vw_rel : string;
  vw_staged_local_publish : bool;
  vw_expected_etag : option string;
  vw_expected_size : N;
  vw_target_digest : ChunkId;
  vw_digest_hex : string;
  (** What the hasher has absorbed. *)
  vw_hasher : bytes;
  vw_written : N
}.

Definition set_vw_writer (w : op_writer op) (v : VerifiedPublishWriter) : VerifiedPublishWriter :=
  mkVerifiedPublishWriter w (vw_write_key v) (vw_key v) (vw_rel v) (vw_staged_local_publish v)
    (vw_expected_etag v) (vw_expected_size v) (vw_target_digest v) (vw_digest_hex v)
    (vw_hasher v) (vw_written v).
Definition absorb (data : bytes) (next : N) (v : VerifiedPublishWriter) : VerifiedPublishWriter :=
  mkVerifiedPublishWriter (vw_writer v) (vw_write_key v) (vw_key v) (vw_rel v)
    (vw_staged_local_publish v) (vw_expected_etag v) (vw_expected_size v) (vw_target_digest v)
    (vw_digest_hex v) (vw_hasher v ++ data) next.

Abbreviation V := (VerifiedPublishWriter * U)%type.

(** A call on the OpenDAL writer, and one on the operator. *)
Definition on_writer {A} (m : txn (op_writer op * U) OpError A) : txn V OpError A := λ s,
  let '(r, (w, u)) := m (vw_writer s.1, s.2) in (r, (set_vw_writer w s.1, u)).
Definition on_op {E A} (m : txn U E A) : txn V E A := λ s,
  let '(r, u) := m s.2 in (r, (s.1, u)).

(** [let _ = self.writer.abort(); if staged { let _ = self.op.delete(write_key) }]. *)
Definition discard : txn V FluxError unit :=
  _ ← ignore (on_writer (w_abort op));
  v ← gets fst;
  when (vw_staged_local_publish v) (ignore (on_op (op_delete op (vw_write_key v)))).

(** [VerifiedPublishWriter::write]. *)
Definition vw_write (data : bytes) : txn V FluxError unit :=
  v ← gets fst;
  next ← lift (ok_or (InvalidArg "publish size overflow")
                 (checked_add (vw_written v) (N.of_nat (length data))));
  if vw_expected_size v <? next then
    _ ← discard;
    throw (InvalidArg ("publish payload exceeds expected size " +:+ pretty (vw_expected_size v)))
  else
    match_with (on_writer (w_write op data))
      (λ _, modify (λ s, (absorb data next s.1, s.2)))
      (λ error, _ ← discard; throw (map_publish_error error)).

(** [VerifiedPublishWriter::abort]. *)
Definition vw_abort : txn V FluxError unit :=
  _ ← mapping map_opendal (on_writer (w_abort op));
  v ← gets fst;
  when (vw_staged_local_publish v) (mapping map_opendal (on_op (op_delete op (vw_write_key v)))).

(** The part of [finish] that moves a staged file into place. *)
Definition condition_matches (expected_etag : option string) (destination : result OpError Metadata) :
    bool :=
  match expected_etag, destination with
  | None, Err error => bool_decide (oe_kind error = KNotFound)
  | Some expected, Ok metadata => bool_decide (md_etag metadata = Some expected)
  | _, _ => false
  end.

Definition publish_staged (v : VerifiedPublishWriter) : txn U FluxError unit :=
  destination ← gets (op_stat op (vw_key v));
  if negb (condition_matches (vw_expected_etag v) destination) then
    _ ← ignore (op_delete op (vw_write_key v)); throw EDirtyConflict
  else
    match_with (op_rename op (vw_write_key v) (vw_key v)) mret
      (λ error, _ ← ignore (op_delete op (vw_write_key v)); throw (map_publish_error error)).

(** The part of [finish] that checks what was published. *)
Definition check_published (v : VerifiedPublishWriter) (u : U) : Result UfsObject :=
  meta ← map_err map_opendal (op_stat op (vw_key v) u);
  if negb (md_content_length meta =? vw_expected_size v) then
    Err (Io ("published UFS size mismatch: want=" +:+ pretty (vw_expected_size v)
             +:+ " got=" +:+ pretty (md_content_length meta))) else
  if bool_decide ((md_user_metadata meta ≫= λ m, m !! FLUXFS_DIGEST_METADATA)
                  ≠ Some (vw_digest_hex v)) then
    Err (Io "published UFS digest metadata missing or mismatched")
  else Ok (object_of (vw_rel v) meta).

(** [VerifiedPublishWriter::finish]. *)
Definition vw_finish (v : VerifiedPublishWriter) : txn U FluxError UfsObject := λ u,
  let actual_digest := hash (vw_hasher v) in
  if negb (vw_written v =? vw_expected_size v) || negb (actual_digest =? vw_target_digest v) then
    let '(_, (_, u)) := discard (v, u) in
    (Err (InvalidArg ("publish payload verification failed: size=" +:+ pretty (vw_written v)
            +:+ "/" +:+ pretty (vw_expected_size v) +:+ " digest=" +:+ to_hex actual_digest
            +:+ "/" +:+ to_hex (vw_target_digest v))), u)
  else
  match on_writer (w_close op) (v, u) with
  | (Err error, s) => let '(_, (_, u)) := discard s in (Err (map_publish_error error), u)
  | (Ok _, (v, u)) =>
      (_ ← when (vw_staged_local_publish v) (publish_staged v); peek (check_published v)) u
  end.

(** [Ufs::begin_verified_publish]; [nonce] is the random suffix of a staged
    local file. *)
Definition begin_verified_publish (nonce : string) (rel : string) (expected_size : N)
    (expected_etag : option string) (target_digest : ChunkId) :
    txn U FluxError VerifiedPublishWriter :=
  let caps := op_capability op in
  _ ← fail_if (negb (verifiable_digest_metadata caps))
        (Capability "UFS backend cannot persist verification metadata");
  _ ← match expected_etag with
      | Some _ => fail_if (negb (conditional_overwrite caps))
                    (Capability "UFS backend does not support conditional overwrite")
      | None => fail_if (negb (conditional_create caps))
                  (Capability "UFS backend does not support create-if-absent")
      end;
  let key := ufs_key rel in
  let staged := bool_decide (op_scheme op = "fs") in
  let write_key := if staged then key +:+ ".fluxfs-upload-" +:+ nonce else key in
  let digest_hex := to_hex target_digest in
  let cond := match staged, expected_etag with
              | true, _ => IfNotExists
              | false, Some etag => IfMatch etag
              | false, None => IfNotExists
              end in
  writer ← mapping map_publish_error
             (op_writer_with op write_key cond {[FLUXFS_DIGEST_METADATA := digest_hex]});
  mret (mkVerifiedPublishWriter writer write_key key rel staged expected_etag expected_size
          target_digest digest_hex [] 0).

(** [Ufs::publish_full_verified]. *)
Definition publish_full_verified (nonce rel : string) (data : bytes) (expected_etag : option string)
    (target_digest : ChunkId) : txn U FluxError UfsObject := λ u,
  match begin_verified_publish nonce rel (N.of_nat (length data)) expected_etag target_digest u with
  | (Err e, u) => (Err e, u)
  | (Ok writer, u) =>
      match vw_write data (writer, u) with
      | (Err e, (_, u)) => (Err e, u)
      | (Ok _, (writer, u)) => vw_finish writer u
      end
  end.
End ufs.
