(* ===== verification/UfsPublish.v ===== *)
(** * Publication to the object store is atomic and verified

    The laws are what OpenDAL documents of its operators; the theorem is about
    [begin_verified_publish], the writer's [write] and [finish]. *)

From S2P Require Import Prelude Types Bytes Keys Ufs.

Local Open Scope N_scope.

(** ** The laws of an operator *)

Abbreviation Object := (bytes * Metadata)%type.

(** Nothing but possibly the file [key] of a local directory has changed. *)
Definition quiet {U} (objects : U → gmap string Object) (scheme key : string) (u u' : U) : Prop :=
  ∀ k, k ≠ key ∨ scheme ≠ "fs" → objects u' !! k = objects u !! k.

Definition cond_holds (cond : WriteCond) (old : option Object) : Prop :=
  match cond with
  | IfMatch etag => ∃ data md, old = Some (data, md) ∧ md_etag md = Some etag
  | IfNotExists => old = None
  end.

(** [objects] is the content of the store; [wr_key], [wr_cond], [wr_meta] and
    [wr_data] say what a writer was opened with and has been given.  A writer
    on an object store publishes nothing before [close], and [close] publishes
    everything or nothing, under the writer's condition; a local file may be
    visible while it is written.  An error of [close] or [rename] leaves open
    whether it took effect. *)
Class OperatorLaws {U} (op : Operator U) := {
  objects : U → gmap string Object;
  wr_key : op_writer op → string;
  wr_cond : op_writer op → WriteCond;
  wr_meta : op_writer op → gmap string string;
  wr_data : op_writer op → bytes;
  law_stat key u md :
    op_stat op key u = Ok md →
    ∃ data, objects u !! key = Some (data, md) ∧ md_content_length md = N.of_nat (length data);
  law_stat_missing key u e :
    op_stat op key u = Err e → oe_kind e = KNotFound → objects u !! key = None;
  law_open key cond meta u r u' :
    op_writer_with op key cond meta u = (r, u') →
    quiet objects (op_scheme op) key u u' ∧
    ∀ w, r = Ok w → wr_key w = key ∧ wr_cond w = cond ∧ wr_meta w = meta ∧ wr_data w = [];
  law_write data w u r w' u' :
    w_write op data (w, u) = (r, (w', u')) →
    quiet objects (op_scheme op) (wr_key w) u u' ∧
    wr_key w' = wr_key w ∧ wr_cond w' = wr_cond w ∧ wr_meta w' = wr_meta w ∧
    (r = Ok tt → wr_data w' = wr_data w ++ data);
  law_abort w u r w' u' :
    w_abort op (w, u) = (r, (w', u')) →
    quiet objects (op_scheme op) (wr_key w) u u' ∧ wr_key w' = wr_key w;
  law_close w u r w' u' :
    w_close op (w, u) = (r, (w', u')) →
    wr_key w' = wr_key w ∧
    ((quiet objects (op_scheme op) (wr_key w) u u' ∧ r ≠ Ok tt) ∨
     (op_scheme op ≠ "fs" → cond_holds (wr_cond w) (objects u !! wr_key w)) ∧
     ∃ md, md_content_length md = N.of_nat (length (wr_data w)) ∧
           md_user_metadata md = Some (wr_meta w) ∧
           objects u' = <[wr_key w := (wr_data w, md)]> (objects u));
  law_delete key u r u' :
    op_delete op key u = (r, u') → ∀ k, k ≠ key → objects u' !! k = objects u !! k;
  law_rename a b u r u' :
    op_rename op a b u = (r, u') →
    (objects u' = objects u ∧ r ≠ Ok tt) ∨
    ∃ o, objects u !! a = Some o ∧ objects u' = <[b := o]> (delete a (objects u))
}.

Section publish.
Context {U : Type} (hash : bytes → ChunkId) (op : Operator U) (prefix : string) `{!OperatorLaws op}.

Abbreviation V := (VerifiedPublishWriter op * U)%type.

Definition expected_cond (etag : option string) : WriteCond :=
  match etag with Some e => IfMatch e | None => IfNotExists end.

(** The writer [v] belongs to a publication that started in [u0], and so far
    only its own staging file may have changed. *)
Record vw_frame (u0 : U) (v : VerifiedPublishWriter op) (u : U) : Prop := {
  vf_staged : vw_staged_local_publish op v = bool_decide (op_scheme op = "fs");
  vf_write_key : wr_key (vw_writer op v) = vw_write_key op v;
  vf_key : op_scheme op = "fs" → vw_write_key op v ≠ vw_key op v;
  vf_quiet : quiet objects (op_scheme op) (vw_write_key op v) u0 u
}.

(** It has been given [sent]. *)
Record vw_ok (etag : option string) (sent : bytes) (v : VerifiedPublishWriter op) : Prop := {
  vo_etag : vw_expected_etag op v = etag;
  vo_same : op_scheme op ≠ "fs" → vw_write_key op v = vw_key op v;
  vo_cond : op_scheme op ≠ "fs" → wr_cond (vw_writer op v) = expected_cond etag;
  vo_meta : wr_meta (vw_writer op v) = {[FLUXFS_DIGEST_METADATA := to_hex (vw_target_digest op v)]};
  vo_hex : vw_digest_hex op v = to_hex (vw_target_digest op v);
  vo_hasher : vw_hasher op v = sent;
  vo_data : wr_data (vw_writer op v) = sent;
  vo_written : vw_written op v = N.of_nat (length sent)
}.

(** What does not change while a publication runs. *)
Definition same_target (v v' : VerifiedPublishWriter op) : Prop :=
  vw_key op v' = vw_key op v ∧ vw_write_key op v' = vw_write_key op v ∧
  vw_rel op v' = vw_rel op v ∧ vw_expected_size op v' = vw_expected_size op v ∧
  vw_target_digest op v' = vw_target_digest op v.

Lemma quiet_trans key u1 u2 u3 :
  quiet objects (op_scheme op) key u1 u2 → quiet objects (op_scheme op) key u2 u3 →
  quiet objects (op_scheme op) key u1 u3.
Proof. intros H1 H2 k Hk. rewrite H2 by done. by apply H1. Qed.

Lemma key_suffix (a b : string) : b ≠ "" → a +:+ b ≠ a.
Proof.
  intros Hb H. induction a as [|c a IH]; [by apply Hb|]. injection H as H. by apply IH.
Qed.

Lemma discard_frame u0 v u r v' u' :
  discard op (v, u) = (r, (v', u')) → vw_frame u0 v u → vw_frame u0 v' u' ∧ same_target v v'.
Proof.
  intros H [Hst Hk Hne Hq]. unfold discard, mbind, txn_bind, ignore, on_writer, gets in H.
  cbn [fst snd] in H. destruct (w_abort op (vw_writer op v, u)) as [r1 [w1 u1]] eqn:Ha.
  apply law_abort in Ha as [Hq1 Hk1]. rewrite Hk in Hq1.
  assert (vw_frame u0 (set_vw_writer op w1 v) u1) as Hf.
  { split; cbn; [done|by rewrite Hk1|done|]. by eapply quiet_trans. }
  cbn [fst set_vw_writer vw_staged_local_publish] in H.
  destruct (vw_staged_local_publish op v) eqn:Hs; cbn in H; rewrite ?Hs in H; cbn in H.
  - unfold on_op in H. cbn in H. destruct (op_delete op (vw_write_key op v) u1) as [r2 u2] eqn:Hd. simplify_eq/=.
    assert (∀ k, k ≠ vw_write_key op v → objects u' !! k = objects u1 !! k) as Hd'
      by (by eapply law_delete).
    split; [|done]. destruct Hf as [? ? ? Hq2]. split; [done..|].
    cbn in *. symmetry in Hst. apply bool_decide_eq_true in Hst.
    intros k [Hk'|Hk']; [|done]. rewrite Hd' by done. apply Hq2. by left.
  - unfold mret, txn_ret in H. injection H as <- <- <-. done.
Qed.

Lemma vw_write_spec u0 data v u r v' u' :
  vw_write op data (v, u) = (r, (v', u')) → vw_frame u0 v u →
  vw_frame u0 v' u' ∧ same_target v v' ∧
  ∀ etag sent, r = Ok tt → vw_ok etag sent v → vw_ok etag (sent ++ data) v'.
Proof.
  intros H Hf. unfold vw_write in H. cbn [mbind txn_bind gets fst] in H.
  unfold mbind, txn_bind, gets, lift in H. cbn [fst] in H.
  destruct (checked_add _ _) as [next|] eqn:Hn; cbn [ok_or] in H; [|by simplify_eq/=].
  apply checked_add_Some in Hn as [-> _].
  destruct (_ <? _).
  - destruct (discard op (v, u)) as [r1 [v1 u1]] eqn:Hd.
    apply (discard_frame u0) in Hd as [Hf1 Hs1]; [|done].
    destruct r1; unfold throw in H; by simplify_eq/=.
  - unfold match_with, on_writer in H. cbn [fst snd] in H.
    destruct (w_write op data (vw_writer op v, u)) as [r1 [w1 u1]] eqn:Hw.
    apply law_write in Hw as (Hq&Hk&Hc&Hm&Hdat). destruct Hf as [Hst Hwk Hne Hq0].
    assert (vw_frame u0 (set_vw_writer op w1 v) u1) as Hf1.
    { split; cbn; [done|by rewrite Hk|done|]. eapply quiet_trans; [done|]. by rewrite <-Hwk. }
    destruct r1 as [[]|e].
    + unfold modify in H. simplify_eq/=. split_and!; [by destruct Hf1; split|done|].
      intros etag sent _ []. split; cbn in *; subst; try done.
      * intros ?. rewrite Hc. auto.
      * by rewrite Hm.
      * rewrite Hdat; congruence.
      * rewrite length_app. lia.
    + destruct (discard op _) as [r2 [v2 u2]] eqn:Hd.
      apply (discard_frame u0) in Hd as [Hf2 Hs2]; [|done].
      destruct r2; unfold throw in H; by simplify_eq/=.
Qed.

Lemma writes_spec u0 chunks v u r v' u' :
  for_each (vw_write op) chunks (v, u) = (r, (v', u')) → vw_frame u0 v u →
  vw_frame u0 v' u' ∧ same_target v v' ∧
  ∀ etag sent, r = Ok tt → vw_ok etag sent v → vw_ok etag (sent ++ concat chunks) v'.
Proof.
  revert v u. induction chunks as [|b chunks IH]; intros v u H Hf.
  { cbn in H. unfold mret, txn_ret in H. injection H as <- <- <-. split_and!; [done..|]. intros. by rewrite app_nil_r. }
  cbn [for_each] in H. apply txn_bind_inv in H as [([]&[v1 u1]&H1&H2)|(e&H1&->)].
  - apply (vw_write_spec u0) in H1 as (Hf1&Hs1&Ho1); [|done].
    apply IH in H2 as (Hf2&Hs2&Ho2); [|done]. split_and!; [done| |].
    + unfold same_target in *. naive_solver congruence.
    + intros etag sent -> Ho. cbn. rewrite app_assoc. eauto.
  - apply (vw_write_spec u0) in H1 as (Hf1&Hs1&Ho1); [|done]. split_and!; [done..|].
    intros ?? [=].
Qed.

Lemma begin_spec nonce rel size etag digest u v u1 :
  begin_verified_publish op prefix nonce rel size etag digest u = (Ok v, u1) →
  vw_frame u v u1 ∧ vw_ok etag [] v ∧ vw_key op v = ufs_key prefix rel ∧ vw_rel op v = rel ∧
  vw_expected_size op v = size ∧ vw_target_digest op v = digest ∧
  (op_scheme op = "fs" → vw_write_key op v = ufs_key prefix rel +:+ ".fluxfs-upload-" +:+ nonce).
Proof.
  unfold begin_verified_publish. intros H.
  apply txn_bind_inv in H as [(?&?&H0&H)|(?&?&[=])].
  unfold fail_if in H0. destruct (negb _) in H0; simplify_eq.
  apply txn_bind_inv in H as [(?&u2&H0&H)|(?&?&[=])].
  assert (u2 = x0) as -> by (destruct etag; unfold fail_if in H0; by simplify_eq). clear H0.
  apply txn_bind_inv in H as [(w&u3&H0&H)|(?&?&[=])].
  unfold mapping in H0. destruct (op_writer_with _ _ _ _ _) as [r u4] eqn:Hw.
  destruct r as [w'|]; simplify_eq/=.
  apply law_open in Hw as [Hq Hw]. destruct (Hw w eq_refl) as (Hk&Hc&Hm&Hd).
  unfold mret, txn_ret in H. simplify_eq. clear Hw.
  destruct (decide (op_scheme op = "fs")) as [Hfs|Hfs].
  - rewrite (bool_decide_true (op_scheme op = "fs")) in * by done.
    split_and!; try done; split; cbn; try done; try congruence.
    + by rewrite bool_decide_true.
    + intros _. by apply key_suffix.
  - rewrite (bool_decide_false (op_scheme op = "fs")) in * by done.
    split_and!; try done; split; cbn; try done; try congruence.
    + by rewrite bool_decide_false.
Qed.

Lemma frame_key u0 v u :
  vw_frame u0 v u → objects u !! vw_key op v = objects u0 !! vw_key op v.
Proof.
  intros [_ _ Hne Hq]. apply Hq. destruct (decide (op_scheme op = "fs")); [left|by right].
  intros Heq. by apply Hne.
Qed.

Lemma frame_other u0 v u k :
  vw_frame u0 v u → k ≠ vw_write_key op v → objects u !! k = objects u0 !! k.
Proof. intros [_ _ _ Hq] ?. apply Hq. by left. Qed.

Lemma frame_refl u0 v u : vw_frame u0 v u → vw_frame u v u.
Proof. intros [???]. by split. Qed.

(** The payload has landed: the object holds what was sent, and that has the
    promised digest and size. *)
Definition landed (v : VerifiedPublishWriter op) (sent : bytes) (md : Metadata) (u : U) : Prop :=
  hash sent = vw_target_digest op v ∧ N.of_nat (length sent) = vw_expected_size op v ∧
  objects u !! vw_key op v = Some (sent, md).

(** What [finish] returns describes the object, which carries the digest. *)
Definition labelled (v : VerifiedPublishWriter op) (md : Metadata) (obj : UfsObject) : Prop :=
  obj = object_of (vw_rel op v) md ∧ md_content_length md = vw_expected_size op v ∧
  md_user_metadata md ≫= (λ m, m !! FLUXFS_DIGEST_METADATA) = Some (vw_digest_hex op v).

Definition finish_post (u0 : U) (etag : option string) (sent : bytes) (v : VerifiedPublishWriter op)
    (r : Result UfsObject) (u : U) : Prop :=
  (∀ k, k ≠ vw_key op v → k ≠ vw_write_key op v → objects u !! k = objects u0 !! k) ∧
  match r with
  | Ok obj => ∃ md, landed v sent md u ∧ labelled v md obj ∧
                    cond_holds (expected_cond etag) (objects u0 !! vw_key op v)
  | Err _ => objects u !! vw_key op v = objects u0 !! vw_key op v ∨ ∃ md, landed v sent md u
  end.

Lemma check_published_spec v sent md u r :
  check_published op v u = r → landed v sent md u →
  match r with Ok obj => labelled v md obj | Err _ => True end.
Proof.
  intros <- (_&_&Hl). unfold check_published. destruct (op_stat op _ u) as [md'|] eqn:Hs; [|done].
  apply law_stat in Hs as (data&Ho&_). assert (md' = md) as -> by congruence. cbn.
  destruct (N.eqb_spec (md_content_length md) (vw_expected_size op v)) as [Hsz|]; [cbn|done].
  by case_bool_decide.
Qed.

Lemma condition_matches_spec etag key u :
  condition_matches etag (op_stat op key u) = true → cond_holds (expected_cond etag) (objects u !! key).
Proof.
  unfold condition_matches. destruct etag as [e|], (op_stat op key u) as [md|er] eqn:Hs; try done.
  - intros Hb%bool_decide_eq_true. apply law_stat in Hs as (data&->&_). cbn. eauto.
  - intros Hb%bool_decide_eq_true. by eapply law_stat_missing.
Qed.

Lemma publish_staged_spec u0 etag sent v u r u' md :
  publish_staged op v u = (r, u') → op_scheme op = "fs" → vw_frame u0 v u → vw_expected_etag op v = etag →
  hash sent = vw_target_digest op v → N.of_nat (length sent) = vw_expected_size op v →
  objects u !! vw_write_key op v = Some (sent, md) →
  (∀ k, k ≠ vw_key op v → k ≠ vw_write_key op v → objects u' !! k = objects u0 !! k) ∧
  match r with
  | Ok _ => landed v sent md u' ∧ cond_holds (expected_cond etag) (objects u0 !! vw_key op v)
  | Err _ => objects u' !! vw_key op v = objects u0 !! vw_key op v ∨ landed v sent md u'
  end.
Proof.
  intros H Hfs Hf Ho Hh Hl Hw. pose proof (vf_key _ _ _ Hf Hfs) as Hne.
  unfold publish_staged, gets, mbind, txn_bind in H.
  destruct (condition_matches _ _) eqn:Hc; cbn [negb] in H.
  - rewrite Ho in Hc. apply condition_matches_spec in Hc.
    rewrite (frame_key _ _ _ Hf) in Hc. unfold match_with in H.
    destruct (op_rename op _ _ u) as [r1 u1] eqn:Hr.
    apply law_rename in Hr as [[Heq Hr]|(o&Ho1&Heq)].
    + destruct r1 as [[]|e]; [done|]. unfold ignore in H. cbn in H.
      destruct (op_delete op _ u1) as [r2 u2] eqn:Hd. unfold throw in H. simplify_eq/=.
      pose proof (law_delete _ _ _ _ Hd) as Hdel. split.
      * intros k ??. rewrite Hdel, Heq by done. by eapply frame_other.
      * left. rewrite Hdel, Heq by done. by apply frame_key.
    + rewrite Hw in Ho1. injection Ho1 as <-.
      assert (landed v sent md u1) as Hland.
      { split_and!; [done..|]. by rewrite Heq, lookup_insert_eq. }
      assert (∀ k, k ≠ vw_key op v → k ≠ vw_write_key op v → objects u1 !! k = objects u0 !! k) as Hk.
      { intros k ??. rewrite Heq, lookup_insert_ne, lookup_delete_ne by done. by eapply frame_other. }
      destruct r1 as [[]|e]; [by unfold mret, txn_ret in H; simplify_eq|].
      unfold ignore in H. cbn in H. destruct (op_delete op _ u1) as [r2 u2] eqn:Hd.
      unfold throw in H. simplify_eq/=. pose proof (law_delete _ _ _ _ Hd) as Hdel. split.
      * intros k ??. rewrite Hdel by done. auto.
      * right. destruct Hland as (?&?&?). split_and!; [done..|]. by rewrite Hdel by done.
  - unfold ignore in H. cbn in H. destruct (op_delete op _ u) as [r2 u2] eqn:Hd.
    unfold throw in H. simplify_eq/=. pose proof (law_delete _ _ _ _ Hd) as Hdel. split.
    + intros k ??. rewrite Hdel by done. by eapply frame_other.
    + left. rewrite Hdel by done. by apply frame_key.
Qed.

(** Giving up after [u1] was reached leaves the object as it was there. *)
Lemma discard_post u0 u1 etag sent v v1 u2 r (e : FluxError) :
  discard op (v1, u1) = (r, u2) → vw_frame u1 v1 u1 → same_target v v1 →
  (∀ k, k ≠ vw_key op v → k ≠ vw_write_key op v → objects u1 !! k = objects u0 !! k) →
  objects u1 !! vw_key op v = objects u0 !! vw_key op v ∨ (∃ md, landed v sent md u1) →
  finish_post u0 etag sent v (Err e) u2.2.
Proof.
  destruct u2 as [v2 u2]. intros Hd Hf (Hk&Hwk&_) Hother Hkey.
  apply (discard_frame u1) in Hd as [Hf2 (Hk2&Hwk2&_)]; [|done].
  pose proof (frame_key _ _ _ Hf2) as Hkey2. rewrite Hk2, Hk in Hkey2. split; cbn.
  - intros k ??. rewrite (frame_other _ _ _ k Hf2) by congruence. auto.
  - rewrite Hkey2. destruct Hkey as [?|(md&?&?&Hl)]; [by left|right].
    exists md. split_and!; [done..|congruence].
Qed.

Lemma finish_spec u0 etag sent v u r u' :
  vw_finish hash op v u = (r, u') → vw_frame u0 v u → vw_ok etag sent v →
  finish_post u0 etag sent v r u'.
Proof.
  intros H Hf Ho. unfold vw_finish in H. rewrite (vo_hasher _ _ _ Ho), (vo_written _ _ _ Ho) in H.
  destruct (N.eqb_spec (N.of_nat (length sent)) (vw_expected_size op v)) as [Hsz|Hsz];
    [destruct (N.eqb_spec (hash sent) (vw_target_digest op v)) as [Hh|Hh]|]; cbn [negb orb] in H.
  2,3: destruct (discard op (v, u)) as [r1 [v1 u1]] eqn:Hd; simplify_eq/=;
    apply (discard_post u0 u etag sent v v (v1, u') r1); [done|by eapply frame_refl|done| |];
    [intros k _ ?; by eapply frame_other|left; by apply frame_key].
  unfold on_writer in H. cbn [fst snd] in H.
  destruct (w_close op (vw_writer op v, u)) as [r1 [w1 u1]] eqn:Hc.
  apply law_close in Hc as [Hwk Hcl]. set (v1 := set_vw_writer op w1 v) in *.
  assert (same_target v v1) as Hs1 by done.
  assert (vw_frame u1 v1 u1) as Hf1.
  { destruct Hf. split; cbn; [done|by rewrite Hwk|done|by intros]. }
  assert (∀ k, k ≠ vw_key op v → k ≠ vw_write_key op v → objects u1 !! k = objects u0 !! k) as Hother.
  { intros k ??. rewrite <-(frame_other _ _ _ k Hf) by done. rewrite (vf_write_key _ _ _ Hf) in Hcl.
    destruct Hcl as [[Hq _]|(_&md&_&_&->)]; [apply Hq; by left|by rewrite lookup_insert_ne]. }
  rewrite (vf_write_key _ _ _ Hf), (vo_data _ _ _ Ho) in Hcl.
  destruct (decide (op_scheme op = "fs")) as [Hfs|Hfs].
  - (* staged: the object itself is still untouched *)
    pose proof (vf_key _ _ _ Hf Hfs) as Hne.
    assert (vw_frame u0 v1 u1) as Hf01.
    { destruct Hf as [? ? ? Hq0]. split; cbn; [done|by rewrite Hwk|done|]. intros k [Hk|?]; [|done].
      rewrite <-(Hq0 k) by (by left).
      destruct Hcl as [[Hq _]|(_&md&_&_&->)]; [apply Hq; by left|by rewrite lookup_insert_ne]. }
    destruct r1 as [[]|e].
    + destruct Hcl as [[_ ?]|(_&md&_&_&Hobj)]; [done|].
      rewrite (vf_staged _ _ _ Hf01), bool_decide_true in H by done. cbn [when] in H.
      unfold mbind, txn_bind in H. destruct (publish_staged op v1 u1) as [r2 u2] eqn:Hp.
      apply (publish_staged_spec u0 etag sent v1 u1 r2 u2 md) in Hp as [Hk2 Hr2];
        [|done|done|apply (vo_etag _ _ _ Ho)|done|done|by rewrite Hobj, lookup_insert_eq].
      assert (u' = u2) as -> by (destruct r2 as [[]|]; unfold peek in H; by injection H).
      split; [exact Hk2|].
      destruct r2 as [[]|e]; unfold peek in H; simplify_eq/=; [|naive_solver].
      destruct Hr2 as [Hland Hcond]. pose proof (check_published_spec v1 sent md u2 _ eq_refl Hland) as Hcp.
      destruct (check_published op v1 u2); eauto.
    + destruct (discard op (v1, u1)) as [r2 [v2 u2]] eqn:Hd. simplify_eq/=.
      apply (discard_post u0 u1 etag sent v v1 (v2, u') r2); [done..|]. left. by apply (frame_key _ v1).
  - assert (∀ md, objects u1 = <[vw_write_key op v := (sent, md)]> (objects u) → landed v sent md u1) as Hl.
    { intros md Hobj. split_and!; [done..|].
      by rewrite Hobj, (vo_same _ _ _ Ho), lookup_insert_eq by done. }
    destruct r1 as [[]|e].
    + destruct Hcl as [[_ ?]|(Hcond&md&_&_&Hobj)]; [done|]. specialize (Hl md Hobj).
      rewrite (vf_staged _ _ _ Hf1), bool_decide_false in H by done.
      unfold when, mret, txn_ret, mbind, txn_bind, peek in H. injection H as <- <-.
      split; [exact Hother|]. pose proof (check_published_spec v1 sent md u1 _ eq_refl Hl) as Hcp.
      specialize (Hcond Hfs). rewrite (vo_cond _ _ _ Ho), (vo_same _ _ _ Ho), (frame_key _ _ _ Hf) in Hcond by done.
      destruct (check_published op v1 u1); eauto.
    + destruct (discard op (v1, u1)) as [r2 [v2 u2]] eqn:Hd. simplify_eq/=.
      apply (discard_post u0 u1 etag sent v v1 (v2, u') r2); [done..|].
      destruct Hcl as [[Hq _]|(_&md&_&_&Hobj)]; [left|eauto].
      rewrite (Hq (vw_key op v)) by (by right). by apply frame_key.
Qed.

(** C16: publishing an object is atomic, conditional and verified.  Until
    [finish], however many pieces were written, the object under the target
    key is what it was.  When [finish] succeeds, the object holds exactly the
    concatenated pieces, their digest and size are the announced ones, and the
    object that was replaced satisfied the condition (it carried the expected
    ETag, or there was none).  When [finish] fails, the object is untouched or
    holds the complete verified payload, never anything else.  No object but
    the target and the staging file changes. *)
Theorem publish_atomic nonce rel size etag digest chunks u v u1 r1 v1 u2 :
  begin_verified_publish op prefix nonce rel size etag digest u = (Ok v, u1) →
  for_each (vw_write op) chunks (v, u1) = (r1, (v1, u2)) →
  objects u2 !! ufs_key prefix rel = objects u !! ufs_key prefix rel ∧
  ∀ r u3, r1 = Ok tt → vw_finish hash op v1 u2 = (r, u3) →
    let sent := concat chunks in
    let published md := hash sent = digest ∧ N.of_nat (length sent) = size ∧
                        objects u3 !! ufs_key prefix rel = Some (sent, md) in
    (∀ k, k ≠ ufs_key prefix rel → k ≠ ufs_key prefix rel +:+ ".fluxfs-upload-" +:+ nonce →
          objects u3 !! k = objects u !! k) ∧
    match r with
    | Ok obj => ∃ md, published md ∧ obj = object_of rel md ∧
                      cond_holds (expected_cond etag) (objects u !! ufs_key prefix rel)
    | Err _ => objects u3 !! ufs_key prefix rel = objects u !! ufs_key prefix rel ∨ ∃ md, published md
    end.
Proof.
  intros Hb Hw. apply begin_spec in Hb as (Hf&Ho&Hk&Hr&Hsz&Hd&Hst).
  apply (writes_spec u) in Hw as (Hf1&(Hk1&Hwk1&Hr1&Hsz1&Hd1)&Ho1); [|done].
  split; [rewrite <-Hk, <-Hk1; by apply frame_key|]. intros r u3 -> Hfin. cbv zeta.
  apply (finish_spec u etag (concat chunks)) in Hfin as [Hother Hpost]; [|done|exact (Ho1 etag [] eq_refl Ho)].
  unfold landed in Hpost. rewrite ?Hk1, ?Hk, ?Hd1, ?Hd, ?Hsz1, ?Hsz in *.
  split.
  2: { destruct r as [obj|]; [|done]. destruct Hpost as (md&?&(?&_)&?). exists md.
       by rewrite Hr1, Hr in *. }
  intros k Hne Hne'. apply Hother; [done|]. rewrite Hwk1.
  destruct (decide (op_scheme op = "fs")); [by rewrite Hst|by rewrite (vo_same _ _ _ Ho), Hk].
Qed.
End publish.

(** ** An operator in memory *)

(** An object: its bytes, its version and its user metadata. *)
Abbreviation MemObject := (bytes * N * gmap string string)%type.

Definition mem_object (o : MemObject) : Object :=
  let '(data, version, um) := o in
  (data, mkMetadata FILE (N.of_nat (length data)) (Some (to_hex version)) None (Some um)).

(** The objects and the next version. *)
Abbreviation Mem := (gmap string MemObject * N)%type.
Definition mem_objects (u : Mem) : gmap string Object := mem_object <$> u.1.

Record MemWriter := mkMemWriter {
  mw_key : string; mw_cond : WriteCond; mw_meta : gmap string string; mw_data : bytes
}.

Definition cond_check (cond : WriteCond) (old : option Object) : bool :=
  match cond, old with
  | IfMatch etag, Some (_, md) => bool_decide (md_etag md = Some etag)
  | IfNotExists, None => true
  | _, _ => false
  end.

Definition mem_close : txn (MemWriter * Mem) OpError unit := λ s,
  let '(w, (m, n)) := s in
  if cond_check (mw_cond w) (mem_object <$> m !! mw_key w)
  then (Ok tt, (w, (<[mw_key w := (mw_data w, n, mw_meta w)]> m, n + 1)))
  else (Err (mkOpError KConditionNotMatch "condition not met"), s).

Definition mem_operator (scheme : string) : Operator Mem := {|
  op_scheme := scheme;
  op_capability := mkPublishCapabilities true true true;
  op_stat key u := match u.1 !! key with
                   | Some o => Ok (mem_object o).2
                   | None => Err (mkOpError KNotFound "no such object")
                   end;
  op_read key a b etag u :=
    match u.1 !! key with
    | None => Err (mkOpError KNotFound "no such object")
    | Some o =>
        if bool_decide (is_Some etag ∧ md_etag (mem_object o).2 ≠ etag)
        then Err (mkOpError KConditionNotMatch "etag differs")
        else Ok (take (N.to_nat (b - a)) (drop (N.to_nat a) (mem_object o).1))
    end;
  op_list _ u := Ok ((λ kv, (kv.1, kv.2.2)) <$> map_to_list (mem_objects u));
  op_write key data u := (Ok tt, (<[key := (data, u.2, ∅)]> u.1, u.2 + 1));
  op_delete key u := (Ok tt, (delete key u.1, u.2));
  op_rename a b u := match u.1 !! a with
                     | Some o => (Ok tt, (<[b := o]> (delete a u.1), u.2))
                     | None => (Err (mkOpError KNotFound "no such object"), u)
                     end;
  op_writer := MemWriter;
  op_writer_with key cond um u := (Ok (mkMemWriter key cond um []), u);
  w_write data s := (Ok tt, (mkMemWriter (mw_key s.1) (mw_cond s.1) (mw_meta s.1) (mw_data s.1 ++ data), s.2));
  w_abort s := (Ok tt, s);
  w_close := mem_close
|}.

#[export] Program Instance mem_operator_laws scheme : OperatorLaws (mem_operator scheme) := {|
  objects := mem_objects; wr_key := mw_key; wr_cond := mw_cond; wr_meta := mw_meta; wr_data := mw_data
|}.
Next Obligation.
  intros scheme key [m n] md H. cbn in *. unfold mem_objects. rewrite lookup_fmap. cbn.
  destruct (m !! key) as [[[data v] um]|]; simplify_eq/=. eauto.
Qed.
Next Obligation.
  intros scheme key [m n] e H ?. cbn in *. unfold mem_objects. rewrite lookup_fmap. cbn.
  by destruct (m !! key).
Qed.
Next Obligation. intros scheme key cond meta u r u' H. cbn in H. simplify_eq. split; [done|]. by intros w [= <-]. Qed.
Next Obligation. intros scheme data w u r w' u' H. cbn in H. by simplify_eq. Qed.
Next Obligation. intros scheme w u r w' u' H. cbn in H. by simplify_eq. Qed.
Next Obligation.
  intros scheme w [m n] r w' u' H. cbn in *. unfold mem_close in H.
  destruct (cond_check _ _) eqn:Hc; simplify_eq/=; (split; [done|]); [right|by left]. split.
  - intros _. unfold mem_objects. rewrite lookup_fmap. unfold cond_check in Hc. cbn.
    destruct (mw_cond w'), (mem_object <$> m !! _) as [[]|]; try done.
    apply bool_decide_eq_true in Hc. cbn. eauto.
  - exists (mem_object (mw_data w', n, mw_meta w')).2. unfold mem_objects. cbn. by rewrite fmap_insert.
Qed.
Next Obligation.
  intros scheme key [m n] r u' H k ?. cbn in *. simplify_eq/=. unfold mem_objects. cbn.
  by rewrite fmap_delete, lookup_delete_ne.
Qed.
Next Obligation.
  intros scheme a b [m n] r u' H. cbn in *. unfold mem_objects.
  destruct (m !! a) eqn:Ha; simplify_eq/=; [right|by left].
  eexists. rewrite lookup_fmap, Ha. split; [done|]. by rewrite fmap_insert, fmap_delete.
Qed.

(** Two pieces published over an object of version 0. *)
Definition mem_store : Mem := ({["d/f" := ([x61]%byte, 0, ∅)]}, 1).

Lemma publish_atomic_witness :
  ∃ v u1 v1 u2 obj u3,
    begin_verified_publish (mem_operator "fs") "" "n1" "/d/f" 3 (Some (to_hex 0)) 7 mem_store = (Ok v, u1) ∧
    for_each (vw_write (mem_operator "fs")) [[x61; x62]; [x63]]%byte (v, u1) = (Ok tt, (v1, u2)) ∧
    vw_finish (λ _, 7) (mem_operator "fs") v1 u2 = (Ok obj, u3) ∧
    ∃ md, objects (op := mem_operator "fs") u3 !! "d/f" = Some ([x61; x62; x63]%byte, md).
Proof.
  assert (match begin_verified_publish (mem_operator "fs") "" "n1" "/d/f" 3 (Some (to_hex 0)) 7 mem_store with
          | (Ok v, u1) =>
              match for_each (vw_write (mem_operator "fs")) [[x61; x62]; [x63]]%byte (v, u1) with
              | (Ok _, (v1, u2)) => is_ok (vw_finish (λ _, 7) (mem_operator "fs") v1 u2).1
              | _ => false
              end
          | _ => false
          end = true) as Hrun by (vm_compute; reflexivity).
  destruct (begin_verified_publish _ _ _ _ _ _ _ _) as [[v|] u1] eqn:Hb; [|discriminate Hrun].
  destruct (for_each _ _ _) as [[[]|] [v1 u2]] eqn:Hw; [|discriminate Hrun].
  destruct (vw_finish _ _ v1 u2) as [[obj|] u3] eqn:Hf; [|discriminate Hrun].
  exists v, u1, v1, u2, obj, u3. do 3 (split; [first [reflexivity|assumption]|]).
  destruct (publish_atomic (λ _, 7) (mem_operator "fs") "" "n1" "/d/f" 3 (Some (to_hex 0)) 7
    [[x61; x62]; [x63]]%byte mem_store v u1 _ v1 u2 Hb Hw) as [_ H].
  destruct (H _ _ eq_refl Hf) as [_ (md&(_&_&Hobj)&_)]. exists md. exact Hobj.
Defined.
