(* ===== verification/UfsRead.v ===== *)
(** * Cached range reads ([crates/ufs/src/read_path.rs])

    [UfsReadPath] reads an object in parts of fixed size through a cache keyed
    by path, version and part number.  The cache is foyer's [HybridCache]: a
    map that may drop any entry at any time; [get_or_fetch] returns the entry
    of a key or stores what the fetch returned.  Reads change only the cache
    and two counters, not the object store. *)

From S2P Require Import Prelude Types Bytes Keys Ufs UfsPublish.

Local Open Scope N_scope.

Record ReadPathConfig := mkReadPathConfig {
  part_size : N;
  max_cached_parts : N;
  prefetch_parts : N;
  disk_capacity_bytes : N;
  cache_dir : option string
}.

Definition ReadPathConfig_default : ReadPathConfig := mkReadPathConfig (1024 * 1024) 256 2 0 None.

Definition memory_capacity_bytes (c : ReadPathConfig) : N :=
  N.max (N.min (N.max (max_cached_parts c) 1 * N.max (part_size c) 1) U64_MAX) (64 * 1024).

Definition for_mount (data_dir : string) (memory_capacity disk_capacity : N) (dir : option string) :
    ReadPathConfig :=
  let part := 1024 * 1024 in
  mkReadPathConfig part (N.max (N.max memory_capacity part / part) 1) 2 disk_capacity
    (Some (default (data_dir +:+ "/ufs-foyer-cache") dir)).

Record UfsReadPath := mkUfsReadPath {
  rp_cache : gmap string bytes;
  backend_fetches : N;
  cache_hits : N
}.

Definition version_token (object : UfsObject) : string :=
  match uo_etag object with
  | Some etag => etag
  | None => "size=" +:+ pretty (uo_size object) +:+ ";mtime=" +:+ pretty (default 0%Z (uo_mtime_ms object))
  end.

Definition part_cache_key (rel version : string) (index : N) : string :=
  rel +:+ String NUL (version +:+ String NUL (pretty index)).

Section read.
Context {U : Type} (op : Operator U) (prefix : string) (config : ReadPathConfig).
(** The text of an error that comes back through foyer. *)
Context (foyer_text : string → FluxError → string).
Context (u : U).

Abbreviation R := (txn UfsReadPath FluxError).

(** [UfsReadPath::open] without the construction of the cache. *)
Definition open_read_path : Result UfsReadPath :=
  if part_size config =? 0 then Err (InvalidArg "UFS part_size must be > 0") else
  if max_cached_parts config =? 0 then Err (InvalidArg "UFS max_cached_parts must be > 0") else
  Ok (mkUfsReadPath ∅ 0 0).

(** The closure passed to [get_or_fetch]. *)
Definition fetch_part (rel : string) (object : UfsObject) (index : N) : Result bytes :=
  let start := index * part_size config in
  let expected := N.min (part_size config) (uo_size object - start) in
  data ← read_range_pinned op prefix rel start expected (uo_etag object) u;
  if negb (N.of_nat (length data) =? expected) then
    Err (UfsErr ("short UFS range read: path=" +:+ rel +:+ " offset=" +:+ pretty start
                 +:+ " expected=" +:+ pretty expected +:+ " actual="
                 +:+ pretty (N.of_nat (length data))))
  else Ok data.

Definition get_part (rel version : string) (object : UfsObject) (index : N) : R bytes := λ s,
  let key := part_cache_key rel version index in
  match rp_cache s !! key with
  | Some data => (Ok data, mkUfsReadPath (rp_cache s) (backend_fetches s) (wrap_add (cache_hits s) 1))
  | None =>
      let fetches := wrap_add (backend_fetches s) 1 in
      match fetch_part rel object index with
      | Ok data => (Ok data, mkUfsReadPath (<[key := data]> (rp_cache s)) fetches (cache_hits s))
      | Err e => (Err (UfsErr (foyer_text key e)), mkUfsReadPath (rp_cache s) fetches (cache_hits s))
      end
  end.

(** [try_join_all] over the parts [first ..= last]. *)
Fixpoint get_parts (rel version : string) (object : UfsObject) (indices : list N) : R (list bytes) :=
  match indices with
  | [] => mret []
  | index :: indices =>
      part ← get_part rel version object index;
      parts ← get_parts rel version object indices;
      mret (part :: parts)
  end.

(** The loop that copies the wanted range out of the parts. *)
Fixpoint copy_parts (offset end_ index : N) (parts : list bytes) : Result bytes :=
  match parts with
  | [] => Ok []
  | part :: parts =>
      let part_start := index * part_size config in
      let copy_start := offset - part_start in
      let copy_end := N.min end_ (part_start + N.of_nat (length part)) - part_start in
      if (copy_end <? copy_start) || (N.of_nat (length part) <? copy_end) then
        Err (UfsErr "cached UFS part bounds mismatch")
      else
        rest ← copy_parts offset end_ (index + 1) parts;
        Ok (take (N.to_nat (copy_end - copy_start)) (drop (N.to_nat copy_start) part) ++ rest)
  end.

Definition part_range (first count : N) : list N := (λ i, first + N.of_nat i) <$> seq 0 (N.to_nat count).

(** The spawned tasks, run one after the other; their results are dropped. *)
Definition spawn_prefetch (rel : string) (object : UfsObject) (first : N) : R unit :=
  let total_parts := (uo_size object + part_size config - 1) / part_size config in
  let end_ := N.min (sat_add first (prefetch_parts config)) total_parts in
  for_each (λ index, ignore (get_part rel (version_token object) object index))
    (part_range first (end_ - first)).

Definition read (rel : string) (object : UfsObject) (offset len : N) : R bytes :=
  if (len =? 0) || (uo_size object <=? offset) then mret [] else
  let end_ := N.min (sat_add offset len) (uo_size object) in
  let first := offset / part_size config in
  let last := (end_ - 1) / part_size config in
  parts ← get_parts rel (version_token object) object (part_range first (last + 1 - first));
  result ← lift (copy_parts offset end_ first parts);
  _ ← spawn_prefetch rel object (last + 1);
  mret result.
End read.

(** The UFS of a client: the operations of [Ufs] with reads through the read
    path.  Which parts are cached changes no answer (see [read_is_slice]), so
    the interface leaves the cache out. *)
Definition opendal_ufs {U} (hash : bytes → ChunkId) (op : Operator U) (prefix : string)
    (config : ReadPathConfig) (foyer_text : string → FluxError → string) (nonce : string) : Ufs U := {|
  ufs_writer := VerifiedPublishWriter op;
  ufs_probe := probe op prefix;
  ufs_list := list_ufs op prefix;
  ufs_read rel object offset len u :=
    (read op prefix config foyer_text u rel object offset len (mkUfsReadPath ∅ 0 0)).1;
  ufs_find_verified_publish := find_verified_publish op prefix;
  ufs_begin_verified_publish := begin_verified_publish op prefix nonce;
  ufs_write := vw_write op;
  ufs_abort := vw_abort op;
  ufs_finish := vw_finish hash op
|}.

(** ** Reads return the pinned content *)

(** The key of a part determines path, version and number. *)
Lemma until_nul_inj a a' x y :
  str_contains NUL a = false → str_contains NUL a' = false →
  a +:+ String NUL x = a' +:+ String NUL y → a = a' ∧ x = y.
Proof.
  revert a'. induction a as [|c a IH]; intros [|c' a']; cbn [str_contains]; intros Ha Ha' H.
  - by injection H.
  - injection H as <- _. by vm_compute in Ha'.
  - injection H as -> _. by vm_compute in Ha.
  - injection H as <- H. apply orb_false_iff in Ha as [_ Ha], Ha' as [_ Ha'].
    destruct (IH a' Ha Ha' H) as [-> ->]. done.
Qed.

Lemma part_cache_key_inj rel v i rel' v' i' :
  str_contains NUL rel = false → str_contains NUL rel' = false →
  str_contains NUL v = false → str_contains NUL v' = false →
  part_cache_key rel v i = part_cache_key rel' v' i' → rel = rel' ∧ v = v' ∧ i = i'.
Proof.
  intros ???? H. apply until_nul_inj in H as [-> H]; [|done..].
  apply until_nul_inj in H as [-> H]; [|done..]. by apply (inj pretty) in H.
Qed.

Lemma take_drop_app {A} (a b o : nat) (c : list A) :
  take a (drop o c) ++ take b (drop (o + a) c) = take (a + b) (drop o c).
Proof. rewrite <-drop_drop. generalize (drop o c). intros l. by rewrite take_take_drop. Qed.

Lemma take_drop_within {A} (a b m : nat) (l : list A) :
  (b + a ≤ m)%nat → take a (drop b (take m l)) = take a (drop b l).
Proof. intros. rewrite skipn_firstn_comm, take_take. f_equal. lia. Qed.

Lemma div_bounds a b : 0 < b → b * (a / b) ≤ a < b * (a / b) + b.
Proof.
  intros. pose proof (N.div_mod a b ltac:(lia)) as Hdm. pose proof (N.mod_lt a b ltac:(lia)) as Hml.
  revert Hdm Hml. generalize (a / b), (a mod b). lia.
Qed.

Section reads.
Context {U : Type} (op : Operator U) (prefix : string) (config : ReadPathConfig).
Context (foyer_text : string → FluxError → string).

(** [content rel version] is the object that a path had at a version.  A
    pinned read of the backend returns a range of it. *)
Context (content : string → string → bytes).
Definition pinned (rel : string) (object : UfsObject) : Prop :=
  N.of_nat (length (content rel (version_token object))) = uo_size object ∧
  uo_size object ≤ U64_MAX ∧
  str_contains NUL rel = false ∧ str_contains NUL (version_token object) = false.
Definition slice_of (rel : string) (object : UfsObject) (start len : N) : bytes :=
  take (N.to_nat len) (drop (N.to_nat start) (content rel (version_token object))).
Definition backend_pins (u : U) : Prop :=
  ∀ rel object start len d,
    pinned rel object → start + len ≤ uo_size object →
    read_range_pinned op prefix rel start len (uo_etag object) u = Ok d →
    N.of_nat (length d) = len → d = slice_of rel object start len.

Definition part_of (rel : string) (object : UfsObject) (index : N) : bytes :=
  slice_of rel object (index * part_size config)
    (N.min (part_size config) (uo_size object - index * part_size config)).

(** Every cached part of a pinned object is that part of its content. *)
Definition coherent (cache : gmap string bytes) : Prop :=
  ∀ rel object index d,
    pinned rel object → index * part_size config < uo_size object →
    cache !! part_cache_key rel (version_token object) index = Some d → d = part_of rel object index.

Lemma coherent_evict c c' : coherent c → c' ⊆ c → coherent c'.
Proof. intros Hc Hs rel object index d ?? Hd. eapply Hc; [done..|]. by eapply lookup_weaken. Qed.

Context (u : U) (Hpins : backend_pins u).

Lemma get_part_spec rel object index s r s' :
  pinned rel object → index * part_size config < uo_size object → coherent (rp_cache s) →
  get_part op prefix config foyer_text u rel (version_token object) object index s = (r, s') →
  coherent (rp_cache s') ∧
  (r = Ok (part_of rel object index) ∨
   ∃ e, fetch_part op prefix config u rel object index = Err e ∧
        r = Err (UfsErr (foyer_text (part_cache_key rel (version_token object) index) e))).
Proof.
  intros Hp Hi Hc H. unfold get_part in H.
  destruct (rp_cache s !! _) as [d|] eqn:Hd; simplify_eq/=.
  { split; [done|]. left. f_equal. by eapply Hc. }
  destruct (fetch_part _ _ _ _ _ _ _) as [d|e] eqn:Hf; simplify_eq/=; [|naive_solver].
  assert (d = part_of rel object index) as ->.
  { unfold fetch_part in Hf. apply bind_Ok in Hf as (d'&Hr&Hf).
    destruct (N.eqb_spec (N.of_nat (length d'))
      (N.min (part_size config) (uo_size object - index * part_size config))); simplify_eq/=.
    eapply Hpins; [done| |done|done]. lia. }
  split; [|by left]. intros rel' object' index' d Hp' Hi'. rewrite lookup_insert.
  case_decide as Hkey; [|by apply Hc]. intros [= <-].
  destruct Hp as (Hl&_&Hn&Hv), Hp' as (Hl'&_&Hn'&Hv').
  apply part_cache_key_inj in Hkey as (<-&Hver&<-); [|done..].
  unfold part_of, slice_of. rewrite <-Hl, <-Hl', Hver. done.
Qed.

Lemma get_parts_spec rel object indices s r s' :
  pinned rel object → (∀ i, i ∈ indices → i * part_size config < uo_size object) →
  coherent (rp_cache s) →
  get_parts op prefix config foyer_text u rel (version_token object) object indices s = (r, s') →
  coherent (rp_cache s') ∧
  (r = Ok (part_of rel object <$> indices) ∨
   ∃ index e, index ∈ indices ∧ fetch_part op prefix config u rel object index = Err e ∧
     r = Err (UfsErr (foyer_text (part_cache_key rel (version_token object) index) e))).
Proof.
  revert s r s'. induction indices as [|i indices IH]; intros s r s' Hp Hi Hc H; cbn [get_parts] in H.
  { unfold mret, txn_ret in H. simplify_eq. split; [done|by left]. }
  apply txn_bind_inv in H as [(d&s1&H1&H)|(e&H1&->)].
  2: { apply get_part_spec in H1 as [? [[=]|(e'&?&[= ->])]]; [|done|apply Hi; left|done].
       split; [done|]. right. exists i, e'. split_and!; [left|done..]. }
  apply get_part_spec in H1 as [Hc1 [[= ->]|(e'&?&[=])]]; [|done|apply Hi; left|done].
  apply txn_bind_inv in H as [(ds&s2&H2&H)|(e&H2&->)].
  - apply IH in H2 as [Hc2 [[= ->]|(j&e'&?&?&[=])]]; [|done|intros; apply Hi; by right|done].
    unfold mret, txn_ret in H. simplify_eq. split; [done|by left].
  - apply IH in H2 as [Hc2 [[=]|(j&e'&?&?&[= ->])]]; [|done|intros; apply Hi; by right|done].
    split; [done|]. right. exists j, e'. split_and!; [by right|done..].
Qed.

Lemma copy_parts_spec rel object offset end_ i n :
  N.of_nat (length (content rel (version_token object))) = uo_size object → end_ ≤ uo_size object → offset < end_ → 0 < part_size config →
  offset < (i + 1) * part_size config →
  (∀ j, (j < n)%nat → (i + N.of_nat j) * part_size config < end_) →
  copy_parts config offset end_ i (part_of rel object <$> ((λ j, i + N.of_nat j) <$> seq 0 n)) =
  Ok (slice_of rel object (N.max offset (i * part_size config))
        (N.min end_ ((i + N.of_nat n) * part_size config) - N.max offset (i * part_size config))).
Proof.
  intros Hl Hend Hoff Hps. revert i. induction n as [|n IH]; intros i Hi Hj.
  { cbn. f_equal. unfold slice_of.
    replace (N.to_nat _) with O by (rewrite N.add_0_r; lia). done. }
  pose proof (Hj O ltac:(lia)) as Hj0. rewrite N.add_0_r in Hj0.
  set (ps := part_size config) in *.
  assert ((λ j, i + N.of_nat j) <$> seq 0 (S n) = i :: ((λ j, i + 1 + N.of_nat j) <$> seq 0 n)) as ->.
  { cbn [seq fmap list_fmap]. f_equal; [lia|]. rewrite <-fmap_S_seq, <-list_fmap_compose.
    apply list_fmap_ext. intros. cbn. lia. }
  cbn [fmap list_fmap copy_parts]. fold ps.
  assert (N.of_nat (length (part_of rel object i)) = N.min ps (uo_size object - i * ps)) as Hlen.
  { unfold part_of, slice_of. fold ps. rewrite length_take, length_drop. lia. }
  rewrite Hlen. destruct (N.ltb_spec (N.min end_ (i * ps + N.min ps (uo_size object - i * ps)) - i * ps)
                           (offset - i * ps)); [lia|].
  destruct (N.ltb_spec (N.min ps (uo_size object - i * ps))
              (N.min end_ (i * ps + N.min ps (uo_size object - i * ps)) - i * ps)); [lia|].
  cbn [orb]. set (c := content rel (version_token object)).
  set (o := N.max offset (i * ps)). set (e1 := N.min end_ ((i + 1) * ps)).
  assert (take (N.to_nat (N.min end_ (i * ps + N.min ps (uo_size object - i * ps)) - i * ps - (offset - i * ps)))
            (drop (N.to_nat (offset - i * ps)) (part_of rel object i)) =
          take (N.to_nat (e1 - o)) (drop (N.to_nat o) c)) as ->.
  { unfold part_of, slice_of. fold ps c. rewrite take_drop_within, drop_drop by lia.
    f_equal; [|f_equal]; lia. }
  destruct n as [|n].
  - cbn. rewrite app_nil_r. unfold slice_of. fold c. done.
  - rewrite IH.
    2: { lia. }
    2: { intros j ?. specialize (Hj (S j)). replace (i + 1 + N.of_nat j) with (i + N.of_nat (S j)) by lia.
         apply Hj. lia. }
    cbn [mbind result_bind]. f_equal. unfold slice_of. fold c.
    specialize (Hj 1%nat ltac:(lia)).
    replace (N.max offset ((i + 1) * ps)) with (o + (e1 - o)) by lia.
    rewrite N2Nat.inj_add, take_drop_app. f_equal. subst o e1.
    replace (i + 1 + N.of_nat (S n)) with (i + N.of_nat (S (S n))) by lia.
    assert ((i + 1) * ps ≤ (i + N.of_nat (S (S n))) * ps) by (apply N.mul_le_mono_r; lia). lia.
Qed.

Lemma in_part_range first count i : i ∈ part_range first count → first ≤ i < first + count.
Proof. unfold part_range. intros (j&->&Hj%elem_of_seq)%list_elem_of_fmap. lia. Qed.

Lemma spawn_prefetch_spec rel object first s r s' :
  0 < part_size config → pinned rel object → coherent (rp_cache s) →
  spawn_prefetch op prefix config foyer_text u rel object first s = (r, s') →
  r = Ok tt ∧ coherent (rp_cache s').
Proof.
  intros Hps Hp Hc. unfold spawn_prefetch.
  set (end_ := N.min _ _). assert (∀ i, i ∈ part_range first (end_ - first) →
    i * part_size config < uo_size object) as Hi.
  { intros i Hi%in_part_range.
    assert (i < (uo_size object + part_size config - 1) / part_size config) as Hlt by lia.
    apply N.lt_le_pred in Hlt.
    pose proof (N.Div0.mul_div_le (uo_size object + part_size config - 1) (part_size config)).
    assert (part_size config * (i + 1) ≤ part_size config *
      ((uo_size object + part_size config - 1) / part_size config)) by (apply N.mul_le_mono_l; lia). lia. }
  revert s Hc Hi. generalize (part_range first (end_ - first)) as l. clear end_.
  induction l as [|i l IH]; intros s Hc Hi H; cbn [for_each] in H.
  { unfold mret, txn_ret in H. by simplify_eq. }
  apply txn_bind_inv in H as [([]&s1&Hi1&H)|(e&Hi1&->)]; unfold ignore in Hi1; [|done].
  destruct (get_part op prefix config foyer_text u rel (version_token object) object i s)
    as [r1 s2] eqn:H1. injection Hi1 as ->.
  apply get_part_spec in H1 as [Hc1 _]; [|done|apply Hi; left|done].
  eapply IH; [done| |done]. intros. apply Hi. by right.
Qed.

(** C20: cached, split reads are slices of one version.  With any cache whose
    entries belong to the objects they are named after, a read of a pinned
    object returns exactly the requested range of that version's content, cut
    at its end, or the error of a part that the backend failed to deliver; the
    bounds check on cached parts never fires.  The cache stays coherent, so
    what is cached changes no answer. *)
Theorem read_is_slice rel object offset len s r s' :
  0 < part_size config → pinned rel object → coherent (rp_cache s) →
  read op prefix config foyer_text u rel object offset len s = (r, s') →
  coherent (rp_cache s') ∧
  (r = Ok (slice_of rel object offset (N.min len (uo_size object - offset))) ∨
   ∃ index e, index * part_size config < uo_size object ∧
     fetch_part op prefix config u rel object index = Err e ∧
     r = Err (UfsErr (foyer_text (part_cache_key rel (version_token object) index) e))).
Proof.
  intros Hps Hp Hc H. unfold read in H.
  destruct (N.eqb_spec len 0) as [->|Hlen]; [|destruct (N.leb_spec (uo_size object) offset) as [Hoff|Hoff]];
    cbn [orb] in H.
  1,2: unfold mret, txn_ret in H; simplify_eq; split; [done|]; left; f_equal; unfold slice_of;
    by replace (N.to_nat _) with O by lia.
  destruct Hp as (Hl&Hmax&?) eqn:Hp'. clear Hp'. set (end_ := N.min _ _) in H.
  assert (end_ = offset + N.min len (uo_size object - offset)) as Hend.
  { subst end_. unfold sat_add_w. lia. }
  clearbody end_. set (ps := part_size config) in *.
  pose proof (div_bounds offset ps Hps) as Hof. pose proof (div_bounds (end_ - 1) ps Hps) as Hen.
  assert (offset / ps ≤ (end_ - 1) / ps) as Hle by (apply N.Div0.div_le_mono; lia).
  set (first := offset / ps) in *. set (last := (end_ - 1) / ps) in *. clearbody first last.
  assert (∀ i, i ≤ last → i * ps < end_) as Hlast.
  { intros i Hi. assert (ps * i ≤ ps * last) by (apply N.mul_le_mono_l; lia). lia. }
  apply txn_bind_inv in H as [(parts&s1&H1&H)|(e&H1&->)].
  2: { apply get_parts_spec in H1 as [? [[=]|(i&e'&Hin&?&[= ->])]]; [|done| |done].
       - split; [done|]. right. exists i, e'. split_and!; [|done..].
         apply in_part_range in Hin. pose proof (Hlast i ltac:(lia)). lia.
       - intros i Hi%in_part_range. pose proof (Hlast i ltac:(lia)). lia. }
  apply get_parts_spec in H1 as [Hc1 [[= ->]|(i&e'&?&?&[=])]]; [|done| |done].
  2: { intros i Hi%in_part_range. pose proof (Hlast i ltac:(lia)). lia. }
  unfold part_range in H. rewrite copy_parts_spec in H; [|done|lia|lia|done|fold ps; lia|].
  2: { intros j Hj. fold ps. apply Hlast. lia. }
  unfold lift in H. unfold mbind at 1, txn_bind at 1 in H.
  apply txn_bind_inv in H as [([]&s2&H2&H)|(e&H2&->)]; apply spawn_prefetch_spec in H2 as [Hr Hc2]; try done.
  unfold mret, txn_ret in H. simplify_eq. split; [done|]. left. f_equal. fold ps.
  assert (N.max offset (first * ps) = offset) as -> by lia.
  f_equal. assert (ps * (last + 1) = ps * (first + N.of_nat (N.to_nat (last + 1 - first)))) by (f_equal; lia).
  lia.
Qed.
End reads.

(** Reading four bytes of the object of [mem_store] in parts of two. *)
Definition small_parts : ReadPathConfig := mkReadPathConfig 2 4 1 0 None.
Definition six : bytes := [x61; x62; x63; x64; x65; x66]%byte.
Definition six_store : Mem := ({["d/f" := (six, 0, ∅)]}, 1).
Definition six_object : UfsObject := mkUfsObject "/d/f" 6 (Some (to_hex 0)) None.
Definition six_content (rel version : string) : bytes :=
  if bool_decide (ufs_key "" rel = "d/f" ∧ version = to_hex 0) then six else [].

Lemma six_pins : backend_pins (mem_operator "s3") "" six_content six_store.
Proof.
  intros rel object start len d (Hl&Hmax&_) Hle Hr Hd. unfold read_range_pinned in Hr. cbn in Hr.
  rewrite sat_add_small in Hr by lia. unfold slice_of, six_content in *.
  destruct (decide (ufs_key "" rel = "d/f")) as [Hk|Hk].
  2: { rewrite lookup_singleton_ne in Hr by done. done. }
  rewrite Hk, lookup_singleton_eq in Hr. cbn in Hr.
  destruct (uo_etag object) as [e|] eqn:He; unfold version_token in *; rewrite He in *.
  - destruct (decide (e = to_hex 0)) as [->|Hne].
    + rewrite (bool_decide_true (ufs_key "" rel = "d/f" ∧ to_hex 0 = to_hex 0)) in * by done.
      rewrite bool_decide_false in Hr by naive_solver. injection Hr as Hr. rewrite <-Hr. f_equal. lia.
    + rewrite bool_decide_true in Hr; [done|]. split; [done|]. by intros [=].
  - rewrite bool_decide_false in * by (intros [_ ?]; done).
    cbn in Hl. assert (len = 0) as -> by lia. by destruct d.
Qed.

Lemma read_is_slice_witness :
  coherent small_parts six_content ∅ ∧
  (read (mem_operator "s3") "" small_parts (λ _ _, "") six_store "/d/f" six_object 1 4
     (mkUfsReadPath ∅ 0 0)).1 = Ok [x62; x63; x64; x65]%byte.
Proof.
  split; [by intros ?????? ?%lookup_empty_Some|].
  destruct (read _ _ _ _ _ _ _ _ _ _) as [r s'] eqn:Hr.
  destruct (read_is_slice (mem_operator "s3") "" small_parts (λ _ _, "") six_content six_store six_pins
              "/d/f" six_object 1 4 (mkUfsReadPath ∅ 0 0) r s') as [_ [->|(i&e&_&_&He)]].
  - done.
  - done.
  - cbn. by intros ?????? ?%lookup_empty_Some.
  - exact Hr.
  - vm_compute. reflexivity.
  - exfalso. apply (f_equal (λ x, is_ok x.1)) in Hr. rewrite He in Hr. vm_compute in Hr. discriminate.
Defined.
