(* ===== verification/UfsLaws.v ===== *)
(** * The contract of a UFS

    What a client may rely on when it publishes an object and reads it back,
    and that the UFS built from an OpenDAL operator and the read path keeps
    it. *)

From S2P Require Import Prelude Types Bytes Keys Ufs UfsPublish UfsRead.

Local Open Scope N_scope.

(** Every range of [data] can be read under [key], pinned to [obj]. *)
Definition serves {U} (u : Ufs U) (s : U) (key : string) (obj : UfsObject) (data : bytes) : Prop :=
  ∀ off len, 0 < len → off + len ≤ N.of_nat (length data) →
    ufs_read u key obj off len s = Ok (take (N.to_nat len) (drop (N.to_nat off) data)).

(** [uw_ok w s] says that [w] is a writer in use; [uw_key], [uw_size],
    [uw_digest] and [uw_sent] what it was opened with and has been given.
    [ul_wf] is the invariant of the store: an object that carries a FluxFS
    digest has that digest. *)
Class UfsLaws {U} (hash : bytes → ChunkId) (u : Ufs U) := {
  ul_wf : U → Prop;
  ul_key : string → Prop;
  uw_ok : ufs_writer u → U → Prop;
  uw_key : ufs_writer u → string;
  uw_size : ufs_writer u → N;
  uw_digest : ufs_writer u → ChunkId;
  uw_sent : ufs_writer u → bytes;
  ul_begin key size etag digest s r s' :
    ul_wf s → ufs_begin_verified_publish u key size etag digest s = (r, s') →
    ul_wf s' ∧ ∀ w, r = Ok w →
      uw_ok w s' ∧ uw_key w = key ∧ uw_size w = size ∧ uw_digest w = digest ∧ uw_sent w = [];
  ul_write b w s r w' s' :
    ul_wf s → uw_ok w s → ufs_write u b (w, s) = (r, (w', s')) →
    ul_wf s' ∧ (r = Ok tt →
      uw_ok w' s' ∧ uw_key w' = uw_key w ∧ uw_size w' = uw_size w ∧ uw_digest w' = uw_digest w ∧
      uw_sent w' = uw_sent w ++ b);
  ul_finish w s obj s' :
    ul_wf s → uw_ok w s → ul_key (uw_key w) → uw_size w ≤ U64_MAX →
    ufs_finish u w s = (Ok obj, s') →
    ul_wf s' ∧ hash (uw_sent w) = uw_digest w ∧ N.of_nat (length (uw_sent w)) = uw_size w ∧
    uo_key obj = uw_key w ∧ serves u s' (uw_key w) obj (uw_sent w);
  ul_find key size digest s obj :
    ul_wf s → ul_key key → size ≤ U64_MAX → digest < 256 ^ N.of_nat 32 →
    ufs_find_verified_publish u key size digest s = Ok (Some obj) →
    uo_key obj = key ∧
    ∃ data, hash data = digest ∧ N.of_nat (length data) = size ∧ serves u s key obj data
}.

Lemma to_hex_inj a b : a < 256 ^ N.of_nat 32 → b < 256 ^ N.of_nat 32 → to_hex a = to_hex b → a = b.
Proof.
  intros Ha Hb H. apply hex_encode_inj in H. rewrite <-(of_be_bytes_be 32 a), <-(of_be_bytes_be 32 b) by done.
  by rewrite H.
Qed.

(** ** The UFS over an operator *)

(** What more is needed of an operator: a read returns the bytes of the
    object, succeeds on an existing object whose ETag is the pinned one, and
    every object has an ETag, which is a header value. *)
Class OperatorReads {U} (op : Operator U) `{!OperatorLaws op} := {
  law_read key a b etag u d data md :
    objects u !! key = Some (data, md) → a ≤ b → b ≤ N.of_nat (length data) →
    op_read op key a b etag u = Ok d → d = take (N.to_nat (b - a)) (drop (N.to_nat a) data);
  law_read_total key a b etag u data md :
    objects u !! key = Some (data, md) → a ≤ b → b ≤ N.of_nat (length data) →
    md_etag md = Some etag → ∃ d, op_read op key a b (Some etag) u = Ok d;
  law_etag key u data md :
    objects u !! key = Some (data, md) → ∃ e, md_etag md = Some e ∧ str_contains NUL e = false
}.

(** ** A read that succeeds settles the reads inside it *)

Section fetched.
Context {U : Type} (op : Operator U) (prefix : string) (config : ReadPathConfig).
Context (foyer_text : string → FluxError → string) (s : U) (Hps : 0 < part_size config).
Context (rel : string) (object : UfsObject).

Abbreviation fetch := (fetch_part op prefix config s rel object).
Abbreviation ps := (part_size config).

(** Every cached part of the object is what the backend answers. *)
Definition fetched (cache : gmap string bytes) : Prop :=
  ∀ i d, cache !! part_cache_key rel (version_token object) i = Some d → fetch i = Ok d.

Lemma get_part_fetched i p r p' :
  fetched (rp_cache p) →
  get_part op prefix config foyer_text s rel (version_token object) object i p = (r, p') →
  fetched (rp_cache p') ∧ match r with Ok d => fetch i = Ok d | Err _ => ∃ e, fetch i = Err e end.
Proof.
  intros Hc H. unfold get_part in H.
  destruct (rp_cache p !! _) as [d|] eqn:Hd; [injection H as <- <-; by eauto|].
  destruct (fetch i) as [d|e] eqn:Hf; injection H as <- <-; [|by eauto].
  split; [|done]. intros j d'. cbn. rewrite lookup_insert. case_decide as Hkey; [|apply Hc].
  intros [= <-]. unfold part_cache_key in Hkey. apply (inj (String.append _)) in Hkey.
  injection Hkey as Hkey. apply (inj (String.append _)) in Hkey. injection Hkey as Hkey.
  apply (inj pretty) in Hkey. by subst.
Qed.

Lemma get_parts_fetched l p r p' :
  fetched (rp_cache p) →
  get_parts op prefix config foyer_text s rel (version_token object) object l p = (r, p') →
  match r with Ok ds => Forall2 (λ i d, fetch i = Ok d) l ds | Err _ => ∃ i e, i ∈ l ∧ fetch i = Err e end.
Proof.
  revert p r p'. induction l as [|i l IH]; intros p r p' Hc H; cbn [get_parts] in H.
  { unfold mret, txn_ret in H. injection H as <- <-. constructor. }
  apply txn_bind_inv in H as [(d&p1&H1&H)|(e&H1&->)]; apply get_part_fetched in H1 as [Hc1 Hd]; [|done| |done].
  - apply txn_bind_inv in H as [(ds&p2&H2&H)|(e&H2&->)]; apply IH in H2; [|done| |done].
    + unfold mret, txn_ret in H. injection H as <- <-. by constructor.
    + destruct H2 as (j&e'&?&?). exists j, e'. split; [by right|done].
  - destruct Hd as [e' ?]. exists i, e'. split; [left|done].
Qed.

(** The object as its parts show it. *)
Definition whole (_ _ : string) : bytes :=
  (λ x, default x00 (match fetch (N.of_nat x / ps) with
                      | Ok d => d !! N.to_nat (N.of_nat x mod ps)
                      | Err _ => None
                      end)) <$> seq 0 (N.to_nat (uo_size object)).

Lemma length_whole a b : N.of_nat (length (whole a b)) = uo_size object.
Proof. unfold whole. rewrite length_fmap, length_seq. lia. Qed.

Lemma fetch_length i d : fetch i = Ok d → N.of_nat (length d) = N.min ps (uo_size object - i * ps).
Proof.
  intros H. unfold fetch_part in H. apply bind_Ok in H as (d'&_&H).
  destruct (N.eqb_spec (N.of_nat (length d')) (N.min ps (uo_size object - i * ps))) as [Hl|]; [|done].
  cbn in H. by injection H as <-.
Qed.

Lemma part_of_whole i d : fetch i = Ok d → part_of config whole rel object i = d.
Proof.
  intros Hf. pose proof (fetch_length i d Hf) as Hl. unfold part_of, slice_of. rewrite <-Hl, Nat2N.id.
  apply list_eq. intros j. destruct (decide (j < length d)%nat) as [Hj|Hj].
  2: { rewrite lookup_take_ge, lookup_ge_None_2 by lia. done. }
  rewrite lookup_take_lt, lookup_drop by done. unfold whole. rewrite list_lookup_fmap.
  rewrite lookup_seq_lt by lia. cbn [fmap option_fmap option_map].
  replace (N.of_nat (0 + (N.to_nat (i * ps) + j))) with (N.of_nat j + i * ps) by lia.
  rewrite N.div_add, N.div_small, N.add_0_l, Hf by lia. rewrite N.Div0.mod_add, N.mod_small by lia.
  rewrite Nat2N.id. by destruct (lookup_lt_is_Some_2 d j Hj) as [b ->].
Qed.

Lemma spawn_prefetch_ok first p : ∃ p', spawn_prefetch op prefix config foyer_text s rel object first p = (Ok tt, p').
Proof.
  unfold spawn_prefetch. generalize (part_range first (N.min (sat_add first (prefetch_parts config))
    ((uo_size object + ps - 1) / ps) - first)). intros l. revert p.
  induction l as [|i l IH]; intros p; [by eexists|]. cbn [for_each].
  destruct (get_part op prefix config foyer_text s rel (version_token object) object i p) as [r p1] eqn:H1.
  rewrite (txn_bind_ok _ _ p tt p1) by (unfold ignore; by rewrite H1). apply IH.
Qed.
Lemma get_parts_whole l ds :
  Forall2 (λ i d, fetch i = Ok d) l ds → ds = part_of config whole rel object <$> l.
Proof. induction 1; cbn [fmap list_fmap]; [done|]. f_equal; [|done]. symmetry. by apply part_of_whole. Qed.

Lemma copy_parts_empty offset end_ i parts d :
  end_ ≤ offset → copy_parts config offset end_ i parts = Ok d → d = [].
Proof.
  intros Hle. revert i d. induction parts as [|part parts IH]; intros i d H; cbn [copy_parts] in H; [by injection H|].
  destruct (_ || _) in H; [done|]. apply bind_Ok in H as (rest&->%IH&H). injection H as <-.
  rewrite app_nil_r. by replace (N.to_nat _) with O by lia.
Qed.

(** The outcome of a read depends on the parts of its range alone. *)
Lemma read_whole offset len p r p' :
  0 < len → offset < uo_size object → fetched (rp_cache p) →
  read op prefix config foyer_text s rel object offset len p = (r, p') →
  let end_ := N.min (sat_add offset len) (uo_size object) in
  match r with
  | Ok d => (∀ i, offset / ps ≤ i ≤ (end_ - 1) / ps → ∃ d', fetch i = Ok d') ∧
            d = slice_of whole rel object offset (end_ - offset)
  | Err _ => offset < end_ → ∃ i e, offset / ps ≤ i ≤ (end_ - 1) / ps ∧ fetch i = Err e
  end.
Proof.
  intros Hlen Hoff Hc H end_. unfold read in H. fold end_ in H.
  destruct (N.eqb_spec len 0) as [->|_], (N.leb_spec (uo_size object) offset) as [?|_]; [lia..|]. cbn [orb] in H.
  assert (end_ ≤ uo_size object) as Hend by lia. clearbody end_.
  pose proof (div_bounds offset ps Hps) as Hof. pose proof (div_bounds (end_ - 1) ps Hps) as Hen.
  set (first := offset / ps) in *. set (last := (end_ - 1) / ps) in *. clearbody first last.
  apply txn_bind_inv in H as [(parts&p1&H1&H)|(e&H1&->)]; apply get_parts_fetched in H1; [|done| |done].
  2: { destruct H1 as (i&e'&Hi%in_part_range&?). intros _. exists i, e'. split; [lia|done]. }
  assert (∀ i, first ≤ i ≤ last → ∃ d', fetch i = Ok d') as Hall.
  { intros i Hi. assert (i ∈ part_range first (last + 1 - first)) as Hin.
    { apply list_elem_of_fmap. exists (N.to_nat (i - first)). rewrite elem_of_seq. lia. }
    apply list_elem_of_lookup in Hin as [k Hk]. destruct (Forall2_lookup_l _ _ _ _ _ H1 Hk) as (d'&_&?). by exists d'. }
  destruct (decide (offset < end_)) as [Hlt|Hge].
  - apply get_parts_whole in H1 as ->. unfold part_range in H.
    assert (∀ i, i ≤ last → i * ps < end_) as Hlast.
    { intros i Hi. assert (ps * i ≤ ps * last) by (apply N.mul_le_mono_l; lia). lia. }
    rewrite copy_parts_spec in H; [|apply length_whole|lia|lia|done|lia|].
    2: { intros j Hj. apply Hlast. lia. }
    unfold lift in H. unfold mbind at 1, txn_bind at 1 in H.
    destruct (spawn_prefetch_ok (last + 1) p1) as [p2 Hp2]. rewrite (txn_bind_ok _ _ _ _ _ Hp2) in H.
    unfold mret, txn_ret in H. injection H as <- <-. split; [done|].
    assert (first ≤ last).
    { destruct (decide (first ≤ last)); [done|]. assert (ps * (last + 1) ≤ ps * first) by (apply N.mul_le_mono_l; lia). lia. }
    assert (N.max offset (first * ps) = offset) as -> by lia. f_equal.
    assert (ps * (last + 1) = ps * (first + N.of_nat (N.to_nat (last + 1 - first)))) by (f_equal; lia). lia.
  - apply txn_bind_inv in H as [(d&p2&H2&H)|(e&H2&->)]; [|done].
    apply pair_equal_spec in H2 as [H2%copy_parts_empty <-]; [subst d|lia].
    destruct (spawn_prefetch_ok (last + 1) p1) as [p3 Hp3]. rewrite (txn_bind_ok _ _ _ _ _ Hp3) in H.
    unfold mret, txn_ret in H. injection H as <- <-. split; [done|].
    unfold slice_of. by replace (N.to_nat (end_ - offset)) with O by lia.
Qed.

Lemma read_within offset len d i n :
  (read op prefix config foyer_text s rel object offset len (mkUfsReadPath ∅ 0 0)).1 = Ok d →
  N.of_nat (length d) = len → 0 < n → i + n ≤ len →
  (read op prefix config foyer_text s rel object (offset + i) n (mkUfsReadPath ∅ 0 0)).1 =
    Ok (take (N.to_nat n) (drop (N.to_nat i) d)).
Proof.
  intros H Hl Hn Hle.
  destruct (decide (offset < uo_size object)) as [Hoff|Hoff].
  2: { unfold read in H. rewrite (proj2 (N.leb_le _ _)), orb_true_r in H by lia. injection H as <-. cbn in Hl. lia. }
  assert (∀ k d', (∅ : gmap string bytes) !! k = Some d' → False) as Hemp by (intros k d'; by rewrite lookup_empty).
  destruct (read _ _ _ _ _ _ _ offset len _) as [r p'] eqn:H1. cbn in H. subst r.
  apply read_whole in H1 as [Hall ->]; [|lia|done|intros j d' []%Hemp].
  unfold slice_of in Hl. rewrite length_take, length_drop in Hl.
  assert (N.min (sat_add offset len) (uo_size object) = offset + len) as Hend by (unfold sat_add, sat_add_w in *; lia).
  rewrite Hend in *.
  destruct (read _ _ _ _ _ _ _ (offset + i) n _) as [r p2] eqn:H2.
  apply read_whole in H2; [|lia|lia|intros j d' []%Hemp].
  assert (N.min (sat_add (offset + i) n) (uo_size object) = offset + i + n) as Hend2 by (unfold sat_add, sat_add_w in *; lia).
  rewrite Hend2 in H2. destruct r as [d|e].
  - destruct H2 as [_ ->]. cbn. f_equal. unfold slice_of. rewrite take_drop_within, drop_drop by lia.
    f_equal; [lia|]. f_equal. lia.
  - destruct H2 as (j&e'&Hj&Hf); [lia|]. destruct (Hall j) as [d' Hd']; [|congruence].
    pose proof (N.Div0.div_le_mono offset (offset + i) ps ltac:(lia)).
    pose proof (N.Div0.div_le_mono (offset + i + n - 1) (offset + len - 1) ps ltac:(lia)). lia.
Qed.
End fetched.

Section opendal.
Context {U : Type} (hash : bytes → ChunkId) (hash_width : ∀ b, hash b < 256 ^ N.of_nat 32).
Context (op : Operator U) `{!OperatorLaws op, !OperatorReads op}.
Context (prefix : string) (config : ReadPathConfig) (foyer_text : string → FluxError → string).
Context (nonce : string) (Hps : 0 < part_size config) (Hscheme : op_scheme op ≠ "fs").

Abbreviation u := (opendal_ufs hash op prefix config foyer_text nonce).

(** An object that carries a digest has it. *)
Definition digests_true (s : U) : Prop :=
  ∀ key data md d,
    objects s !! key = Some (data, md) → d < 256 ^ N.of_nat 32 →
    md_user_metadata md ≫= (λ m, m !! FLUXFS_DIGEST_METADATA) = Some (to_hex d) → hash data = d.

Lemma quiet_objects key s s' : quiet objects (op_scheme op) key s s' → objects s' = objects s.
Proof. intros H. apply map_eq. intros k. apply H. by right. Qed.

Lemma digests_same s s' : objects s' = objects s → digests_true s → digests_true s'.
Proof. unfold digests_true. by intros ->. Qed.

(** Reading an object that is there, pinned to its own metadata. *)
Lemma object_serves s rel data md :
  objects s !! ufs_key prefix rel = Some (data, md) → md_content_length md = N.of_nat (length data) →
  N.of_nat (length data) ≤ U64_MAX → str_contains NUL rel = false →
  serves u s rel (object_of rel md) data.
Proof.
  intros Ho Hlen Hmax Hnul off len Hl Hle. destruct (law_etag _ _ _ _ Ho) as (e&He&Hen).
  set (obj := object_of rel md). assert (version_token obj = e) as Hv by (unfold version_token; cbn; by rewrite He).
  set (content := λ r v, if bool_decide (r = rel ∧ v = e) then data else []).
  assert (content rel e = data) as Hc by (unfold content; by rewrite bool_decide_true).
  assert (pinned content rel obj) as Hp by (unfold pinned; rewrite Hv, Hc; cbn; by rewrite Hlen).
  assert (backend_pins op prefix content s) as Hpins.
  { intros r o start n d (Hlo&Hmo&_) Hs Hr Hd. unfold slice_of, content in *.
    case_bool_decide as Hb.
    - destruct Hb as [-> Hvo]. unfold read_range_pinned in Hr. rewrite sat_add_small in Hr by lia.
      destruct (op_read op _ _ _ _ s) as [d'|] eqn:Hread; [|done]. injection Hr as ->.
      eapply law_read in Hread; [|done|lia|lia]. rewrite Hread. f_equal. lia.
    - cbn in Hlo. assert (n = 0) as -> by lia. by destruct d. }
  cbn [ufs_read opendal_ufs].
  destruct (read op prefix config foyer_text s rel obj off len (mkUfsReadPath ∅ 0 0)) as [r s'] eqn:Hr.
  destruct (read_is_slice op prefix config foyer_text content s Hpins rel obj off len
              (mkUfsReadPath ∅ 0 0) r s') as [_ [->|(i&e'&Hi&Hf&_)]]; [done|done| |done| |].
  - cbn. by intros ?????? ?%lookup_empty_Some.
  - cbn. unfold slice_of. rewrite Hv, Hc. do 2 f_equal. cbn. rewrite Hlen. lia.
  - exfalso. unfold fetch_part, read_range_pinned in Hf. cbn in Hf, Hi. rewrite He, Hlen in *.
    rewrite sat_add_small in Hf by lia.
    destruct (law_read_total (ufs_key prefix rel) (i * part_size config)
      (i * part_size config + N.min (part_size config) (N.of_nat (length data) - i * part_size config))
      e s data md) as [d Hd]; [done|lia|lia|done|].
    rewrite Hd in Hf. cbn in Hf.
    eapply law_read in Hd; [|done|lia|lia]. rewrite (proj2 (N.eqb_eq _ _)) in Hf; [done|].
    rewrite Hd, length_take, length_drop. lia.
Qed.

Lemma begin_quiet rel size etag digest s r s' :
  begin_verified_publish op prefix nonce rel size etag digest s = (r, s') → objects s' = objects s.
Proof.
  assert (keeps (λ x, objects x = objects s)
    (begin_verified_publish op prefix nonce rel size etag digest)) as Hk; [|by intros; eapply Hk].
  unfold begin_verified_publish. apply keeps_bind; [apply keeps_fail_if|intros _].
  apply keeps_bind; [destruct etag; apply keeps_fail_if|intros _].
  apply keeps_bind; [|intros w; apply keeps_ret].
  intros s1 r1 s2 H1 H. unfold mapping in H. destruct (op_writer_with _ _ _ _ s1) as [r2 s3] eqn:Hw.
  apply law_open in Hw as [Hq%quiet_objects _]. simplify_eq. congruence.
Qed.

Definition writer_ok (v : VerifiedPublishWriter op) (s : U) : Prop :=
  vw_frame op s v s ∧ (∃ etag, vw_ok op etag (vw_hasher op v) v) ∧
  ufs_key prefix (vw_rel op v) = vw_key op v.

Lemma finish_law v s obj s' :
  digests_true s → writer_ok v s → str_contains NUL (vw_rel op v) = false →
  vw_expected_size op v ≤ U64_MAX → vw_finish hash op v s = (Ok obj, s') →
  digests_true s' ∧ hash (vw_hasher op v) = vw_target_digest op v ∧
  N.of_nat (length (vw_hasher op v)) = vw_expected_size op v ∧
  uo_key obj = vw_rel op v ∧ serves u s' (vw_rel op v) obj (vw_hasher op v).
Proof.
  intros Hd (Hf&(etag&Ho)&Hkey) Hnul Hmax H.
  apply (finish_spec _ _ s etag (vw_hasher op v)) in H as [Hother (md&(Hh&Hl&Hobj)&(->&Hsz&Hstored)&_)]; [|done..].
  split_and!; [|done..|].
  - intros key data md' d Hlook Hw Hdig. destruct (decide (key = vw_key op v)) as [->|Hne].
    + rewrite Hobj in Hlook. injection Hlook as <- <-. rewrite Hstored, (vo_hex _ _ _ _ Ho) in Hdig.
      apply (inj Some) in Hdig. rewrite Hh. apply to_hex_inj; [|done|done]. rewrite <-Hh. apply hash_width.
    + apply (Hd key data md' d); [|done..]. rewrite <-Hlook. symmetry. apply Hother; [done|].
      by rewrite (vo_same _ _ _ _ Ho).
  - apply object_serves; [by rewrite Hkey|by rewrite Hsz|lia|done].
Qed.

Lemma find_law rel size digest s obj :
  digests_true s → str_contains NUL rel = false → size ≤ U64_MAX → digest < 256 ^ N.of_nat 32 →
  find_verified_publish op prefix rel size digest s = Ok (Some obj) →
  uo_key obj = rel ∧
  ∃ data, hash data = digest ∧ N.of_nat (length data) = size ∧ serves u s rel obj data.
Proof.
  intros Hd Hnul Hmax Hdig H. unfold find_verified_publish in H.
  destruct (op_stat op _ s) as [md|e] eqn:Hs; [|by case_bool_decide].
  apply law_stat in Hs as (data&Ho&Hlen).
  destruct (N.eqb_spec (md_content_length md) size) as [Hsz|]; [cbn in H|done].
  case_bool_decide as Hst; [done|]. injection H as <-. split; [done|]. exists data.
  split_and!; [|congruence|apply object_serves; [done..|lia|done]].
  eapply Hd; [done|done|]. done.
Qed.

#[export] Program Instance opendal_laws : UfsLaws hash u := {|
  ul_wf := digests_true;
  ul_key rel := str_contains NUL rel = false;
  uw_ok := writer_ok;
  uw_key := vw_rel op;
  uw_size := vw_expected_size op;
  uw_digest := vw_target_digest op;
  uw_sent := vw_hasher op;
  ul_finish := finish_law;
  ul_find := find_law
|}.
Next Obligation.
  cbn. intros key size etag digest s r s' Hd H. pose proof (begin_quiet _ _ _ _ _ _ _ H) as Hq.
  split; [by eapply digests_same|]. intros w ->.
  destruct (begin_spec op prefix nonce key size etag digest s w s' H) as (Hf&Ho&Hk&Hr&Hsz&Hdig&_).
  assert (vw_hasher op w = []) as Hh by apply Ho.
  split_and!; [|done..]. split_and!; [by eapply frame_refl|exists etag; by rewrite Hh|by rewrite Hr, Hk].
Qed.
Next Obligation.
  cbn. intros b w s r w' s' Hd (Hf&(etag&Ho)&Hkey) H.
  apply (vw_write_spec _ s) in H as (Hf'&(Hk&Hwk&Hr&Hsz&Hdig)&Hok); [|done].
  split; [eapply digests_same; [by eapply quiet_objects, Hf'|done]|].
  intros ->. specialize (Hok etag (vw_hasher op w) eq_refl Ho).
  assert (vw_hasher op w' = vw_hasher op w ++ b) as Hh by apply Hok.
  split_and!; [|done..]. split_and!; [by eapply frame_refl|exists etag; by rewrite Hh|by rewrite Hr, Hk].
Qed.
End opendal.

(** ** The operator in memory keeps the contract *)

Lemma hex_encode_no_nul l : str_contains NUL (hex_encode l) = false.
Proof.
  induction l as [|b l IH]; [done|]. cbn [hex_encode str_contains].
  destruct (hex_digits_of_byte b) as [H1 H2].
  destruct (hex_digit_facts _ H1) as (_&_&N1&_), (hex_digit_facts _ H2) as (_&_&N2&_).
  rewrite IH. rewrite orb_false_r. apply orb_false_iff.
  split; apply bool_decide_eq_false || apply Ascii.eqb_neq; congruence.
Qed.

#[export] Program Instance mem_operator_reads scheme : OperatorReads (mem_operator scheme).
Next Obligation.
  intros scheme key a b etag [m n] d data md H ?? Hr. cbn in *. unfold mem_objects in H.
  rewrite lookup_fmap in H. cbn in H. destruct (m !! key) as [[[data' v] um]|]; [|done].
  injection H as <- <-. by case_bool_decide; simplify_eq/=.
Qed.
Next Obligation.
  intros scheme key a b etag [m n] data md H ?? He. cbn in *. unfold mem_objects in H.
  rewrite lookup_fmap in H. cbn in H. destruct (m !! key) as [[[data' v] um]|]; [|done].
  injection H as <- <-. cbn in He. rewrite bool_decide_false; [eauto|]. by intros [_ Hne].
Qed.
Next Obligation.
  intros scheme key [m n] data md H. cbn in *. unfold mem_objects in H.
  rewrite lookup_fmap in H. cbn in H. destruct (m !! key) as [[[data' v] um]|]; [|done].
  injection H as <- <-. eexists. split; [done|]. apply hex_encode_no_nul.
Qed.
