(* ===== verification/MetaDb.v ===== *)
(** * The metadata database ([crates/meta/src/heed_store.rs])

    [HeedMetaStore] keeps six LMDB databases: inodes, dentries, meta,
    manifests, xattrs and client_requests.  [Db] is the content of one
    transaction's view of them, each family of keys as a map of its own
    ([Keys] shows that the families and keys do not interfere); values are
    stored as serde JSON, whose round trip is taken as the identity.  The
    file also holds the primitives every operation is built from: reads and
    writes of single rows, prefix scans, id allocation, generation checks and
    the removal of an inode with everything attached to it. *)

From S2P Require Export Prelude Types Bytes Extents Keys.

Local Open Scope N_scope.

(** ** Responses and state-machine markers ([raft_types.rs]) *)

Inductive MetaRaftResponse :=
  | REmpty
  | RInode (i : Inode)
  | RManifestId (id : N)
  | RGcPlan (p : GcPlan)
  | RGcBatch (b : GcBatch)
  | RWorkerMembership (m : WorkerMembership)
  | RErr (e : FluxError).
#[export] Instance MetaRaftResponse_eq_dec : EqDecision MetaRaftResponse.
Proof. solve_decision. Defined.

(** [openraft::LogId<u64>] and [StoredMembership<u64, BasicNode>], carried as
    data. *)
Record LogId := mkLogId { lid_term : N; lid_node : N; lid_index : N }.
#[export] Instance LogId_eq_dec : EqDecision LogId.
Proof. solve_decision. Defined.

Record StoredMembership := mkStoredMembership {
  stm_log_id : option LogId;
  stm_configs : list (list N);
  stm_nodes : list (N * string)
}.
#[export] Instance StoredMembership_eq_dec : EqDecision StoredMembership.
Proof. solve_decision. Defined.

Record SmAppliedMeta := mkSmAppliedMeta {
  last_applied_log : option LogId;
  last_membership : StoredMembership
}.
#[export] Instance SmAppliedMeta_eq_dec : EqDecision SmAppliedMeta.
Proof. solve_decision. Defined.

Record ClientRequestLedgerEntry := mkLedgerEntry {
  created_at_unix_ms : N;
  expires_at_unix_ms : N;
  response : MetaRaftResponse
}.
#[export] Instance ClientRequestLedgerEntry_eq_dec : EqDecision ClientRequestLedgerEntry.
Proof. solve_decision. Defined.

(** ** The database *)

Record Db := mkDb {
  inodes : gmap N Inode;
  dentries : gmap (N * string) N;
  manifests : gmap N Manifest;
  xattrs : gmap (N * string) bytes;
  client_requests : gmap string ClientRequestLedgerEntry;
  next_inode : option N;
  next_manifest : option N;
  gc_lease : option GcLeaseId;
  schema_version : option N;
  worker_membership : option WorkerMembership;
  sm_meta : option SmAppliedMeta;
  reservations : gmap N ChunkReservation;
  tombstones : gmap N GcTombstone;
  open_presences : gset (N * string)
}.

#[export] Instance Db_eq_dec : EqDecision Db.
Proof. solve_decision. Defined.

Definition upd_inodes (f : gmap N Inode → gmap N Inode) (d : Db) : Db :=
  mkDb (f (inodes d)) (dentries d) (manifests d) (xattrs d)
    (client_requests d) (next_inode d) (next_manifest d) (gc_lease d)
    (schema_version d) (worker_membership d) (sm_meta d) (reservations d)
    (tombstones d) (open_presences d).
Definition upd_dentries (f : gmap (N * string) N → gmap (N * string) N) (d : Db) : Db :=
  mkDb (inodes d) (f (dentries d)) (manifests d) (xattrs d)
    (client_requests d) (next_inode d) (next_manifest d) (gc_lease d)
    (schema_version d) (worker_membership d) (sm_meta d) (reservations d)
    (tombstones d) (open_presences d).
Definition upd_manifests (f : gmap N Manifest → gmap N Manifest) (d : Db) : Db :=
  mkDb (inodes d) (dentries d) (f (manifests d)) (xattrs d)
    (client_requests d) (next_inode d) (next_manifest d) (gc_lease d)
    (schema_version d) (worker_membership d) (sm_meta d) (reservations d)
    (tombstones d) (open_presences d).
Definition upd_xattrs (f : gmap (N * string) bytes → gmap (N * string) bytes) (d : Db) : Db :=
  mkDb (inodes d) (dentries d) (manifests d) (f (xattrs d))
    (client_requests d) (next_inode d) (next_manifest d) (gc_lease d)
    (schema_version d) (worker_membership d) (sm_meta d) (reservations d)
    (tombstones d) (open_presences d).
Definition upd_client_requests (f : gmap string ClientRequestLedgerEntry → gmap string ClientRequestLedgerEntry) (d : Db) : Db :=
  mkDb (inodes d) (dentries d) (manifests d) (xattrs d)
    (f (client_requests d)) (next_inode d) (next_manifest d) (gc_lease d)
    (schema_version d) (worker_membership d) (sm_meta d) (reservations d)
    (tombstones d) (open_presences d).
Definition upd_next_inode (f : option N → option N) (d : Db) : Db :=
  mkDb (inodes d) (dentries d) (manifests d) (xattrs d)
    (client_requests d) (f (next_inode d)) (next_manifest d) (gc_lease d)
    (schema_version d) (worker_membership d) (sm_meta d) (reservations d)
    (tombstones d) (open_presences d).
Definition upd_next_manifest (f : option N → option N) (d : Db) : Db :=
  mkDb (inodes d) (dentries d) (manifests d) (xattrs d)
    (client_requests d) (next_inode d) (f (next_manifest d)) (gc_lease d)
    (schema_version d) (worker_membership d) (sm_meta d) (reservations d)
    (tombstones d) (open_presences d).
Definition upd_gc_lease (f : option GcLeaseId → option GcLeaseId) (d : Db) : Db :=
  mkDb (inodes d) (dentries d) (manifests d) (xattrs d)
    (client_requests d) (next_inode d) (next_manifest d) (f (gc_lease d))
    (schema_version d) (worker_membership d) (sm_meta d) (reservations d)
    (tombstones d) (open_presences d).
Definition upd_schema_version (f : option N → option N) (d : Db) : Db :=
  mkDb (inodes d) (dentries d) (manifests d) (xattrs d)
    (client_requests d) (next_inode d) (next_manifest d) (gc_lease d)
    (f (schema_version d)) (worker_membership d) (sm_meta d)
    (reservations d) (tombstones d) (open_presences d).
Definition upd_worker_membership (f : option WorkerMembership → option WorkerMembership) (d : Db) : Db :=
  mkDb (inodes d) (dentries d) (manifests d) (xattrs d)
    (client_requests d) (next_inode d) (next_manifest d) (gc_lease d)
    (schema_version d) (f (worker_membership d)) (sm_meta d)
    (reservations d) (tombstones d) (open_presences d).
Definition upd_sm_meta (f : option SmAppliedMeta → option SmAppliedMeta) (d : Db) : Db :=
  mkDb (inodes d) (dentries d) (manifests d) (xattrs d)
    (client_requests d) (next_inode d) (next_manifest d) (gc_lease d)
    (schema_version d) (worker_membership d) (f (sm_meta d))
    (reservations d) (tombstones d) (open_presences d).
Definition upd_reservations (f : gmap N ChunkReservation → gmap N ChunkReservation) (d : Db) : Db :=
  mkDb (inodes d) (dentries d) (manifests d) (xattrs d)
    (client_requests d) (next_inode d) (next_manifest d) (gc_lease d)
    (schema_version d) (worker_membership d) (sm_meta d)
    (f (reservations d)) (tombstones d) (open_presences d).
Definition upd_tombstones (f : gmap N GcTombstone → gmap N GcTombstone) (d : Db) : Db :=
  mkDb (inodes d) (dentries d) (manifests d) (xattrs d)
    (client_requests d) (next_inode d) (next_manifest d) (gc_lease d)
    (schema_version d) (worker_membership d) (sm_meta d) (reservations d)
    (f (tombstones d)) (open_presences d).
Definition upd_open_presences (f : gset (N * string) → gset (N * string)) (d : Db) : Db :=
  mkDb (inodes d) (dentries d) (manifests d) (xattrs d)
    (client_requests d) (next_inode d) (next_manifest d) (gc_lease d)
    (schema_version d) (worker_membership d) (sm_meta d) (reservations d)
    (tombstones d) (f (open_presences d)).

(** A transaction over the database. *)
Abbreviation M := (txn Db FluxError).

(** A fallible read. *)
Definition reads {A} (f : Db → Result A) : M A := λ d, (f d, d).

(** ** Rows *)

(** LMDB iterates a database in key order; [u64] keys are big-endian. *)
Definition kv_sorted {A} (m : gmap N A) : list (N * A) :=
  sort_by_key fst (map_to_list m).

Definition get_inode_raw (id : InodeId) : M Inode :=
  reads (λ d, ok_or NotFound (inodes d !! id)).

Definition put_inode_raw (i : Inode) : M unit :=
  modify (upd_inodes <[i_id i := i]>).

Definition get_dentry (k : N * string) : M (option N) := gets (λ d, dentries d !! k).
Definition put_dentry (k : N * string) (c : N) : M unit := modify (upd_dentries <[k := c]>).
Definition delete_dentry (k : N * string) : M unit := modify (upd_dentries (delete k)).

(** [dentries.prefix_iter(dentry_prefix(dir))]: the children in the order of
    their names. *)
Definition dir_entries (d : Db) (dir : InodeId) : list (string * N) :=
  sort_by_name fst
    ((λ kv, (kv.1.2, kv.2)) <$>
       filter (λ kv, kv.1.1 = dir) (map_to_list (dentries d))).

(** [xattrs.prefix_iter(xattr_prefix(inode))]. *)
Definition inode_xattrs (d : Db) (inode : InodeId) : list (string * bytes) :=
  sort_by_name fst
    ((λ kv, (kv.1.2, kv.2)) <$>
       filter (λ kv, kv.1.1 = inode) (map_to_list (xattrs d))).

(** [check_generation], [check_optional_generation]. *)
Definition check_generation (i : Inode) (expected : N) : Result unit :=
  if negb (i_generation i =? expected)
  then Err (CasFailed expected (i_generation i)) else Ok tt.

Definition check_optional_generation (i : Inode) (expected : option N) : Result unit :=
  match expected with Some e => check_generation i e | None => Ok tt end.

(** [alloc_inode], [alloc_manifest_id]; [id + 1] wraps. *)
Definition alloc_inode : M InodeId :=
  id ← reads (λ d, ok_or (Meta "missing next_inode") (next_inode d));
  _ ← modify (upd_next_inode (λ _, Some (wrap_add id 1)));
  mret id.

Definition alloc_manifest_id : M N :=
  id ← reads (λ d, ok_or (Meta "missing next_manifest") (next_manifest d));
  _ ← modify (upd_next_manifest (λ _, Some (wrap_add id 1)));
  mret id.

(** [put_manifest_in_txn]. *)
Definition put_manifest_in_txn (m : Manifest) : M N :=
  _ ← lift (Manifest_validate m);
  id ← alloc_manifest_id;
  _ ← modify (upd_manifests <[id := m]>);
  mret id.

(** ** Reservations and tombstones as rows *)

Definition reservation_in_txn (ticket : WriteTicketId) : M (option ChunkReservation) :=
  gets (λ d, reservations d !! ticket).
Definition put_reservation_in_txn (r : ChunkReservation) : M unit :=
  modify (upd_reservations <[cr_ticket r := r]>).
Definition abort_reservation_in_txn (ticket : WriteTicketId) : M unit :=
  modify (upd_reservations (delete ticket)).

(** [list_reservations_in_txn]: key order, then sorted by ticket. *)
Definition list_reservations (d : Db) : list ChunkReservation :=
  sort_by_key cr_ticket (kv_sorted (reservations d)).*2.

(** [list_tombstones_in_txn]: sorted by the hexadecimal chunk id, which is the
    order of the ids. *)
Definition list_tombstones (d : Db) : list GcTombstone :=
  sort_by_key gt_chunk (kv_sorted (tombstones d)).*2.

Definition put_tombstone_in_txn (t : GcTombstone) : M unit :=
  modify (upd_tombstones <[gt_chunk t := t]>).

(** ** Open presence *)

(** [has_open_presence_in_txn]. *)
Definition has_open_presence (d : Db) (inode : InodeId) : bool :=
  existsb (λ k, k.1 =? inode) (elements (open_presences d)).

(** ** Removing an inode *)

(** [delete_inode_in_txn]: reservations, xattrs, open presence, then the row. *)
Definition delete_inode_in_txn (child_id : InodeId) : M unit :=
  rs ← gets list_reservations;
  _ ← for_each (λ r, when (cr_inode r =? child_id)
                       (abort_reservation_in_txn (cr_ticket r))) rs;
  xs ← gets (λ d, inode_xattrs d child_id);
  _ ← for_each (λ x, modify (upd_xattrs (delete (child_id, x.1)))) xs;
  os ← gets (λ d, filter (λ k, k.1 = child_id) (elements (open_presences d)));
  _ ← for_each (λ k, modify (upd_open_presences (λ s, s ∖ {[ k ]}))) os;
  modify (upd_inodes (delete child_id)).

(** [reap_unlinked_inode_if_unopened_in_txn]. *)
Definition reap_unlinked_inode_if_unopened_in_txn (inode : InodeId) : M unit :=
  raw ← gets (λ d, inodes d !! inode);
  match raw with
  | None => mret tt
  | Some current =>
      open ← gets (λ d, has_open_presence d inode);
      when ((i_link_count current =? 0) && negb open) (delete_inode_in_txn inode)
  end.

(** ** Lemmas *)

Lemma kv_sorted_perm {A} (m : gmap N A) : kv_sorted m ≡ₚ map_to_list m.
Proof. apply sort_by_key_perm. Qed.

Lemma elem_of_kv_sorted {A} (m : gmap N A) k v : (k, v) ∈ kv_sorted m ↔ m !! k = Some v.
Proof. rewrite kv_sorted_perm. apply elem_of_map_to_list. Qed.

Lemma elem_of_list_reservations d r :
  r ∈ list_reservations d ↔ ∃ t, reservations d !! t = Some r.
Proof.
  unfold list_reservations. rewrite sort_by_key_perm, list_elem_of_fmap. split.
  - intros ([t r']&->&Hin%elem_of_kv_sorted). eauto.
  - intros [t Ht]. exists (t, r). split; [done|]. by apply elem_of_kv_sorted.
Qed.

Lemma elem_of_dir_entries d dir n c :
  (n, c) ∈ dir_entries d dir ↔ dentries d !! (dir, n) = Some c.
Proof.
  unfold dir_entries. rewrite sort_by_name_perm, list_elem_of_fmap. split.
  - intros ([[p n'] c']&Heq&Hin). simplify_eq/=.
    apply list_elem_of_filter in Hin as [Hp Hin]. simpl in Hp. subst.
    by apply elem_of_map_to_list in Hin.
  - intros H. exists ((dir, n), c). split; [done|].
    apply list_elem_of_filter. split; [done|]. by apply elem_of_map_to_list.
Qed.

Lemma elem_of_inode_xattrs d i n v :
  (n, v) ∈ inode_xattrs d i ↔ xattrs d !! (i, n) = Some v.
Proof.
  unfold inode_xattrs. rewrite sort_by_name_perm, list_elem_of_fmap. split.
  - intros ([[p n'] c']&Heq&Hin). simplify_eq/=.
    apply list_elem_of_filter in Hin as [Hp Hin]. simpl in Hp. subst.
    by apply elem_of_map_to_list in Hin.
  - intros H. exists ((i, n), v). split; [done|].
    apply list_elem_of_filter. split; [done|]. by apply elem_of_map_to_list.
Qed.

Lemma has_open_presence_spec d i :
  has_open_presence d i = true ↔ ∃ s, (i, s) ∈ open_presences d.
Proof.
  unfold has_open_presence. rewrite existsb_exists. split.
  - intros ([j s]&Hin&Heq). apply N.eqb_eq in Heq. simpl in Heq. subst.
    apply list_elem_of_In, elem_of_elements in Hin. eauto.
  - intros [s Hs]. exists (i, s). rewrite <-list_elem_of_In, elem_of_elements.
    split; [done|]. by apply N.eqb_eq.
Qed.

(** Loops whose bodies always succeed are folds. *)
Lemma for_each_modify {A} (g : A → Db → Db) l d :
  for_each (λ x, modify (E := FluxError) (g x)) l d = (Ok tt, foldl (λ d x, g x d) d l).
Proof. induction l as [|x l IH] in d |- *; [done|]. simpl. rewrite <-IH. done. Qed.

Lemma for_each_when_modify {A} (b : A → bool) (g : A → Db → Db) l d :
  for_each (λ x, when (b x) (modify (E := FluxError) (g x))) l d
  = (Ok tt, foldl (λ d x, g x d) d (filter (λ x, b x = true) l)).
Proof.
  induction l as [|x l IH] in d |- *; [done|]. simpl. rewrite filter_cons.
  destruct (b x) eqn:Hb; simpl; rewrite <-IH; done.
Qed.

Lemma foldl_delete {K A B} `{Countable K} (f : B → K) (l : list B) (m : gmap K A) :
  foldl (λ m x, delete (f x) m) m l = filter (λ kv, kv.1 ∉ f <$> l) m.
Proof.
  induction l as [|x l IH] in m |- *; simpl.
  - apply map_eq. intros i. symmetry. destruct (m !! i) eqn:Hi.
    + apply map_lookup_filter_Some. split; [done|]. apply not_elem_of_nil.
    + apply map_lookup_filter_None. by left.
  - rewrite IH. apply map_eq. intros i. apply option_eq. intros v.
    rewrite !map_lookup_filter_Some, lookup_delete_Some. simpl.
    rewrite not_elem_of_cons. naive_solver.
Qed.

(** What [delete_inode_in_txn] leaves. *)
Definition purge_inode (id : InodeId) (d : Db) : Db :=
  upd_inodes (delete id)
    (upd_open_presences (filter (λ k, k.1 ≠ id))
      (upd_xattrs (filter (λ kv, kv.1.1 ≠ id))
        (upd_reservations (filter (λ kv, cr_inode kv.2 ≠ id)) d))).

(** Reservations are stored under their own ticket. *)
Definition reservations_keyed (d : Db) : Prop :=
  ∀ t r, reservations d !! t = Some r → cr_ticket r = t.

Lemma fold_upd_reservations {B} (f : B → N) l d :
  foldl (λ d x, upd_reservations (delete (f x)) d) d l =
  upd_reservations (λ m, foldl (λ m x, delete (f x) m) m l) d.
Proof. induction l as [|x l IH] in d |- *; simpl; [by destruct d|]. by rewrite IH. Qed.

Lemma fold_upd_xattrs {B} (f : B → N * string) l d :
  foldl (λ d x, upd_xattrs (delete (f x)) d) d l =
  upd_xattrs (λ m, foldl (λ m x, delete (f x) m) m l) d.
Proof. induction l as [|x l IH] in d |- *; simpl; [by destruct d|]. by rewrite IH. Qed.

Lemma fold_upd_open_presences l d :
  foldl (λ d k, upd_open_presences (λ s, s ∖ {[ k ]}) d) d l =
  upd_open_presences (λ s, s ∖ list_to_set l) d.
Proof.
  induction l as [|x l IH] in d |- *; simpl.
  - destruct d; unfold upd_open_presences; simpl. f_equal. set_solver.
  - rewrite IH. destruct d; unfold upd_open_presences; simpl. f_equal. set_solver.
Qed.

Lemma delete_inode_in_txn_spec id d :
  reservations_keyed d → delete_inode_in_txn id d = (Ok tt, purge_inode id d).
Proof.
  intros Hk. unfold delete_inode_in_txn, abort_reservation_in_txn.
  erewrite txn_bind_ok by done. erewrite txn_bind_ok by apply for_each_when_modify.
  erewrite txn_bind_ok by done. erewrite txn_bind_ok by apply for_each_modify.
  erewrite txn_bind_ok by done. erewrite txn_bind_ok by apply for_each_modify.
  rewrite fold_upd_reservations, fold_upd_xattrs, fold_upd_open_presences.
  unfold modify, purge_inode. do 2 f_equal. unfold upd_inodes, upd_open_presences,
    upd_xattrs, upd_reservations; simpl. f_equal.
  - rewrite foldl_delete. apply map_filter_ext. intros [j n] v Hv. simpl.
    rewrite list_elem_of_fmap. split.
    + intros Hno ->. apply Hno. exists (n, v). split; [done|]. by apply elem_of_inode_xattrs.
    + intros Hne ([n' v']&?&_). by simplify_eq/=.
  - rewrite foldl_delete. apply map_filter_ext. intros t r Hr. simpl.
    rewrite list_elem_of_fmap. split.
    + intros Hno Heq. apply Hno. exists r. split; [by rewrite (Hk t r)|].
      apply list_elem_of_filter. split; [by apply N.eqb_eq|].
      apply elem_of_list_reservations. eauto.
    + intros Hne (r'&->&[Heq Hin]%list_elem_of_filter).
      apply N.eqb_eq in Heq. apply elem_of_list_reservations in Hin as [t' Ht'].
      rewrite (Hk _ _ Ht') in Hr. congruence.
  - apply set_eq. intros [j s]. rewrite elem_of_difference, elem_of_list_to_set,
      elem_of_filter, list_elem_of_filter, elem_of_elements. simpl. naive_solver.
Qed.

Lemma txn_bind_gets {A B} (f : Db → A) (k : A → M B) d :
  (gets f ≫= k) d = k (f d) d.
Proof. done. Qed.

Lemma txn_bind_modify {B} (f : Db → Db) (k : unit → M B) d :
  (modify f ≫= k) d = k tt (f d).
Proof. done. Qed.

Lemma check_generation_ok i e u : check_generation i e = Ok u ↔ i_generation i = e.
Proof.
  unfold check_generation. destruct u, (N.eqb_spec (i_generation i) e); simpl; split; naive_solver.
Qed.

(** Decompose an equation [m d = (r, d')] about a transaction: one goal per
    path through [m], with the facts read on it.  [db_done] concludes a step
    that has been unfolded to a pair, keeping the name of the state before. *)
Ltac db_done H :=
  let Hs := fresh "Hs" in
  apply pair_equal_spec in H as [H Hs];
  first [match type of Hs with ?a = ?b => subst b end | idtac];
  simplify_eq.

Ltac db_inv H :=
  cbv beta zeta in H;
  lazymatch type of H with
  | (_ ≫= _) ?s = (_, _) =>
      let H1 := fresh "Hm" in let Hr := fresh "Hr" in
      apply txn_bind_inv in H as [(? & ? & H1 & H)|(? & H1 & Hr)];
      [db_inv H1; db_inv H
      |match type of Hr with ?r = _ => first [subst r | discriminate Hr | injection Hr as ?] end;
       db_inv H1]
  | mret _ _ = (_, _) => unfold mret, txn_ret in H; db_done H
  | throw _ _ = (_, _) => unfold throw in H; db_done H
  | reads _ _ = (_, _) => unfold reads in H; db_inv H
  | (_, _) = (_, _) =>
      let Hs := fresh "Hs" in apply pair_equal_spec in H as [H Hs];
      first [match type of Hs with ?a = ?b => subst b end | idtac]
  | gets _ _ = (_, _) => unfold gets in H; db_done H
  | lift _ _ = (_, _) =>
      let Hs := fresh "Hs" in unfold lift in H; apply pair_equal_spec in H as [H Hs];
      first [match type of Hs with ?a = ?b => subst b end | idtac]
  | modify _ _ = (_, _) => unfold modify in H; db_done H
  | fail_if ?b _ _ = (_, _) =>
      unfold fail_if in H; let Hb := fresh "Hb" in destruct b eqn:Hb; db_done H
  | when ?b _ _ = (_, _) =>
      let Hb := fresh "Hb" in destruct b eqn:Hb; unfold when in H; db_inv H
  | (if ?b then _ else _) _ = (_, _) =>
      let Hb := fresh "Hb" in destruct b eqn:Hb; db_inv H
  | get_inode_raw ?id ?s = (_, _) =>
      let Hi := fresh "Hi" in
      unfold get_inode_raw, reads in H; destruct (inodes s !! id) eqn:Hi; simpl in H; db_done H
  | put_inode_raw _ _ = (_, _) => unfold put_inode_raw in H; db_inv H
  | get_dentry _ _ = (_, _) => unfold get_dentry in H; db_inv H
  | put_dentry _ _ _ = (_, _) => unfold put_dentry in H; db_inv H
  | delete_dentry _ _ = (_, _) => unfold delete_dentry in H; db_inv H
  | _ => idtac
  end.

(** One step only; [Hm] is the equation of the step. *)
Ltac db_step H Hm :=
  cbv beta zeta in H; apply txn_bind_inv in H as [(? & ? & Hm & H)|(? & Hm & ?)]; simplify_eq.
