(* ===== verification/Namespace.v ===== *)
(** * Namespace operations ([crates/meta/src/heed_store.rs])

    Directories, hard links, symbolic links, extended attributes, open
    presence and rename, each as the transaction the store runs.  [now i] is
    the [i]-th wall-clock sample ([now_ms()]) taken by the operation.  The
    invariant these operations keep is in [NamespaceInv]. *)

From S2P Require Import MetaDb.

Local Open Scope N_scope.

(** ** Reads *)

Definition lookup_name (d : Db) (parent : InodeId) (name : string) : Result Inode :=
  parent_ino ← ok_or NotFound (inodes d !! parent);
  if bool_decide (i_file_type parent_ino ≠ Directory) then Err NotDirectory else
  child_id ← ok_or NotFound (dentries d !! (parent, name));
  ok_or NotFound (inodes d !! child_id).

Definition readdir (d : Db) (dir : InodeId) : Result (list Dentry) :=
  dir_ino ← ok_or NotFound (inodes d !! dir);
  if bool_decide (i_file_type dir_ino ≠ Directory) then Err NotDirectory else
  Ok ((λ nc, mkDentry dir nc.1 nc.2) <$> dir_entries d dir).

Definition get_xattr (d : Db) (inode : InodeId) (name : string) : Result bytes :=
  _ ← validate_xattr_name name;
  _ ← ok_or NotFound (inodes d !! inode);
  ok_or NoData (xattrs d !! (inode, name)).

Definition list_xattrs (d : Db) (inode : InodeId) : Result (list string) :=
  _ ← ok_or NotFound (inodes d !! inode);
  Ok (inode_xattrs d inode).*1.

(** [directory_has_children_in_txn]. *)
Definition directory_has_children (d : Db) (dir : InodeId) : bool :=
  match dir_entries d dir with [] => false | _ :: _ => true end.

(** ** The subtree search of rename

    [inode_is_descendant_in_txn]: a depth-first search with an explicit stack
    and a visited set.  [scan_children] is the inner loop; [None] is the early
    [return Ok(true)].  [descend] is the outer loop; [None] means that the
    fuel ran out, which [descend_fuel] never lets happen. *)

Fixpoint scan_children (d : Db) (candidate : InodeId) (children pending : list N)
    : Result (option (list N)) :=
  match children with
  | [] => Ok (Some pending)
  | child :: children' =>
      if child =? candidate then Ok None else
      i ← ok_or NotFound (inodes d !! child);
      scan_children d candidate children'
        (if bool_decide (i_file_type i = Directory) then child :: pending else pending)
  end.

Fixpoint descend (fuel : nat) (d : Db) (candidate : InodeId) (pending : list N)
    (visited : gset N) : option (Result bool) :=
  match pending with
  | [] => Some (Ok false)
  | dir :: pending' =>
      match fuel with
      | O => None
      | S fuel' =>
          if bool_decide (dir ∈ visited) then descend fuel' d candidate pending' visited
          else
            match scan_children d candidate (dir_entries d dir).*2 pending' with
            | Err e => Some (Err e)
            | Ok None => Some (Ok true)
            | Ok (Some pending'') =>
                descend fuel' d candidate pending'' ({[ dir ]} ∪ visited)
            end
      end
  end.

(** A directory is expanded once, and each dentry is pushed at most once. *)
Definition descend_fuel (d : Db) : nat := S (size (dentries d)).

Definition inode_is_descendant (d : Db) (ancestor candidate : InodeId) : Result bool :=
  if ancestor =? candidate then Ok true else
  match descend (descend_fuel d) d candidate [ancestor] ∅ with
  | Some r => r
  | None => Err (Meta "unreachable: search fuel")
  end.

Section operations.
Context (now : nat → Z).

(** [load_and_bump_parent_dir]; [t] is its clock sample. *)
Definition load_and_bump_parent_dir (t : Z) (parent : InodeId)
    (expected_parent_generation : option N) : M Inode :=
  parent_ino ← get_inode_raw parent;
  _ ← fail_if (bool_decide (i_file_type parent_ino ≠ Directory)) NotDirectory;
  _ ← lift (check_optional_generation parent_ino expected_parent_generation);
  let parent_ino := set_generation (sat_add (i_generation parent_ino) 1) parent_ino in
  let parent_ino := set_mtime_ms t parent_ino in
  let parent_ino := set_ctime_ms t parent_ino in
  _ ← put_inode_raw parent_ino;
  mret parent_ino.

(** The name test shared by [create_node_in_txn] and
    [import_external_in_txn]. *)
Definition bad_name (name : string) : bool :=
  bool_decide (name = "") || str_contains SLASH name
  || bool_decide (name = ".") || bool_decide (name = "..").

Definition new_node (id : InodeId) (file_type : FileType) (mode uid gid : N)
    (symlink_target : option string) (t : Z) : Inode :=
  {| i_id := id; i_file_type := file_type; i_mode := mode; i_uid := uid; i_gid := gid;
     i_size := match symlink_target with Some s => str_len s | None => 0 end;
     i_mtime_ms := t; i_ctime_ms := t; i_atime_ms := t;
     i_link_count := if bool_decide (file_type = Directory) then 2 else 1;
     i_symlink_target := symlink_target;
     i_generation := 1; i_head_gen := 1; i_ufs_gen := 0;
     i_ufs_base_version := None; i_locality := LEphemeral;
     i_locality_fields := Some (mkLocalityFields BEphemeral DEphemeral OpNone FluxCreated);
     i_ufs := None; i_extent_root := None; i_manifest_id := None;
     i_flush_intent := None; i_last_error := None |}.

Definition create_node_in_txn (expected_parent_generation : option N)
    (parent : InodeId) (name : string) (file_type : FileType) (mode uid gid : N)
    (symlink_target : option string) : M Inode :=
  _ ← fail_if (bad_name name) (InvalidArg ("bad name: " +:+ name));
  existing ← get_dentry (parent, name);
  _ ← fail_if (is_some existing) AlreadyExists;
  _ ← load_and_bump_parent_dir (now 0) parent expected_parent_generation;
  inherited_default_acl ← gets (λ d, xattrs d !! (parent, "system.posix_acl_default"));
  id ← alloc_inode;
  let inode := new_node id file_type mode uid gid symlink_target (now 1) in
  _ ← put_inode_raw inode;
  _ ← put_dentry (parent, name) id;
  _ ← match inherited_default_acl with
      | Some acl =>
          _ ← modify (upd_xattrs <[(id, "system.posix_acl_access") := acl]>);
          when (bool_decide (file_type = Directory))
            (modify (upd_xattrs <[(id, "system.posix_acl_default") := acl]>))
      | None => mret tt
      end;
  mret inode.

Definition create_in_txn (expected_parent_generation : option N) (parent : InodeId)
    (name : string) (file_type : FileType) (mode uid gid : N) : M Inode :=
  create_node_in_txn expected_parent_generation parent name file_type mode uid gid None.

Definition symlink_in_txn (expected_parent_generation : option N) (parent : InodeId)
    (name target : string) (uid gid : N) : M Inode :=
  _ ← fail_if (bool_decide (target = "") || str_contains NUL target)
        (InvalidArg "invalid empty/NUL symlink target");
  _ ← fail_if (4096 <? str_len target)
        (InvalidArg "symlink target exceeds PATH_MAX=4096");
  create_node_in_txn expected_parent_generation parent name Symlink 511 uid gid
    (Some target).

Definition link_in_txn (expected_new_parent_generation : option N) (inode : InodeId)
    (new_parent : InodeId) (new_name : string) : M Inode :=
  _ ← lift (validate_dentry_name new_name);
  existing ← get_dentry (new_parent, new_name);
  _ ← fail_if (is_some existing) AlreadyExists;
  source ← get_inode_raw inode;
  _ ← fail_if (bool_decide (i_file_type source = Directory)) NotPermitted;
  _ ← fail_if (i_link_count source =? 0) NotFound;
  _ ← load_and_bump_parent_dir (now 0) new_parent expected_new_parent_generation;
  links ← lift (ok_or (InvalidArg "inode link count overflow")
                  (checked_add_w U32_MAX (i_link_count source) 1));
  let source := set_link_count links source in
  let source := set_generation (sat_add (i_generation source) 1) source in
  let source := set_ctime_ms (now 1) source in
  _ ← put_inode_raw source;
  _ ← put_dentry (new_parent, new_name) (i_id source);
  mret source.

Definition next_generation (i : Inode) : M N :=
  lift (ok_or (InvalidArg "inode generation overflow") (checked_add (i_generation i) 1)).

Definition set_xattr_in_txn (expected_generation : N) (inode_id : InodeId)
    (name : string) (value : bytes) (mode : XattrSetMode) : M Inode :=
  inode ← get_inode_raw inode_id;
  _ ← lift (check_generation inode expected_generation);
  _ ← lift (validate_xattr inode name value);
  existing ← gets (λ d, xattrs d !! (inode_id, name));
  _ ← match mode, is_some existing with
      | Create, true => throw AlreadyExists
      | Replace, false => throw NoData
      | _, _ => mret tt
      end;
  rows ← gets (λ d, inode_xattrs d inode_id);
  let count := N.of_nat (length rows) in
  let total := foldl (λ t row, sat_add t (N.of_nat (length row.2))) 0 rows in
  _ ← fail_if (is_none existing && (XATTR_COUNT_MAX <=? count)) NoSpace;
  let next_total :=
    sat_add (total - match existing with Some v => N.of_nat (length v) | None => 0 end)
      (N.of_nat (length value)) in
  _ ← fail_if (XATTR_TOTAL_MAX <? next_total) NoSpace;
  g ← next_generation inode;
  let inode := set_ctime_ms (now 0) (set_generation g inode) in
  _ ← modify (upd_xattrs <[(inode_id, name) := value]>);
  _ ← put_inode_raw inode;
  mret inode.

Definition remove_xattr_in_txn (expected_generation : N) (inode_id : InodeId)
    (name : string) : M Inode :=
  _ ← lift (validate_xattr_name name);
  inode ← get_inode_raw inode_id;
  _ ← lift (check_generation inode expected_generation);
  existing ← gets (λ d, xattrs d !! (inode_id, name));
  _ ← modify (upd_xattrs (delete (inode_id, name)));
  _ ← fail_if (is_none existing) NoData;
  g ← next_generation inode;
  let inode := set_ctime_ms (now 0) (set_generation g inode) in
  _ ← put_inode_raw inode;
  mret inode.

(** [remove_inode_link_in_txn]; [t] is its clock sample. *)
Definition remove_inode_link_in_txn (t : Z) (child : Inode) : M unit :=
  _ ← fail_if (i_link_count child =? 0)
        (Meta ("inode " +:+ pretty (i_id child) +:+ " already has link_count=0"));
  let child := set_link_count (i_link_count child - 1) child in
  g ← next_generation child;
  let child := set_ctime_ms t (set_generation g child) in
  open ← gets (λ d, has_open_presence d (i_id child));
  if (i_link_count child =? 0) && negb open
  then delete_inode_in_txn (i_id child)
  else put_inode_raw child.

Definition unlink_in_txn (expected_parent_generation : option N) (parent : InodeId)
    (name : string) : M unit :=
  existing ← get_dentry (parent, name);
  child_id ← lift (ok_or NotFound existing);
  child ← get_inode_raw child_id;
  _ ← fail_if (bool_decide (i_file_type child = Directory)) IsDirectory;
  _ ← load_and_bump_parent_dir (now 0) parent expected_parent_generation;
  _ ← delete_dentry (parent, name);
  remove_inode_link_in_txn (now 1) child.

Definition open_inode_in_txn (session_id : string) (inode : InodeId) : M unit :=
  _ ← lift (validate_session_id session_id);
  opened ← get_inode_raw inode;
  _ ← fail_if (bool_decide (i_file_type opened ≠ Regular))
        (InvalidArg "only regular files may have open-handle presence");
  modify (upd_open_presences (λ s, {[ (inode, session_id) ]} ∪ s)).

Definition close_inode_in_txn (session_id : string) (inode : InodeId) : M unit :=
  _ ← lift (validate_session_id session_id);
  _ ← modify (upd_open_presences (λ s, s ∖ {[ (inode, session_id) ]}));
  reap_unlinked_inode_if_unopened_in_txn inode.

(** The stale rows are collected in key order; the inodes they name are
    visited in increasing order, once each ([BTreeSet]). *)
Definition recover_session_in_txn (session_id : string) : M unit :=
  _ ← lift (validate_session_id session_id);
  stale ← gets (λ d, filter (λ k, k.2 = session_id) (elements (open_presences d)));
  _ ← for_each (λ k, modify (upd_open_presences (λ s, s ∖ {[ k ]}))) stale;
  for_each reap_unlinked_inode_if_unopened_in_txn
    (sort_by_key id (elements (list_to_set (C := gset N) stale.*1))).

Definition rmdir_in_txn (expected_parent_generation : option N) (parent : InodeId)
    (name : string) : M unit :=
  existing ← get_dentry (parent, name);
  child_id ← lift (ok_or NotFound existing);
  child ← get_inode_raw child_id;
  _ ← fail_if (bool_decide (i_file_type child ≠ Directory)) NotDirectory;
  children ← gets (λ d, directory_has_children d child_id);
  _ ← fail_if children NotEmpty;
  _ ← load_and_bump_parent_dir (now 0) parent expected_parent_generation;
  _ ← delete_dentry (parent, name);
  delete_inode_in_txn child_id.

(** The compatibility test of a rename over an existing destination. *)
Definition rename_check_destination (source : Inode) (destination : option N)
    : M unit :=
  match destination with
  | None => mret tt
  | Some destination_id =>
      destination_inode ← get_inode_raw destination_id;
      children ← gets (λ d, directory_has_children d destination_id);
      match bool_decide (i_file_type source = Directory),
            bool_decide (i_file_type destination_inode = Directory) with
      | true, false => throw NotDirectory
      | false, true => throw IsDirectory
      | true, true => fail_if children NotEmpty
      | false, false => mret tt
      end
  end.

(** The removal of the destination that a rename replaces. *)
Definition rename_remove_destination (new_key : N * string) (destination : option N)
    : M unit :=
  match destination with
  | None => mret tt
  | Some destination_id =>
      _ ← delete_dentry new_key;
      destination_inode ← get_inode_raw destination_id;
      if bool_decide (i_file_type destination_inode = Directory)
      then delete_inode_in_txn destination_id
      else remove_inode_link_in_txn (now 2) destination_inode
  end.

(** What a rename does once its checks have passed. *)
Definition rename_commit (expected_old_parent_generation : option N)
    (old_parent : InodeId) (old_name : string)
    (expected_new_parent_generation : option N) (new_parent : InodeId)
    (new_name : string) (source : Inode) (destination : option N) : M Inode :=
  _ ← load_and_bump_parent_dir (now 0) old_parent expected_old_parent_generation;
  _ ← when (negb (new_parent =? old_parent))
        (_ ← load_and_bump_parent_dir (now 1) new_parent expected_new_parent_generation;
         mret tt);
  _ ← rename_remove_destination (new_parent, new_name) destination;
  _ ← delete_dentry (old_parent, old_name);
  _ ← put_dentry (new_parent, new_name) (i_id source);
  let source := set_generation (sat_add (i_generation source) 1) source in
  let source := set_ctime_ms (now 3) source in
  _ ← put_inode_raw source;
  mret source.

Definition rename_in_txn (expected_old_parent_generation : option N)
    (old_parent : InodeId) (old_name : string)
    (expected_new_parent_generation : option N) (new_parent : InodeId)
    (new_name : string) (no_replace : bool) : M Inode :=
  _ ← lift (validate_dentry_name old_name);
  _ ← lift (validate_dentry_name new_name);
  existing ← get_dentry (old_parent, old_name);
  source_id ← lift (ok_or NotFound existing);
  source ← get_inode_raw source_id;
  old_parent_inode ← get_inode_raw old_parent;
  new_parent_inode ← (if old_parent =? new_parent then mret old_parent_inode
                      else get_inode_raw new_parent);
  _ ← fail_if (bool_decide (i_file_type old_parent_inode ≠ Directory)
               || bool_decide (i_file_type new_parent_inode ≠ Directory)) NotDirectory;
  _ ← lift (check_optional_generation old_parent_inode expected_old_parent_generation);
  _ ← lift (check_optional_generation new_parent_inode expected_new_parent_generation);
  if bool_decide ((old_parent, old_name) = (new_parent, new_name)) then mret source else
  descendant ← (if bool_decide (i_file_type source = Directory)
                then reads (λ d, inode_is_descendant d (i_id source) new_parent)
                else mret false);
  _ ← fail_if descendant
        (InvalidArg "cannot move a directory into its own subtree");
  destination ← get_dentry (new_parent, new_name);
  _ ← fail_if (no_replace && is_some destination) AlreadyExists;
  if bool_decide (destination = Some (i_id source)) then mret source else
  _ ← rename_check_destination source destination;
  rename_commit expected_old_parent_generation old_parent old_name
    expected_new_parent_generation new_parent new_name source destination.
End operations.
