(* ===== verification/NamespaceInv.v ===== *)
(** * The namespace invariant

    What the metadata of a file system must satisfy, and that every namespace
    operation keeps it, whether it succeeds or fails: entries resolve, link
    counts are exact, the directories form one tree under the root, unlinked
    inodes exist only while open, and nothing outlives the inode it belongs
    to. *)

From S2P Require Import MetaDb Namespace.

Local Open Scope N_scope.

(** ** Directory graphs *)

Abbreviation dmap := (gmap (N * string) N).

(** The number of entries that point to [c]. *)
Definition nlinks (m : dmap) (c : N) : nat := size (filter (λ kv, kv.2 = c) m).

Definition edge (m : dmap) (p c : N) : Prop := ∃ n, m !! (p, n) = Some c.
Abbreviation reach m := (rtc (edge m)).

(** Connected to the root of the file system. *)
Inductive rooted (m : dmap) : N → Prop :=
  | rooted_root : rooted m ROOT_INODE
  | rooted_child p n c : rooted m p → m !! (p, n) = Some c → rooted m c.

Lemma nlinks_insert m k c x :
  m !! k = None → nlinks (<[k := c]> m) x = ((if decide (x = c) then 1 else 0) + nlinks m x)%nat.
Proof.
  intros Hk. unfold nlinks. case_decide as Hx; subst.
  - rewrite map_filter_insert_True by done. rewrite map_size_insert_None; [done|].
    apply map_lookup_filter_None. by left.
  - rewrite map_filter_insert_False by (simpl; congruence). by rewrite delete_id.
Qed.

Lemma nlinks_delete m k c x :
  m !! k = Some c → nlinks m x = ((if decide (x = c) then 1 else 0) + nlinks (delete k m) x)%nat.
Proof.
  intros Hk. rewrite <-(insert_delete_id m k c) at 1 by done.
  apply nlinks_insert. apply lookup_delete_eq.
Qed.

Lemma nlinks_pos m k c : m !! k = Some c → nlinks m c ≠ 0%nat.
Proof. intros Hk. rewrite (nlinks_delete _ _ _ c Hk). by rewrite decide_True. Qed.

Lemma nlinks_zero m c : nlinks m c = 0%nat → ∀ k, m !! k ≠ Some c.
Proof. intros H k Hk. by apply nlinks_pos in Hk. Qed.

Lemma nlinks_zero_intro m c : (∀ k, m !! k ≠ Some c) → nlinks m c = 0%nat.
Proof.
  intros Hno. unfold nlinks. apply map_size_empty_iff, map_empty. intros k.
  apply map_lookup_filter_None. right. intros v Hv ?. simpl in *. subst. by destruct (Hno k).
Qed.

(** Two entries that point to the same [c] are one when [c] has one link. *)
Lemma nlinks_one m k1 k2 c :
  nlinks m c = 1%nat → m !! k1 = Some c → m !! k2 = Some c → k1 = k2.
Proof.
  intros H1 Hk1 Hk2. destruct (decide (k1 = k2)) as [|Hne]; [done|]. exfalso.
  rewrite (nlinks_delete _ _ _ c Hk1), decide_True in H1 by done.
  rewrite (nlinks_delete _ k2 c c), decide_True in H1; [lia|done|].
  by rewrite lookup_delete_ne.
Qed.

Lemma rooted_mono m m' x : m ⊆ m' → rooted m x → rooted m' x.
Proof.
  intros Hsub. induction 1; [constructor|]. econstructor; [done|].
  by eapply lookup_weaken.
Qed.

(** Removing the entry of a childless [c] disconnects only [c]. *)
Lemma rooted_delete_leaf m k c x :
  m !! k = Some c → (∀ n, m !! (c, n) = None) → x ≠ c → rooted m x → rooted (delete k m) x.
Proof.
  intros Hk Hleaf Hx Hr. induction Hr as [|p n x Hp IH Hpn]; [constructor|].
  econstructor.
  - apply IH. intros ->. by rewrite Hleaf in Hpn.
  - rewrite lookup_delete_ne; [done|]. intros ->. congruence.
Qed.

(** Moving the subtree of [s] under a directory that is not part of it. *)
Lemma rooted_move m k_old np nn s x :
  m !! k_old = Some s → m !! (np, nn) = None → ¬ reach m s np → rooted m np → rooted m x →
  rooted (<[(np, nn) := s]> (delete k_old m)) x.
Proof.
  intros Hold Hnew Hnr Hnp Hx.
  set (m2 := delete k_old m). set (m3 := <[(np, nn) := s]> m2).
  assert (m2 !! (np, nn) = None) as Hnew2.
  { unfold m2. destruct (decide (k_old = (np, nn))) as [->|]; [apply lookup_delete_eq|].
    by rewrite lookup_delete_ne. }
  assert (∀ y, rooted m y → ¬ reach m s y → rooted m2 y) as Havoid.
  { intros y Hy. induction Hy as [|p n y Hp IH Hpn]; [constructor|]. intros Hny.
    assert (¬ reach m s p) as Hnsp.
    { intros Hsp. apply Hny. eapply rtc_r; [exact Hsp|]. by exists n. }
    econstructor; [by apply IH|]. unfold m2. rewrite lookup_delete_ne; [done|].
    intros ->. apply Hny. replace y with s by congruence. apply rtc_refl. }
  assert (rooted m3 np) as Hnp3.
  { eapply rooted_mono; [|by apply Havoid]. by apply insert_subseteq. }
  induction Hx as [|p n x Hp IH Hpn]; [constructor|].
  destruct (decide (k_old = (p, n))) as [->|Hne].
  - replace x with s by congruence. econstructor; [exact Hnp3|]. apply lookup_insert_eq.
  - econstructor; [exact IH|]. unfold m3. rewrite lookup_insert_ne.
    + unfold m2. by rewrite lookup_delete_ne.
    + intros [= <- <-]. congruence.
Qed.

(** ** The invariant *)

Definition is_dir (d : Db) (id : N) : Prop :=
  ∃ i, inodes d !! id = Some i ∧ i_file_type i = Directory.

Definition name_ok (n : string) : Prop := bad_name n = false.

(** [ns_core E d]: the invariant, with the exempt inodes [E] allowed to be
    unlinked and unopened (an operation is about to reap them). *)
Record ns_core (E : gset N) (d : Db) : Prop := {
  ns_root : is_dir d ROOT_INODE;
  ns_next : ∃ n, next_inode d = Some n ∧ ∀ id, is_Some (inodes d !! id) → id < n;
  ns_id : ∀ id i, inodes d !! id = Some i → i_id i = id;
  ns_entry : ∀ p n c, dentries d !! (p, n) = Some c →
             is_dir d p ∧ is_Some (inodes d !! c) ∧ name_ok n;
  ns_links : ∀ id i, inodes d !! id = Some i → i_file_type i ≠ Directory →
             i_link_count i = N.of_nat (nlinks (dentries d) id);
  ns_dirs : ∀ id, is_dir d id →
            nlinks (dentries d) id = if decide (id = ROOT_INODE) then 0%nat else 1%nat;
  ns_dir_links : ∀ id i, inodes d !! id = Some i → i_file_type i = Directory →
                 i_link_count i ≠ 0;
  ns_rooted : ∀ id, is_dir d id → rooted (dentries d) id;
  ns_open : ∀ id s, (id, s) ∈ open_presences d →
            ∃ i, inodes d !! id = Some i ∧ i_file_type i = Regular;
  ns_orphans : ∀ id i, inodes d !! id = Some i → i_file_type i ≠ Directory →
               i_link_count i = 0 → id ∉ E → ∃ s, (id, s) ∈ open_presences d;
  ns_xattrs : ∀ id n, is_Some (xattrs d !! (id, n)) → is_Some (inodes d !! id);
  ns_reservations : ∀ t r, reservations d !! t = Some r →
               cr_ticket r = t ∧ is_Some (inodes d !! cr_inode r)
}.

Abbreviation ns_inv := (ns_core ∅).

(** Counters that have not reached the end of their range. *)
Definition room (d : Db) : Prop :=
  (∀ n, next_inode d = Some n → n < U64_MAX) ∧
  (∀ id i, inodes d !! id = Some i → i_generation i < U64_MAX).

(** ** Database updates that keep the invariant *)

Lemma ns_is_dir_children E d p n c : ns_core E d → dentries d !! (p, n) = Some c → is_dir d p.
Proof. intros H Hp. by apply (ns_entry _ _ H) in Hp as [? _]. Qed.

Lemma is_dir_upd_inode d id i i' x :
  inodes d !! id = Some i → i_file_type i' = i_file_type i →
  is_dir (upd_inodes <[id := i']> d) x ↔ is_dir d x.
Proof.
  intros Hi Ht. unfold is_dir. simpl. destruct (decide (id = x)) as [->|Hne].
  - rewrite lookup_insert_eq. split; intros (?&?&?); simplify_eq; eexists; split; eauto; congruence.
  - by rewrite lookup_insert_ne.
Qed.

Lemma is_Some_upd_inode d id i i' x :
  inodes d !! id = Some i →
  is_Some (inodes (upd_inodes <[id := i']> d) !! x) ↔ is_Some (inodes d !! x).
Proof.
  intros Hi. simpl. destruct (decide (id = x)) as [->|Hne].
  - rewrite lookup_insert_eq. split; eauto.
  - by rewrite lookup_insert_ne.
Qed.

(** An inode row rewritten without touching its identity, type or links. *)
Lemma ns_put_attrs E d id i i' :
  ns_core E d → inodes d !! id = Some i → i_id i' = id →
  i_file_type i' = i_file_type i → i_link_count i' = i_link_count i →
  ns_core E (upd_inodes <[id := i']> d).
Proof.
  intros H Hi Hid Ht Hl. assert (Hd := λ x, is_dir_upd_inode d id i i' x Hi Ht).
  assert (Hs := λ x, is_Some_upd_inode d id i i' x Hi).
  destruct H as [H1 H2 H3 H4 H5 H6 H6b H7 H8 H9 H10 H11]. split.
  - by apply Hd.
  - destruct H2 as (n&?&Hn). exists n. split; [done|]. intros x Hx. apply Hn. by apply Hs.
  - simpl. intros x j [[-> ->]|[? ?]]%lookup_insert_Some; eauto.
  - simpl. intros p n c Hp. destruct (H4 _ _ _ Hp) as (?&?&?). split_and!; [by apply Hd|by apply Hs|done].
  - simpl. intros x j [[<- <-]|[? ?]]%lookup_insert_Some Hj; [|eauto].
    rewrite Hl. apply (H5 _ _ Hi). congruence.
  - intros x Hx%Hd. by apply H6.
  - simpl. intros x j [[<- <-]|[? ?]]%lookup_insert_Some Hj; [|eauto].
    rewrite Hl. apply (H6b _ _ Hi). congruence.
  - intros x Hx%Hd. by apply H7.
  - simpl. intros x s Hx. destruct (H8 _ _ Hx) as (j&Hj&Hr).
    destruct (decide (id = x)) as [<-|]; [exists i'|exists j].
    + rewrite lookup_insert_eq. split; [done|congruence].
    + by rewrite lookup_insert_ne.
  - simpl. intros x j [[<- <-]|[? ?]]%lookup_insert_Some Hj Hl0 He; [|eauto].
    eapply H9; eauto; congruence.
  - intros x n Hx. apply Hs. by eapply H10.
  - intros t r Hr. destruct (H11 _ _ Hr). split; [done|]. by apply Hs.
Qed.

(** Only the inode counter advances. *)
Lemma ns_bump_next E d n :
  ns_core E d → next_inode d = Some n → n < U64_MAX →
  ns_core E (upd_next_inode (λ _, Some (wrap_add n 1)) d).
Proof.
  intros H Hn Hmax. destruct H as [H1 H2 H3 H4 H5 H6 H6b H7 H8 H9 H10 H11].
  split; try done. simpl. exists (n + 1). rewrite wrap_add_small by lia. split; [done|].
  destruct H2 as (n'&?&Hlt). simplify_eq. intros x Hx%Hlt. lia.
Qed.

(** Extended attributes of existing inodes. *)
Lemma ns_put_xattr E d id n v :
  ns_core E d → is_Some (inodes d !! id) → ns_core E (upd_xattrs <[(id, n) := v]> d).
Proof.
  intros H Hid. destruct H as [H1 H2 H3 H4 H5 H6 H6b H7 H8 H9 H10 H11]. split; try done.
  simpl. intros x m Hx. destruct (decide ((id, n) = (x, m))) as [[= <- <-]|Hne]; [done|].
  rewrite lookup_insert_ne in Hx by done. eauto.
Qed.

Lemma ns_delete_xattr E d k : ns_core E d → ns_core E (upd_xattrs (delete k) d).
Proof.
  intros H. destruct H as [H1 H2 H3 H4 H5 H6 H6b H7 H8 H9 H10 H11]. split; try done.
  simpl. intros x m [v Hx]. apply lookup_delete_Some in Hx as [_ Hx]. eauto.
Qed.

(** A fresh inode and its first entry ([create], [symlink], [import]). *)
Lemma ns_add_node E d p name id i :
  ns_core E d → is_dir d p → dentries d !! (p, name) = None → name_ok name →
  inodes d !! id = None → (∀ n, next_inode d = Some n → id < n) →
  (∀ n, is_Some (xattrs d !! (id, n)) → False) →
  i_id i = id → (i_file_type i ≠ Directory → i_link_count i = 1) → i_link_count i ≠ 0 →
  ns_core E (upd_dentries <[(p, name) := id]> (upd_inodes <[id := i]> d)).
Proof.
  intros H Hp Hnone Hname Hfresh Hnext Hxa Hid Hlinks Hlinks0.
  assert (Hold : ∀ x j, inodes d !! x = Some j → id ≠ x) by (intros x j ? ->; congruence).
  assert (∀ c, c ≠ id → nlinks (<[(p, name) := id]> (dentries d)) c = nlinks (dentries d) c) as Hnl.
  { intros c Hc. rewrite nlinks_insert by done. by rewrite decide_False. }
  assert (nlinks (dentries d) id = 0%nat) as Hnl0.
  { apply nlinks_zero_intro. intros [q m] Hq. apply (ns_entry _ _ H) in Hq as (_&[? ?]&_). congruence. }
  assert (nlinks (<[(p, name) := id]> (dentries d)) id = 1%nat) as Hnl1.
  { rewrite nlinks_insert by done. by rewrite decide_True, Hnl0. }
  assert (ROOT_INODE ≠ id) as Hroot.
  { intros <-. destruct (ns_root _ _ H) as (?&?&?). congruence. }
  destruct H as [H1 H2 H3 H4 H5 H6 H6b H7 H8 H9 H10 H11]. split; simpl.
  - destruct H1 as (r&Hr&?). exists r. split; [|done]. simpl. rewrite lookup_insert_ne; eauto.
  - destruct H2 as (n&Hn&Hlt). exists n. split; [done|]. intros x.
    rewrite lookup_insert_is_Some. intros [<-|[_ ?]]; auto.
  - intros x j [[<- <-]|[_ ?]]%lookup_insert_Some; eauto.
  - assert (∀ q, is_dir d q → is_dir (upd_dentries <[(p, name):=id]> (upd_inodes <[id:=i]> d)) q) as Hd.
    { intros q (j&Hj&?). exists j. split; [|done]. simpl. rewrite lookup_insert_ne; eauto. }
    intros q m c [[Heq <-]|[_ Hq]]%lookup_insert_Some.
    + simplify_eq. split_and!; [auto|rewrite lookup_insert_eq; eauto|done].
    + destruct (H4 _ _ _ Hq) as (?&[j Hj]&?). split_and!; [auto| |done].
      rewrite lookup_insert_ne; eauto.
  - intros x j [[<- <-]|[? Hx]]%lookup_insert_Some Hj.
    + rewrite Hnl1. simpl. auto.
    + rewrite Hnl by done. eauto.
  - intros x (j&Hx&Hj). simpl in Hx. apply lookup_insert_Some in Hx as [[<- <-]|[? Hx]].
    + rewrite Hnl1. by rewrite decide_False.
    + rewrite Hnl by done. apply H6. by exists j.
  - intros x j [[<- <-]|[? Hx]]%lookup_insert_Some Hj; eauto.
  - intros x (j&Hx&Hj). simpl in Hx.
    assert (dentries d ⊆ <[(p, name) := id]> (dentries d)) as Hsub by by apply insert_subseteq.
    apply lookup_insert_Some in Hx as [[<- <-]|[? Hx]].
    + econstructor; [eapply rooted_mono; [exact Hsub|by apply H7]|apply lookup_insert_eq].
    + eapply rooted_mono; [exact Hsub|]. apply H7. by exists j.
  - intros x s Hx. destruct (H8 _ _ Hx) as (j&Hj&?). exists j. split; [|done].
    rewrite lookup_insert_ne; eauto.
  - intros x j [[<- <-]|[? Hx]]%lookup_insert_Some Hj Hl0 He; [|eauto].
    done.
  - intros x m Hx. destruct (H10 _ _ Hx) as [j Hj]. rewrite lookup_insert_ne; eauto.
  - intros t r Hr. destruct (H11 _ _ Hr) as [? [j Hj]]. split; [done|].
    rewrite lookup_insert_ne; eauto.
Qed.

(** Another entry for a linked non-directory ([link]). *)
Lemma ns_add_link E d p name id i i' :
  ns_core E d → is_dir d p → dentries d !! (p, name) = None → name_ok name →
  inodes d !! id = Some i → i_file_type i ≠ Directory →
  i_id i' = id → i_file_type i' = i_file_type i → i_link_count i' = i_link_count i + 1 →
  ns_core E (upd_dentries <[(p, name) := id]> (upd_inodes <[id := i']> d)).
Proof.
  intros H Hp Hnone Hname Hi Hnd Hid Ht Hl.
  assert (Hd := λ x, is_dir_upd_inode d id i i' x Hi Ht).
  assert (Hs := λ x, is_Some_upd_inode d id i i' x Hi). simpl in Hs.
  assert (Hnl := nlinks_insert (dentries d) (p, name) id).
  destruct H as [H1 H2 H3 H4 H5 H6 H6b H7 H8 H9 H10 H11]. split; simpl.
  - by apply Hd.
  - destruct H2 as (n&?&Hn). exists n. split; [done|]. intros x Hx%Hs. auto.
  - intros x j [[<- <-]|[? ?]]%lookup_insert_Some; eauto.
  - intros q m c [[Heq <-]|[_ Hq]]%lookup_insert_Some.
    + simplify_eq. split_and!; [by apply Hd|rewrite lookup_insert_eq; eauto|done].
    + destruct (H4 _ _ _ Hq) as (?&?&?). split_and!; [by apply Hd|by apply Hs|done].
  - intros x j [[<- <-]|[? Hx]]%lookup_insert_Some Hj; rewrite Hnl by done.
    + rewrite decide_True by done. rewrite Hl, (H5 _ _ Hi) by done. lia.
    + rewrite decide_False by done. eauto.
  - intros x Hx%Hd. rewrite Hnl by done. rewrite decide_False; [by apply H6|].
    intros ->. destruct Hx as (j&?&?). congruence.
  - intros x j [[<- <-]|[? Hx]]%lookup_insert_Some Hj; [lia|eauto].
  - intros x Hx%Hd. eapply rooted_mono; [by apply insert_subseteq|]. by apply H7.
  - intros x s Hx. destruct (H8 _ _ Hx) as (j&Hj&?).
    destruct (decide (id = x)) as [<-|]; [exists i'|exists j].
    + rewrite lookup_insert_eq. split; [done|congruence].
    + by rewrite lookup_insert_ne.
  - intros x j [[<- <-]|[? Hx]]%lookup_insert_Some Hj Hl0 He; [lia|eauto].
  - intros x m Hx. apply Hs. by eapply H10.
  - intros t r Hr. destruct (H11 _ _ Hr). split; [done|]. by apply Hs.
Qed.

(** One entry of a non-directory goes, the inode stays ([unlink] of a file
    with more links, or held open). *)
Lemma ns_drop_link E d k c i i' :
  ns_core E d → dentries d !! k = Some c → inodes d !! c = Some i →
  i_file_type i ≠ Directory → i_id i' = c → i_file_type i' = i_file_type i →
  i_link_count i' = i_link_count i - 1 →
  (i_link_count i' = 0 → ∃ s, (c, s) ∈ open_presences d) →
  ns_core E (upd_inodes <[c := i']> (upd_dentries (delete k) d)).
Proof.
  intros H Hk Hi Hnd Hid Ht Hl Hopen.
  assert (Hd := λ x, is_dir_upd_inode d c i i' x Hi Ht).
  assert (Hs := λ x, is_Some_upd_inode d c i i' x Hi). simpl in Hs.
  assert (Hnl := λ x, nlinks_delete (dentries d) k c x Hk).
  assert (∀ n, dentries d !! (c, n) = None) as Hleaf.
  { intros n. destruct (dentries d !! (c, n)) eqn:Hn; [|done].
    apply (ns_is_dir_children _ _ _ _ _ H) in Hn as (?&?&?). congruence. }
  destruct H as [H1 H2 H3 H4 H5 H6 H6b H7 H8 H9 H10 H11]. split; simpl.
  - by apply Hd.
  - destruct H2 as (n&?&Hn). exists n. split; [done|]. intros x Hx%Hs. auto.
  - intros x j [[<- <-]|[? ?]]%lookup_insert_Some; eauto.
  - intros q m x [_ Hq]%lookup_delete_Some.
    destruct (H4 _ _ _ Hq) as (?&?&?). split_and!; [by apply Hd|by apply Hs|done].
  - intros x j [[<- <-]|[? Hx]]%lookup_insert_Some Hj.
    + assert (Hc := H5 _ _ Hi Hnd). rewrite Hnl, decide_True in Hc by done. lia.
    + rewrite (H5 _ _ Hx Hj), Hnl, decide_False by done. done.
  - intros x Hx%Hd. rewrite <-H6 by done. rewrite (Hnl x), decide_False; [done|].
    intros ->. destruct Hx as (?&?&?). congruence.
  - intros x j [[<- <-]|[? Hx]]%lookup_insert_Some Hj; [congruence|eauto].
  - intros x Hx%Hd. eapply rooted_delete_leaf; eauto.
    intros ->. destruct Hx as (?&?&?). congruence.
  - intros x s Hx. destruct (H8 _ _ Hx) as (j&Hj&?).
    destruct (decide (c = x)) as [<-|]; [exists i'|exists j].
    + rewrite lookup_insert_eq. split; [done|congruence].
    + by rewrite lookup_insert_ne.
  - intros x j [[<- <-]|[? Hx]]%lookup_insert_Some Hj Hl0 He; eauto.
  - intros x m Hx. apply Hs. by eapply H10.
  - intros t r Hr. destruct (H11 _ _ Hr). split; [done|]. by apply Hs.
Qed.

(** An inode with no children and no entries (left) is removed with all that
    is attached to it. *)
Lemma ns_purge E d c m' :
  ns_core E d → c ≠ ROOT_INODE → (∀ n, dentries d !! (c, n) = None) →
  m' ⊆ dentries d → (∀ k, m' !! k ≠ Some c) →
  (∀ x, x ≠ c → nlinks m' x = nlinks (dentries d) x) →
  (∀ x, x ≠ c → rooted (dentries d) x → rooted m' x) →
  ns_core (E ∖ {[c]}) (purge_inode c (upd_dentries (λ _, m') d)).
Proof.
  intros H Hroot Hleaf Hsub Hno Hnl Hrt.
  destruct H as [H1 H2 H3 H4 H5 H6 H6b H7 H8 H9 H10 H11].
  assert (∀ x, is_dir (purge_inode c (upd_dentries (λ _, m') d)) x ↔ is_dir d x ∧ x ≠ c) as Hd.
  { intros x. unfold is_dir. simpl. split.
    - intros (j&[? ?]%lookup_delete_Some&?). eauto.
    - intros [(j&?&?) ?]. exists j. by rewrite lookup_delete_ne. }
  split; simpl.
  - apply Hd. auto.
  - destruct H2 as (n&?&Hn). exists n. split; [done|].
    intros x [j [_ Hj]%lookup_delete_Some]. eauto.
  - intros x j [_ ?]%lookup_delete_Some. eauto.
  - intros p n x Hp. assert (x ≠ c) by (intros ->; by eapply Hno).
    apply (lookup_weaken _ (dentries d)) in Hp; [|done].
    destruct (H4 _ _ _ Hp) as (?&?&?). split_and!; [|by rewrite lookup_delete_ne|done].
    apply Hd. split; [done|]. intros ->. by rewrite Hleaf in Hp.
  - intros x j [? Hx]%lookup_delete_Some Hj. rewrite Hnl by done. eauto.
  - intros x [? ?]%Hd. rewrite Hnl by done. auto.
  - intros x j [_ ?]%lookup_delete_Some. eauto.
  - intros x [? ?]%Hd. auto.
  - intros x s. rewrite elem_of_filter. intros [Hne Hx]. simpl in Hne.
    destruct (H8 _ _ Hx) as (j&?&?). exists j. by rewrite lookup_delete_ne.
  - intros x j [Hne Hx]%lookup_delete_Some Hj Hl0 He.
    destruct (H9 _ _ Hx Hj Hl0) as [s Hs]; [set_solver|].
    exists s. by apply elem_of_filter.
  - intros x n [v [Hv Hx]%map_lookup_filter_Some]. simpl in Hx.
    rewrite lookup_delete_ne by done. eauto.
  - intros t r [Hr Hne]%map_lookup_filter_Some. simpl in Hne.
    destruct (H11 _ _ Hr). rewrite lookup_delete_ne by done. done.
Qed.

Lemma ns_reservations_keyed E d : ns_core E d → reservations_keyed d.
Proof. intros H t r Hr. by destruct (ns_reservations _ _ H _ _ Hr). Qed.

(** The last entry of [c] and [c] itself ([rmdir], the last [unlink]). *)
Lemma ns_drop_purge E d k c :
  ns_core E d → dentries d !! k = Some c → nlinks (dentries d) c = 1%nat →
  (∀ n, dentries d !! (c, n) = None) →
  ns_core (E ∖ {[c]}) (purge_inode c (upd_dentries (delete k) d)).
Proof.
  intros H Hk Hone Hleaf.
  assert (c ≠ ROOT_INODE) as Hroot.
  { intros ->. rewrite (ns_dirs _ _ H), decide_True in Hone; [done|done|by apply H]. }
  apply (ns_purge E d c (delete k (dentries d))); try done.
  - apply delete_subseteq.
  - apply nlinks_zero. rewrite (nlinks_delete _ _ _ c Hk), decide_True in Hone by done. lia.
  - intros x Hx. rewrite (nlinks_delete _ _ _ x Hk). by rewrite decide_False.
  - intros x Hx. by apply (rooted_delete_leaf _ _ c).
Qed.

(** An unlinked, unopened file is reaped. *)
Lemma ns_purge_orphan E d c i :
  ns_core E d → inodes d !! c = Some i → i_file_type i ≠ Directory → i_link_count i = 0 →
  ns_core (E ∖ {[c]}) (purge_inode c d).
Proof.
  intros H Hi Hnd Hl.
  assert (∀ n, dentries d !! (c, n) = None) as Hleaf.
  { intros n. destruct (dentries d !! (c, n)) eqn:Hn; [|done].
    apply (ns_is_dir_children _ _ _ _ _ H) in Hn as (?&?&?). congruence. }
  assert (ns_core (E ∖ {[c]}) (purge_inode c (upd_dentries (λ _, dentries d) d))) as Hp;
    [|by destruct d].
  apply ns_purge; try done.
  - intros ->. destruct (ns_root _ _ H) as (?&?&?). congruence.
  - apply nlinks_zero. rewrite (ns_links _ _ H _ _ Hi Hnd) in Hl. lia.
Qed.

(** A presence row appears or disappears. *)
Lemma ns_open_presence E d id s i :
  ns_core E d → inodes d !! id = Some i → i_file_type i = Regular →
  ns_core E (upd_open_presences (λ o, {[ (id, s) ]} ∪ o) d).
Proof.
  intros H Hi Hr. destruct H as [H1 H2 H3 H4 H5 H6 H6b H7 H8 H9 H10 H11]. split; try done; simpl.
  - intros x s' [Heq|Hx]%elem_of_union; [|eauto]. apply elem_of_singleton in Heq.
    simplify_eq. eauto.
  - intros x j Hx Hj Hl He. destruct (H9 _ _ Hx Hj Hl He) as [s' ?]. exists s'. set_solver.
Qed.

Lemma ns_close_presence (E : gset N) (d : Db) (ks : gset (N * string)) :
  ns_core E d →
  ns_core (E ∪ set_map (D := gset N) fst ks) (upd_open_presences (λ o, o ∖ ks) d).
Proof.
  intros H. destruct H as [H1 H2 H3 H4 H5 H6 H6b H7 H8 H9 H10 H11]. split; try done; simpl.
  - intros x s [Hx _]%elem_of_difference. eauto.
  - intros x j Hx Hj Hl He. destruct (H9 _ _ Hx Hj Hl) as [s Hs]; [set_solver|].
    exists s. apply elem_of_difference. split; [done|]. intros Hin. apply He.
    apply elem_of_union_r, elem_of_map. by exists (x, s).
Qed.

(** ** Operations *)

(** The parent row that [load_and_bump_parent_dir] writes. *)
Definition bumped (t : Z) (i : Inode) : Inode :=
  set_ctime_ms t (set_mtime_ms t (set_generation (sat_add (i_generation i) 1) i)).

Lemma bump_cases E t p e d r d' :
  ns_core E d → load_and_bump_parent_dir t p e d = (r, d') →
  (∃ err, r = Err err ∧ d' = d) ∨
  (∃ i, inodes d !! p = Some i ∧ i_file_type i = Directory ∧
        check_optional_generation i e = Ok tt ∧ r = Ok (bumped t i) ∧
        d' = upd_inodes <[p := bumped t i]> d ∧ ns_core E d').
Proof.
  intros Hns H. unfold load_and_bump_parent_dir in H. db_inv H; bools; eauto.
  right. assert (i_id x = p) as Hid by (by eapply ns_id).
  destruct x0. exists x. subst p. split_and!; try done.
  by eapply ns_put_attrs.
Qed.

Lemma alloc_inode_cases E d r d' :
  ns_core E d → alloc_inode d = (r, d') →
  ∃ n, next_inode d = Some n ∧ r = Ok n ∧
       d' = upd_next_inode (λ _, Some (wrap_add n 1)) d.
Proof.
  intros Hns H. destruct (ns_next _ _ Hns) as (n&Hn&_).
  exists n. split; [done|]. unfold alloc_inode in H.
  rewrite (txn_bind_ok _ _ d n d) in H by (unfold reads; by rewrite Hn).
  db_inv H. done.
Qed.

(** The state in which a fresh node is inserted: parent bumped, id taken. *)
Lemma ns_fresh_node E d p name n i :
  ns_core E d → is_dir d p → dentries d !! (p, name) = None → name_ok name →
  next_inode d = Some n → n < U64_MAX →
  i_id i = n → (i_file_type i ≠ Directory → i_link_count i = 1) → i_link_count i ≠ 0 →
  ns_core E (upd_dentries <[(p, name) := n]> (upd_inodes <[n := i]>
    (upd_next_inode (λ _, Some (wrap_add n 1)) d))).
Proof.
  intros Hns Hp Hnone Hname Hn Hmax Hid Hl Hl0.
  destruct (ns_next _ _ Hns) as (n'&Hn'&Hlt).
  rewrite Hn in Hn'. injection Hn' as <-.
  assert (inodes d !! n = None) as Hfresh.
  { apply eq_None_not_Some. intros Hs%Hlt. lia. }
  apply ns_add_node; auto using ns_bump_next; simpl.
  - intros m [= <-]. rewrite wrap_add_small by lia. lia.
  - intros m Hx%(ns_xattrs _ _ Hns). rewrite Hfresh in Hx. by destruct Hx.
Qed.

Section operations.
Context (now : nat → Z).

Lemma create_node_keeps e p name ft mode uid gid tgt d r d' :
  ns_inv d → room d →
  create_node_in_txn now e p name ft mode uid gid tgt d = (r, d') → ns_inv d'.
Proof.
  intros Hns [Hroom _] H. unfold create_node_in_txn in H.
  db_inv H; bools; try done;
    destruct (bump_cases _ _ _ _ _ _ _ Hns Hm) as [(?&?&->)|(i&Hi&Hd&_&_&->&Hns')]; try done;
    destruct (alloc_inode_cases _ _ _ _ Hns' Hm0) as (n&Hn&?&->); simplify_eq.
  2:{ case_match; db_inv Hm1. }
  assert (ns_inv (upd_dentries <[(p, name) := n]> (upd_inodes <[n :=
    new_node n ft mode uid gid tgt (now 1%nat)]> (upd_next_inode (λ _, Some (wrap_add n 1))
      (upd_inodes <[p := bumped (now 0%nat) i]> d))))) as Hnode.
  { apply ns_fresh_node; auto; simpl.
    - exists (bumped (now 0%nat) i). simpl. rewrite lookup_insert_eq. auto.
    - intros Hnd. by rewrite bool_decide_false.
    - by case_bool_decide. }
  case_match; db_inv Hm1; try done; repeat apply ns_put_xattr; try done;
    simpl; rewrite lookup_insert_eq; eauto.
Qed.

Lemma symlink_keeps e p name tgt uid gid d r d' :
  ns_inv d → room d → symlink_in_txn now e p name tgt uid gid d = (r, d') → ns_inv d'.
Proof.
  intros Hns Hroom H. unfold symlink_in_txn in H. db_inv H; try done.
  by eapply create_node_keeps.
Qed.

(** The names [Dentry::validate] accepts are names [create] accepts. *)
Lemma validate_dentry_name_ok n u : validate_dentry_name n = Ok u → name_ok n.
Proof.
  destruct u. intros (?&Hs&?&?&_)%Dentry_validate_ok. unfold name_ok, bad_name. simpl in *.
  by rewrite Hs, !bool_decide_false.
Qed.

Lemma link_keeps e id p name d r d' :
  ns_inv d → link_in_txn now e id p name d = (r, d') → ns_inv d'.
Proof.
  intros Hns H. unfold link_in_txn in H. db_inv H; bools; try done;
    destruct (bump_cases _ _ _ _ _ _ _ Hns Hm0) as [(?&?&->)|(i&Hp&Hd&_&_&->&Hns')]; try done.
  assert (id ≠ p) as Hne by (intros ->; simplify_eq; congruence).
  assert (Hid := ns_id _ _ Hns _ _ Hi).
  destruct (checked_add_w _ _ _) as [l|] eqn:Hl; simplify_eq/=.
  apply checked_add_Some in Hl as [-> _].
  eapply (ns_add_link _ _ _ _ _ x0); try done; simpl.
  - exists (bumped (now 0%nat) i). simpl. rewrite lookup_insert_eq. auto.
  - by eapply validate_dentry_name_ok.
  - by rewrite lookup_insert_ne.
Qed.

Lemma set_xattr_keeps g id name v mode d r d' :
  ns_inv d → set_xattr_in_txn now g id name v mode d = (r, d') → ns_inv d'.
Proof.
  intros Hns H. unfold set_xattr_in_txn, next_generation in H.
  db_inv H; try done; try (by repeat case_match; db_inv Hm1).
  assert (x3 = d) as -> by (by repeat case_match; db_inv Hm1).
  assert (Hid := ns_id _ _ Hns _ _ Hi). subst id.
  eapply ns_put_attrs; [apply ns_put_xattr; eauto|done..].
Qed.

Lemma remove_xattr_keeps g id name d r d' :
  ns_inv d → remove_xattr_in_txn now g id name d = (r, d') → ns_inv d'.
Proof.
  intros Hns H. unfold remove_xattr_in_txn, next_generation in H.
  db_inv H; try done; try (by apply ns_delete_xattr).
  assert (Hid := ns_id _ _ Hns _ _ Hi). subst id.
  eapply ns_put_attrs; [by apply ns_delete_xattr|done..].
Qed.

Lemma open_keeps s id d r d' :
  ns_inv d → open_inode_in_txn s id d = (r, d') → ns_inv d'.
Proof.
  intros Hns H. unfold open_inode_in_txn in H. db_inv H; bools; try done.
  by eapply ns_open_presence.
Qed.

Lemma ns_core_mono E E' d : E ⊆ E' → ns_core E d → ns_core E' d.
Proof. intros HE []. split; eauto. Qed.

Lemma ns_core_drop E d c :
  ns_core E d →
  (∀ i, inodes d !! c = Some i → i_file_type i ≠ Directory → i_link_count i = 0 →
        ∃ s, (c, s) ∈ open_presences d) →
  ns_core (E ∖ {[c]}) d.
Proof.
  intros H Hc. destruct H as [H1 H2 H3 H4 H5 H6 H6b H7 H8 H9 H10 H11]. split; try done.
  intros x j Hx Hj Hl He. destruct (decide (x = c)) as [->|]; [eauto|].
  eapply H9; eauto. set_solver.
Qed.

Lemma reap_keeps E c d r d' :
  ns_core E d → reap_unlinked_inode_if_unopened_in_txn c d = (r, d') →
  r = Ok tt ∧ ns_core (E ∖ {[c]}) d'.
Proof.
  intros Hns H. unfold reap_unlinked_inode_if_unopened_in_txn in H. rewrite txn_bind_gets in H.
  destruct (inodes d !! c) as [i|] eqn:Hi.
  - rewrite txn_bind_gets in H. destruct (N.eqb_spec (i_link_count i) 0) as [Hl|Hl]; simpl in H.
    + destruct (has_open_presence d c) eqn:Ho; simpl in H.
      * db_inv H. split; [done|]. apply ns_core_drop; [done|]. intros.
        by apply has_open_presence_spec.
      * rewrite delete_inode_in_txn_spec in H by (by eapply ns_reservations_keyed).
        simplify_eq. split; [done|]. eapply ns_purge_orphan; eauto.
        intros Hd. by apply (ns_dir_links _ _ Hns _ _ Hi).
    + db_inv H. split; [done|]. apply ns_core_drop; [done|]. intros; by simplify_eq.
  - db_inv H. split; [done|]. apply ns_core_drop; [done|]. by intros; simplify_eq.
Qed.

Lemma close_keeps s id d r d' :
  ns_inv d → close_inode_in_txn s id d = (r, d') → ns_inv d'.
Proof.
  intros Hns H. unfold close_inode_in_txn in H. db_inv H; try done.
  apply (reap_keeps {[id]}) in H as [_ Hr].
  - eapply ns_core_mono; [|exact Hr]. set_solver.
  - eapply ns_core_mono; [|by apply ns_close_presence]. set_solver.
Qed.

Lemma reap_all_keeps E l d r d' :
  ns_core E d → for_each reap_unlinked_inode_if_unopened_in_txn l d = (r, d') →
  r = Ok tt ∧ ns_core (E ∖ list_to_set l) d'.
Proof.
  induction l as [|c l IH] in E, d |- *; intros Hns H; simpl in H.
  - db_inv H. split; [done|]. eapply ns_core_mono; [|done]. set_solver.
  - apply txn_bind_inv in H as [(?&?&H1&H)|(?&H1&->)];
      destruct (reap_keeps _ _ _ _ _ Hns H1) as [? Hns1]; [|done].
    destruct (IH _ _ Hns1 H) as [-> Hns2]. split; [done|].
    eapply ns_core_mono; [|exact Hns2]. set_solver.
Qed.

Lemma recover_keeps s d r d' :
  ns_inv d → recover_session_in_txn s d = (r, d') → ns_inv d'.
Proof.
  intros Hns H. unfold recover_session_in_txn in H.
  apply txn_bind_inv in H as [(?&?&H1&H)|(?&H1&->)]; db_inv H1; [|done].
  rewrite txn_bind_gets in H. erewrite txn_bind_ok in H by apply for_each_modify.
  rewrite fold_upd_open_presences in H.
  set (stale := filter _ (elements (open_presences d))) in *.
  eapply reap_all_keeps in H as [_ Hr]; [|by apply ns_close_presence].
  eapply ns_core_mono; [|exact Hr]. intros y. rewrite elem_of_difference, elem_of_union,
    elem_of_map, elem_of_list_to_set, sort_by_key_perm, elem_of_elements, elem_of_list_to_set,
    list_elem_of_fmap. intros [[?|(k&->&Hk%elem_of_list_to_set)] Hno]; [done|].
  destruct Hno. eauto.
Qed.

(** [remove_inode_link_in_txn] after the entry [k] of [c] has gone. *)
Lemma remove_link_keeps E t k c i d r d' :
  ns_core E d → dentries d !! k = Some c → inodes d !! c = Some i →
  i_file_type i ≠ Directory → i_generation i < U64_MAX →
  remove_inode_link_in_txn t i (upd_dentries (delete k) d) = (r, d') →
  r = Ok tt ∧ ns_core E d' ∧ dentries d' = delete k (dentries d) ∧
  ∀ x, x ≠ c → inodes d' !! x = inodes d !! x.
Proof.
  intros Hns Hk Hi Hnd Hg H. assert (Hid := ns_id _ _ Hns _ _ Hi). subst c.
  assert (Hc := ns_links _ _ Hns _ _ Hi Hnd).
  assert (Hpos := nlinks_pos _ _ _ Hk).
  unfold remove_inode_link_in_txn, next_generation in H.
  simpl in H. unfold checked_add_w in H. rewrite bool_decide_true in H by (simpl; lia).
  db_inv H; bools; simplify_eq/=; try lia.
  - rewrite delete_inode_in_txn_spec in H by (exact (ns_reservations_keyed _ _ Hns)).
    simplify_eq. split_and!; [done| |done|intros; simpl; by rewrite lookup_delete_ne].
    eapply ns_core_mono; [|eapply (ns_drop_purge E)]; [set_solver|done|done|lia|].
    intros n. destruct (dentries d !! (i_id i, n)) eqn:Hn; [|done].
    apply (ns_is_dir_children _ _ _ _ _ Hns) in Hn as (?&?&?). congruence.
  - split_and!; [done| |done|intros; simpl; by rewrite lookup_insert_ne].
    eapply ns_drop_link; eauto; simpl.
    intros Hl. apply andb_false_iff in Hb0 as [Hb0|Hb0]; bools; [lia|].
    by apply has_open_presence_spec.
Qed.

Lemma unlink_keeps e p name d r d' :
  ns_inv d → room d → unlink_in_txn now e p name d = (r, d') → ns_inv d'.
Proof.
  intros Hns [_ Hroom] H. unfold unlink_in_txn in H. db_inv H; bools; try done;
    destruct (bump_cases _ _ _ _ _ _ _ Hns Hm0) as [(?&?&->)|(i&Hp&Hd&_&_&->&Hns')]; try done.
  destruct (dentries d !! (p, name)) as [c|] eqn:Hc; simplify_eq/=.
  assert (x ≠ p) as Hne by (intros ->; simplify_eq; congruence).
  eapply (remove_link_keeps _ _ (p, name) x x0) in H; [apply H|done|done| |done|eauto].
  simpl. by rewrite lookup_insert_ne.
Qed.

Lemma rmdir_keeps e p name d r d' :
  ns_inv d → rmdir_in_txn now e p name d = (r, d') → ns_inv d'.
Proof.
  intros Hns H. unfold rmdir_in_txn in H. db_inv H; bools; try done;
    destruct (bump_cases _ _ _ _ _ _ _ Hns Hm0) as [(?&?&->)|(i&Hp&Hd&_&_&->&Hns')]; try done.
  destruct (dentries d !! (p, name)) as [c|] eqn:Hc; simplify_eq/=.
  rewrite delete_inode_in_txn_spec in H by (exact (ns_reservations_keyed _ _ Hns')).
  simplify_eq. assert (is_dir d x) as Hx by (by exists x0).
  assert (x ≠ ROOT_INODE) as Hroot.
  { intros ->. apply nlinks_pos in Hc. rewrite (ns_dirs _ _ Hns) in Hc by done. done. }
  eapply ns_core_mono; [|eapply ns_drop_purge; [exact Hns'|done| |]]; [set_solver| |].
  - simpl. rewrite (ns_dirs _ _ Hns) by done. by rewrite decide_False.
  - intros n. simpl. destruct (dentries d !! (x, n)) as [y|] eqn:Hn; [|done].
    apply elem_of_dir_entries in Hn. unfold directory_has_children in *.
    destruct (dir_entries d x); [by apply elem_of_nil in Hn|done].
Qed.
End operations.
