(* ===== verification/Evolve.v ===== *)
(** * How the namespace operations change inode rows

    [evolves d d'] is the relation between the databases before and after a
    namespace operation: an inode row is untouched, or keeps its data part
    with a larger generation, or is a fresh node under a newly allocated id;
    rows may disappear, reservations are only released, and manifests,
    tombstones, the GC lease, the worker membership and the request ledger
    are not written.  Every operation of [Namespace] satisfies it; the
    invariants of the other components follow from it. *)

From S2P Require Import MetaDb Namespace NamespaceInv.

Local Open Scope N_scope.

(** The part of an inode that only data operations write. *)
Definition data_of (i : Inode) : Inode :=
  set_mode 0 (set_uid 0 (set_gid 0 (set_mtime_ms 0 (set_ctime_ms 0 (set_atime_ms 0
    (set_link_count 0 (set_generation 0 i))))))).

Definition touch (i i' : Inode) : Prop :=
  data_of i' = data_of i ∧ (i' = i ∨ i_generation i < i_generation i').

Definition is_fresh (i : Inode) : Prop :=
  i_manifest_id i = None ∧ i_flush_intent i = None ∧ i_generation i ≠ 0 ∧
  ∀ f it, i_locality_fields i = Some f → lf_op_state f ≠ Flushing it.

Record evolves (d d' : Db) : Prop := {
  ev_inodes : ∀ id i', inodes d' !! id = Some i' →
    (∃ i, inodes d !! id = Some i ∧ touch i i') ∨
    (∃ n, next_inode d = Some n ∧ n ≤ id ∧ is_fresh i');
  ev_next : option_Forall2 N.le (next_inode d) (next_inode d');
  ev_reservations : reservations d' ⊆ reservations d;
  ev_manifests : manifests d' = manifests d;
  ev_next_manifest : next_manifest d' = next_manifest d;
  ev_tombstones : tombstones d' = tombstones d;
  ev_gc_lease : gc_lease d' = gc_lease d;
  ev_workers : worker_membership d' = worker_membership d;
  ev_requests : client_requests d' = client_requests d
}.

Lemma touch_refl i : touch i i.
Proof. split; auto. Qed.

Lemma touch_trans i1 i2 i3 : touch i1 i2 → touch i2 i3 → touch i1 i3.
Proof.
  intros [H1 G1] [H2 G2]. split; [congruence|].
  destruct G1 as [->|], G2 as [->|]; auto. right. lia.
Qed.

Lemma fresh_touch i i' : is_fresh i → touch i i' → is_fresh i'.
Proof.
  intros (Hm&Hf&Hg&Hl) [Hd G]. split_and!.
  - apply (f_equal i_manifest_id) in Hd. simpl in Hd. congruence.
  - apply (f_equal i_flush_intent) in Hd. simpl in Hd. congruence.
  - destruct G as [->|]; [done|lia].
  - apply (f_equal i_locality_fields) in Hd. simpl in Hd. rewrite Hd. eauto.
Qed.

#[export] Instance evolves_refl : Reflexive evolves.
Proof.
  intros d. split; try done. eauto using touch_refl.
Qed.

#[export] Instance evolves_trans : Transitive evolves.
Proof.
  intros d1 d2 d3 [A1 A2 A3 A4 A5 A6 A7 A8 A9] [B1 B2 B3 B4 B5 B6 B7 B8 B9].
  split; try congruence; [| |by etrans].
  - intros id i3 [(i2&H2&Ht)|(n2&Hn2&Hle&Hfr)]%B1.
    + destruct (A1 _ _ H2) as [(i1&?&?)|(n1&?&?&?)]; [left|right]; eauto using touch_trans, fresh_touch.
    + right. rewrite Hn2 in A2. inversion A2 as [n1 ? Hle1 Hn1|]; simplify_eq.
      exists n1. split_and!; [done|lia|done].
  - inversion A2 as [n1 n2 ? Hn1 Hn2|Hn1 Hn2]; rewrite <-Hn2 in B2;
      inversion B2; constructor; lia.
Qed.

(** ** Updates *)

Lemma evolves_put d id i i' :
  inodes d !! id = Some i → touch i i' → evolves d (upd_inodes <[id := i']> d).
Proof.
  intros Hi Ht. split; try done; simpl.
  intros x j [[<- <-]|[_ Hx]]%lookup_insert_Some; left; eauto using touch_refl.
Qed.

Lemma evolves_purge d id : evolves d (purge_inode id d).
Proof.
  split; try done; simpl.
  - intros x j [_ Hx]%lookup_delete_Some. eauto using touch_refl.
  - apply map_filter_subseteq.
Qed.

(** Updates of the namespace maps that [evolves] does not constrain. *)
Lemma evolves_frame d d' :
  inodes d' = inodes d → next_inode d' = next_inode d → reservations d' = reservations d →
  manifests d' = manifests d → next_manifest d' = next_manifest d →
  tombstones d' = tombstones d → gc_lease d' = gc_lease d →
  worker_membership d' = worker_membership d → client_requests d' = client_requests d →
  evolves d d'.
Proof.
  intros Hi Hn Hr. split; try done.
  - rewrite Hi. eauto using touch_refl.
  - by rewrite Hn.
  - by rewrite Hr.
Qed.

Lemma evolves_add d n i :
  next_inode d = Some n → n < U64_MAX → is_fresh i →
  evolves d (upd_inodes <[n := i]> (upd_next_inode (λ _, Some (wrap_add n 1)) d)).
Proof.
  intros Hn Hmax Hf. split; try done; simpl.
  - intros x j [[<- <-]|[_ Hx]]%lookup_insert_Some; [right|left];
      eauto using touch_refl, N.le_refl.
  - rewrite Hn. constructor. rewrite wrap_add_small; lia.
Qed.

Lemma touch_bumped t i : i_generation i < U64_MAX → touch i (bumped t i).
Proof.
  intros Hg. split; [done|]. right. simpl. rewrite sat_add_small; lia.
Qed.

Lemma evolves_bump t p e d r d' :
  ns_inv d → room d → load_and_bump_parent_dir t p e d = (r, d') →
  evolves d d' ∧ (∀ x i, ¬ is_dir d x → inodes d !! x = Some i → inodes d' !! x = Some i).
Proof.
  intros Hns [_ Hroom] H.
  destruct (bump_cases _ _ _ _ _ _ _ Hns H) as [(?&?&->)|(i&Hi&Hd&_&_&->&_)]; [done|]. split.
  - eapply evolves_put; eauto using touch_bumped.
  - intros x j Hx Hj. simpl. rewrite lookup_insert_ne; [done|]. intros ->. apply Hx. by exists i.
Qed.

(** ** Operations *)

Section operations.
Context (now : nat → Z).

Lemma new_node_fresh id ft mode uid gid tgt t : is_fresh (new_node id ft mode uid gid tgt t).
Proof. split_and!; try done. by intros f it [= <-]. Qed.

Lemma create_evolves e p name ft mode uid gid tgt d r d' :
  ns_inv d → room d →
  create_node_in_txn now e p name ft mode uid gid tgt d = (r, d') → evolves d d'.
Proof.
  intros Hns Hroom H. unfold create_node_in_txn in H. db_inv H; bools; try done;
    destruct (evolves_bump _ _ _ _ _ _ Hns Hroom Hm) as [Hev _]; try done;
    destruct (bump_cases _ _ _ _ _ _ _ Hns Hm) as [(?&?&->)|(i&Hi&Hd&_&_&->&Hns')]; try done;
    destruct (alloc_inode_cases _ _ _ _ Hns' Hm0) as (n&Hn&?&->); simplify_eq.
  2:{ case_match; db_inv Hm1. }
  etrans; [exact Hev|]. etrans; [apply (evolves_add _ n);
    [done|by apply (proj1 Hroom)|apply (new_node_fresh n ft mode uid gid tgt (now 1%nat))]|].
  case_match; db_inv Hm1; by apply evolves_frame.
Qed.

Lemma symlink_evolves e p name tgt uid gid d r d' :
  ns_inv d → room d → symlink_in_txn now e p name tgt uid gid d = (r, d') → evolves d d'.
Proof.
  intros Hns Hroom H. unfold symlink_in_txn in H. db_inv H; try done.
  by eapply create_evolves.
Qed.

Lemma link_evolves e id p name d r d' :
  ns_inv d → room d → link_in_txn now e id p name d = (r, d') → evolves d d'.
Proof.
  intros Hns Hroom H. unfold link_in_txn in H. db_inv H; bools; try done;
    destruct (evolves_bump _ _ _ _ _ _ Hns Hroom Hm0) as [Hev Hfile]; try done.
  assert (Hid := ns_id _ _ Hns _ _ Hi). subst id. etrans; [exact Hev|].
  etrans; [eapply evolves_put; [apply Hfile; [|exact Hi]|]|by apply evolves_frame].
  - intros (?&?&?). congruence.
  - split; [done|]. right. simpl. rewrite sat_add_small; [lia|].
    assert (Hg := proj2 Hroom _ _ Hi). lia.
Qed.

Lemma set_xattr_evolves g id name v mode d r d' :
  ns_inv d → set_xattr_in_txn now g id name v mode d = (r, d') → evolves d d'.
Proof.
  intros Hns H. unfold set_xattr_in_txn, next_generation in H.
  db_inv H; try done; try (by repeat case_match; db_inv Hm1).
  assert (x3 = d) as -> by (by repeat case_match; db_inv Hm1).
  assert (Hid := ns_id _ _ Hns _ _ Hi). subst id.
  destruct (checked_add_w _ _ _) as [g'|] eqn:Hg; simplify_eq/=.
  apply checked_add_Some in Hg as [-> _].
  etrans; [|eapply evolves_put]; [by apply evolves_frame|done|].
  split; [done|]. right. simpl. lia.
Qed.

Lemma remove_xattr_evolves g id name d r d' :
  ns_inv d → remove_xattr_in_txn now g id name d = (r, d') → evolves d d'.
Proof.
  intros Hns H. unfold remove_xattr_in_txn, next_generation in H.
  db_inv H; try done; try (by apply evolves_frame).
  assert (Hid := ns_id _ _ Hns _ _ Hi). subst id.
  destruct (checked_add_w _ _ _) as [g'|] eqn:Hg; simplify_eq/=.
  apply checked_add_Some in Hg as [-> _].
  etrans; [|eapply evolves_put]; [by apply evolves_frame|done|].
  split; [done|]. right. simpl. lia.
Qed.

Lemma open_evolves s id d r d' : open_inode_in_txn s id d = (r, d') → evolves d d'.
Proof. intros H. unfold open_inode_in_txn in H. db_inv H; try done. by apply evolves_frame. Qed.

Lemma reap_evolves c d r d' :
  reservations_keyed d → reap_unlinked_inode_if_unopened_in_txn c d = (r, d') →
  evolves d d' ∧ reservations_keyed d'.
Proof.
  intros Hk H. unfold reap_unlinked_inode_if_unopened_in_txn in H.
  rewrite txn_bind_gets in H. destruct (inodes d !! c) as [i|]; [|by db_inv H].
  rewrite txn_bind_gets in H. db_inv H; try done.
  rewrite delete_inode_in_txn_spec in H by done. simplify_eq.
  split; [apply evolves_purge|].
  intros t x [? _]%map_lookup_filter_Some. eauto.
Qed.

Lemma close_evolves s id d r d' :
  ns_inv d → close_inode_in_txn s id d = (r, d') → evolves d d'.
Proof.
  intros Hns H. unfold close_inode_in_txn in H. db_inv H; try done.
  etrans; [|eapply reap_evolves; [|exact H]]; [by apply evolves_frame|].
  exact (ns_reservations_keyed _ _ Hns).
Qed.

Lemma reap_all_evolves l d r d' :
  reservations_keyed d → for_each reap_unlinked_inode_if_unopened_in_txn l d = (r, d') →
  evolves d d'.
Proof.
  induction l as [|c l IH] in d |- *; intros Hk H; simpl in H; [by db_inv H|].
  apply txn_bind_inv in H as [(?&?&H1&H)|(?&H1&->)];
    destruct (reap_evolves _ _ _ _ Hk H1) as [? ?]; [|done].
  etrans; [done|]. by eapply IH.
Qed.

Lemma recover_evolves s d r d' :
  ns_inv d → recover_session_in_txn s d = (r, d') → evolves d d'.
Proof.
  intros Hns H. unfold recover_session_in_txn in H.
  apply txn_bind_inv in H as [(?&?&H1&H)|(?&H1&->)]; db_inv H1; [|done].
  rewrite txn_bind_gets in H. erewrite txn_bind_ok in H by apply for_each_modify.
  rewrite fold_upd_open_presences in H.
  etrans; [|eapply reap_all_evolves; [|exact H]]; [by apply evolves_frame|].
  exact (ns_reservations_keyed _ _ Hns).
Qed.

Lemma remove_link_evolves t i d r d' :
  reservations_keyed d → inodes d !! i_id i = Some i →
  remove_inode_link_in_txn t i d = (r, d') → evolves d d'.
Proof.
  intros Hk Hi H. unfold remove_inode_link_in_txn, next_generation in H.
  db_inv H; try done;
    destruct (checked_add_w _ _ _) as [g'|] eqn:Hg; simplify_eq/=;
    apply checked_add_Some in Hg as [-> _].
  - rewrite delete_inode_in_txn_spec in H by done. simplify_eq. apply evolves_purge.
  - eapply evolves_put; [done|]. split; [done|]. right. simpl. lia.
Qed.

Lemma unlink_evolves e p name d r d' :
  ns_inv d → room d → unlink_in_txn now e p name d = (r, d') → evolves d d'.
Proof.
  intros Hns Hroom H. unfold unlink_in_txn in H. db_inv H; bools; try done;
    destruct (evolves_bump _ _ _ _ _ _ Hns Hroom Hm0) as [Hev Hfile]; try done.
  assert (Hid := ns_id _ _ Hns _ _ Hi). subst x.
  destruct (bump_cases _ _ _ _ _ _ _ Hns Hm0) as [(?&?&->)|(i&?&?&_&_&->&Hns')]; [done|].
  etrans; [exact Hev|]. etrans; [|eapply remove_link_evolves; [| |exact H]];
    [by apply evolves_frame|exact (ns_reservations_keyed _ _ Hns')|].
  apply Hfile; [|done]. intros (?&?&?). congruence.
Qed.

Lemma rmdir_evolves e p name d r d' :
  ns_inv d → room d → rmdir_in_txn now e p name d = (r, d') → evolves d d'.
Proof.
  intros Hns Hroom H. unfold rmdir_in_txn in H. db_inv H; bools; try done;
    destruct (evolves_bump _ _ _ _ _ _ Hns Hroom Hm0) as [Hev _]; try done.
  destruct (bump_cases _ _ _ _ _ _ _ Hns Hm0) as [(?&?&->)|(i&?&?&_&_&->&Hns')]; [done|].
  rewrite delete_inode_in_txn_spec in H by (exact (ns_reservations_keyed _ _ Hns')).
  simplify_eq. etrans; [exact Hev|]. etrans; [|apply evolves_purge]. by apply evolves_frame.
Qed.
End operations.
