(* ===== verification/Rename.v ===== *)
(** * The subtree search and rename

    The depth-first search that keeps a directory from being moved below
    itself terminates and decides reachability exactly; with it, rename keeps
    the namespace invariant and replaces its destination atomically. *)

From S2P Require Import MetaDb Namespace NamespaceInv Evolve.

Local Open Scope N_scope.

(** ** The search *)

(** Entries of directories that have not been expanded. *)
Definition unexpanded (d : Db) (visited : gset N) : nat :=
  length (filter (λ kv, kv.1.1 ∉ visited) (map_to_list (dentries d))).

Lemma dir_entries_length d dir :
  length (dir_entries d dir)
  = length (filter (λ kv, kv.1.1 = dir) (map_to_list (dentries d))).
Proof.
  unfold dir_entries. rewrite (Permutation_length (sort_by_name_perm _ _)).
  by rewrite length_fmap.
Qed.

Lemma unexpanded_step d dir visited :
  dir ∉ visited →
  unexpanded d visited
  = (length (dir_entries d dir) + unexpanded d ({[dir]} ∪ visited))%nat.
Proof.
  intros Hdir. rewrite dir_entries_length. unfold unexpanded.
  induction (map_to_list (dentries d)) as [|[[p n] c] l IH]; [done|].
  rewrite !filter_cons. simpl.
  destruct (decide (p ∉ visited)), (decide (p = dir)), (decide (p ∉ {[dir]} ∪ visited));
    simpl; rewrite ?IH; try lia; exfalso; set_solver.
Qed.

Section search.
Context (d : Db) (Hns : ns_inv d).
Implicit Types children pending : list N.

Lemma child_exists p c : edge (dentries d) p c → is_Some (inodes d !! c).
Proof. intros [n Hn]. by apply (ns_entry _ _ Hns) in Hn as (_&?&_). Qed.

Lemma elem_of_children p c : c ∈ (dir_entries d p).*2 ↔ edge (dentries d) p c.
Proof.
  rewrite list_elem_of_fmap. split.
  - intros ([n c']&->&Hin%elem_of_dir_entries). by exists n.
  - intros [n Hn]. exists (n, c). split; [done|]. by apply elem_of_dir_entries.
Qed.

(** The inner loop: it finds the candidate among the children, or pushes
    the directories among them. *)
Lemma scan_children_spec cand children pending :
  (∀ c, c ∈ children → is_Some (inodes d !! c)) →
  ((cand ∈ children) ∧ scan_children d cand children pending = Ok None) ∨
  ((cand ∉ children) ∧ ∃ pending',
     scan_children d cand children pending = Ok (Some pending') ∧
     (length pending' ≤ length pending + length children)%nat ∧
     (∀ x, x ∈ pending' ↔ x ∈ pending ∨ (x ∈ children ∧ is_dir d x))).
Proof.
  induction children as [|c children IH] in pending |- *; intros Hex; simpl.
  { right. split; [apply not_elem_of_nil|]. exists pending. split_and!; [done|simpl; lia|].
    intros x. rewrite elem_of_nil. tauto. }
  destruct (N.eqb_spec c cand) as [->|Hne]; [left; split; [left|done]|].
  destruct (Hex c (list_elem_of_here _ _)) as [i Hi]. rewrite Hi. simpl.
  set (pending1 := if bool_decide _ then _ else _).
  destruct (IH pending1) as [[Hin ->]|(Hnin&pending'&->&Hlen&Hel)].
  { intros x ?. apply Hex. by right. }
  - left. split; [by right|done].
  - right. split; [by rewrite not_elem_of_cons|]. exists pending'.
    assert (is_dir d c ↔ i_file_type i = Directory) as Hdir.
    { split; [intros (j&?&?); congruence|]. intros. by exists i. }
    split_and!; [done| |].
    + unfold pending1 in Hlen. case_bool_decide; simpl in *; lia.
    + intros x. rewrite Hel, elem_of_cons. unfold pending1.
      case_bool_decide as Hc; rewrite ?elem_of_cons; naive_solver.
Qed.

(** The outer loop, with enough fuel, always answers. *)
Lemma descend_total cand fuel pending visited :
  (length pending + unexpanded d visited ≤ fuel)%nat →
  ∃ b, descend fuel d cand pending visited = Some (Ok b).
Proof.
  induction fuel as [|fuel IH] in pending, visited |- *; intros Hfuel;
    destruct pending as [|dir pending]; simpl in *; eauto; [lia|].
  case_bool_decide as Hdir; [apply IH; lia|].
  destruct (scan_children_spec cand (dir_entries d dir).*2 pending)
    as [[_ ->]|(_&pending'&->&Hlen&_)]; eauto.
  { intros c Hc%elem_of_children. by eapply child_exists. }
  apply IH. rewrite length_fmap in Hlen. rewrite (unexpanded_step d dir) in Hfuel by done. lia.
Qed.

(** Expanded directories do not have the candidate as a child, and their
    directory children are expanded or waiting. *)
Definition explored (cand : N) (pending : list N) (visited : gset N) : Prop :=
  ∀ v c, v ∈ visited → edge (dentries d) v c →
         c ≠ cand ∧ (is_dir d c → c ∈ visited ∨ c ∈ pending).

Lemma descend_false cand fuel pending visited :
  explored cand pending visited →
  descend fuel d cand pending visited = Some (Ok false) →
  ∃ V, explored cand [] V ∧ visited ⊆ V ∧ ∀ x, x ∈ pending → x ∈ V.
Proof.
  induction fuel as [|fuel IH] in pending, visited |- *; intros Hexp Hrun;
    destruct pending as [|dir pending]; simpl in Hrun; try done.
  - exists visited. split_and!; [done..|]. intros x ?%elem_of_nil. done.
  - exists visited. split_and!; [done..|]. intros x ?%elem_of_nil. done.
  - case_bool_decide as Hdir.
    + destruct (IH pending visited) as (V&?&Hsub&Hp); [|done|].
      { intros v c Hv Hc. destruct (Hexp v c Hv Hc) as [? Hd]. split; [done|].
        intros [?|[->|?]%elem_of_cons]%Hd; auto. }
      exists V. split_and!; [done..|]. intros x [->|?]%elem_of_cons; auto.
    + destruct (scan_children_spec cand (dir_entries d dir).*2 pending)
        as [[_ Hs]|(Hnin&pending'&Hs&_&Hel)]; [|rewrite Hs in Hrun; done|].
      { intros c Hc%elem_of_children. by eapply child_exists. }
      rewrite Hs in Hrun.
      assert (explored cand pending' ({[dir]} ∪ visited)) as Hexp'.
      { intros v c [->%elem_of_singleton|Hv]%elem_of_union Hc.
        - assert (Hin := proj2 (elem_of_children _ _) Hc). split; [congruence|].
          intros. right. apply Hel. by right.
        - destruct (Hexp v c Hv Hc) as [? Hd]. split; [done|].
          intros Hc'. destruct (Hd Hc') as [?|[->|?]%elem_of_cons]; [set_solver..|].
          right. apply Hel. by left. }
      destruct (IH _ _ Hexp' Hrun) as (V&?&Hsub&Hp).
      exists V. split_and!; [done|set_solver|].
      intros x [->|?]%elem_of_cons; [set_solver|]. apply Hp, Hel. by left.
Qed.

Lemma descend_true a cand fuel pending visited :
  (∀ x, x ∈ pending → reach (dentries d) a x) →
  descend fuel d cand pending visited = Some (Ok true) → reach (dentries d) a cand.
Proof.
  induction fuel as [|fuel IH] in pending, visited |- *; intros Hp Hrun;
    destruct pending as [|dir pending]; simpl in Hrun; try done.
  case_bool_decide as Hdir; [eapply IH; [|done]; intros; apply Hp; by right|].
  assert (reach (dentries d) a dir) as Hadir by (apply Hp; left).
  destruct (scan_children_spec cand (dir_entries d dir).*2 pending)
    as [[Hin _]|(_&pending'&Hs&_&Hel)].
  { intros c Hc%elem_of_children. by eapply child_exists. }
  - eapply rtc_r; [done|]. by apply elem_of_children.
  - rewrite Hs in Hrun. eapply IH; [|done].
    intros x [?|[Hx _]]%Hel; [apply Hp; by right|].
    eapply rtc_r; [done|]. by apply elem_of_children.
Qed.

(** Nothing reachable from an explored set is the candidate. *)
Lemma explored_reach cand V a x :
  explored cand [] V → a ∈ V → reach (dentries d) a x →
  x = a ∨ (x ≠ cand ∧ (is_dir d x → x ∈ V)).
Proof.
  intros Hexp Ha Hr. revert x Hr. apply rtc_ind_r; [by left|].
  intros y z _ Hyz IH. right.
  assert (is_dir d y) as Hy by (destruct Hyz as [n Hn]; by eapply ns_is_dir_children).
  destruct (Hexp y z) as [? Hz]; [destruct IH as [->|[_ IH]]; auto|done|].
  split; [done|]. intros [?|?%elem_of_nil]%Hz; done.
Qed.

(** The search answers, and its answer is reachability. *)
Lemma inode_is_descendant_spec a cand :
  ∃ b, inode_is_descendant d a cand = Ok b ∧ (b = true ↔ reach (dentries d) a cand).
Proof.
  unfold inode_is_descendant. destruct (N.eqb_spec a cand) as [->|Hne].
  { exists true. split; [done|]. split; [intros; apply rtc_refl|done]. }
  destruct (descend_total cand (descend_fuel d) [a] ∅) as [b Hb].
  { unfold descend_fuel, unexpanded. simpl.
    rewrite filter_all; [|set_solver]. by rewrite length_map_to_list. }
  rewrite Hb. exists b. split; [done|]. split.
  - intros ->. eapply descend_true; [|done].
    intros x ->%list_elem_of_singleton. apply rtc_refl.
  - destruct b; [done|]. intros Hr.
    destruct (descend_false _ _ _ _ ltac:(intros ?? ?%elem_of_empty; done) Hb)
      as (V&Hexp&_&Hp).
    destruct (explored_reach _ _ _ _ Hexp (Hp a (list_elem_of_here _ _)) Hr) as [->|[? _]]; done.
Qed.
End search.

(** ** Moving an entry *)

Lemma reach_mono m m' a b : m' ⊆ m → reach m' a b → reach m a b.
Proof.
  intros Hsub. induction 1 as [|a b c [n Hn] _ IH]; [apply rtc_refl|].
  eapply rtc_l; [|exact IH]. exists n. by eapply lookup_weaken.
Qed.

(** No directory contains itself. *)
Lemma ns_no_self E d p n : ns_core E d → dentries d !! (p, n) = Some p → False.
Proof.
  intros Hns Hp. assert (is_dir d p) as Hd by (by eapply ns_is_dir_children).
  assert (Hr := ns_rooted _ _ Hns _ Hd).
  assert (p ≠ ROOT_INODE ∧ nlinks (dentries d) p = 1%nat) as [Hne H1].
  { assert (Hn := ns_dirs _ _ Hns _ Hd). apply nlinks_pos in Hp. case_decide; [lia|done]. }
  remember p as x eqn:Hx in Hr. induction Hr as [|q m x _ IH Hq]; [done|].
  subst x. apply IH. by assert ((q, m) = (p, n)) by (by eapply nlinks_one); simplify_eq.
Qed.

(** A non-directory reaches only itself. *)
Lemma ns_reach_file E d s x i :
  ns_core E d → inodes d !! s = Some i → i_file_type i ≠ Directory →
  reach (dentries d) s x → x = s.
Proof.
  intros Hns Hi Hnd Hr. apply rtc_inv in Hr as [|(y&[n Hn]&_)]; [done|].
  apply (ns_is_dir_children _ _ _ _ _ Hns) in Hn as (?&?&?). congruence.
Qed.

Lemma ns_move E d k_old np nn s i i' :
  ns_core E d → dentries d !! k_old = Some s → dentries d !! (np, nn) = None →
  is_dir d np → name_ok nn → inodes d !! s = Some i → ¬ reach (dentries d) s np →
  i_id i' = s → i_file_type i' = i_file_type i → i_link_count i' = i_link_count i →
  ns_core E (upd_inodes <[s := i']>
    (upd_dentries (λ m, <[(np, nn) := s]> (delete k_old m)) d)).
Proof.
  intros Hns Hold Hnew Hnp Hname Hi Hnr Hid Ht Hl.
  assert (delete k_old (dentries d) !! (np, nn) = None) as Hnew2.
  { apply lookup_delete_None. by right. }
  assert (∀ x, nlinks (<[(np, nn) := s]> (delete k_old (dentries d))) x
               = nlinks (dentries d) x) as Hnl.
  { intros x. rewrite nlinks_insert by done. by rewrite <-(nlinks_delete _ _ _ x Hold). }
  apply (ns_put_attrs E _ s i); try done.
  destruct Hns as [H1 H2 H3 H4 H5 H6 H6b H7 H8 H9 H10 H11]. split; try done; simpl.
  - intros p n c [[Heq <-]|[_ [_ Hp]%lookup_delete_Some]]%lookup_insert_Some; [|eauto].
    simplify_eq. split_and!; [done|eauto|done].
  - intros x j Hx Hj. rewrite Hnl. eauto.
  - intros x Hx. rewrite Hnl. by apply H6.
  - intros x Hx. apply rooted_move; auto.
Qed.

Lemma bump_ok t p e d i :
  inodes d !! p = Some i → i_id i = p → i_file_type i = Directory →
  check_optional_generation i e = Ok tt →
  load_and_bump_parent_dir t p e d = (Ok (bumped t i), upd_inodes <[p := bumped t i]> d).
Proof.
  intros Hi Hid Hd He. unfold load_and_bump_parent_dir.
  rewrite (txn_bind_ok _ _ d i d) by (unfold get_inode_raw, reads; by rewrite Hi).
  erewrite txn_bind_ok by (unfold fail_if; by rewrite bool_decide_false by (intros Hn; by apply Hn)).
  erewrite txn_bind_ok by (unfold lift; by rewrite He). simpl. by rewrite <-Hid.
Qed.

(** The parents' bump of a rename. *)
Definition bump_parents (now : nat → Z) (op np : N) (iop inp : Inode) (d : Db) : Db :=
  if np =? op then upd_inodes <[op := bumped (now 0%nat) iop]> d
  else upd_inodes <[np := bumped (now 1%nat) inp]>
         (upd_inodes <[op := bumped (now 0%nat) iop]> d).

Section rename.
Context (now : nat → Z) (d : Db).
Context (eop : option N) (op : N) (on : string) (enp : option N) (np : N) (nn : string).
Context (sid : N) (src iop inp : Inode).
Context (Hns : ns_inv d) (Hroom : room d).
Context (Hold : dentries d !! (op, on) = Some sid) (Hsrc : inodes d !! sid = Some src).
Context (Hop : inodes d !! op = Some iop) (Hopd : i_file_type iop = Directory).
Context (Hnp : inodes d !! np = Some inp) (Hnpd : i_file_type inp = Directory).
Context (Heop : check_optional_generation iop eop = Ok tt).
Context (Henp : check_optional_generation inp enp = Ok tt).
Context (Hne : (op, on) ≠ (np, nn)) (Hname : name_ok nn).
Context (Hreach : ¬ reach (dentries d) sid np).

Lemma bump_parents_ns : ns_inv (bump_parents now op np iop inp d).
Proof.
  unfold bump_parents. assert (Hid1 := ns_id _ _ Hns _ _ Hop). assert (Hid2 := ns_id _ _ Hns _ _ Hnp).
  destruct (N.eqb_spec np op) as [->|Hneq].
  - by apply (ns_put_attrs _ _ _ iop).
  - apply (ns_put_attrs _ _ _ inp); try done; [by apply (ns_put_attrs _ _ _ iop)|].
    simpl. by rewrite lookup_insert_ne.
Qed.

Lemma bump_parents_evolves : evolves d (bump_parents now op np iop inp d).
Proof.
  unfold bump_parents. destruct (N.eqb_spec np op) as [->|Hneq].
  - apply (evolves_put _ _ iop); [done|]. exact (touch_bumped _ _ (proj2 Hroom _ _ Hop)).
  - transitivity (upd_inodes <[op := bumped (now 0%nat) iop]> d);
      [apply (evolves_put _ _ iop); [done|]|apply (evolves_put _ _ inp)].
    + exact (touch_bumped _ _ (proj2 Hroom _ _ Hop)).
    + simpl. by rewrite lookup_insert_ne.
    + exact (touch_bumped _ _ (proj2 Hroom _ _ Hnp)).
Qed.

Lemma bump_parents_inode x :
  x ≠ op → x ≠ np → inodes (bump_parents now op np iop inp d) !! x = inodes d !! x.
Proof.
  intros. unfold bump_parents. destruct (N.eqb_spec np op); simpl;
    by rewrite ?lookup_insert_ne by done.
Qed.

Lemma bump_parents_dir x : is_dir (bump_parents now op np iop inp d) x ↔ is_dir d x.
Proof.
  unfold bump_parents. destruct (N.eqb_spec np op) as [->|Hneq].
  - by apply (is_dir_upd_inode _ _ iop).
  - rewrite (is_dir_upd_inode _ _ inp); [by apply (is_dir_upd_inode _ _ iop)| |done].
    simpl. by rewrite lookup_insert_ne.
Qed.

Lemma bump_parents_run {B} (k : M B) :
  (_ ← load_and_bump_parent_dir (now 0%nat) op eop;
   _ ← when (negb (np =? op))
         (_ ← load_and_bump_parent_dir (now 1%nat) np enp; mret tt);
   k) d = k (bump_parents now op np iop inp d).
Proof.
  assert (Hid1 := ns_id _ _ Hns _ _ Hop). assert (Hid2 := ns_id _ _ Hns _ _ Hnp).
  erewrite txn_bind_ok by (by apply bump_ok). unfold bump_parents.
  destruct (N.eqb_spec np op) as [->|Hneq]; simpl; [done|].
  erewrite txn_bind_ok; [done|].
  erewrite txn_bind_ok; [done|]. apply bump_ok; try done. simpl. by rewrite lookup_insert_ne.
Qed.

(** The replaced destination: gone with its entry, everything else kept. *)
Lemma remove_destination_run dest d2 :
  ns_inv d2 → (∀ id i, inodes d2 !! id = Some i → i_file_type i ≠ Directory →
               i_generation i < U64_MAX) →
  dentries d2 !! (np, nn) = dest →
  (∀ did, dest = Some did → is_dir d2 did → ∀ n, dentries d2 !! (did, n) = None) →
  ∃ d3, rename_remove_destination now (np, nn) dest d2 = (Ok tt, d3) ∧ ns_inv d3 ∧
        evolves d2 d3 ∧
        dentries d3 = delete (np, nn) (dentries d2) ∧
        ∀ x, Some x ≠ dest → inodes d3 !! x = inodes d2 !! x.
Proof.
  intros Hns2 Hg Hdest Hleaf. destruct dest as [did|]; simpl.
  2:{ exists d2. split_and!; [done..| |done]. by rewrite delete_id. }
  destruct (proj1 (proj2 (ns_entry _ _ Hns2 _ _ _ Hdest))) as [i Hi].
  unfold delete_dentry. rewrite txn_bind_modify.
  erewrite txn_bind_ok by (unfold get_inode_raw, reads; simpl; by rewrite Hi).
  case_bool_decide as Hd.
  - rewrite delete_inode_in_txn_spec by (exact (ns_reservations_keyed _ _ Hns2)).
    assert (is_dir d2 did) as Hdir by (by exists i).
    eexists. split_and!; [done| | |done|].
    + eapply ns_core_mono; [|eapply ns_drop_purge; [exact Hns2|done| |by apply Hleaf]];
        [set_solver|].
      assert (Hl := ns_dirs _ _ Hns2 _ Hdir). apply nlinks_pos in Hdest. by case_decide.
    + etrans; [|apply evolves_purge]. by apply evolves_frame.
    + intros x Hx. simpl. rewrite lookup_delete_ne; [done|congruence].
  - destruct (remove_inode_link_in_txn _ _ _) as [r d3] eqn:Hrun.
    assert (evolves d2 d3) as Hev.
    { transitivity (upd_dentries (delete (np, nn)) d2); [by apply evolves_frame|].
      eapply remove_link_evolves; [exact (ns_reservations_keyed _ _ Hns2)| |exact Hrun].
      by rewrite (ns_id _ _ Hns2 _ _ Hi). }
    eapply remove_link_keeps in Hrun as (->&?&?&Hin); eauto.
    exists d3. split_and!; [done..|]. intros x Hx. apply Hin. congruence.
Qed.

(** The commit of a rename whose checks have passed. *)
Lemma rename_commit_run dest :
  dentries d !! (np, nn) = dest → dest ≠ Some sid →
  (∀ did, dest = Some did → is_dir d did → ∀ n, dentries d !! (did, n) = None) →
  let src' := set_ctime_ms (now 3%nat) (set_generation (sat_add (i_generation src) 1) src) in
  ∃ d', rename_commit now eop op on enp np nn src dest d = (Ok src', d') ∧ ns_inv d' ∧
        evolves d d' ∧ dentries d' = <[(np, nn) := sid]> (delete (op, on) (dentries d)) ∧
        inodes d' !! sid = Some src' ∧
        (∀ x, Some x ≠ dest → x ≠ sid → x ≠ op → x ≠ np → inodes d' !! x = inodes d !! x).
Proof.
  intros Hdest Hds Hleaf src'. unfold rename_commit.
  rewrite bump_parents_run.
  set (d2 := bump_parents now op np iop inp d).
  assert (ns_inv d2) as Hns2 by (by apply bump_parents_ns).
  assert (dentries d2 = dentries d) as Hd2.
  { unfold d2, bump_parents. by destruct (np =? op). }
  assert (sid ≠ np) as Hsnp by (intros ->; apply Hreach, rtc_refl).
  assert (sid ≠ op) as Hsop by (intros Heq; rewrite Heq in Hold; exact (ns_no_self _ _ _ _ Hns Hold)).
  assert (i_id src = sid) as Hid by (exact (ns_id _ _ Hns _ _ Hsrc)).
  destruct (remove_destination_run dest d2) as (d3&Hrun&Hns3&Hev3&Hd3&Hin3); try done.
  { intros id i Hi Hnd. apply (proj2 Hroom id). rewrite <-Hi. symmetry.
    apply bump_parents_inode; intros ->; apply Hnd.
    - destruct (proj2 (bump_parents_dir op)) as (j&Hj&?);
        [by exists iop|]. unfold d2 in Hi. congruence.
    - destruct (proj2 (bump_parents_dir np)) as (j&Hj&?);
        [by exists inp|]. unfold d2 in Hi. congruence. }
  { by rewrite Hd2. }
  { intros did Heq Hdir n. rewrite Hd2. eapply Hleaf; [done|].
    by apply bump_parents_dir in Hdir. }
  erewrite txn_bind_ok by exact Hrun.
  unfold delete_dentry, put_dentry, put_inode_raw. rewrite !txn_bind_modify. simpl.
  assert (inodes d3 !! sid = Some src) as Hsrc3.
  { rewrite Hin3 by congruence. unfold d2. by rewrite bump_parents_inode. }
  rewrite Hid. eexists. split_and!; [done| | | | |].
  - assert (upd_dentries <[(np, nn) := sid]> (upd_dentries (delete (op, on)) d3)
      = upd_dentries (λ m, <[(np, nn) := sid]> (delete (op, on) m)) d3) as -> by done.
    eapply (ns_move _ _ _ _ _ _ src); try done.
    + rewrite Hd3, Hd2, lookup_delete_ne; [done|congruence].
    + rewrite Hd3. apply lookup_delete_eq.
    + destruct (proj2 (bump_parents_dir np)) as (j&Hj&?);
        [by exists inp|].
      exists j. split; [|done]. rewrite Hin3; [done|]. intros <-.
      exact (ns_no_self _ _ _ _ Hns Hdest).
    + rewrite Hd3, Hd2. intros Hr. apply Hreach. eapply reach_mono; [|exact Hr].
      apply delete_subseteq.
  - etrans; [apply bump_parents_evolves|]. etrans; [exact Hev3|].
    etrans; [|eapply evolves_put; [exact Hsrc3|]]; [by apply evolves_frame|].
    split; [done|]. right. simpl. assert (Hg := proj2 Hroom _ _ Hsrc).
    rewrite sat_add_small; lia.
  - simpl. rewrite Hd3, Hd2, delete_delete. by rewrite insert_delete_eq.
  - simpl. by rewrite lookup_insert_eq.
  - intros x ????. simpl. rewrite lookup_insert_ne by done. rewrite Hin3 by done.
    unfold d2. by rewrite bump_parents_inode.
Qed.
End rename.

(** ** Rename *)

Lemma directory_has_children_spec d x :
  directory_has_children d x = false → ∀ n, dentries d !! (x, n) = None.
Proof.
  intros Hc n. destruct (dentries d !! (x, n)) as [y|] eqn:Hn; [|done].
  apply elem_of_dir_entries in Hn. unfold directory_has_children in Hc.
  destruct (dir_entries d x); [by apply elem_of_nil in Hn|done].
Qed.

Lemma check_destination_cases src dest d r d' :
  rename_check_destination src dest d = (r, d') →
  d' = d ∧ (r = Ok tt → ∀ did, dest = Some did → is_dir d did →
            ∀ n, dentries d !! (did, n) = None).
Proof.
  intros H. destruct dest as [did|]; simpl in H; [|db_inv H; naive_solver].
  db_inv H; try (split; [done|naive_solver]).
  all: bools; try (split; [done|naive_solver]).
  - split; [done|]. intros _ ? [= <-] _. by apply directory_has_children_spec.
  - split; [done|]. intros _ ? [= <-] (j&?&?). congruence.
Qed.

(** The result of a rename: it fails without a trace, it finds the two names
    already bound to the same inode, or it rebinds the entry. *)
Definition rename_effect (now : nat → Z) (op : N) (on : string) (np : N) (nn : string)
    (no_replace : bool) (d : Db) (r : Result Inode) (d' : Db) : Prop :=
  match r with
  | Err _ => d' = d
  | Ok i =>
      ∃ sid src, dentries d !! (op, on) = Some sid ∧ inodes d !! sid = Some src ∧
        inodes d' !! sid = Some i ∧ i_id i = sid ∧
        ((d' = d ∧ dentries d !! (np, nn) = Some sid) ∨
         (dentries d' = <[(np, nn) := sid]> (delete (op, on) (dentries d)) ∧
          (op, on) ≠ (np, nn) ∧ dentries d !! (np, nn) ≠ Some sid ∧
          ¬ reach (dentries d) sid np ∧
          i = set_ctime_ms (now 3%nat) (set_generation (sat_add (i_generation src) 1) src) ∧
          (no_replace = true → dentries d !! (np, nn) = None) ∧
          (∀ x, Some x ≠ dentries d !! (np, nn) → x ≠ sid → x ≠ op → x ≠ np →
                inodes d' !! x = inodes d !! x)))
  end.

Lemma new_parent_cases d op np iop r d' :
  inodes d !! op = Some iop →
  (if op =? np then mret iop else get_inode_raw np) d = (r, d') →
  d' = d ∧ ∀ inp, r = Ok inp → inodes d !! np = Some inp.
Proof. intros Hop H. db_inv H; bools; subst; naive_solver. Qed.

Lemma descendant_cases d src np inp r d' :
  ns_inv d → inodes d !! i_id src = Some src →
  inodes d !! np = Some inp → i_file_type inp = Directory →
  (if bool_decide (i_file_type src = Directory)
   then reads (λ d, inode_is_descendant d (i_id src) np) else mret false) d = (r, d') →
  d' = d ∧ (r = Ok false → ¬ reach (dentries d) (i_id src) np).
Proof.
  intros Hns Hsrc Hnp Hnpd H.
  destruct (inode_is_descendant_spec d Hns (i_id src) np) as (b&Hb&Hiff).
  db_inv H; bools; (split; [done|]).
  - rewrite Hb in H. subst. intros [= ->] Hr. by apply Hiff in Hr.
  - intros _ Hr. apply (ns_reach_file _ _ _ _ _ Hns Hsrc) in Hr; [|done]. subst. congruence.
Qed.

(** What a rename does, on every path. *)
Lemma rename_cases now eop op on enp np nn no_replace d r d' :
  ns_inv d → room d →
  rename_in_txn now eop op on enp np nn no_replace d = (r, d') →
  ns_inv d' ∧ evolves d d' ∧ rename_effect now op on np nn no_replace d r d'.
Proof.
  intros Hns Hroom H. unfold rename_in_txn in H.
  db_step H Hm; db_inv Hm; [|done]. db_step H Hnn; db_inv Hnn; [|done].
  db_step H Hm'; db_inv Hm'. db_step H Hsid; db_inv Hsid; [|done].
  db_step H Hm'; db_inv Hm'; [|done]. rename Hi into Hsrc.
  db_step H Hm'; db_inv Hm'; [|done]. rename Hi into Hop.
  db_step H Hm'; destruct (new_parent_cases _ _ _ _ _ _ Hop Hm') as [-> Hnp]; [|done].
  specialize (Hnp _ eq_refl). clear Hm'.
  db_step H Hm'; db_inv Hm'; [|done]. db_step H Heop; db_inv Heop; [|done].
  db_step H Henp; db_inv Henp; [|done]. bools.
  destruct (dentries d !! (op, on)) as [?|] eqn:Hold; simplify_eq/=.
  assert (Hid := ns_id _ _ Hns _ _ Hsrc).
  subst x1. rename x2 into src. destruct x5, x6. case_bool_decide as Hsame.
  { db_inv H. simplify_eq. do 2 (split; [done|]). exists (i_id src), src. auto 10. }
  db_step H Hd; destruct (descendant_cases _ _ _ _ _ _ Hns Hsrc Hnp H1 Hd) as [-> Hreach];
    [|done].
  db_step H Hm'; db_inv Hm'; [|done]. specialize (Hreach eq_refl). clear Hd.
  db_step H Hm'; db_inv Hm'. db_step H Hm'; db_inv Hm'; [|done].
  assert (no_replace = true → dentries d !! (np, nn) = None) as Hrepl.
  { intros ->. simpl in Hb. by bools. }
  case_bool_decide as Hdest.
  { db_inv H. do 2 (split; [done|]). exists (i_id src), src. auto 10. }
  db_step H Hc; destruct (check_destination_cases _ _ _ _ _ Hc) as [-> Hleaf]; [|done].
  edestruct (rename_commit_run now d eop op on enp np nn (i_id src) src x3 x4)
    as (d2&Hrun&Hns'&Hev&Hde&Hsid&Hfr); eauto using validate_dentry_name_ok.
  { by destruct x1; apply Hleaf. }
  rewrite Hrun in H. simplify_eq. do 2 (split; [done|]). exists (i_id src), src. auto 15.
Qed.
