(* ===== verification/InodeData.v ===== *)
(** * Inode data: commits, imports and flush
    ([crates/meta/src/heed_store.rs])

    The transactions that replace the data of an inode: the generation-checked
    commit of a manifest, the attribute-only CAS, the import of an object of
    the underlying file system (UFS), and the flush protocol, which publishes
    a dirty snapshot and installs it as clean unless the head has moved. *)

From S2P Require Import MetaDb Namespace NamespaceInv Evolve.

Local Open Scope N_scope.

(** [matching_flush_intent]. *)
Definition matching_flush_intent (inode : Inode) (flush_id : FlushId) : Result FlushIntent :=
  match i_flush_intent inode with
  | Some intent => if fi_flush_id intent =? flush_id then Ok intent else Err Busy
  | None => Err Busy
  end.

Definition is_local (e : Extent) : bool :=
  match e with Local _ _ _ => true | UfsRange _ _ _ _ _ => false end.

(** [manifest_has_local]. *)
Definition manifest_has_local (m : Manifest) : bool := existsb is_local (iter (m_extents m)).

Definition set_lf_op_state (v : OpState) (f : LocalityFields) : LocalityFields :=
  mkLocalityFields (lf_backing_mode f) (lf_data_state f) v (lf_origin f).
Definition set_lf_data_state (v : DataState) (f : LocalityFields) : LocalityFields :=
  mkLocalityFields (lf_backing_mode f) v (lf_op_state f) (lf_origin f).

Definition set_m_inode (id : N) (m : Manifest) : Manifest :=
  mkManifest id (m_gen m) (m_size m) (m_extents m).

Definition MISSING_LOCALITY : FluxError := Meta "flush inode missing locality fields".

Section operations.
Context (now : nat → Z).

Definition import_external_in_txn (expected_parent_generation : option N)
    (parent : InodeId) (name : string) (template : Inode) (manifest : option Manifest)
    : M Inode :=
  _ ← fail_if (bad_name name) (InvalidArg ("bad name: " +:+ name));
  _ ← fail_if (bool_decide (i_locality template ≠ LExternal)
               && bool_decide (lf_origin <$> i_locality_fields template ≠ Some Imported))
        (InvalidArg "import_external requires External/Imported locality");
  existing ← get_dentry (parent, name);
  _ ← fail_if (is_some existing) AlreadyExists;
  _ ← load_and_bump_parent_dir (now 0) parent expected_parent_generation;
  id ← alloc_inode;
  let inode := set_locality LExternal (set_id id template) in
  let inode :=
    match i_locality_fields inode with
    | None =>
        set_locality_fields (Some (mkLocalityFields UfsBacked UfsClean OpNone Imported)) inode
    | Some _ => inode
    end in
  inode ← match manifest with
          | Some m =>
              let m := set_m_inode id m in
              _ ← lift (Manifest_validate m);
              mid ← put_manifest_in_txn m;
              mret (set_size (m_size m) (set_manifest_id (Some mid) inode))
          | None => mret (set_manifest_id None inode)
          end;
  _ ← put_inode_raw inode;
  _ ← put_dentry (parent, name) id;
  mret inode.

Definition commit_inode_manifest_in_txn (expected_generation : N) (inode : Inode)
    (manifest : Manifest) : M Inode :=
  _ ← fail_if (negb (m_inode manifest =? i_id inode))
        (InvalidArg "manifest.inode must match inode.id");
  current ← get_inode_raw (i_id inode);
  _ ← fail_if (negb (i_generation current =? expected_generation))
        (CasFailed expected_generation (i_generation current));
  _ ← fail_if (is_some (i_flush_intent current)) Busy;
  mid ← put_manifest_in_txn manifest;
  let next := set_manifest_id (Some mid) inode in
  _ ← put_inode_raw next;
  mret next.

(** The fields that [put_inode_cas] refuses to change. *)
Definition data_or_lifecycle_changed (current inode : Inode) : bool :=
  bool_decide (i_id current ≠ i_id inode)
  || bool_decide (i_file_type current ≠ i_file_type inode)
  || bool_decide (i_size current ≠ i_size inode)
  || bool_decide (i_link_count current ≠ i_link_count inode)
  || bool_decide (i_symlink_target current ≠ i_symlink_target inode)
  || bool_decide (i_head_gen current ≠ i_head_gen inode)
  || bool_decide (i_ufs_gen current ≠ i_ufs_gen inode)
  || bool_decide (i_ufs_base_version current ≠ i_ufs_base_version inode)
  || bool_decide (i_locality current ≠ i_locality inode)
  || bool_decide (i_locality_fields current ≠ i_locality_fields inode)
  || bool_decide (i_ufs current ≠ i_ufs inode)
  || bool_decide (i_extent_root current ≠ i_extent_root inode)
  || bool_decide (i_manifest_id current ≠ i_manifest_id inode)
  || bool_decide (i_flush_intent current ≠ i_flush_intent inode)
  || bool_decide (i_last_error current ≠ i_last_error inode).

Definition put_inode_cas_in_txn (expected_generation : N) (inode : Inode) : M Inode :=
  current ← get_inode_raw (i_id inode);
  _ ← lift (check_generation current expected_generation);
  next_generation ← lift (ok_or (InvalidArg "inode generation overflow")
                            (checked_add expected_generation 1));
  _ ← fail_if (negb (i_generation inode =? next_generation))
        (InvalidArg ("CAS inode generation must advance exactly once: expected "
           +:+ pretty next_generation +:+ ", got " +:+ pretty (i_generation inode)));
  _ ← fail_if (data_or_lifecycle_changed current inode)
        (InvalidArg "put_inode_cas may only change POSIX mode/owner/timestamps");
  _ ← put_inode_raw inode;
  mret inode.

Definition begin_flush_in_txn (expected_generation : N) (inode_id : InodeId)
    (intent : FlushIntent) : M Inode :=
  inode ← get_inode_raw inode_id;
  _ ← lift (check_generation inode expected_generation);
  _ ← fail_if (bool_decide (i_file_type inode ≠ Regular)) IsDirectory;
  fields ← lift (ok_or MISSING_LOCALITY (i_locality_fields inode));
  _ ← fail_if (bool_decide (lf_backing_mode fields ≠ UfsBacked)
               || bool_decide (lf_data_state fields ≠ Dirty))
        (InvalidArg "only UFS-backed Dirty files can flush");
  _ ← fail_if (negb (i_head_gen inode =? fi_snapshot_gen intent))
        (CasFailed (fi_snapshot_gen intent) (i_head_gen inode));
  _ ← fail_if (is_some (i_flush_intent inode)
               || negb (bool_decide (lf_op_state fields = OpNone))) Busy;
  let fields := set_lf_op_state (Flushing intent) fields in
  let inode := set_locality_fields (Some fields) inode in
  let inode := set_flush_intent (Some intent) inode in
  let inode := set_last_error None inode in
  let inode := set_generation (sat_add (i_generation inode) 1) inode in
  let inode := set_locality (derive fields (i_head_gen inode) (i_ufs_gen inode)) inode in
  _ ← put_inode_raw inode;
  mret inode.

(** The manifest that a flushed file reads from: one range of the object. *)
Definition clean_extents (size : N) (key : string) (version : UfsVersion)
    : Result ExtentTree :=
  if size =? 0 then Ok [] else singleton (UfsRange 0 size key version 0).

(** The branch of [commit_flush_in_txn] that installs the snapshot. *)
Definition install_clean (inode : Inode) (fields : LocalityFields) (intent : FlushIntent)
    (published_ufs : UfsObject) : M (Inode * LocalityFields) :=
  let version :=
    match uo_etag published_ufs with
    | Some etag => etag
    | None => "digest:" +:+ to_hex (fi_target_digest intent)
    end in
  extents ← lift (clean_extents (i_size inode) (uo_key published_ufs) version);
  let clean_manifest :=
    mkManifest (i_id inode) (fi_snapshot_gen intent) (i_size inode) extents in
  mid ← (if i_size inode =? 0 then mret None
         else mid ← put_manifest_in_txn clean_manifest; mret (Some mid));
  let inode := set_manifest_id mid inode in
  let inode := set_ufs (Some published_ufs) inode in
  let inode := set_ufs_gen (fi_snapshot_gen intent) inode in
  let inode := set_ufs_base_version (Some version) inode in
  mret (set_last_error None inode, set_lf_data_state UfsClean fields).

Definition commit_flush_in_txn (expected_generation : N) (inode_id : InodeId)
    (flush_id : FlushId) (published_ufs : UfsObject) : M Inode :=
  inode ← get_inode_raw inode_id;
  _ ← lift (check_generation inode expected_generation);
  intent ← lift (matching_flush_intent inode flush_id);
  fields ← lift (ok_or MISSING_LOCALITY (i_locality_fields inode));
  let inode := set_generation (sat_add (i_generation inode) 1) inode in
  let inode := set_flush_intent None inode in
  let fields := set_lf_op_state OpNone fields in
  '(inode, fields) ←
    (if i_head_gen inode =? fi_snapshot_gen intent
     then install_clean inode fields intent published_ufs
     else mret (set_last_error
            (Some "head advanced during flush; published snapshot not installed as clean")
            inode, set_lf_data_state DirtyConflict fields));
  let inode := set_locality_fields (Some fields) inode in
  let inode := set_locality (derive fields (i_head_gen inode) (i_ufs_gen inode)) inode in
  _ ← put_inode_raw inode;
  mret inode.

Definition fail_flush_conflict_in_txn (expected_generation : N) (inode_id : InodeId)
    (flush_id : FlushId) (error : string) : M Inode :=
  inode ← get_inode_raw inode_id;
  _ ← lift (check_generation inode expected_generation);
  _ ← lift (matching_flush_intent inode flush_id);
  fields ← lift (ok_or MISSING_LOCALITY (i_locality_fields inode));
  let fields := set_lf_data_state DirtyConflict fields in
  let fields := set_lf_op_state OpNone fields in
  let inode := set_locality_fields (Some fields) inode in
  let inode := set_flush_intent None inode in
  let inode := set_last_error (Some error) inode in
  let inode := set_generation (sat_add (i_generation inode) 1) inode in
  let inode := set_locality (derive fields (i_head_gen inode) (i_ufs_gen inode)) inode in
  _ ← put_inode_raw inode;
  mret inode.
End operations.

(** [list_flush_intents]: the inodes with a flush in flight, in id order. *)
Definition list_flush_intents (d : Db) : list (InodeId * FlushIntent) :=
  sort_by_key fst
    (omap (λ kv, match i_flush_intent kv.2 with
                 | Some intent => Some (i_id kv.2, intent)
                 | None => None
                 end) (kv_sorted (inodes d))).

(** ** The namespace invariant *)

(** Databases that agree on everything the namespace invariant reads. *)
Definition same_ns (d d' : Db) : Prop :=
  inodes d' = inodes d ∧ dentries d' = dentries d ∧ next_inode d' = next_inode d ∧
  open_presences d' = open_presences d ∧ xattrs d' = xattrs d ∧
  reservations d' = reservations d.
#[export] Instance same_ns_refl : Reflexive same_ns.
Proof. done. Qed.

Lemma same_ns_core E d d' : same_ns d d' → ns_core E d → ns_core E d'.
Proof.
  intros (Hi&Hd&Hn&Ho&Hx&Hr) []. split; unfold is_dir in *; rewrite ?Hi, ?Hd, ?Hn, ?Ho, ?Hx, ?Hr; eauto.
Qed.

(** What [put_manifest_in_txn] changes. *)
Lemma put_manifest_cases m d r d' :
  put_manifest_in_txn m d = (r, d') →
  (∃ e, r = Err e ∧ d' = d) ∨
  (∃ mid, r = Ok mid ∧ next_manifest d = Some mid ∧ Manifest_validate m = Ok tt ∧
     d' = upd_manifests <[mid := m]> (upd_next_manifest (λ _, Some (wrap_add mid 1)) d)).
Proof.
  intros H. unfold put_manifest_in_txn, alloc_manifest_id in H.
  db_inv H; eauto; destruct (next_manifest d) as [n|] eqn:Hn; simplify_eq/=; eauto.
  right. exists x0. destruct x. auto.
Qed.

Lemma put_manifest_same_ns m d r d' : put_manifest_in_txn m d = (r, d') → same_ns d d'.
Proof. intros [(?&?&->)|(?&?&?&?&->)]%put_manifest_cases; done. Qed.

(** An inode that a client may commit over [current]: same identity, type and
    links, as they are when the client derives it from the row it has read. *)
Definition derived_from (current inode : Inode) : Prop :=
  i_id inode = i_id current ∧ i_file_type inode = i_file_type current ∧
  i_link_count inode = i_link_count current.

Lemma commit_manifest_keeps g inode m d r d' :
  ns_inv d →
  (∀ current, inodes d !! i_id inode = Some current → i_generation current = g →
              derived_from current inode) →
  commit_inode_manifest_in_txn g inode m d = (r, d') → ns_inv d'.
Proof.
  intros Hns Hder H. unfold commit_inode_manifest_in_txn in H. db_inv H; bools; try done;
    assert (Hs := put_manifest_same_ns _ _ _ _ Hm);
    assert (Hns' := same_ns_core _ _ _ Hs Hns); [|done].
  destruct (Hder x) as (Hid&Ht&Hl); try done. destruct Hs as [Hin _]. simpl.
  eapply ns_put_attrs; [done|by rewrite Hin|done..].
Qed.

Lemma put_inode_cas_keeps g inode d r d' :
  ns_inv d → put_inode_cas_in_txn g inode d = (r, d') → ns_inv d'.
Proof.
  intros Hns H. unfold put_inode_cas_in_txn in H. db_inv H; try done.
  unfold data_or_lifecycle_changed in *. bools. by eapply ns_put_attrs.
Qed.

Lemma begin_flush_keeps g id intent d r d' :
  ns_inv d → begin_flush_in_txn g id intent d = (r, d') → ns_inv d'.
Proof.
  intros Hns H. unfold begin_flush_in_txn in H. db_inv H; try done.
  assert (Hid := ns_id _ _ Hns _ _ Hi). subst id. by eapply ns_put_attrs.
Qed.

Lemma fail_flush_keeps g id fid err d r d' :
  ns_inv d → fail_flush_conflict_in_txn g id fid err d = (r, d') → ns_inv d'.
Proof.
  intros Hns H. unfold fail_flush_conflict_in_txn in H. db_inv H; try done.
  assert (Hid := ns_id _ _ Hns _ _ Hi). subst id. by eapply ns_put_attrs.
Qed.

Lemma install_clean_cases inode f it pub d r d' :
  install_clean inode f it pub d = (r, d') →
  (d' = d ∧ ∃ e, r = Err e) ∨
  (∃ mid ver,
     r = Ok (set_last_error None (set_ufs_base_version (Some ver)
              (set_ufs_gen (fi_snapshot_gen it) (set_ufs (Some pub)
                (set_manifest_id mid inode)))), set_lf_data_state UfsClean f) ∧
     same_ns d d' ∧
     ((i_size inode = 0 ∧ mid = None ∧ d' = d) ∨
      (∃ n, i_size inode ≠ 0 ∧ mid = Some n ∧ next_manifest d = Some n ∧
       d' = upd_manifests <[n := mkManifest (i_id inode) (fi_snapshot_gen it) (i_size inode)
                                   [(0, UfsRange 0 (i_size inode) (uo_key pub) ver 0)]]>
              (upd_next_manifest (λ _, Some (wrap_add n 1)) d)))).
Proof.
  intros H. unfold install_clean, clean_extents in H.
  set (ver := match uo_etag pub with Some e => e | None => _ end) in H.
  destruct (N.eqb_spec (i_size inode) 0) as [Hz|Hz].
  - db_inv H; simplify_eq/=. right. exists None, ver. do 2 (split; [done|]). auto.
  - db_step H Hl; db_inv Hl; [|left; split; [done|eauto]].
    assert (x = [(0, UfsRange 0 (i_size inode) (uo_key pub) ver 0)]) as ->.
    { unfold singleton, try_from in Hl. simpl in Hl. unfold ext_is_empty in Hl. simpl in Hl.
      rewrite (proj2 (N.eqb_neq _ _)) in Hl by done.
      destruct (checked_add_w _ _ _); simplify_eq/=. done. }
    db_step H Hp; db_inv Hp;
      destruct (put_manifest_cases _ _ _ _ Hm) as [(?&?&->)|(mid&?&?&?&->)];
      simplify_eq; [|left; split; [done|eauto]]. db_inv H.
    right. exists (Some mid), ver. split_and!; [done..|]. right. eauto 10.
Qed.

Lemma commit_flush_keeps g id fid pub d r d' :
  ns_inv d → commit_flush_in_txn g id fid pub d = (r, d') → ns_inv d'.
Proof.
  intros Hns H. unfold commit_flush_in_txn in H.
  db_step H Hm1; db_inv Hm1; [|done]. db_step H Hm2; db_inv Hm2; [|done].
  db_step H Hm3; db_inv Hm3; [|done]. db_step H Hm4; db_inv Hm4; [|done].
  assert (Hid := ns_id _ _ Hns _ _ Hi). subst id.
  db_step H Hc; cbv zeta in Hc; simpl in Hc;
    (destruct (N.eqb_spec (i_head_gen x) (fi_snapshot_gen x1));
      [destruct (install_clean_cases _ _ _ _ _ _ _ Hc)
         as [[-> (?&?)]|(mid&ver&?&Hs&_)] | db_inv Hc]); simplify_eq/=; try done; db_inv H.
  - apply (ns_put_attrs _ _ _ x); try done; [by eapply same_ns_core|].
    by destruct Hs as [-> _].
  - by apply (ns_put_attrs _ _ _ x).
Qed.

(** An inode template that may be imported. *)
Definition importable (template : Inode) : Prop :=
  (i_file_type template ≠ Directory → i_link_count template = 1) ∧ i_link_count template ≠ 0.

(** The manifest step of an import: what it stores and the inode it yields. *)
Lemma import_manifest_cases manifest id inode d r d' :
  match manifest with
  | Some m =>
      _ ← lift (Manifest_validate (set_m_inode id m));
      mid ← put_manifest_in_txn (set_m_inode id m);
      mret (set_size (m_size (set_m_inode id m)) (set_manifest_id (Some mid) inode))
  | None => mret (set_manifest_id None inode)
  end d = (r, d') →
  same_ns d d' ∧
  (∀ i, r = Ok i → i_id i = i_id inode ∧ i_file_type i = i_file_type inode ∧
                   i_link_count i = i_link_count inode).
Proof.
  intros H. destruct manifest as [m|]; db_inv H; try (split; [done|naive_solver]);
    (split; [by eapply put_manifest_same_ns|naive_solver]).
Qed.

Lemma import_keeps now e p name template manifest d r d' :
  ns_inv d → room d → importable template →
  import_external_in_txn now e p name template manifest d = (r, d') → ns_inv d'.
Proof.
  intros Hns [Hroom _] [Hl Hl0] H. unfold import_external_in_txn in H.
  db_step H Hm1; db_inv Hm1; [|done]. db_step H Hm2; db_inv Hm2; [|done].
  db_step H Hm3; db_inv Hm3. db_step H Hm4; db_inv Hm4; [|done]. bools.
  db_step H Hbump;
    destruct (bump_cases _ _ _ _ _ _ _ Hns Hbump) as [(?&?&->)|(i&Hi&Hd&_&_&->&Hns')]; try done.
  db_step H Halloc; destruct (alloc_inode_cases _ _ _ _ Hns' Halloc) as (n&Hn&Hr&->); [|done].
  injection Hr as ->. set (d2 := upd_next_inode _ _) in *.
  assert (ns_inv d2) as Hns2 by (apply ns_bump_next; [done|done|by apply Hroom]).
  set (inode := match i_locality_fields _ with Some _ => _ | None => _ end) in H.
  assert (i_id inode = n ∧ i_file_type inode = i_file_type template ∧
          i_link_count inode = i_link_count template) as (Hid&Ht&Hlc).
  { unfold inode. by destruct (i_locality_fields _). }
  clearbody inode. db_step H Hman; destruct (import_manifest_cases _ _ _ _ _ _ Hman) as [Hs Hok];
    [|by eapply same_ns_core].
  destruct (Hok _ eq_refl) as (Hid'&Ht'&Hlc'). db_inv H.
  eapply (same_ns_core _ (upd_dentries <[(p, name) := i_id inode]>
            (upd_inodes <[i_id inode := x0]> d2))).
  { destruct Hs as (Hs1&Hs2&Hs3&Hs4&Hs5&Hs6). repeat split; simpl; try done.
    - by rewrite Hs1, Hid'.
    - by rewrite Hs2. }
  unfold d2. apply ns_fresh_node; try done; try congruence.
  - exists (bumped (now 0%nat) i). simpl. rewrite lookup_insert_eq. auto.
  - by apply Hroom.
  - intros. rewrite Hlc', Hlc. apply Hl. congruence.
Qed.
