(* ===== verification/Gc.v ===== *)
(** * Write reservations and garbage collection
    ([crates/meta/src/heed_store.rs])

    The metadata side of the two collectors.  Concurrent GC: a writer reserves
    the chunks it is about to upload, GC turns unreferenced chunks into
    tombstones, fans the physical deletes out to workers and finalizes a
    tombstone when every worker has confirmed.  Stop-the-world GC: a lease
    blocks mutations while everything outside the live set is swept. *)

From S2P Require Import MetaDb Namespace NamespaceInv Evolve InodeData.

Local Open Scope N_scope.

(** [v.sort_by_key(|r| (f(r), g(r)))]. *)
Definition lex_le {A} (f g : A → N) : relation A :=
  λ a b, f a < f b ∨ (f a = f b ∧ g a ≤ g b).
#[export] Instance lex_le_dec {A} (f g : A → N) : RelDecision (lex_le f g).
Proof. intros a b. unfold lex_le. apply _. Defined.

(** The chunks of the local extents of a manifest. *)
Definition local_chunks (m : Manifest) : list ChunkId :=
  omap (λ e, match e with Local _ _ chunk => Some chunk | UfsRange _ _ _ _ _ => None end)
    (iter (m_extents m)).

(** The manifests that some inode points to. *)
Definition active_manifests (d : Db) : gset N :=
  list_to_set (omap (λ kv, i_manifest_id kv.2) (kv_sorted (inodes d))).

(** ** Reservations *)

Definition reserve_chunks_in_txn (ticket : WriteTicketId) (inode : InodeId)
    (expected_generation : N) (chunks : list ChunkId) (expires_at_unix_ms : N) : M unit :=
  current ← get_inode_raw inode;
  _ ← lift (check_generation current expected_generation);
  let chunks := sort_dedup chunks in
  _ ← for_each (λ chunk,
        t ← gets (λ d, tombstones d !! chunk);
        fail_if (is_some t) Busy) chunks;
  let reservation :=
    mkChunkReservation ticket inode expected_generation chunks expires_at_unix_ms in
  existing ← reservation_in_txn ticket;
  match existing with
  | Some e => if bool_decide (e = reservation) then mret tt else throw AlreadyExists
  | None => put_reservation_in_txn reservation
  end.

Definition expire_reservations_in_txn (cutoff_unix_ms max_to_expire : N) : M N :=
  if max_to_expire =? 0 then mret 0 else
  rs ← gets list_reservations;
  let expired := filter (λ r, cr_expires_at_unix_ms r ≤ cutoff_unix_ms) rs in
  let expired := merge_sort (lex_le cr_expires_at_unix_ms cr_ticket) expired in
  let expired := take (N.to_nat max_to_expire) expired in
  _ ← for_each (λ r, abort_reservation_in_txn (cr_ticket r)) expired;
  mret (N.of_nat (length expired)).

Definition commit_reserved_in_txn (ticket : WriteTicketId) (expected_generation : N)
    (inode : Inode) (manifest : Manifest) : M Inode :=
  existing ← reservation_in_txn ticket;
  reservation ← lift (ok_or Busy existing);
  _ ← fail_if (negb (cr_inode reservation =? i_id inode)
               || negb (cr_expected_generation reservation =? expected_generation))
        (InvalidArg "write reservation does not match inode generation");
  let local := sort_dedup (local_chunks manifest) in
  _ ← fail_if (bool_decide (local ≠ cr_chunks reservation))
        (InvalidArg "manifest Local chunks do not match write reservation");
  committed ← commit_inode_manifest_in_txn expected_generation inode manifest;
  _ ← abort_reservation_in_txn ticket;
  mret committed.

(** ** Concurrent collection *)

(** The loop over the manifests of [tombstone_gc_batch_in_txn]: the chunks of
    active manifests are live, inactive manifests are removed. *)
Fixpoint sweep_manifests (active : gset N) (l : list (N * Manifest)) (live : gset ChunkId)
    (removed : N) : M (gset ChunkId * N) :=
  match l with
  | [] => mret (live, removed)
  | (id, manifest) :: l' =>
      if bool_decide (id ∈ active)
      then sweep_manifests active l' (list_to_set (local_chunks manifest) ∪ live) removed
      else _ ← modify (upd_manifests (delete id));
           sweep_manifests active l' live (removed + 1)
  end.

Definition tombstone_gc_batch_in_txn (candidates : list ChunkId) : M GcBatch :=
  active ← gets active_manifests;
  all ← gets (λ d, kv_sorted (manifests d));
  '(live, removed) ← sweep_manifests active all ∅ 0;
  rs ← gets list_reservations;
  let live := foldl (λ s r, list_to_set (cr_chunks r) ∪ s) live rs in
  let unique := sort_by_key (λ c, c) (elements (list_to_set (C := gset N) candidates)) in
  let tombstoned := filter (λ c, c ∉ live) unique in
  _ ← for_each (λ c, put_tombstone_in_txn (mkGcTombstone c false [])) tombstoned;
  mret (mkGcBatch tombstoned removed).

(** [list_tombstones_in_txn(..).find(|t| t.chunk == chunk)]. *)
Definition find_tombstone (chunk : ChunkId) : M GcTombstone :=
  reads (λ d, ok_or NotFound (head (filter (λ t, gt_chunk t = chunk) (list_tombstones d)))).

Definition finalize_tombstones_in_txn (chunks : list ChunkId) : M unit :=
  for_each (λ chunk,
    tombstone ← find_tombstone chunk;
    _ ← fail_if (negb (gt_targets_initialized tombstone)
                 || negb (bool_decide (gt_pending_targets tombstone = []))) Busy;
    modify (upd_tombstones (delete chunk))) chunks.

Definition initialize_gc_targets_in_txn (chunks : list ChunkId)
    (targets : list WorkerTargetId) : M unit :=
  let targets := sort_by_key (λ c, c) (elements (list_to_set (C := gset N) targets)) in
  for_each (λ chunk,
    tombstone ← find_tombstone chunk;
    when (negb (gt_targets_initialized tombstone))
      (put_tombstone_in_txn (mkGcTombstone (gt_chunk tombstone) true targets))) chunks.

Definition acknowledge_gc_deletes_in_txn (deleted : list (ChunkId * WorkerTargetId)) : M unit :=
  for_each (λ ct,
    tombstone ← find_tombstone ct.1;
    _ ← fail_if (negb (gt_targets_initialized tombstone)) Busy;
    put_tombstone_in_txn (mkGcTombstone (gt_chunk tombstone)
      (gt_targets_initialized tombstone)
      (filter (λ p, p ≠ ct.2) (gt_pending_targets tombstone)))) deleted.

(** ** Stop-the-world collection *)

Fixpoint plan_chunks (d : Db) (active : list N) (live : gset ChunkId)
    : Result (gset ChunkId) :=
  match active with
  | [] => Ok live
  | id :: active' =>
      match manifests d !! id with
      | None => Err (Meta ("active manifest " +:+ pretty id +:+ " is missing"))
      | Some m => plan_chunks d active' (list_to_set (local_chunks m) ∪ live)
      end
  end.

Definition gc_plan (d : Db) (lease_id : GcLeaseId) : Result GcPlan :=
  live ← plan_chunks d (sort_by_key (λ c, c) (elements (active_manifests d))) ∅;
  Ok (mkGcPlan lease_id (sort_by_key (λ c, c) (elements live)) 0).

Definition begin_gc_in_txn (lease_id : GcLeaseId) : M GcPlan :=
  lease ← gets gc_lease;
  match lease with
  | Some current =>
      if current =? lease_id then reads (λ d, gc_plan d lease_id) else throw Busy
  | None =>
      _ ← modify (upd_gc_lease (λ _, Some lease_id));
      active ← gets active_manifests;
      all ← gets (λ d, (kv_sorted (manifests d)).*1);
      let dead := filter (λ id, id ∉ active) all in
      _ ← for_each (λ id, modify (upd_manifests (delete id))) dead;
      plan ← reads (λ d, gc_plan d lease_id);
      mret (mkGcPlan (gp_lease_id plan) (gp_live_chunks plan) (N.of_nat (length dead)))
  end.

Definition finish_gc_in_txn (lease_id : GcLeaseId) : M unit :=
  lease ← gets gc_lease;
  _ ← fail_if (bool_decide (lease ≠ Some lease_id)) Busy;
  modify (upd_gc_lease (λ _, None)).
