(* ===== verification/GcInv.v ===== *)
(** * The storage invariant

    A chunk that is being collected is not referenced: no tombstone names a
    chunk of an inode's manifest or of an open reservation, every manifest an
    inode points to exists, and an inode with a flush in flight still has the
    head that the flush snapshots.  Every operation keeps the invariant. *)

From S2P Require Import MetaDb Namespace NamespaceInv Evolve Rename InodeData Gc.

Local Open Scope N_scope.

(** ** Live chunks *)

Definition manifest_live (d : Db) (c : ChunkId) : Prop :=
  ∃ id i mid m, inodes d !! id = Some i ∧ i_manifest_id i = Some mid ∧
                manifests d !! mid = Some m ∧ c ∈ local_chunks m.

Definition reserved (d : Db) (c : ChunkId) : Prop :=
  ∃ t r, reservations d !! t = Some r ∧ c ∈ cr_chunks r.

Definition live (d : Db) (c : ChunkId) : Prop := manifest_live d c ∨ reserved d c.

(** An inode with a flush in flight is dirty at the snapshot's generation and
    its operation state names the same intent; without one it is not
    flushing. *)
Definition flush_ok (i : Inode) : Prop :=
  match i_flush_intent i with
  | Some it =>
      i_head_gen i = fi_snapshot_gen it ∧ i_file_type i = Regular ∧
      ∃ f, i_locality_fields i = Some f ∧ lf_op_state f = Flushing it ∧
           lf_backing_mode f = UfsBacked ∧ lf_data_state f = Dirty
  | None => ∀ f it, i_locality_fields i = Some f → lf_op_state f ≠ Flushing it
  end.

Record store_inv (d : Db) : Prop := {
  st_ns : ns_inv d;
  st_next : ∃ n, next_manifest d = Some n ∧ ∀ mid, is_Some (manifests d !! mid) → mid < n;
  st_manifest : ∀ id i mid, inodes d !! id = Some i → i_manifest_id i = Some mid →
                is_Some (manifests d !! mid);
  st_tombstones : ∀ c t, tombstones d !! c = Some t → gt_chunk t = c ∧ ¬ live d c;
  st_flush : ∀ id i, inodes d !! id = Some i → flush_ok i
}.

Definition store_room (d : Db) : Prop :=
  room d ∧ ∀ n, next_manifest d = Some n → n < U64_MAX.

Lemma flush_ok_ext i i' :
  i_flush_intent i' = i_flush_intent i → i_head_gen i' = i_head_gen i →
  i_file_type i' = i_file_type i → i_locality_fields i' = i_locality_fields i →
  flush_ok i → flush_ok i'.
Proof. intros Hf Hh Ht Hl. unfold flush_ok. by rewrite Hf, Hh, Ht, Hl. Qed.

Lemma flush_ok_idle i f :
  i_flush_intent i = None → i_locality_fields i = Some f → lf_op_state f = OpNone → flush_ok i.
Proof. intros Hf Hl Ho. unfold flush_ok. rewrite Hf. intros f' it Hf'. congruence. Qed.

Lemma flush_ok_data i i' : data_of i' = data_of i → flush_ok i → flush_ok i'.
Proof.
  intros Hd. apply flush_ok_ext;
    [apply (f_equal i_flush_intent Hd)|apply (f_equal i_head_gen Hd)
    |apply (f_equal i_file_type Hd)|apply (f_equal i_locality_fields Hd)].
Qed.

Lemma flush_ok_fresh i : is_fresh i → flush_ok i.
Proof. intros (_&Hf&_&Hl). unfold flush_ok. by rewrite Hf. Qed.

(** ** Operations that evolve the namespace *)

Lemma evolves_live d d' c : evolves d d' → live d' c → live d c.
Proof.
  intros Hev [(id&i&mid&m&Hi&Hmid&Hm&Hc)|(t&r&Hr&Hc)].
  - left. destruct (ev_inodes _ _ Hev _ _ Hi) as [(j&Hj&[Hd _])|(n&_&_&Hfr&_)]; [|congruence].
    exists id, j, mid, m. rewrite <-(ev_manifests _ _ Hev).
    apply (f_equal i_manifest_id) in Hd. simpl in Hd. split_and!; congruence.
  - right. exists t, r. split; [|done]. eapply lookup_weaken; [done|]. apply Hev.
Qed.

Lemma store_evolves d d' : store_inv d → evolves d d' → ns_inv d' → store_inv d'.
Proof.
  intros [H1 H2 H3 H4 H5] Hev Hns. split; [done|..].
  - by rewrite (ev_next_manifest _ _ Hev), (ev_manifests _ _ Hev).
  - intros id i mid Hi Hmid. rewrite (ev_manifests _ _ Hev).
    destruct (ev_inodes _ _ Hev _ _ Hi) as [(j&Hj&[Hd _])|(n&_&_&Hfr&_)]; [|congruence].
    apply (f_equal i_manifest_id) in Hd. simpl in Hd. eapply H3; [done|congruence].
  - rewrite (ev_tombstones _ _ Hev). intros c t Ht. destruct (H4 _ _ Ht) as [? Hl].
    split; [done|]. by intros Hl'%(evolves_live _ _ _ Hev).
  - intros id i Hi. destruct (ev_inodes _ _ Hev _ _ Hi) as [(j&Hj&[Hd _])|(n&_&_&Hfr)].
    + eapply flush_ok_data; eauto.
    + by apply flush_ok_fresh.
Qed.

(** ** Other updates *)

Definition same_store (d d' : Db) : Prop :=
  same_ns d d' ∧ manifests d' = manifests d ∧ next_manifest d' = next_manifest d ∧
  tombstones d' = tombstones d.

Lemma same_store_inv d d' : same_store d d' → store_inv d → store_inv d'.
Proof.
  intros [Hs (Hm&Hn&Ht)] [H1 H2 H3 H4 H5]. assert (Hs' := Hs).
  destruct Hs' as (Hi&_&_&_&_&Hr).
  split; unfold live, manifest_live, reserved in *; rewrite ?Hi, ?Hm, ?Hn, ?Ht, ?Hr; try done.
  by eapply same_ns_core.
Qed.

(** Storing a manifest that no inode points to yet. *)
Lemma store_put_manifest d mid m :
  store_inv d → next_manifest d = Some mid → mid < U64_MAX →
  store_inv (upd_manifests <[mid := m]> (upd_next_manifest (λ _, Some (wrap_add mid 1)) d)) ∧
  (∀ id i, inodes d !! id = Some i → i_manifest_id i ≠ Some mid).
Proof.
  intros [H1 (n&Hn&Hlt) H3 H4 H5] Hmid Hmax. simplify_eq.
  assert (∀ id i, inodes d !! id = Some i → i_manifest_id i ≠ Some n) as Hno.
  { intros id i Hi Heq. assert (n < n) by (by eapply Hlt, H3). lia. }
  split; [|done]. split; simpl; try done.
  - eapply same_ns_core; [|exact H1]. done.
  - rewrite wrap_add_small by lia. exists (n + 1). split; [done|].
    intros x. rewrite lookup_insert_is_Some. intros [<-|[_ Hx%Hlt]]; lia.
  - intros id i x Hi Hx. rewrite lookup_insert_is_Some'. right. eauto.
  - intros c t Ht. destruct (H4 _ _ Ht) as [? Hl]. split; [done|]. intros [(id&i&x&m'&Hi&Hx&Hm'&Hc)|Hr].
    + simpl in *. rewrite lookup_insert_ne in Hm' by (intros ->; by eapply Hno).
      apply Hl. left. exists id, i, x, m'. auto.
    + apply Hl. by right.
Qed.

(** An inode row is written, under the namespace invariant. *)
Lemma store_set_inode d d' id i' :
  store_inv d → ns_inv d' → inodes d' = <[id := i']> (inodes d) →
  reservations d' = reservations d → manifests d' = manifests d →
  next_manifest d' = next_manifest d → tombstones d' = tombstones d → flush_ok i' →
  (∀ mid, i_manifest_id i' = Some mid → is_Some (manifests d !! mid)) →
  (∀ mid m c, i_manifest_id i' = Some mid → manifests d !! mid = Some m →
              c ∈ local_chunks m → tombstones d !! c = None) →
  store_inv d'.
Proof.
  intros [H1 H2 H3 H4 H5] Hns Hi Hr Hm Hn Ht Hf Hex Htomb.
  split; unfold live, manifest_live, reserved in *; rewrite ?Hi, ?Hr, ?Hm, ?Hn, ?Ht; try done.
  - intros x j mid [[<- <-]|[_ Hx]]%lookup_insert_Some; eauto.
  - intros c t Hc. destruct (H4 _ _ Hc) as [? Hnl]. split; [done|].
    intros [(x&j&mid&m&Hx&Hmid&Hm'&Hin)|Hr']; [|by apply Hnl; right].
    apply lookup_insert_Some in Hx as [[<- <-]|[_ Hx]].
    + rewrite (Htomb mid m c) in Hc; done.
    + apply Hnl. left. exists x, j, mid, m. auto.
  - intros x j [[<- <-]|[_ Hx]]%lookup_insert_Some; eauto.
Qed.

(** An existing inode row is replaced. *)
Lemma store_put_inode d id i i' :
  store_inv d → inodes d !! id = Some i → i_id i' = id → derived_from i i' → flush_ok i' →
  (∀ mid, i_manifest_id i' = Some mid → is_Some (manifests d !! mid)) →
  (∀ mid m c, i_manifest_id i' = Some mid → manifests d !! mid = Some m →
              c ∈ local_chunks m → tombstones d !! c = None) →
  store_inv (upd_inodes <[id := i']> d).
Proof.
  intros Hst Hi Hid (_&Ht&Hl) Hf Hex Htomb. eapply store_set_inode; try done.
  eapply ns_put_attrs; [by apply st_ns|done..].
Qed.

(** The same, keeping the manifest. *)
Lemma store_put_same d id i i' :
  store_inv d → inodes d !! id = Some i → i_id i' = id → derived_from i i' → flush_ok i' →
  i_manifest_id i' = i_manifest_id i → store_inv (upd_inodes <[id := i']> d).
Proof.
  intros Hst Hi Hid Hd Hf Hm. apply (store_put_inode _ _ i); try done.
  - intros mid Hmid. eapply st_manifest; [done|exact Hi|congruence].
  - intros mid m c Hmid Hm' Hc. destruct (tombstones d !! c) as [t|] eqn:Ht; [|done].
    destruct (st_tombstones _ Hst _ _ Ht) as [_ []]. left. exists id, i, mid, m.
    split_and!; congruence.
Qed.

(** ** Data operations *)

Lemma put_manifest_store m d r d' :
  store_inv d → store_room d → put_manifest_in_txn m d = (r, d') → store_inv d'.
Proof.
  intros Hst [_ Hroom] [(?&?&->)|(mid&?&Hn&_&->)]%put_manifest_cases; [done|].
  apply store_put_manifest; auto.
Qed.

(** A client's new version of an inode: derived from the row it has read. *)
Definition client_inode (current inode : Inode) : Prop :=
  derived_from current inode ∧ flush_ok inode.

Lemma commit_manifest_store g inode m d r d' :
  store_inv d → store_room d →
  (∀ current, inodes d !! i_id inode = Some current → i_generation current = g →
              client_inode current inode) →
  (∀ c, c ∈ local_chunks m → tombstones d !! c = None) →
  commit_inode_manifest_in_txn g inode m d = (r, d') → store_inv d'.
Proof.
  intros Hst [_ Hroom] Hder Htomb H. unfold commit_inode_manifest_in_txn in H.
  db_inv H; bools; try done;
    destruct (put_manifest_cases _ _ _ _ Hm) as [(?&?&->)|(mid&?&Hn&_&->)]; simplify_eq; try done.
  destruct (store_put_manifest d mid m Hst Hn (Hroom _ Hn)) as [Hst' Hno].
  destruct (Hder x) as [Hd Hf]; try done. simpl.
  eapply (store_put_inode _ _ x); try done; simpl.
  - intros ? [= <-]. rewrite lookup_insert_eq. eauto.
  - intros ? m' c [= <-]. rewrite lookup_insert_eq. intros [= <-]. auto.
Qed.

Lemma put_inode_cas_store g inode d r d' :
  store_inv d → put_inode_cas_in_txn g inode d = (r, d') → store_inv d'.
Proof.
  intros Hst H. unfold put_inode_cas_in_txn in H. db_inv H; try done.
  unfold data_or_lifecycle_changed in *. bools.
  apply (store_put_same _ _ x); try done.
  eapply flush_ok_ext; [symmetry..|by eapply st_flush]; done.
Qed.

Lemma begin_flush_store g id it d r d' :
  store_inv d → begin_flush_in_txn g id it d = (r, d') → store_inv d'.
Proof.
  intros Hst H. unfold begin_flush_in_txn in H. db_inv H; bools; try done.
  assert (Hid := ns_id _ _ (st_ns _ Hst) _ _ Hi). subst id.
  destruct (i_locality_fields x) as [f|] eqn:Hf; simplify_eq/=.
  apply (store_put_same _ _ x); try done. unfold flush_ok. simpl. eauto 10.
Qed.

Lemma fail_flush_store g id fid err d r d' :
  store_inv d → fail_flush_conflict_in_txn g id fid err d = (r, d') → store_inv d'.
Proof.
  intros Hst H. unfold fail_flush_conflict_in_txn in H. db_inv H; bools; try done.
  assert (Hid := ns_id _ _ (st_ns _ Hst) _ _ Hi). subst id.
  apply (store_put_same _ _ x); try done. by eapply flush_ok_idle.
Qed.

Lemma matching_flush_intent_Ok i fid it :
  matching_flush_intent i fid = Ok it → i_flush_intent i = Some it ∧ fi_flush_id it = fid.
Proof. unfold matching_flush_intent. repeat case_match; intros; simplify_eq; bools; auto. Qed.

Lemma commit_flush_store g id fid pub d r d' :
  store_inv d → store_room d → commit_flush_in_txn g id fid pub d = (r, d') → store_inv d'.
Proof.
  intros Hst [_ Hroom] H. unfold commit_flush_in_txn in H.
  db_step H Hm1; db_inv Hm1; [|done]. db_step H Hm2; db_inv Hm2; [|done].
  db_step H Hm3; db_inv Hm3; [|done]. db_step H Hm4; db_inv Hm4; [|done].
  assert (Hid := ns_id _ _ (st_ns _ Hst) _ _ Hi). subst id.
  apply matching_flush_intent_Ok in Hm3 as [Hm3 _].
  assert (Hfl := st_flush _ Hst _ _ Hi). unfold flush_ok in Hfl. rewrite Hm3 in Hfl.
  destruct Hfl as (Hhead&_).
  db_step H Hc; cbv zeta in Hc; simpl in Hc;
    (destruct (N.eqb_spec (i_head_gen x) (fi_snapshot_gen x1)) as [_|]; [|done]);
    destruct (install_clean_cases _ _ _ _ _ _ _ Hc)
      as [[-> (?&?)]|(mid&ver&?&Hs&Hcase)]; simplify_eq/=; [|done].
  db_inv H. destruct Hcase as [(_&->&->)|(n&_&->&Hn&->)].
  - apply (store_put_inode _ _ x); try done. by eapply flush_ok_idle.
  - apply (store_put_inode _ _ x); try done; simpl.
    + apply store_put_manifest; auto.
    + by eapply flush_ok_idle.
    + intros ? [= <-]. rewrite lookup_insert_eq. eauto.
    + intros ? m' c [= <-]. rewrite lookup_insert_eq. intros [= <-] Hin.
      unfold local_chunks, iter in Hin. simpl in Hin. by apply elem_of_nil in Hin.
Qed.

(** Imported manifests reference only the underlying file system. *)
Lemma import_store now e p name template manifest d r d' :
  store_inv d → store_room d → importable template → flush_ok template →
  (∀ m, manifest = Some m → local_chunks m = []) →
  import_external_in_txn now e p name template manifest d = (r, d') → store_inv d'.
Proof.
  intros Hst [Hroom Hroom'] Himp Hfl Hloc H.
  assert (Hns' := import_keeps _ _ _ _ _ _ _ _ _ (st_ns _ Hst) Hroom Himp H).
  unfold import_external_in_txn in H.
  db_step H Hm1; db_inv Hm1; [|done]. db_step H Hm2; db_inv Hm2; [|done].
  db_step H Hm3; db_inv Hm3. db_step H Hm4; db_inv Hm4; [|done].
  db_step H Hbump; destruct (evolves_bump _ _ _ _ _ _ (st_ns _ Hst) Hroom Hbump) as [Hev _];
    destruct (bump_cases _ _ _ _ _ _ _ (st_ns _ Hst) Hbump)
      as [(?&?&->)|(i&Hi&Hd&_&_&->&Hnsb)]; try done; [|by eapply store_evolves].
  assert (store_inv (upd_inodes <[p := bumped (now 0%nat) i]> d)) as Hstb by (by eapply store_evolves).
  db_step H Halloc; destruct (alloc_inode_cases _ _ _ _ Hnsb Halloc) as (n&Hn&Hr&->); [|done].
  injection Hr as ->. set (d2 := upd_next_inode _ _) in *.
  assert (store_inv d2) as Hst2.
  { eapply store_evolves; [exact Hstb| |].
    - split; try done; simpl; [eauto using touch_refl|].
      simpl in Hn. rewrite Hn. constructor. rewrite wrap_add_small; [lia|].
      assert (n < U64_MAX) by (by apply Hroom). lia.
    - apply ns_bump_next; [done|done|by apply Hroom]. }
  set (inode := match i_locality_fields _ with Some _ => _ | None => _ end) in H.
  assert (flush_ok inode ∧ i_id inode = n) as [Hfi Hid].
  { unfold inode. destruct (i_locality_fields _) eqn:Hl; [done|]. split; [|done].
    eapply flush_ok_idle; try done. unfold flush_ok in Hfl. simpl in Hl |- *.
    destruct (i_flush_intent template); [|done]. destruct Hfl as (_&_&?&?&_). congruence. }
  clearbody inode. subst n. destruct manifest as [m|]; simpl in H.
  - db_step H Hman; db_inv Hman; try done;
      destruct (put_manifest_cases _ _ _ _ Hm0) as [(?&?&->)|(mid&?&Hnm&_&->)]; simplify_eq; try done.
    db_inv H. eapply (store_set_inode (upd_manifests <[mid := set_m_inode (i_id inode) m]>
      (upd_next_manifest (λ _, Some (wrap_add mid 1)) d2))); try done; simpl.
    + apply store_put_manifest; auto.
    + intros ? [= <-]. rewrite lookup_insert_eq. eauto.
    + intros ? m' c [= <-]. rewrite lookup_insert_eq. intros [= <-].
      change (local_chunks (set_m_inode (i_id inode) m)) with (local_chunks m).
      rewrite (Hloc m) by done. by rewrite elem_of_nil.
  - db_step H Hman; db_inv Hman. db_inv H. by eapply (store_set_inode d2).
Qed.

(** ** Reservations *)

(** The test that no chunk of a list is being collected. *)
Lemma not_tombstoned_loop chunks d r d' :
  for_each (λ chunk, t ← gets (λ d, tombstones d !! chunk); fail_if (is_some t) Busy)
    chunks d = (r, d') →
  d' = d ∧ (r = Ok tt → ∀ c, c ∈ chunks → tombstones d !! c = None) ∧
  (∀ e, r = Err e → e = Busy ∧ ∃ c, c ∈ chunks ∧ is_Some (tombstones d !! c)).
Proof.
  induction chunks as [|c l IH] in d |- *; simpl; intros H.
  { db_inv H. split_and!; [done| |done]. intros _ c ?%elem_of_nil. done. }
  db_inv H; bools.
  - destruct (IH _ H) as (->&H1&H2). split_and!; [done| |].
    + intros Hr x [->|?]%elem_of_cons; eauto.
    + intros e He. destruct (H2 e He) as (?&x&?&?). split; [done|]. exists x. split; [by right|done].
  - split_and!; [done|done|]. intros e [= <-]. split; [done|]. exists c. split; [left|eauto].
Qed.

Lemma store_reservations d f :
  store_inv d →
  (∀ t r, f (reservations d) !! t = Some r →
     reservations d !! t = Some r ∨
     (cr_ticket r = t ∧ is_Some (inodes d !! cr_inode r) ∧
      ∀ c, c ∈ cr_chunks r → tombstones d !! c = None)) →
  store_inv (upd_reservations f d).
Proof.
  intros [H1 H2 H3 H4 H5] Hf. split; simpl; try done.
  - destruct H1 as [A1 A2 A3 A4 A5 A6 A6b A7 A8 A9 A10 A11]. split; try done.
    simpl. intros t r [Hr|(?&?&_)]%Hf; eauto.
  - intros c t Hc. destruct (H4 _ _ Hc) as [? Hnl]. split; [done|].
    intros [Hm|(t'&r&Hr&Hin)]; [by apply Hnl; left|]. simpl in Hr.
    destruct (Hf _ _ Hr) as [?|(_&_&Hno)].
    + apply Hnl. right. exists t', r. auto.
    + by rewrite Hno in Hc.
Qed.

Lemma reserve_store ticket inode g chunks exp d r d' :
  store_inv d → reserve_chunks_in_txn ticket inode g chunks exp d = (r, d') → store_inv d'.
Proof.
  intros Hst H. unfold reserve_chunks_in_txn, reservation_in_txn, put_reservation_in_txn in H.
  db_step H Hm1; db_inv Hm1; [|done]. db_step H Hm2; db_inv Hm2; [|done].
  db_step H Hl; destruct (not_tombstoned_loop _ _ _ _ Hl) as (->&Hno&_); [|done].
  rewrite txn_bind_gets in H. destruct (reservations d !! ticket) as [e|] eqn:He.
  { case_bool_decide; by db_inv H. }
  db_inv H. apply store_reservations; [done|].
  simpl. intros t res [[<- <-]|[_ ?]]%lookup_insert_Some; [right|by left]. simpl.
  split_and!; [done|eauto|]. apply Hno. by destruct x1.
Qed.

Lemma abort_store ticket d r d' :
  store_inv d → abort_reservation_in_txn ticket d = (r, d') → store_inv d'.
Proof.
  intros Hst H. unfold abort_reservation_in_txn in H. db_inv H.
  apply store_reservations; [done|]. intros t res [_ ?]%lookup_delete_Some. by left.
Qed.

Lemma expire_store cutoff max d r d' :
  store_inv d → expire_reservations_in_txn cutoff max d = (r, d') → store_inv d'.
Proof.
  intros Hst H. unfold expire_reservations_in_txn, abort_reservation_in_txn in H.
  destruct (max =? 0); [by db_inv H|]. rewrite txn_bind_gets in H. cbv zeta in H.
  erewrite txn_bind_ok in H by apply for_each_modify. db_inv H.
  rewrite fold_upd_reservations. apply store_reservations; [done|].
  intros t res. rewrite foldl_delete, map_lookup_filter_Some. intros [? _]. by left.
Qed.

Lemma commit_reserved_store ticket g inode m d r d' :
  store_inv d → store_room d →
  (∀ current, inodes d !! i_id inode = Some current → i_generation current = g →
              client_inode current inode) →
  commit_reserved_in_txn ticket g inode m d = (r, d') → store_inv d'.
Proof.
  intros Hst Hroom Hder H. unfold commit_reserved_in_txn, reservation_in_txn in H.
  rewrite txn_bind_gets in H. db_step H Hres; db_inv Hres; [|done].
  destruct (reservations d !! ticket) as [e|] eqn:He; simplify_eq/=.
  db_step H Hm1; db_inv Hm1; [|done]. db_step H Hm2; db_inv Hm2; [|done]. bools.
  assert (∀ c, c ∈ local_chunks m → tombstones d !! c = None) as Hno.
  { intros c Hc. destruct (tombstones d !! c) as [t|] eqn:Ht; [|done].
    destruct (st_tombstones _ Hst _ _ Ht) as [_ []]. right. exists ticket, x.
    split; [done|]. rewrite <-Hb0. by apply elem_of_sort_dedup. }
  db_step H Hc; assert (Hst' := commit_manifest_store _ _ _ _ _ _ Hst Hroom Hder Hno Hc); [|done].
  db_step H Ha. db_inv H. by eapply abort_store.
Qed.

(** ** Collection *)

Lemma sweep_manifests_run active l lv rm d :
  ∃ lv' rm', sweep_manifests active l lv rm d =
    (Ok (lv', rm'),
     upd_manifests (λ m, foldl (λ m id, delete id m) m (filter (λ id, id ∉ active) l.*1)) d) ∧
    (∀ c, c ∈ lv' ↔ c ∈ lv ∨ ∃ id m, (id, m) ∈ l ∧ id ∈ active ∧ c ∈ local_chunks m).
Proof.
  induction l as [|[id m] l IH] in lv, rm, d |- *; simpl.
  { exists lv, rm. split; [by destruct d|]. intros c. split; [by left|].
    intros [?|(?&?&?%elem_of_nil&_)]; done. }
  case_bool_decide as Hid.
  - destruct (IH (list_to_set (local_chunks m) ∪ lv) rm d) as (lv'&rm'&->&Hel).
    exists lv', rm'. rewrite filter_cons_False by (by intros Hn). split; [done|].
    intros c. rewrite Hel, elem_of_union, elem_of_list_to_set. split.
    + intros [[Hc|?]|(id'&m'&?&?&?)]; [right|by left|right].
      * exists id, m. split; [left|done].
      * exists id', m'. split; [by right|done].
    + intros [?|(id'&m'&[Heq|?]%elem_of_cons&?&?)]; [by left; right|simplify_eq; by left; left|].
      right. by exists id', m'.
  - rewrite txn_bind_modify.
    destruct (IH lv (rm + 1) (upd_manifests (delete id) d)) as (lv'&rm'&->&Hel).
    exists lv', rm'. rewrite filter_cons_True by done. split; [done|].
    intros c. rewrite Hel. split.
    + intros [?|(id'&m'&?&?&?)]; [by left|]. right. exists id', m'. split; [by right|done].
    + intros [?|(id'&m'&[Heq|?]%elem_of_cons&?&?)]; [by left|by simplify_eq|].
      right. by exists id', m'.
Qed.

Lemma elem_of_active_manifests d mid :
  mid ∈ active_manifests d ↔ ∃ id i, inodes d !! id = Some i ∧ i_manifest_id i = Some mid.
Proof.
  unfold active_manifests. rewrite elem_of_list_to_set, list_elem_of_omap. split.
  - intros ([id i]&Hin%elem_of_kv_sorted&?). eauto.
  - intros (id&i&Hi&?). exists (id, i). split; [by apply elem_of_kv_sorted|done].
Qed.

(** Removing manifests that no inode points to. *)
Lemma store_sweep d f :
  store_inv d → (∀ mid m, f (manifests d) !! mid = Some m → manifests d !! mid = Some m) →
  (∀ mid, mid ∈ active_manifests d → f (manifests d) !! mid = manifests d !! mid) →
  store_inv (upd_manifests f d).
Proof.
  intros [H1 (n&Hn&Hlt) H3 H4 H5] Hsub Hact. split; simpl; try done.
  - eapply same_ns_core; [|exact H1]. done.
  - exists n. split; [done|]. intros mid [m Hm%Hsub]. eauto.
  - intros id i mid Hi Hmid. rewrite Hact; [eauto|]. apply elem_of_active_manifests. eauto.
  - intros c t Hc. destruct (H4 _ _ Hc) as [? Hnl]. split; [done|].
    intros [(id&i&mid&m&Hi&Hmid&Hm&Hin)|Hr]; apply Hnl; [left|by right].
    exists id, i, mid, m. split_and!; auto.
Qed.

Lemma sweep_filter_sub (l : list N) (active : gset N) (ms : gmap N Manifest) :
  let f m := foldl (λ m id, delete id m) m (filter (λ id, id ∉ active) l) in
  (∀ mid m, f ms !! mid = Some m → ms !! mid = Some m) ∧
  (∀ mid, mid ∈ active → f ms !! mid = ms !! mid).
Proof.
  simpl. rewrite foldl_delete. split.
  - intros mid m [? _]%map_lookup_filter_Some. done.
  - intros mid Hmid. apply option_eq. intros m. rewrite map_lookup_filter_Some. simpl.
    rewrite list_elem_of_fmap. split; [naive_solver|]. intros ?. split; [done|].
    intros (x&->&[Hx _]%list_elem_of_filter). done.
Qed.

Lemma store_tombstones d f :
  store_inv d →
  (∀ c t, f (tombstones d) !! c = Some t → gt_chunk t = c ∧ ¬ live d c) →
  store_inv (upd_tombstones f d).
Proof.
  intros [H1 H2 H3 H4 H5] Hf. split; simpl; try done.
  eapply same_ns_core; [|exact H1]. done.
Qed.

Lemma fold_upd_tombstones (l : list ChunkId) (t : ChunkId → GcTombstone) d :
  foldl (λ d c, upd_tombstones <[gt_chunk (t c) := t c]> d) d l =
  upd_tombstones (λ m, foldl (λ m c, <[gt_chunk (t c) := t c]> m) m l) d.
Proof. induction l as [|x l IH] in d |- *; simpl; [by destruct d|]. by rewrite IH. Qed.

Lemma foldl_insert_tombstones_lookup (l : list ChunkId) (m : gmap N GcTombstone) c :
  foldl (λ m c, <[c := mkGcTombstone c false []]> m) m l !! c =
  if decide (c ∈ l) then Some (mkGcTombstone c false []) else m !! c.
Proof.
  induction l as [|x l IH] in m |- *; cbn [foldl].
  - by rewrite decide_False by (apply not_elem_of_nil).
  - rewrite IH. destruct (decide (c = x)) as [->|Hne].
    + rewrite lookup_insert_eq, (decide_True (P := x ∈ x :: l)) by left. by case_decide.
    + rewrite lookup_insert_ne by done.
      destruct (decide (c ∈ l)), (decide (c ∈ x :: l)); try done; set_solver.
Qed.

Lemma foldl_insert_tombstones (l : list ChunkId) (m : gmap N GcTombstone) c t :
  foldl (λ m c, <[c := mkGcTombstone c false []]> m) m l !! c = Some t →
  (c ∈ l ∧ t = mkGcTombstone c false []) ∨ m !! c = Some t.
Proof. rewrite foldl_insert_tombstones_lookup. case_decide; intros; simplify_eq; auto. Qed.

(** The live set that a batch computes. *)
Lemma batch_live_spec d (lv : gset N) c :
  store_inv d →
  (∀ c, c ∈ lv ↔ c ∈ (∅ : gset N) ∨
     ∃ id m, (id, m) ∈ kv_sorted (manifests d) ∧ id ∈ active_manifests d ∧ c ∈ local_chunks m) →
  c ∈ foldl (λ s r, list_to_set (cr_chunks r) ∪ s) lv (list_reservations d) ↔ live d c.
Proof.
  intros Hst Hlv.
  assert (∀ l s, c ∈ foldl (λ s r, list_to_set (C := gset N) (cr_chunks r) ∪ s) s l ↔
            c ∈ s ∨ ∃ r, r ∈ l ∧ c ∈ cr_chunks r) as Hfold.
  { induction l as [|r l IH]; intros s; simpl; [set_solver|].
    rewrite IH, elem_of_union, elem_of_list_to_set. set_solver. }
  rewrite Hfold, Hlv. unfold live, manifest_live, reserved. split.
  - intros [[?%elem_of_empty|(mid&m&Hm&Ha&Hc)]|(r&Hr&Hc)]; [done|left|right].
    + apply elem_of_kv_sorted in Hm. apply elem_of_active_manifests in Ha as (id&i&?&?).
      by exists id, i, mid, m.
    + apply elem_of_list_reservations in Hr as [t Ht]. by exists t, r.
  - intros [(id&i&mid&m&Hi&Hmid&Hm&Hc)|(t&r&Hr&Hc)]; [left; right|right].
    + exists mid, m. split_and!; [by apply elem_of_kv_sorted| |done].
      apply elem_of_active_manifests. eauto.
    + exists r. split; [|done]. apply elem_of_list_reservations. eauto.
Qed.

(** What a batch does: inactive manifests go, the candidates that are not
    live, and only they, become tombstones. *)
Lemma tombstone_batch_run cands d :
  store_inv d →
  ∃ l rm d', tombstone_gc_batch_in_txn cands d = (Ok (mkGcBatch l rm), d') ∧
    (∀ c, c ∈ l ↔ c ∈ cands ∧ ¬ live d c) ∧ store_inv d' ∧
    inodes d' = inodes d ∧ reservations d' = reservations d ∧
    (∀ c, tombstones d' !! c =
          if decide (c ∈ l) then Some (mkGcTombstone c false []) else tombstones d !! c).
Proof.
  intros Hst. unfold tombstone_gc_batch_in_txn. rewrite !txn_bind_gets.
  destruct (sweep_manifests_run (active_manifests d) (kv_sorted (manifests d)) ∅ 0 d)
    as (lv&rm&Hrun&Hlv).
  erewrite txn_bind_ok by exact Hrun. cbv beta iota. rewrite txn_bind_gets. cbv zeta.
  change (list_reservations (upd_manifests _ d)) with (list_reservations d).
  set (lv' := foldl _ _ _). set (tomb := filter _ _).
  assert (∀ c, c ∈ tomb ↔ c ∈ cands ∧ ¬ live d c) as Htomb.
  { intros c. unfold tomb. rewrite list_elem_of_filter, sort_by_key_perm, elem_of_elements,
      elem_of_list_to_set. unfold lv'. rewrite (batch_live_spec d lv c Hst Hlv). tauto. }
  unfold put_tombstone_in_txn. erewrite txn_bind_ok by apply for_each_modify.
  rewrite (fold_upd_tombstones tomb (λ c, mkGcTombstone c false [])). simpl.
  eexists tomb, rm, _. split; [done|]. split; [exact Htomb|].
  assert (store_inv (upd_manifests (λ m, foldl (λ m id, delete id m) m
    (filter (λ id, id ∉ active_manifests d) (kv_sorted (manifests d)).*1)) d)) as Hst1.
  { apply store_sweep; [done|..]; apply sweep_filter_sub. }
  split_and!; [|done|done|].
  - apply store_tombstones; [done|]. simpl. intros c t [[Hin ->]|Ht]%foldl_insert_tombstones.
    + split; [done|]. intros [(id&i&mid&m&Hi&Hmid&Hm&Hc)|Hr];
        apply Htomb in Hin as [_ []]; [left|by right].
      exists id, i, mid, m. split_and!; try done. simpl in Hm.
      by apply (sweep_filter_sub (kv_sorted (manifests d)).*1 (active_manifests d)) in Hm.
    + by apply (st_tombstones _ Hst1) in Ht.
  - intros c. apply foldl_insert_tombstones_lookup.
Qed.

Lemma find_tombstone_run c d :
  store_inv d → find_tombstone c d = (ok_or NotFound (tombstones d !! c), d).
Proof.
  intros Hst. unfold find_tombstone, reads. do 2 f_equal.
  assert (∀ t, t ∈ filter (λ t, gt_chunk t = c) (list_tombstones d) ↔ tombstones d !! c = Some t) as Hel.
  { intros t. rewrite list_elem_of_filter. unfold list_tombstones.
    rewrite sort_by_key_perm, list_elem_of_fmap. split.
    - intros [Hc ([k t']&->&Hk%elem_of_kv_sorted)]. simpl in *.
      destruct (st_tombstones _ Hst _ _ Hk) as [? _]. congruence.
    - intros Ht. destruct (st_tombstones _ Hst _ _ Ht) as [? _]. split; [done|].
      exists (c, t). split; [done|]. by apply elem_of_kv_sorted. }
  destruct (filter _ _) as [|t l]; simpl.
  - destruct (tombstones d !! c) as [t|]; [|done].
    exfalso. by apply (not_elem_of_nil t), Hel.
  - rewrite (proj1 (Hel t)) by left. done.
Qed.

Lemma store_put_tombstone d t :
  store_inv d → is_Some (tombstones d !! gt_chunk t) →
  store_inv (upd_tombstones <[gt_chunk t := t]> d).
Proof.
  intros Hst [t0 Ht0]. apply store_tombstones; [done|].
  intros c t' [[<- <-]|[_ Hc]]%lookup_insert_Some.
  - split; [done|]. by destruct (st_tombstones _ Hst _ _ Ht0).
  - by apply (st_tombstones _ Hst).
Qed.

Lemma finalize_store chunks : keeps store_inv (finalize_tombstones_in_txn chunks).
Proof.
  apply keeps_for_each. intros c _ d r d' Hst H. db_step H Hf;
    rewrite (find_tombstone_run _ _ Hst) in Hf; apply pair_equal_spec in Hf as [Hf <-]; [|done].
  db_inv H; try done. apply store_tombstones; [done|].
  intros c' t [_ Ht]%lookup_delete_Some. by apply (st_tombstones _ Hst).
Qed.

Lemma initialize_store chunks targets : keeps store_inv (initialize_gc_targets_in_txn chunks targets).
Proof.
  apply keeps_for_each. intros c _ d r d' Hst H. unfold put_tombstone_in_txn in H.
  db_step H Hf; rewrite (find_tombstone_run _ _ Hst) in Hf;
    apply pair_equal_spec in Hf as [Hf <-]; [|done].
  destruct (tombstones d !! c) as [t|] eqn:Ht; simplify_eq/=.
  destruct (st_tombstones _ Hst _ _ Ht) as [? _].
  db_inv H; [|done]. apply (store_put_tombstone d (mkGcTombstone _ _ _)); [done|].
  simpl. subst. eauto.
Qed.

Lemma acknowledge_store deleted : keeps store_inv (acknowledge_gc_deletes_in_txn deleted).
Proof.
  apply keeps_for_each. intros c _ d r d' Hst H. unfold put_tombstone_in_txn in H.
  db_step H Hf; rewrite (find_tombstone_run _ _ Hst) in Hf;
    apply pair_equal_spec in Hf as [Hf <-]; [|done].
  destruct (tombstones d !! c.1) as [t|] eqn:Ht; simplify_eq/=.
  destruct (st_tombstones _ Hst _ _ Ht) as [Hk _].
  db_inv H; [|done]. apply (store_put_tombstone d (mkGcTombstone _ _ _)); [done|].
  change (is_Some (tombstones d !! gt_chunk x)). rewrite Hk. eauto.
Qed.

Lemma fold_upd_manifests (l : list N) d :
  foldl (λ d id, upd_manifests (delete id) d) d l =
  upd_manifests (λ m, foldl (λ m id, delete id m) m l) d.
Proof. induction l as [|x l IH] in d |- *; simpl; [by destruct d|]. by rewrite IH. Qed.

Lemma store_lease d f : store_inv d → store_inv (upd_gc_lease f d).
Proof. intros Hst. eapply same_store_inv; [|exact Hst]. done. Qed.

(** The sweep of unreferenced manifests when a lease is taken. *)
Definition swept (lease : GcLeaseId) (d : Db) : Db :=
  upd_manifests (λ m, foldl (λ m id, delete id m) m
    (filter (λ id, id ∉ active_manifests d) (kv_sorted (manifests d)).*1))
    (upd_gc_lease (λ _, Some lease) d).

Lemma swept_store lease d : store_inv d → store_inv (swept lease d).
Proof.
  intros Hst. apply store_sweep; [by apply store_lease|..]; apply sweep_filter_sub.
Qed.

Lemma plan_chunks_spec d l s :
  (∀ mid, mid ∈ l → is_Some (manifests d !! mid)) →
  ∃ s', plan_chunks d l s = Ok s' ∧
    ∀ c, c ∈ s' ↔ c ∈ s ∨ ∃ mid m, mid ∈ l ∧ manifests d !! mid = Some m ∧ c ∈ local_chunks m.
Proof.
  induction l as [|mid l IH] in s |- *; intros Hex; simpl.
  { exists s. split; [done|]. intros c. split; [by left|].
    intros [?|(?&?&?%elem_of_nil&_)]; done. }
  destruct (Hex mid (list_elem_of_here _ _)) as [m Hm]. rewrite Hm.
  destruct (IH (list_to_set (local_chunks m) ∪ s)) as (s'&->&Hel); [intros; apply Hex; by right|].
  exists s'. split; [done|]. intros c. rewrite Hel, elem_of_union, elem_of_list_to_set. split.
  - intros [[?|?]|(mid'&m'&?&?&?)]; [right|by left|right].
    + exists mid, m. split; [left|done].
    + exists mid', m'. split; [by right|done].
  - intros [?|(mid'&m'&[->|?]%elem_of_cons&?&?)]; [by left; right| |].
    + left. left. by simplify_eq.
    + right. by exists mid', m'.
Qed.

(** The plan always exists and lists exactly the chunks of live manifests. *)
Lemma gc_plan_spec d lease :
  store_inv d →
  ∃ l, gc_plan d lease = Ok (mkGcPlan lease l 0) ∧ ∀ c, c ∈ l ↔ manifest_live d c.
Proof.
  intros Hst. unfold gc_plan.
  destruct (plan_chunks_spec d (sort_by_key (λ c, c) (elements (active_manifests d))) ∅)
    as (s'&->&Hel).
  { intros mid. rewrite sort_by_key_perm, elem_of_elements.
    intros (id&i&Hi&Hmid)%elem_of_active_manifests. by eapply st_manifest. }
  simpl. eexists. split; [done|]. intros c. rewrite sort_by_key_perm, elem_of_elements, Hel.
  unfold manifest_live. split.
  - intros [?%elem_of_empty|(mid&m&Hin&Hm&Hc)]; [done|].
    rewrite sort_by_key_perm, elem_of_elements in Hin.
    apply elem_of_active_manifests in Hin as (id&i&?&?). by exists id, i, mid, m.
  - intros (id&i&mid&m&?&?&?&?). right. exists mid, m.
    rewrite sort_by_key_perm, elem_of_elements. split_and!; try done.
    apply elem_of_active_manifests. eauto.
Qed.

Lemma begin_gc_store lease d r d' :
  store_inv d → begin_gc_in_txn lease d = (r, d') → store_inv d'.
Proof.
  intros Hst H. unfold begin_gc_in_txn in H. rewrite txn_bind_gets in H.
  destruct (gc_lease d) as [cur|]; [by db_inv H|].
  rewrite txn_bind_modify, !txn_bind_gets in H. cbv zeta in H.
  erewrite txn_bind_ok in H by apply for_each_modify.
  rewrite fold_upd_manifests in H. db_inv H; exact (swept_store lease d Hst).
Qed.

Lemma finish_gc_store lease d r d' :
  store_inv d → finish_gc_in_txn lease d = (r, d') → store_inv d'.
Proof.
  intros Hst H. unfold finish_gc_in_txn in H. db_inv H; [|done]. by apply store_lease.
Qed.
