(* ===== verification/Membership.v ===== *)
(** * Worker membership ([crates/meta/src/heed_store.rs])

    The durable registry of chunk workers: [register_worker_in_txn] adds a
    worker or renews its lease, refusing duplicate endpoints and stale
    deadlines, and advances the membership epoch whenever placement may
    change. *)

From S2P Require Import MetaDb.

Local Open Scope N_scope.

Definition membership_of (d : Db) : WorkerMembership :=
  default WorkerMembership_default (worker_membership d).

(** The test that decides whether a renewal advances the epoch. *)
Definition placement_changed (current registration : WorkerRegistration) : bool :=
  bool_decide (wr_endpoint current ≠ wr_endpoint registration)
  || bool_decide (wr_failure_domain current ≠ wr_failure_domain registration)
  || bool_decide (wr_capacity_bytes current ≠ wr_capacity_bytes registration)
  || bool_decide (wr_available_bytes current ≠ wr_available_bytes registration).

Definition register_worker_in_txn (registration : WorkerRegistration) : M WorkerMembership :=
  _ ← lift (WorkerRegistration_validate registration);
  membership ← gets membership_of;
  let workers := wm_workers membership in
  _ ← fail_if (existsb (λ w, negb (wr_id w =? wr_id registration)
                             && bool_decide (wr_endpoint w = wr_endpoint registration)) workers)
        (InvalidArg ("worker endpoint " +:+ wr_endpoint registration
                     +:+ " is already registered to another id"));
  '(workers, epoch) ←
    match list_find (λ w, wr_id w = wr_id registration) workers with
    | Some (i, current) =>
        _ ← fail_if (wr_lease_deadline_ms registration <? wr_lease_deadline_ms current)
              (CasFailed (wr_lease_deadline_ms current) (wr_lease_deadline_ms registration));
        mret (<[i := registration]> workers,
              if placement_changed current registration
              then sat_add (wm_epoch membership) 1 else wm_epoch membership)
    | None => mret (workers ++ [registration], sat_add (wm_epoch membership) 1)
    end;
  let membership := mkWorkerMembership epoch (sort_by_key wr_id workers) in
  _ ← modify (upd_worker_membership (λ _, Some membership));
  mret membership.

(** ** The registry invariant *)

Record membership_ok (m : WorkerMembership) : Prop := {
  mo_ids : NoDup (wr_id <$> wm_workers m);
  mo_sorted : StronglySorted (key_le wr_id) (wm_workers m);
  mo_endpoints : NoDup (wr_endpoint <$> wm_workers m);
  mo_valid : Forall (λ w, WorkerRegistration_validate w = Ok tt) (wm_workers m)
}.

(** The registration of an id, if any. *)
Definition worker (m : WorkerMembership) (id : WorkerTargetId) : option WorkerRegistration :=
  snd <$> list_find (λ w, wr_id w = id) (wm_workers m).

Lemma worker_Some m id w :
  NoDup (wr_id <$> wm_workers m) →
  worker m id = Some w ↔ w ∈ wm_workers m ∧ wr_id w = id.
Proof.
  intros Hnd. unfold worker. split.
  - destruct (list_find _ _) as [[i x]|] eqn:Hf; intros; simplify_eq/=.
    apply list_find_Some in Hf as (Hi&?&_). split; [by eapply list_elem_of_lookup_2|done].
  - intros [Hin Hid]. apply list_elem_of_lookup in Hin as [i Hi].
    destruct (list_find _ _) as [[j x]|] eqn:Hf; simpl.
    + apply list_find_Some in Hf as (Hj&Hx&_). f_equal.
      assert (i = j) as ->; [|congruence].
      eapply NoDup_lookup; [exact Hnd|rewrite list_lookup_fmap, Hi; done|].
      rewrite list_lookup_fmap, Hj. simpl. congruence.
    + apply list_find_None in Hf. rewrite Forall_forall in Hf.
      destruct (Hf w); [by eapply list_elem_of_lookup_2|done].
Qed.

(** Replacing the [i]-th element, up to order. *)
Lemma insert_perm {A} (l : list A) i x y :
  l !! i = Some x → ∃ k, l ≡ₚ x :: k ∧ <[i := y]> l ≡ₚ y :: k.
Proof.
  intros Hi. exists (take i l ++ drop (S i) l).
  rewrite insert_take_drop by (by eapply lookup_lt_Some).
  rewrite <-(take_drop_middle l i x) at 1 by done.
  split; symmetry; apply Permutation_middle.
Qed.

(** [k] is the registry without the entry of [reg]'s id; [old] is that entry. *)
Lemma upsert_ok m0 reg epoch (old : option WorkerRegistration) k ws :
  membership_ok m0 → WorkerRegistration_validate reg = Ok tt →
  (∀ w, w ∈ wm_workers m0 → wr_id w ≠ wr_id reg → wr_endpoint w ≠ wr_endpoint reg) →
  wm_workers m0 ≡ₚ option_list old ++ k → (∀ w, old = Some w → wr_id w = wr_id reg) →
  (∀ w, w ∈ k → wr_id w ≠ wr_id reg) → ws ≡ₚ reg :: k →
  let m := mkWorkerMembership epoch (sort_by_key wr_id ws) in
  membership_ok m ∧ worker m (wr_id reg) = Some reg ∧
  (∀ id, id ≠ wr_id reg → worker m id = worker m0 id).
Proof.
  intros Hok0 Hv Hep Hm0 Hold Hk Hws. assert (Hok := Hok0).
  destruct Hok as [Hids Hsort Hends Hval]. simpl.
  assert (sort_by_key wr_id ws ≡ₚ reg :: k) as Hs by (by rewrite sort_by_key_perm).
  assert (∀ w, w ∈ k → w ∈ wm_workers m0) as Hsub by (intros w ?; rewrite Hm0; set_solver).
  rewrite Hm0, fmap_app in Hids. rewrite Hm0, fmap_app in Hends. rewrite Hm0 in Hval.
  apply NoDup_app in Hids as (_&_&Hids). apply NoDup_app in Hends as (_&_&Hends).
  apply Forall_app in Hval as [_ Hval].
  set (m := mkWorkerMembership _ _).
  assert (membership_ok m) as Hok.
  { split; simpl; [|apply sort_by_key_sorted| |]; rewrite Hs; simpl; constructor; try done;
      rewrite list_elem_of_fmap; intros (w&Heq&Hin).
    - by eapply Hk.
    - eapply Hep; eauto. }
  split; [done|]. split; [apply worker_Some; [apply Hok|]; simpl; rewrite Hs; split; [left|done]|].
  intros id Hne. apply option_eq. intros w.
  rewrite !worker_Some by (apply Hok || apply Hok0). simpl. rewrite Hs, Hm0, elem_of_cons.
  destruct old as [w0|]; simpl; rewrite ?elem_of_cons; [|naive_solver].
  specialize (Hold w0 eq_refl). naive_solver.
Qed.

(** The effect of a registration on a well-formed registry. *)
Definition register_effect (reg : WorkerRegistration) (d : Db)
    (r : Result WorkerMembership) (d' : Db) : Prop :=
  let m0 := membership_of d in
  match r with
  | Err _ => d' = d
  | Ok m =>
      d' = upd_worker_membership (λ _, Some m) d ∧ membership_ok m ∧
      worker m (wr_id reg) = Some reg ∧
      (∀ id, id ≠ wr_id reg → worker m id = worker m0 id) ∧
      match worker m0 (wr_id reg) with
      | Some w =>
          wr_lease_deadline_ms w ≤ wr_lease_deadline_ms reg ∧
          wm_epoch m = (if placement_changed w reg then sat_add (wm_epoch m0) 1
                        else wm_epoch m0)
      | None => wm_epoch m = sat_add (wm_epoch m0) 1
      end
  end.

Lemma register_worker_cases reg d r d' :
  membership_ok (membership_of d) → register_worker_in_txn reg d = (r, d') →
  register_effect reg d r d'.
Proof.
  intros Hok H. unfold register_worker_in_txn in H.
  db_step H Hv; db_inv Hv; [|done]. destruct x. rewrite txn_bind_gets in H. cbv zeta in H.
  db_step H Hm; db_inv Hm; [|done]. unfold register_effect. cbv zeta.
  set (m0 := membership_of d) in *.
  assert (∀ w, w ∈ wm_workers m0 → wr_id w ≠ wr_id reg → wr_endpoint w ≠ wr_endpoint reg) as Hep.
  { intros w Hin Hid Heq. apply not_true_iff_false in Hb. apply Hb, existsb_exists. exists w.
    rewrite <-list_elem_of_In. split; [done|].
    by rewrite (proj2 (N.eqb_neq _ _)), bool_decide_true. }
  destruct (list_find (λ w, wr_id w = wr_id reg) (wm_workers m0)) as [[i w]|] eqn:Hf.
  - assert (worker m0 (wr_id reg) = Some w) as -> by (unfold worker; by rewrite Hf).
    apply list_find_Some in Hf as (Hi&Hid&_).
    destruct (insert_perm _ _ _ reg Hi) as (k&Hk1&Hk2).
    db_step H Hl; db_inv Hl; bools; [|done]. simplify_eq/=. db_inv H.
    assert (∀ w', w' ∈ k → wr_id w' ≠ wr_id reg) as Hk.
    { intros w' Hin Heq. destruct Hok as [Hids _ _ _]. rewrite Hk1 in Hids. simpl in Hids.
      apply NoDup_cons in Hids as [Hni _]. apply Hni. rewrite Hid, <-Heq.
      apply list_elem_of_fmap. eauto. }
    destruct (upsert_ok m0 reg (if placement_changed w reg then sat_add (wm_epoch m0) 1
      else wm_epoch m0) (Some w) k (<[i:=reg]> (wm_workers m0)) Hok Hv Hep Hk1) as (?&?&?); [congruence|done|done|].
    by split_and!.
  - assert (worker m0 (wr_id reg) = None) as -> by (unfold worker; by rewrite Hf).
    apply list_find_None in Hf. rewrite Forall_forall in Hf.
    db_step H Hl; db_inv Hl. db_inv H.
    destruct (upsert_ok m0 reg (sat_add (wm_epoch m0) 1) None (wm_workers m0)
      (wm_workers m0 ++ [reg]) Hok Hv Hep) as (?&?&?); [done|done|exact Hf|by rewrite Permutation_app_comm|].
    by split_and!.
Qed.

(** ** Properties *)

(** [register_worker_in_txn] keeps the registry well formed (unique ids
    and endpoints, sorted by id, every entry valid), installs the new
    registration, leaves every other worker as it was, never moves a lease
    deadline backwards, and advances the epoch exactly for a new worker or a
    change that placement can see; a refused registration changes nothing. *)
Theorem register_worker_spec reg d r d' :
  membership_ok (membership_of d) → register_worker_in_txn reg d = (r, d') →
  register_effect reg d r d'.
Proof. apply register_worker_cases. Qed.

Definition empty_db : Db :=
  mkDb ∅ ∅ ∅ ∅ ∅ None None None None None None ∅ ∅ ∅.

Definition example_worker : WorkerRegistration :=
  mkWorkerRegistration 7 "http://w7" "rack-a" 100 50 1000.

Lemma register_worker_spec_witness :
  membership_ok (membership_of empty_db) ∧
  ∃ m d', register_worker_in_txn example_worker empty_db = (Ok m, d') ∧
          worker m 7 = Some example_worker ∧ wm_epoch m = 1.
Proof.
  assert (membership_ok (membership_of empty_db)) as Hok.
  { split; simpl; constructor. }
  split; [exact Hok|].
  destruct (register_worker_in_txn example_worker empty_db) as [r d'] eqn:Hrun.
  assert (H := register_worker_spec _ _ _ _ Hok Hrun).
  destruct r as [m|e].
  - exists m, d'. destruct H as (_&_&Hw&_&He). split; [reflexivity|]. split; [exact Hw|].
    exact He.
  - exfalso. vm_compute in Hrun. discriminate Hrun.
Defined.
