(* ===== verification/Ledger.v ===== *)
(** * The client request ledger ([crates/meta/src/heed_store.rs])

    Every mutation logged through Raft may carry a client-chosen
    [RequestOpId].  The ledger keeps the response of each such request for
    [CLIENT_REQUEST_RETENTION_MS], so that a retry of the same request gets
    the same answer without running again.  Rows are dropped only after they
    expire, oldest first.  Rows are held decoded; a row written before
    entries had an expiry decodes to one that expired at time 0. *)

From S2P Require Import MetaDb.

Local Open Scope N_scope.

(** ** Request ids: 16 bytes, read as a big-endian number *)

Abbreviation RequestOpId := N (only parsing).

Definition RequestOpId_to_hex (id : RequestOpId) : string := hex_encode (be_bytes 16 id).
Definition RequestOpId_is_none (id : RequestOpId) : bool := id =? 0.

(** [decode_client_request_bytes]: a current row, or a bare response. *)
Definition decode_client_request (row : ClientRequestLedgerEntry + MetaRaftResponse) :
    ClientRequestLedgerEntry :=
  match row with
  | inl entry => entry
  | inr resp => mkLedgerEntry 0 0 resp
  end.

Definition get_client_request_in_txn (op_id : string) (now_unix_ms : N) :
    M (option MetaRaftResponse) :=
  row ← gets (λ d, client_requests d !! op_id);
  match row with
  | None => mret None
  | Some entry =>
      if expires_at_unix_ms entry <=? now_unix_ms then mret None
      else mret (Some (response entry))
  end.

Definition put_client_request_in_txn (op_id : string) (resp : MetaRaftResponse)
    (created_at : N) : M unit :=
  modify (upd_client_requests
    <[op_id := mkLedgerEntry created_at (sat_add created_at CLIENT_REQUEST_RETENTION_MS) resp]>).

Definition client_request_count_in_txn : M N :=
  gets (λ d, N.of_nat (size (client_requests d))).

(** The order of [Vec<(u64, String)>::sort]. *)
Definition expiry_le : relation (N * string) :=
  λ a b, a.1 < b.1 ∨ (a.1 = b.1 ∧ Is_true (String.leb a.2 b.2)).
#[export] Instance expiry_le_dec : RelDecision expiry_le.
Proof. intros a b. unfold expiry_le. apply _. Defined.

(** The rows of [prune_client_requests_in_txn]'s scan, sorted. *)
Definition expired_rows (cutoff : N) (d : Db) : list (N * string) :=
  merge_sort expiry_le
    ((λ kv, (expires_at_unix_ms kv.2, kv.1)) <$>
       filter (λ kv, expires_at_unix_ms kv.2 ≤ cutoff) (map_to_list (client_requests d))).

Definition prune_client_requests_in_txn (cutoff_unix_ms max_to_prune : N) : M N :=
  if max_to_prune =? 0 then mret 0 else
  expired ← gets (expired_rows cutoff_unix_ms);
  let expired := take (N.to_nat max_to_prune) expired in
  _ ← for_each (λ x, modify (upd_client_requests (delete x.2))) expired;
  mret (N.of_nat (length expired)).

(** ** Lemmas *)

Lemma RequestOpId_to_hex_inj a b :
  a < 2 ^ 128 → b < 2 ^ 128 → RequestOpId_to_hex a = RequestOpId_to_hex b → a = b.
Proof.
  intros Ha Hb H. apply hex_encode_inj in H.
  by rewrite <-(of_be_bytes_be 16 a), <-(of_be_bytes_be 16 b), H.
Qed.

Lemma string_leb_cons c1 s1 c2 s2 :
  String.leb (String c1 s1) (String c2 s2) = true ↔
  Ascii.N_of_ascii c1 < Ascii.N_of_ascii c2 ∨
  (c1 = c2 ∧ String.leb s1 s2 = true).
Proof.
  unfold String.leb. simpl. unfold Ascii.compare.
  destruct (N.compare_spec (Ascii.N_of_ascii c1) (Ascii.N_of_ascii c2)) as [Heq|?|?].
  - assert (c1 = c2) as -> by (by rewrite <-(Ascii.ascii_N_embedding c1), Heq, Ascii.ascii_N_embedding).
    split; [auto|]. intros [?|[_ ?]]; [lia|done].
  - split; auto.
  - split; [done|]. intros [?|[-> _]]; lia.
Qed.

Lemma string_leb_trans s1 s2 s3 :
  String.leb s1 s2 = true → String.leb s2 s3 = true → String.leb s1 s3 = true.
Proof.
  induction s1 as [|c1 s1 IH] in s2, s3 |- *; intros H1 H2; [by destruct s3|].
  destruct s2 as [|c2 s2]; [done|]. destruct s3 as [|c3 s3]; [done|].
  rewrite string_leb_cons in *. destruct H1 as [?|[-> H1]], H2 as [?|[-> H2]]; eauto.
  left. lia.
Qed.

#[export] Instance expiry_le_trans : Transitive expiry_le.
Proof.
  intros [e1 k1] [e2 k2] [e3 k3]. unfold expiry_le. simpl. rewrite !Is_true_true.
  intros [?|[-> H1]] [?|[-> H2]]; [left; lia..|]. right. eauto using string_leb_trans.
Qed.
#[export] Instance expiry_le_total : Total expiry_le.
Proof.
  intros [e1 k1] [e2 k2]. unfold expiry_le. simpl. rewrite !Is_true_true.
  destruct (N.lt_trichotomy e1 e2) as [?|[->|?]]; [by left; left| |by right; left].
  destruct (String.leb_total k1 k2); [left|right]; right; auto.
Qed.

Lemma elem_of_expired_rows cutoff d x k :
  (x, k) ∈ expired_rows cutoff d ↔
  ∃ e, client_requests d !! k = Some e ∧ expires_at_unix_ms e = x ∧ x ≤ cutoff.
Proof.
  unfold expired_rows. rewrite merge_sort_Permutation, list_elem_of_fmap. split.
  - intros ([k' e]&Heq&[Hle Hin]%list_elem_of_filter). simplify_eq/=.
    apply elem_of_map_to_list in Hin. eauto.
  - intros (e&He&<-&Hle). exists (k, e). split; [done|].
    apply list_elem_of_filter. split; [done|]. by apply elem_of_map_to_list.
Qed.

(** The keys one prune removes. *)
Definition pruned_keys (cutoff max : N) (d : Db) : list string :=
  (take (N.to_nat max) (expired_rows cutoff d)).*2.

Lemma prune_run cutoff max d :
  prune_client_requests_in_txn cutoff max d =
  (Ok (N.of_nat (length (pruned_keys cutoff max d))),
   upd_client_requests (filter (λ kv, kv.1 ∉ pruned_keys cutoff max d)) d).
Proof.
  unfold prune_client_requests_in_txn, pruned_keys. destruct (N.eqb_spec max 0) as [->|Hne].
  - simpl. unfold mret, txn_ret. f_equal. destruct d; unfold upd_client_requests; simpl. f_equal.
    symmetry. apply map_filter_id. intros. apply not_elem_of_nil.
  - rewrite txn_bind_gets. cbv zeta. erewrite txn_bind_ok by apply for_each_modify.
    unfold mret, txn_ret. rewrite length_fmap. f_equal.
    set (l := take _ _). clearbody l.
    transitivity (upd_client_requests (λ m, foldl (λ m x, delete x.2 m) m l) d).
    + induction l as [|x l IH] in d |- *; simpl; [by destruct d|]. by rewrite IH.
    + unfold upd_client_requests. f_equal. apply foldl_delete.
Qed.

Lemma pruned_expired cutoff max d k :
  k ∈ pruned_keys cutoff max d →
  ∃ e, client_requests d !! k = Some e ∧ expires_at_unix_ms e ≤ cutoff.
Proof.
  unfold pruned_keys. rewrite list_elem_of_fmap. intros ([x k']&->&Hin).
  assert ((x, k') ∈ expired_rows cutoff d) as Hi
    by (rewrite <-(take_drop (N.to_nat max)); set_solver).
  apply elem_of_expired_rows in Hi as (e&?&<-&?). eauto.
Qed.

(** Anything in the sorted prefix comes before anything outside of it. *)
Lemma sorted_take_before {A} (R : relation A) (l : list A) n x y :
  StronglySorted R l → x ∈ take n l → y ∈ l → y ∉ take n l → R x y.
Proof.
  intros Hs Hx Hy Hny. rewrite <-(take_drop n l) in Hs, Hy.
  apply elem_of_app in Hy as [?|Hy]; [done|].
  by eapply StronglySorted_app_1_elem_of.
Qed.

Lemma pruned_oldest cutoff max d k1 e1 k2 e2 :
  client_requests d !! k1 = Some e1 → k1 ∈ pruned_keys cutoff max d →
  client_requests d !! k2 = Some e2 → k2 ∉ pruned_keys cutoff max d →
  expires_at_unix_ms e2 ≤ cutoff →
  expiry_le (expires_at_unix_ms e1, k1) (expires_at_unix_ms e2, k2).
Proof.
  intros H1 Hin H2 Hnin Hle. unfold pruned_keys in Hin, Hnin. rewrite list_elem_of_fmap in Hin, Hnin.
  destruct Hin as ([x k]&->&Hin).
  assert ((x, k) ∈ expired_rows cutoff d) as Hx
    by (rewrite <-(take_drop (N.to_nat max)); set_solver).
  apply elem_of_expired_rows in Hx as (e&He&<-&_). simplify_eq/=.
  eapply (sorted_take_before _ (expired_rows cutoff d)); [|exact Hin| |].
  - apply (StronglySorted_merge_sort _).
  - apply elem_of_expired_rows. eauto.
  - intros Hin2. apply Hnin. by exists (expires_at_unix_ms e2, k2).
Qed.

(** ** Properties *)

(** [prune_client_requests_in_txn] touches nothing but the ledger, keeps
    every row that has not expired at the cutoff, removes expired rows in the
    order (expiry, id), and removes as many of them as the limit allows. *)
Theorem prune_spec cutoff max d :
  ∃ f n, prune_client_requests_in_txn cutoff max d = (Ok n, upd_client_requests f d) ∧
    let ledger := client_requests d in let ledger' := f ledger in
    n = N.min max (N.of_nat (length (expired_rows cutoff d))) ∧
    (∀ k e, ledger' !! k = Some e → ledger !! k = Some e) ∧
    (∀ k e, ledger !! k = Some e → cutoff < expires_at_unix_ms e → ledger' !! k = Some e) ∧
    (∀ k1 e1 k2 e2,
       ledger !! k1 = Some e1 → ledger' !! k1 = None →
       ledger' !! k2 = Some e2 → expires_at_unix_ms e2 ≤ cutoff →
       expiry_le (expires_at_unix_ms e1, k1) (expires_at_unix_ms e2, k2)).
Proof.
  eexists _, _. split; [apply prune_run|]. cbv zeta. split_and!.
  - unfold pruned_keys. rewrite length_fmap, length_take. lia.
  - intros k e [H _]%map_lookup_filter_Some. done.
  - intros k e He Hlt. apply map_lookup_filter_Some. split; [done|]. simpl.
    intros (e'&?&?)%pruned_expired. simplify_eq. lia.
  - intros k1 e1 k2 e2 H1 Hn [H2 Hk2]%map_lookup_filter_Some Hle.
    eapply pruned_oldest; try done.
    apply map_lookup_filter_None in Hn as [Hn|Hn]; [congruence|].
    by apply dec_stable, (Hn e1).
Qed.
