(* ===== verification/Apply.v ===== *)
(** * The metadata state machine ([raft_types.rs], [heed_store.rs])

    [MetaRaftRequest] is what the Raft log carries; [apply_raft_request] runs
    one entry inside a single write transaction: it answers a retried request
    from the ledger, refuses new ones when the ledger is full, refuses
    mutations while a stop-the-world collection holds the lease, and
    otherwise dispatches to the operation, records the response and advances
    the applied markers.  A typed error is a response like any other: the
    transaction is committed with whatever the operation wrote before it
    failed. *)

From S2P Require Import MetaDb Namespace InodeData Gc Membership Ledger.

Local Open Scope N_scope.

(** ** Requests *)

(** The variants of [MetaRaftRequest] without the two fields all of them
    have, [request_id] and [ledger_now_unix_ms]. *)
Inductive MetaRaftOp :=
  | RegisterWorker (registration : WorkerRegistration)
  | CreateOp (parent : N) (name : string) (file_type : FileType) (mode uid gid : N)
      (expected_parent_generation : option N)
  | SymlinkOp (parent : N) (name target : string) (uid gid : N)
      (expected_parent_generation : option N)
  | PutInode (inode : Inode)
  | PutInodeCas (expected_generation : N) (inode : Inode)
  | PutManifest (manifest : Manifest)
  | CommitInodeManifest (expected_generation : N) (inode : Inode) (manifest : Manifest)
  | ReserveChunks (ticket inode expected_generation : N) (chunks : list ChunkId)
      (expires_at : N)
  | AbortChunkReservation (ticket : N)
  | ExpireChunkReservations (cutoff_unix_ms max_to_expire : N)
  | PruneClientRequests (cutoff_unix_ms max_to_prune : N)
  | CommitInodeManifestReserved (ticket expected_generation : N) (inode : Inode)
      (manifest : Manifest)
  | TombstoneGcBatch (candidates : list ChunkId)
  | FinalizeGcTombstones (chunks : list ChunkId)
  | InitializeGcDeleteTargets (chunks : list ChunkId) (targets : list WorkerTargetId)
  | AcknowledgeGcDeletes (deleted : list (ChunkId * WorkerTargetId))
  | BeginFlush (expected_generation inode : N) (intent : FlushIntent)
  | CommitFlush (expected_generation inode flush_id : N) (published_ufs : UfsObject)
  | FailFlushConflict (expected_generation inode flush_id : N) (error : string)
  | BeginGc (lease_id : GcLeaseId)
  | FinishGc (lease_id : GcLeaseId)
  | ImportExternal (parent : N) (name : string) (inode : Inode) (manifest : option Manifest)
      (expected_parent_generation : option N)
  | Unlink (parent : N) (name : string) (expected_parent_generation : option N)
  | OpenInode (session_id : string) (inode : N)
  | CloseInode (session_id : string) (inode : N)
  | RecoverSession (session_id : string)
  | Link (inode new_parent : N) (new_name : string) (expected_new_parent_generation : option N)
  | SetXattr (expected_generation inode : N) (name : string) (value : bytes)
      (mode : XattrSetMode)
  | RemoveXattr (expected_generation inode : N) (name : string)
  | Rmdir (parent : N) (name : string) (expected_parent_generation : option N)
  | Rename (old_parent : N) (old_name : string) (expected_old_parent_generation : option N)
      (new_parent : N) (new_name : string) (expected_new_parent_generation : option N)
      (no_replace : bool).

Record MetaRaftRequest := mkRequest {
  request_id : option RequestOpId;
  ledger_now_unix_ms : N;
  op : MetaRaftOp
}.

(** [req.request_id().filter(|id| !id.is_none())]. *)
Definition dedup_id (req : MetaRaftRequest) : option RequestOpId :=
  match request_id req with
  | Some id => if RequestOpId_is_none id then None else Some id
  | None => None
  end.

(** The requests that a stop-the-world collection does not block. *)
Definition gc_exempt (o : MetaRaftOp) : bool :=
  match o with RegisterWorker _ | BeginGc _ | FinishGc _ => true | _ => false end.

(** ** Dispatch *)

(** [match m { Ok(x) => ok(x), Err(e) => MetaRaftResponse::Err(e) }]. *)
Definition respond {A} (m : M A) (ok : A → MetaRaftResponse) : M MetaRaftResponse :=
  try_catch m ok RErr.

Definition NEEDS_RESERVATION : FluxError :=
  InvalidArg "Local manifest commit requires a pre-Put reservation".

(** The [match req] of [apply_raft_request]; [now] samples the wall clock. *)
Definition dispatch (now : nat → Z) (o : MetaRaftOp) : M MetaRaftResponse :=
  let empty {A} (_ : A) := REmpty in
  match o with
  | RegisterWorker registration =>
      respond (register_worker_in_txn registration) RWorkerMembership
  | CreateOp parent name file_type mode uid gid e =>
      respond (create_in_txn now e parent name file_type mode uid gid) RInode
  | SymlinkOp parent name target uid gid e =>
      respond (symlink_in_txn now e parent name target uid gid) RInode
  | PutInode inode => respond (put_inode_raw inode) empty
  | PutInodeCas g inode => respond (put_inode_cas_in_txn g inode) RInode
  | PutManifest manifest => respond (put_manifest_in_txn manifest) RManifestId
  | CommitInodeManifest g inode manifest =>
      if manifest_has_local manifest then mret (RErr NEEDS_RESERVATION)
      else respond (commit_inode_manifest_in_txn g inode manifest) RInode
  | ReserveChunks ticket inode g chunks expires =>
      respond (reserve_chunks_in_txn ticket inode g chunks expires) empty
  | AbortChunkReservation ticket => respond (abort_reservation_in_txn ticket) empty
  | ExpireChunkReservations cutoff limit =>
      respond (_ ← expire_reservations_in_txn cutoff limit;
               prune_client_requests_in_txn cutoff limit) empty
  | PruneClientRequests cutoff limit =>
      respond (prune_client_requests_in_txn cutoff limit) empty
  | CommitInodeManifestReserved ticket g inode manifest =>
      respond (commit_reserved_in_txn ticket g inode manifest) RInode
  | TombstoneGcBatch candidates => respond (tombstone_gc_batch_in_txn candidates) RGcBatch
  | FinalizeGcTombstones chunks => respond (finalize_tombstones_in_txn chunks) empty
  | InitializeGcDeleteTargets chunks targets =>
      respond (initialize_gc_targets_in_txn chunks targets) empty
  | AcknowledgeGcDeletes deleted => respond (acknowledge_gc_deletes_in_txn deleted) empty
  | BeginFlush g inode intent => respond (begin_flush_in_txn g inode intent) RInode
  | CommitFlush g inode flush_id published =>
      respond (commit_flush_in_txn g inode flush_id published) RInode
  | FailFlushConflict g inode flush_id error =>
      respond (fail_flush_conflict_in_txn g inode flush_id error) RInode
  | BeginGc lease_id => respond (begin_gc_in_txn lease_id) RGcPlan
  | FinishGc lease_id => respond (finish_gc_in_txn lease_id) empty
  | ImportExternal parent name inode manifest e =>
      respond (import_external_in_txn now e parent name inode manifest) RInode
  | Unlink parent name e => respond (unlink_in_txn now e parent name) empty
  | OpenInode session_id inode => respond (open_inode_in_txn session_id inode) empty
  | CloseInode session_id inode => respond (close_inode_in_txn session_id inode) empty
  | RecoverSession session_id => respond (recover_session_in_txn session_id) empty
  | Link inode new_parent new_name e =>
      respond (link_in_txn now e inode new_parent new_name) RInode
  | SetXattr g inode name value mode =>
      respond (set_xattr_in_txn now g inode name value mode) RInode
  | RemoveXattr g inode name => respond (remove_xattr_in_txn now g inode name) RInode
  | Rmdir parent name e => respond (rmdir_in_txn now e parent name) empty
  | Rename old_parent old_name eo new_parent new_name en no_replace =>
      respond (rename_in_txn now eo old_parent old_name en new_parent new_name no_replace)
        RInode
  end.

Definition put_sm_meta_raw (sm : SmAppliedMeta) : M unit :=
  modify (upd_sm_meta (λ _, Some sm)).

(** The [gc_blocked] test and the dispatch under it. *)
Definition execute (now : nat → Z) (o : MetaRaftOp) : M MetaRaftResponse :=
  lease ← gets gc_lease;
  if is_some lease && negb (gc_exempt o) then mret (RErr Busy) else dispatch now o.

Definition apply_raft_request (now : nat → Z) (req : MetaRaftRequest) (sm : SmAppliedMeta) :
    M MetaRaftResponse :=
  let ledger_now := ledger_now_unix_ms req in
  match dedup_id req with
  | Some op_id =>
      cached ← get_client_request_in_txn (RequestOpId_to_hex op_id) ledger_now;
      match cached with
      | Some resp => _ ← put_sm_meta_raw sm; mret resp
      | None =>
          _ ← prune_client_requests_in_txn ledger_now CLIENT_REQUEST_PRUNE_BATCH;
          count ← client_request_count_in_txn;
          if CLIENT_REQUEST_LEDGER_SOFT_CAP <=? count
          then _ ← put_sm_meta_raw sm; mret (RErr Busy)
          else
            resp ← execute now (op req);
            _ ← put_client_request_in_txn (RequestOpId_to_hex op_id) resp ledger_now;
            _ ← put_sm_meta_raw sm;
            mret resp
      end
  | None =>
      resp ← execute now (op req);
      _ ← put_sm_meta_raw sm;
      mret resp
  end.

(** [with_write_txn]: the direct (non-Raft) path drops the transaction on an
    error and refuses everything while the lease is held. *)
Definition with_write_txn {A} (m : M A) (d : Db) : Result A * Db :=
  if is_some (gc_lease d) then (Err Busy, d)
  else match m d with
       | (Ok a, d') => (Ok a, d')
       | (Err e, _) => (Err e, d)
       end.

(** [save_sm_meta_only]: a blank or membership entry. *)
Definition save_sm_meta_only (sm : SmAppliedMeta) (d : Db) : Db :=
  upd_sm_meta (λ _, Some sm) d.
