(* ===== verification/HeedStore.v ===== *)
(** * The direct store ([HeedMetaStore]'s [MetaStore], [heed_store.rs])

    The methods of the [MetaStore] trait as the embedded store implements
    them: reads of one snapshot, and writes that each run in one write
    transaction.  [now] samples the clock inside a transaction,
    [ms] is [unix_time_millis()] at the call.  [debug] is the derived [Debug]
    rendering of a response, used in two error messages. *)

From S2P Require Import MetaDb Namespace InodeData Gc Membership Ledger Apply.

Local Open Scope N_scope.

Definition WRITE_RESERVATION_TTL_MS : N := 15 * 60 * 1000.
Definition write_reservation_deadline (ms : N) : N := sat_add ms WRITE_RESERVATION_TTL_MS.

(** ** Reads *)

Definition heed_get_inode (id : InodeId) (d : Db) : Result Inode :=
  ok_or NotFound (inodes d !! id).
Definition heed_worker_membership (d : Db) : Result WorkerMembership := Ok (membership_of d).
Definition heed_list_gc_tombstones (d : Db) : Result (list GcTombstone) := Ok (list_tombstones d).
Definition heed_get_manifest (id : N) (d : Db) : Result Manifest := ok_or NotFound (manifests d !! id).
Definition heed_current_gc_plan (d : Db) : Result (option GcPlan) :=
  match gc_lease d with
  | None => Ok None
  | Some lease => plan ← gc_plan d lease; Ok (Some plan)
  end.

Section writes.
Context (now : nat → Z) (ms : N) (debug : MetaRaftResponse → string).

(** A write method: the result and the database after the transaction was
    committed or dropped. *)
Abbreviation W A := (Db → Result A * Db).

(** A transaction committed on success and dropped on an error, without the
    lease test of [with_write_txn]. *)
Definition commit_or_drop {A} (m : M A) : W A := λ d,
  match m d with
  | (Ok a, d') => (Ok a, d')
  | (Err e, _) => (Err e, d)
  end.

Definition heed_register_worker (registration : WorkerRegistration) : W WorkerMembership :=
  with_write_txn (register_worker_in_txn registration).

Definition heed_create_cas (expected_parent_generation : option N) (parent : InodeId)
    (name : string) (file_type : FileType) (mode uid gid : N) : W Inode :=
  with_write_txn (create_in_txn now expected_parent_generation parent name file_type mode uid gid).

Definition heed_symlink_cas (expected_parent_generation : option N) (parent : InodeId)
    (name target : string) (uid gid : N) : W Inode :=
  with_write_txn (symlink_in_txn now expected_parent_generation parent name target uid gid).

Definition heed_put_inode (inode : Inode) : W unit := λ d,
  if is_some (gc_lease d) then (Err Busy, d) else commit_or_drop (put_inode_raw inode) d.

Definition heed_put_inode_cas (expected_generation : N) (inode : Inode) : W Inode :=
  with_write_txn (put_inode_cas_in_txn expected_generation inode).

Definition heed_put_manifest (manifest : Manifest) : W N := λ d,
  match Manifest_validate manifest with
  | Err e => (Err e, d)
  | Ok _ => if is_some (gc_lease d) then (Err Busy, d)
            else commit_or_drop (put_manifest_in_txn manifest) d
  end.

(** The body that [commit_inode_manifest_with_id] and
    [import_external_with_id] share: a retained answer is returned without
    a write, a full ledger refuses, and otherwise the operation's answer,
    error or not, is retained and the transaction committed. *)
Definition ledgered (op_id : RequestOpId) (what : string) (m : M Inode) : W Inode := λ d,
  if is_some (gc_lease d) then (Err Busy, d) else
  let hex := RequestOpId_to_hex op_id in
  let run (d : Db) : Result Inode * Db :=
    match m d with
    | (Ok inode, d1) =>
        (Ok inode, if RequestOpId_is_none op_id then d1
                   else (put_client_request_in_txn hex (RInode inode) ms d1).2)
    | (Err err, d1) =>
        (Err err, if RequestOpId_is_none op_id then d1
                  else (put_client_request_in_txn hex (RErr err) ms d1).2)
    end in
  if RequestOpId_is_none op_id then run d else
  match (get_client_request_in_txn hex ms d).1 with
  | Err e => (Err e, d)
  | Ok (Some (RInode inode)) => (Ok inode, d)
  | Ok (Some (RErr err)) => (Err err, d)
  | Ok (Some other) => (Err (Meta ("bad retained " +:+ what +:+ " response: " +:+ debug other)), d)
  | Ok None =>
      match prune_client_requests_in_txn ms CLIENT_REQUEST_PRUNE_BATCH d with
      | (Err e, _) => (Err e, d)
      | (Ok _, d1) =>
          if CLIENT_REQUEST_LEDGER_SOFT_CAP <=? N.of_nat (size (client_requests d1))
          then (Err Busy, d) else run d1
      end
  end.

Definition heed_commit_inode_manifest_with_id (op_id : RequestOpId) (expected_generation : N)
    (inode : Inode) (manifest : Manifest) : W Inode := λ d,
  if manifest_has_local manifest then (Err NEEDS_RESERVATION, d)
  else ledgered op_id "commit" (commit_inode_manifest_in_txn expected_generation inode manifest) d.

Definition heed_reserve_chunks (ticket : WriteTicketId) (inode : InodeId)
    (expected_generation : N) (chunks : list ChunkId) : W unit :=
  with_write_txn (reserve_chunks_in_txn ticket inode expected_generation chunks
                    (write_reservation_deadline ms)).

Definition heed_abort_chunk_reservation (ticket : WriteTicketId) : W unit :=
  with_write_txn (abort_reservation_in_txn ticket).

Definition heed_expire_chunk_reservations (max_to_expire : N) : W unit :=
  with_write_txn (_ ← expire_reservations_in_txn ms max_to_expire; mret tt).

Definition heed_prune_client_requests (max_to_prune : N) : W unit :=
  with_write_txn (_ ← prune_client_requests_in_txn ms max_to_prune; mret tt).

Definition heed_commit_inode_manifest_reserved_with_id (ticket : WriteTicketId)
    (expected_generation : N) (inode : Inode) (manifest : Manifest) : W Inode :=
  with_write_txn (commit_reserved_in_txn ticket expected_generation inode manifest).

Definition heed_tombstone_gc_batch (candidates : list ChunkId) : W GcBatch :=
  with_write_txn (tombstone_gc_batch_in_txn candidates).

Definition heed_initialize_gc_delete_targets (chunks : list ChunkId)
    (targets : list WorkerTargetId) : W unit :=
  with_write_txn (initialize_gc_targets_in_txn chunks targets).

Definition heed_acknowledge_gc_deletes (deleted : list (ChunkId * WorkerTargetId)) : W unit :=
  with_write_txn (acknowledge_gc_deletes_in_txn deleted).

Definition heed_finalize_gc_tombstones (chunks : list ChunkId) : W unit :=
  with_write_txn (finalize_tombstones_in_txn chunks).

Definition heed_begin_flush_with_id (expected_generation : N) (inode : InodeId)
    (intent : FlushIntent) : W Inode :=
  with_write_txn (begin_flush_in_txn expected_generation inode intent).

Definition heed_commit_flush_with_id (expected_generation : N) (inode : InodeId)
    (flush_id : FlushId) (published_ufs : UfsObject) : W Inode :=
  with_write_txn (commit_flush_in_txn expected_generation inode flush_id published_ufs).

Definition heed_fail_flush_conflict (expected_generation : N) (inode : InodeId)
    (flush_id : FlushId) (error : string) : W Inode :=
  with_write_txn (fail_flush_conflict_in_txn expected_generation inode flush_id error).

Definition heed_begin_gc (lease_id : GcLeaseId) : W GcPlan := commit_or_drop (begin_gc_in_txn lease_id).

Definition heed_finish_gc (lease_id : GcLeaseId) : W unit := commit_or_drop (finish_gc_in_txn lease_id).

Definition heed_import_external_with_id (op_id : RequestOpId)
    (expected_parent_generation : option N) (parent : InodeId) (name : string) (inode : Inode)
    (manifest : option Manifest) : W Inode :=
  ledgered op_id "import"
    (import_external_in_txn now expected_parent_generation parent name inode manifest).

Definition heed_unlink_cas (expected_parent_generation : option N) (parent : InodeId)
    (name : string) : W unit :=
  with_write_txn (unlink_in_txn now expected_parent_generation parent name).

Definition heed_open_inode (session_id : string) (inode : InodeId) : W unit :=
  with_write_txn (open_inode_in_txn session_id inode).

Definition heed_close_inode (session_id : string) (inode : InodeId) : W unit :=
  with_write_txn (close_inode_in_txn session_id inode).

Definition heed_recover_session (session_id : string) : W unit :=
  with_write_txn (recover_session_in_txn session_id).

Definition heed_rmdir_cas (expected_parent_generation : option N) (parent : InodeId)
    (name : string) : W unit :=
  with_write_txn (rmdir_in_txn now expected_parent_generation parent name).

Definition heed_link_cas (expected_new_parent_generation : option N) (inode new_parent : InodeId)
    (new_name : string) : W Inode :=
  with_write_txn (link_in_txn now expected_new_parent_generation inode new_parent new_name).

Definition heed_set_xattr_cas (expected_generation : N) (inode : InodeId) (name : string)
    (value : bytes) (mode : XattrSetMode) : W Inode :=
  with_write_txn (set_xattr_in_txn now expected_generation inode name value mode).

Definition heed_remove_xattr_cas (expected_generation : N) (inode : InodeId) (name : string) : W Inode :=
  with_write_txn (remove_xattr_in_txn now expected_generation inode name).

Definition heed_rename_cas (expected_old_parent_generation : option N) (old_parent : InodeId)
    (old_name : string) (expected_new_parent_generation : option N) (new_parent : InodeId)
    (new_name : string) (no_replace : bool) : W Inode :=
  with_write_txn (rename_in_txn now expected_old_parent_generation old_parent old_name
                    expected_new_parent_generation new_parent new_name no_replace).
End writes.
