(* ===== verification/Frame.v ===== *)
(** * Frames

    What the operations of the state machine do not write.  A view of the
    database that ignores the tables an operation writes is the same before
    and after it, whether it succeeds or fails. *)

From S2P Require Import MetaDb Namespace InodeData Gc Membership Ledger Apply.

Local Open Scope N_scope.

(** ** Views *)

(** A view that ignores the tables of inodes, manifests, reservations and
    their counters. *)
Class data_frame {T} (f : Db → T) : Prop := {
  df_inodes g d : f (upd_inodes g d) = f d;
  df_xattrs g d : f (upd_xattrs g d) = f d;
  df_manifests g d : f (upd_manifests g d) = f d;
  df_next_inode g d : f (upd_next_inode g d) = f d;
  df_next_manifest g d : f (upd_next_manifest g d) = f d;
  df_reservations g d : f (upd_reservations g d) = f d;
  df_tombstones g d : f (upd_tombstones g d) = f d;
  df_open_presences g d : f (upd_open_presences g d) = f d
}.

(** A view that ignores directory entries. *)
Class name_frame {T} (f : Db → T) : Prop :=
  nf_dentries g d : f (upd_dentries g d) = f d.

(** The parts of the database that only the state machine itself, worker
    registration and the collection lease write. *)
Definition aux (d : Db) :=
  (worker_membership d, client_requests d, sm_meta d, schema_version d, gc_lease d).

#[export] Instance aux_data : data_frame aux.
Proof. by split. Qed.
#[export] Instance aux_name : name_frame aux.
Proof. done. Qed.
#[export] Instance dentries_data : data_frame dentries.
Proof. by split. Qed.

(** ** Framed operations *)

Definition framed {T} (f : Db → T) {A} (m : M A) : Prop := ∀ a, keeps (λ d, f d = a) m.

Section framed.
Context {T} {f : Db → T}.

Lemma framed_run {A} (m : M A) d r d' : framed f m → m d = (r, d') → f d' = f d.
Proof. intros Hm H. by eapply Hm. Qed.

Lemma framed_bind {A B} (m : M A) (k : A → M B) :
  framed f m → (∀ a, framed f (k a)) → framed f (m ≫= k).
Proof. intros Hm Hk x. apply keeps_bind; [apply Hm|]. intros a. apply Hk. Qed.

Lemma framed_for_each {A} (g : A → M unit) l :
  (∀ x, framed f (g x)) → framed f (for_each g l).
Proof. intros Hg a. apply keeps_for_each. intros x _. apply Hg. Qed.

Lemma framed_modify g : (∀ d, f (g d) = f d) → framed f (modify g).
Proof. intros Hg a. apply keeps_modify. intros d <-. apply Hg. Qed.

Lemma framed_reads {A} (g : Db → Result A) : framed f (reads g).
Proof. intros a d r d' H [= <- <-]. done. Qed.
Lemma framed_ret {A} (x : A) : framed f (mret x).
Proof. intros a. apply keeps_ret. Qed.
Lemma framed_throw {A} e : framed f (throw (A:=A) e).
Proof. intros a. apply keeps_throw. Qed.
Lemma framed_gets {A} (g : Db → A) : framed f (gets g).
Proof. intros a. apply keeps_gets. Qed.
Lemma framed_lift {A} (r : Result A) : framed f (lift r).
Proof. intros a. apply keeps_lift. Qed.
Lemma framed_fail_if b e : framed f (fail_if b e).
Proof. intros a. apply keeps_fail_if. Qed.
Lemma framed_when b m : framed f m → framed f (when b m).
Proof. intros Hm a. apply keeps_when, Hm. Qed.
Lemma framed_respond {A} (m : M A) g : framed f m → framed f (respond m g).
Proof. intros Hm a. apply keeps_try_catch, Hm. Qed.
End framed.

#[export] Hint Resolve framed_reads framed_ret framed_throw framed_gets framed_lift
  framed_fail_if framed_when : fluxfs.

(** One pass over the structure of an operation. *)
Ltac frame :=
  repeat first
    [ progress intros
    | apply framed_bind
    | apply framed_for_each
    | apply framed_when
    | solve [auto with fluxfs nocore]
    | apply framed_modify; intros;
      first [apply df_inodes|apply df_xattrs|apply df_manifests|apply df_next_inode
        |apply df_next_manifest|apply df_reservations|apply df_tombstones
        |apply df_open_presences|apply nf_dentries|reflexivity]
    | match goal with
      | |- framed _ (match ?x with _ => _ end) => destruct x
      end ].

Section data.
Context {T} {f : Db → T} `{!data_frame f}.

Lemma rows_framed :
  (∀ id, framed f (get_inode_raw id)) ∧ (∀ i, framed f (put_inode_raw i)) ∧
  (∀ k, framed f (get_dentry k)) ∧ framed f alloc_inode ∧ framed f alloc_manifest_id ∧
  (∀ i, framed f (next_generation i)) ∧ (∀ t, framed f (reservation_in_txn t)) ∧
  (∀ r, framed f (put_reservation_in_txn r)) ∧ (∀ t, framed f (abort_reservation_in_txn t)) ∧
  (∀ t, framed f (put_tombstone_in_txn t)).
Proof.
  unfold get_inode_raw, put_inode_raw, get_dentry, alloc_inode,
    alloc_manifest_id, next_generation, reservation_in_txn, put_reservation_in_txn,
    abort_reservation_in_txn, put_tombstone_in_txn. split_and!; frame.
Qed.
End data.

(** The same with the row operations as facts. *)
Ltac frame_op f :=
  pose proof (rows_framed (f := f)) as (?&?&?&?&?&?&?&?&?&?); frame; eauto with fluxfs nocore.

Section operations.
Context {T} {f : Db → T} `{!data_frame f}.

Lemma bump_framed t p e : framed f (load_and_bump_parent_dir t p e).
Proof. unfold load_and_bump_parent_dir. frame_op f. Qed.

Lemma delete_inode_framed id : framed f (delete_inode_in_txn id).
Proof. unfold delete_inode_in_txn. frame_op f. Qed.

Lemma put_manifest_framed m : framed f (put_manifest_in_txn m).
Proof. unfold put_manifest_in_txn. frame_op f. Qed.

Lemma install_clean_framed i fl it pub : framed f (install_clean i fl it pub).
Proof. unfold install_clean. frame_op f. Qed.

Lemma sweep_framed active l lv rm : framed f (sweep_manifests active l lv rm).
Proof. revert lv rm. induction l as [|[id m] l IH]; simpl; frame; auto. Qed.

Lemma find_tombstone_framed c : framed f (find_tombstone c).
Proof. unfold find_tombstone. frame. Qed.

Lemma expire_framed cutoff limit : framed f (expire_reservations_in_txn cutoff limit).
Proof. unfold expire_reservations_in_txn. frame_op f. Qed.
End operations.
#[export] Hint Resolve bump_framed delete_inode_framed put_manifest_framed install_clean_framed
  sweep_framed find_tombstone_framed expire_framed : fluxfs.

Section operations2.
Context {T} {f : Db → T} `{!data_frame f}.

Lemma reap_framed id : framed f (reap_unlinked_inode_if_unopened_in_txn id).
Proof. unfold reap_unlinked_inode_if_unopened_in_txn. frame. Qed.

Lemma remove_link_framed t i : framed f (remove_inode_link_in_txn t i).
Proof. unfold remove_inode_link_in_txn. frame_op f. Qed.

Lemma commit_manifest_framed g i m : framed f (commit_inode_manifest_in_txn g i m).
Proof. unfold commit_inode_manifest_in_txn. frame_op f. Qed.

Lemma names_framed `{!name_frame f} :
  (∀ k c, framed f (put_dentry k c)) ∧ (∀ k, framed f (delete_dentry k)).
Proof. unfold put_dentry, delete_dentry. split; frame. Qed.
End operations2.
#[export] Hint Resolve reap_framed remove_link_framed commit_manifest_framed : fluxfs.

(** ** Requests *)

(** The requests that rebind names. *)
Definition name_op (o : MetaRaftOp) : bool :=
  match o with
  | CreateOp _ _ _ _ _ _ _ | SymlinkOp _ _ _ _ _ _ | ImportExternal _ _ _ _ _
  | Unlink _ _ _ | Link _ _ _ _ | Rmdir _ _ _ | Rename _ _ _ _ _ _ _ => true
  | _ => false
  end.

(** The requests that write only the tables of the store. *)
Definition store_op (o : MetaRaftOp) : bool :=
  match o with
  | RegisterWorker _ | BeginGc _ | FinishGc _
  | ExpireChunkReservations _ _ | PruneClientRequests _ _ => false
  | _ => true
  end.

Lemma data_op_framed {T} (f : Db → T) `{!data_frame f} now o :
  store_op o = true → name_op o = false → framed f (dispatch now o).
Proof.
  destruct o; intros Ho Hn; try discriminate Ho; try discriminate Hn; cbn [dispatch];
    try (destruct (manifest_has_local _); [apply framed_ret|]); apply framed_respond;
    unfold put_inode_cas_in_txn, reserve_chunks_in_txn, commit_reserved_in_txn,
      tombstone_gc_batch_in_txn, finalize_tombstones_in_txn, initialize_gc_targets_in_txn,
      acknowledge_gc_deletes_in_txn, begin_flush_in_txn, commit_flush_in_txn,
      fail_flush_conflict_in_txn, open_inode_in_txn, close_inode_in_txn,
      recover_session_in_txn, set_xattr_in_txn, remove_xattr_in_txn;
    frame_op f.
Qed.

Lemma name_op_framed {T} (f : Db → T) `{!data_frame f, !name_frame f} now o :
  name_op o = true → framed f (dispatch now o).
Proof.
  destruct (names_framed (f := f)) as [Hput Hdel].
  destruct o; intros Hn; try discriminate Hn; cbn [dispatch]; apply framed_respond;
    unfold create_in_txn, symlink_in_txn, create_node_in_txn, import_external_in_txn,
      unlink_in_txn, link_in_txn, rmdir_in_txn, rename_in_txn, rename_commit,
      rename_check_destination, rename_remove_destination;
    frame_op f.
Qed.

Lemma dispatch_framed now o : store_op o = true → framed aux (dispatch now o).
Proof.
  intros Ho. destruct (name_op o) eqn:Hn; [by apply name_op_framed|by apply data_op_framed].
Qed.
