(* ===== verification/MetaStore.v ===== *)
(** * The metadata interface ([trait MetaStore], [crates/meta/src/store.rs])

    What a client asks of a metadata store.  Reads look at one snapshot;
    writes are state transformers.  The laws are what the data path of the
    client relies on: reserving chunks changes no file, and a reserved commit
    publishes exactly the given inode and manifest.  [heed_meta] is the
    embedded store as an instance. *)

From S2P Require Import MetaDb Namespace InodeData Gc Membership Ledger Apply HeedStore Frame.

Local Open Scope N_scope.

Class MetaStore (St : Type) := {
  ms_get_inode : InodeId → St → Result Inode;
  ms_lookup : InodeId → string → St → Result Inode;
  ms_readdir : InodeId → St → Result (list Dentry);
  ms_get_manifest : N → St → Result Manifest;
  ms_get_xattr : InodeId → string → St → Result bytes;
  ms_list_xattrs : InodeId → St → Result (list string);
  ms_list_gc_tombstones : St → Result (list GcTombstone);
  ms_list_flush_intents : St → Result (list (InodeId * FlushIntent));
  ms_current_gc_plan : St → Result (option GcPlan);
  ms_create_cas : option N → InodeId → string → FileType → N → N → N → txn St FluxError Inode;
  ms_symlink_cas : option N → InodeId → string → string → N → N → txn St FluxError Inode;
  ms_put_inode_cas : N → Inode → txn St FluxError Inode;
  ms_reserve_chunks : WriteTicketId → InodeId → N → list ChunkId → txn St FluxError unit;
  ms_abort_chunk_reservation : WriteTicketId → txn St FluxError unit;
  ms_expire_chunk_reservations : N → txn St FluxError unit;
  ms_commit_reserved : RequestOpId → WriteTicketId → N → Inode → Manifest → txn St FluxError Inode;
  ms_tombstone_gc_batch : list ChunkId → txn St FluxError GcBatch;
  ms_initialize_gc_delete_targets : list ChunkId → list WorkerTargetId → txn St FluxError unit;
  ms_acknowledge_gc_deletes : list (ChunkId * WorkerTargetId) → txn St FluxError unit;
  ms_finalize_gc_tombstones : list ChunkId → txn St FluxError unit;
  ms_begin_flush_with_id : RequestOpId → N → InodeId → FlushIntent → txn St FluxError Inode;
  ms_commit_flush_with_id : RequestOpId → N → InodeId → FlushId → UfsObject → txn St FluxError Inode;
  ms_fail_flush_conflict : N → InodeId → FlushId → string → txn St FluxError Inode;
  ms_finish_gc : GcLeaseId → txn St FluxError unit;
  ms_import_external_with_id :
    RequestOpId → option N → InodeId → string → Inode → option Manifest → txn St FluxError Inode;
  ms_unlink_cas : option N → InodeId → string → txn St FluxError unit;
  ms_open_inode : string → InodeId → txn St FluxError unit;
  ms_close_inode : string → InodeId → txn St FluxError unit;
  ms_recover_session : string → txn St FluxError unit;
  ms_rmdir_cas : option N → InodeId → string → txn St FluxError unit;
  ms_link_cas : option N → InodeId → InodeId → string → txn St FluxError Inode;
  ms_set_xattr_cas : N → InodeId → string → bytes → XattrSetMode → txn St FluxError Inode;
  ms_remove_xattr_cas : N → InodeId → string → txn St FluxError Inode;
  ms_rename_cas :
    option N → InodeId → string → option N → InodeId → string → bool → txn St FluxError Inode;
  ms_reserve_law ticket inode g chunks s r s' :
    ms_reserve_chunks ticket inode g chunks s = (r, s') →
    (∀ id, ms_get_inode id s' = ms_get_inode id s) ∧
    (∀ id, ms_get_manifest id s' = ms_get_manifest id s);
  ms_abort_law ticket s r s' :
    ms_abort_chunk_reservation ticket s = (r, s') →
    (∀ id, ms_get_inode id s' = ms_get_inode id s) ∧
    (∀ id, ms_get_manifest id s' = ms_get_manifest id s);
  ms_commit_law op_id ticket g inode manifest s i' s' :
    ms_commit_reserved op_id ticket g inode manifest s = (Ok i', s') →
    (∃ cur, ms_get_inode (i_id inode) s = Ok cur ∧ i_generation cur = g) ∧
    ∃ mid, i' = set_manifest_id (Some mid) inode ∧
      ms_get_inode (i_id inode) s' = Ok i' ∧ ms_get_manifest mid s' = Ok manifest ∧
      (∀ id, id ≠ i_id inode → ms_get_inode id s' = ms_get_inode id s) ∧
      (∀ id, id ≠ mid → ms_get_manifest id s' = ms_get_manifest id s);
  ms_commit_err_law op_id ticket g inode manifest s e s' :
    ms_commit_reserved op_id ticket g inode manifest s = (Err e, s') →
    (∀ id, ms_get_inode id s' = ms_get_inode id s) ∧
    (∀ id, ms_get_manifest id s' = ms_get_manifest id s)
}.

(** ** Provided methods *)

Section provided.
Context {St : Type} `{!MetaStore St}.

Definition ms_create (parent : InodeId) (name : string) (file_type : FileType)
    (mode uid gid : N) : txn St FluxError Inode :=
  ms_create_cas None parent name file_type mode uid gid.

Definition ms_symlink (parent : InodeId) (name target : string) (uid gid : N) :
    txn St FluxError Inode :=
  ms_symlink_cas None parent name target uid gid.

Definition ms_begin_flush (op_id : RequestOpId) (expected_generation : N) (inode : InodeId)
    (intent : FlushIntent) : txn St FluxError Inode :=
  ms_begin_flush_with_id op_id expected_generation inode intent.

Definition ms_commit_flush (op_id : RequestOpId) (expected_generation : N) (inode : InodeId)
    (flush_id : FlushId) (published_ufs : UfsObject) : txn St FluxError Inode :=
  ms_commit_flush_with_id op_id expected_generation inode flush_id published_ufs.

Definition ms_import_external (op_id : RequestOpId) (parent : InodeId) (name : string)
    (inode : Inode) (manifest : option Manifest) : txn St FluxError Inode :=
  ms_import_external_with_id op_id None parent name inode manifest.

Definition ms_unlink (parent : InodeId) (name : string) : txn St FluxError unit :=
  ms_unlink_cas None parent name.

Definition ms_rmdir (parent : InodeId) (name : string) : txn St FluxError unit :=
  ms_rmdir_cas None parent name.

Definition ms_link (inode new_parent : InodeId) (new_name : string) : txn St FluxError Inode :=
  ms_link_cas None inode new_parent new_name.

Definition ms_set_xattr (inode : InodeId) (name : string) (value : bytes) (mode : XattrSetMode) :
    txn St FluxError Inode :=
  current ← (λ s, (ms_get_inode inode s, s));
  ms_set_xattr_cas (i_generation current) inode name value mode.

Definition ms_remove_xattr (inode : InodeId) (name : string) : txn St FluxError Inode :=
  current ← (λ s, (ms_get_inode inode s, s));
  ms_remove_xattr_cas (i_generation current) inode name.

Definition ms_rename (old_parent : InodeId) (old_name : string) (new_parent : InodeId)
    (new_name : string) (no_replace : bool) : txn St FluxError Inode :=
  ms_rename_cas None old_parent old_name None new_parent new_name no_replace.
End provided.

(** ** The embedded store *)

Section heed.
Context (now : nat → Z) (ms : N) (debug : MetaRaftResponse → string).

Lemma write_txn_inv {A} (m : M A) d r d' :
  with_write_txn m d = (r, d') →
  (d' = d ∧ ∃ e, r = Err e) ∨ (∃ a, r = Ok a ∧ m d = (Ok a, d')).
Proof.
  unfold with_write_txn. destruct (is_some (gc_lease d)); [intros [= <- <-]; eauto|].
  destruct (m d) as [[a|e] d1]; intros [= <- <-]; eauto.
Qed.

(** What the data path reads. *)
Definition file_view (d : Db) := (inodes d, manifests d).

Lemma same_view d d' :
  file_view d' = file_view d →
  (∀ id, heed_get_inode id d' = heed_get_inode id d) ∧
  (∀ id, heed_get_manifest id d' = heed_get_manifest id d).
Proof. intros [= Hi Hm]. unfold heed_get_inode, heed_get_manifest. by rewrite Hi, Hm. Qed.

Lemma write_txn_view {A} (m : M A) d r d' :
  framed file_view m → with_write_txn m d = (r, d') → file_view d' = file_view d.
Proof.
  intros Hf [[-> _]|(a&_&Hm)]%write_txn_inv; [done|]. by eapply framed_run.
Qed.

Lemma reserve_view ticket inode g chunks t :
  framed file_view (reserve_chunks_in_txn ticket inode g chunks t).
Proof.
  unfold reserve_chunks_in_txn, get_inode_raw, reservation_in_txn, put_reservation_in_txn. frame.
Qed.

Lemma abort_view ticket : framed file_view (abort_reservation_in_txn ticket).
Proof. unfold abort_reservation_in_txn. frame. Qed.

Lemma heed_commit_law ticket g inode manifest d i' d' :
  heed_commit_inode_manifest_reserved_with_id ticket g inode manifest d = (Ok i', d') →
  (∃ cur, heed_get_inode (i_id inode) d = Ok cur ∧ i_generation cur = g) ∧
  ∃ mid, i' = set_manifest_id (Some mid) inode ∧
    heed_get_inode (i_id inode) d' = Ok i' ∧ heed_get_manifest mid d' = Ok manifest ∧
    (∀ id, id ≠ i_id inode → heed_get_inode id d' = heed_get_inode id d) ∧
    (∀ id, id ≠ mid → heed_get_manifest id d' = heed_get_manifest id d).
Proof.
  intros [[_ [? ?]]|(a&[= <-]&H)]%write_txn_inv; [done|].
  unfold commit_reserved_in_txn, reservation_in_txn, abort_reservation_in_txn in H.
  rewrite txn_bind_gets in H. db_step H H1; db_inv H1. db_step H H2; db_inv H2.
  db_step H H3; db_inv H3. apply txn_bind_inv in H as [(i&d1&H4&H)|(e&_&?)]; [|done].
  db_inv H. unfold commit_inode_manifest_in_txn in H4. db_inv H4. bools.
  destruct (put_manifest_cases _ _ _ _ Hm) as [(?&?&->)|(mid&?&?&?&->)]; simplify_eq/=.
  unfold heed_get_inode, heed_get_manifest. cbn.
  split; [eexists; rewrite Hi; by split|]. exists mid. split_and!; [done|..].
  - by rewrite lookup_insert_eq.
  - by rewrite lookup_insert_eq.
  - intros id Hne. by rewrite lookup_insert_ne.
  - intros id Hne. by rewrite lookup_insert_ne.
Qed.

Lemma heed_commit_err_law ticket g inode manifest d e d' :
  heed_commit_inode_manifest_reserved_with_id ticket g inode manifest d = (Err e, d') → d' = d.
Proof. by intros [[-> _]|(a&?&_)]%write_txn_inv. Qed.

#[export] Instance heed_meta : MetaStore Db := {
  ms_get_inode := heed_get_inode;
  ms_lookup parent name d := lookup_name d parent name;
  ms_readdir dir d := readdir d dir;
  ms_get_manifest := heed_get_manifest;
  ms_get_xattr inode name d := get_xattr d inode name;
  ms_list_xattrs inode d := list_xattrs d inode;
  ms_list_gc_tombstones := heed_list_gc_tombstones;
  ms_list_flush_intents d := Ok (list_flush_intents d);
  ms_current_gc_plan := heed_current_gc_plan;
  ms_create_cas := heed_create_cas now;
  ms_symlink_cas := heed_symlink_cas now;
  ms_put_inode_cas := heed_put_inode_cas;
  ms_reserve_chunks := heed_reserve_chunks ms;
  ms_abort_chunk_reservation := heed_abort_chunk_reservation;
  ms_expire_chunk_reservations := heed_expire_chunk_reservations ms;
  ms_commit_reserved _ := heed_commit_inode_manifest_reserved_with_id;
  ms_tombstone_gc_batch := heed_tombstone_gc_batch;
  ms_initialize_gc_delete_targets := heed_initialize_gc_delete_targets;
  ms_acknowledge_gc_deletes := heed_acknowledge_gc_deletes;
  ms_finalize_gc_tombstones := heed_finalize_gc_tombstones;
  ms_begin_flush_with_id _ := heed_begin_flush_with_id;
  ms_commit_flush_with_id _ := heed_commit_flush_with_id;
  ms_fail_flush_conflict := heed_fail_flush_conflict;
  ms_finish_gc := heed_finish_gc;
  ms_import_external_with_id := heed_import_external_with_id now ms debug;
  ms_unlink_cas := heed_unlink_cas now;
  ms_open_inode := heed_open_inode;
  ms_close_inode := heed_close_inode;
  ms_recover_session := heed_recover_session;
  ms_rmdir_cas := heed_rmdir_cas now;
  ms_link_cas := heed_link_cas now;
  ms_set_xattr_cas := heed_set_xattr_cas now;
  ms_remove_xattr_cas := heed_remove_xattr_cas now;
  ms_rename_cas := heed_rename_cas now;
  ms_reserve_law ticket inode g chunks d r d' H :=
    same_view d d' (write_txn_view _ d r d' (reserve_view ticket inode g chunks _) H);
  ms_abort_law ticket d r d' H := same_view d d' (write_txn_view _ d r d' (abort_view ticket) H);
  ms_commit_law _ := heed_commit_law;
  ms_commit_err_law _ ticket g inode manifest d e d' H :=
    same_view d d' (f_equal file_view (heed_commit_err_law ticket g inode manifest d e d' H))
}.
End heed.
