(* ===== verification/Client.v ===== *)
(** * The client: namespace and handles ([crates/client/src/lib.rs])

    [FluxClient] on top of a metadata store and a chunk store: open handles,
    the namespace calls with their read-only guards, path resolution with
    symbolic links, and the lazy import of names from the mounted UFS, which
    is any value of the interface [Ufs].  [io_lock] and the mutexes make each call atomic within a
    process; a call is a state transformer. *)

From S2P Require Import Prelude Types Bytes Extents Keys ChunkStore Ufs MetaDb Namespace Ledger MetaStore.

Local Open Scope N_scope.

(** ** Strings *)

(** [s.split(c)]. *)
Fixpoint split (c : Ascii.ascii) (s : string) : list string :=
  match s with
  | "" => [""]
  | String a s' =>
      if Ascii.eqb a c then "" :: split c s'
      else match split c s' with
           | [] => [String a ""]
           | h :: t => String a h :: t
           end
  end.

Fixpoint join (sep : string) (l : list string) : string :=
  match l with
  | [] => ""
  | [s] => s
  | s :: l => s +:+ sep +:+ join sep l
  end.

(** ** Paths *)

(** The tests of [path_components] on one part. *)
Definition check_component (part : string) : Result unit :=
  if bool_decide (part = ".") || bool_decide (part = "..") then
    Err (InvalidArg ("path component is reserved: " +:+ part)) else
  if str_contains NUL part then Err (InvalidArg "path component contains NUL") else
  if 255 <? str_len part then
    Err (InvalidArg ("path component too long: " +:+ pretty (str_len part) +:+ " bytes"))
  else Ok tt.

Fixpoint check_components (parts : list string) : Result (list string) :=
  match parts with
  | [] => Ok []
  | part :: parts =>
      if bool_decide (part = "") then check_components parts else
      _ ← check_component part;
      rest ← check_components parts;
      Ok (part :: rest)
  end.

Definition path_components (path : string) : Result (list string) :=
  if negb (starts_with "/" path) then Err (InvalidArg "FluxFS paths must be absolute")
  else check_components (split SLASH path).

(** The loop of [append_symlink_target]; [base.pop()] on an empty path does
    nothing. *)
Fixpoint append_parts (base : list string) (parts : list string) : Result (list string) :=
  match parts with
  | [] => Ok base
  | part :: parts =>
      if bool_decide (part = "") || bool_decide (part = ".") then append_parts base parts else
      if bool_decide (part = "..") then append_parts (take (pred (length base)) base) parts else
      if 255 <? str_len part then
        Err (InvalidArg ("symlink component too long: " +:+ pretty (str_len part) +:+ " bytes"))
      else append_parts (base ++ [part]) parts
  end.

Definition append_symlink_target (base : list string) (target : string) : Result (list string) :=
  if str_contains NUL target then Err (InvalidArg "symlink target contains NUL")
  else append_parts base (split SLASH target).

Definition SYMLINK_MAX : N := 40.

(** The loop of [resolve_path]; [None] means that the fuel ran out.  The
    [i]-th lookup of a call is [lookup i]: it draws its own request id. *)
Section resolve.
Context {St : Type} (lookup : nat → InodeId → string → txn St FluxError Inode)
        (get_root : txn St FluxError Inode).

Fixpoint resolve_loop (fuel i : nat) (follow_final : bool) (pending resolved : list string)
    (inode : Inode) (symlink_count : N) (s : St) : option (Result Inode * St) :=
  match fuel with
  | O => None
  | S fuel =>
      match pending with
      | [] => Some (Ok inode, s)
      | part :: pending =>
          match lookup i (i_id inode) part s with
          | (Err e, s) => Some (Err e, s)
          | (Ok child, s) =>
              let last := bool_decide (pending = []) in
              if bool_decide (i_file_type child = Symlink) && (follow_final || negb last) then
                let symlink_count := symlink_count + 1 in
                if SYMLINK_MAX <? symlink_count then
                  Some (Err (InvalidArg "too many levels of symbolic links"), s) else
                match i_symlink_target child with
                | None => Some (Err (Meta "symlink inode missing target"), s)
                | Some target =>
                    let base := if starts_with "/" target then [] else resolved in
                    match append_symlink_target base target with
                    | Err e => Some (Err e, s)
                    | Ok expanded =>
                        match get_root s with
                        | (Err e, s) => Some (Err e, s)
                        | (Ok root, s) =>
                            resolve_loop fuel (S i) follow_final (expanded ++ pending) [] root symlink_count s
                        end
                    end
                end
              else if negb last && negb (bool_decide (i_file_type child = Directory)) then
                Some (Err NotDirectory, s)
              else resolve_loop fuel (S i) follow_final pending (resolved ++ [part]) child symlink_count s
          end
      end
  end.

Definition resolve_path (fuel : nat) (path : string) (follow_final : bool) (s : St) :
    option (Result Inode * St) :=
  match path_components path with
  | Err e => Some (Err e, s)
  | Ok pending =>
      match get_root s with
      | (Err e, s) => Some (Err e, s)
      | (Ok root, s) => resolve_loop fuel 0 follow_final pending [] root 0 s
      end
  end.
End resolve.

(** ** The client *)

Record FluxClient (M C U : Type) := mkFluxClient {
  fc_meta : M;
  fc_chunks : C;
  fc_ufs_state : U;
  fc_ufs_paths : gmap N string;
  fc_gc_cursor : option ChunkId;
  fc_open_session_id : option string;
  fc_open_inode_counts : gmap N N
}.
Arguments mkFluxClient {M C U}.
Arguments fc_meta {M C U}. Arguments fc_chunks {M C U}. Arguments fc_ufs_state {M C U}.
Arguments fc_ufs_paths {M C U}. Arguments fc_gc_cursor {M C U}.
Arguments fc_open_session_id {M C U}. Arguments fc_open_inode_counts {M C U}.

Section client.
Context {hash : bytes → ChunkId} {Mt Ct U : Type}.
Context `{!MetaStore Mt, !ChunkStore hash Ct}.
Context (ufs : option (Ufs U)).

Abbreviation Cl := (FluxClient Mt Ct U).
Abbreviation C := (txn Cl FluxError).

Definition set_meta (m : Mt) (c : Cl) : Cl :=
  mkFluxClient m (fc_chunks c) (fc_ufs_state c) (fc_ufs_paths c) (fc_gc_cursor c)
    (fc_open_session_id c) (fc_open_inode_counts c).
Definition set_chunks (k : Ct) (c : Cl) : Cl :=
  mkFluxClient (fc_meta c) k (fc_ufs_state c) (fc_ufs_paths c) (fc_gc_cursor c)
    (fc_open_session_id c) (fc_open_inode_counts c).
Definition set_ufs_state (u : U) (c : Cl) : Cl :=
  mkFluxClient (fc_meta c) (fc_chunks c) u (fc_ufs_paths c) (fc_gc_cursor c)
    (fc_open_session_id c) (fc_open_inode_counts c).
Definition set_ufs_paths (p : gmap N string) (c : Cl) : Cl :=
  mkFluxClient (fc_meta c) (fc_chunks c) (fc_ufs_state c) p (fc_gc_cursor c)
    (fc_open_session_id c) (fc_open_inode_counts c).
Definition set_gc_cursor (g : option ChunkId) (c : Cl) : Cl :=
  mkFluxClient (fc_meta c) (fc_chunks c) (fc_ufs_state c) (fc_ufs_paths c) g
    (fc_open_session_id c) (fc_open_inode_counts c).
Definition set_counts (n : gmap N N) (c : Cl) : Cl :=
  mkFluxClient (fc_meta c) (fc_chunks c) (fc_ufs_state c) (fc_ufs_paths c) (fc_gc_cursor c)
    (fc_open_session_id c) n.

(** A call on the metadata store, a read of it, a call on the chunk store and
    one on the UFS. *)
Definition on_meta {A} (f : txn Mt FluxError A) : C A := λ c,
  let '(r, m) := f (fc_meta c) in (r, set_meta m c).
Definition read_meta {A} (f : Mt → Result A) : C A := λ c, (f (fc_meta c), c).
Definition on_chunks {A} (f : txn Ct FluxError A) : C A := λ c,
  let '(r, k) := f (fc_chunks c) in (r, set_chunks k c).
Definition read_chunks {A} (f : Ct → Result A) : C A := λ c, (f (fc_chunks c), c).
Definition on_ufs {A} (f : txn U FluxError A) : C A := λ c,
  let '(r, u) := f (fc_ufs_state c) in (r, set_ufs_state u c).

(** [FluxClient::new]. *)
Definition client_new (m : Mt) (k : Ct) (u : U) : Cl :=
  mkFluxClient m k u {[ROOT_INODE := ""]} None None ∅.

Definition with_open_session (session_id : string) (c : Cl) : Cl :=
  mkFluxClient (fc_meta c) (fc_chunks c) (fc_ufs_state c) (fc_ufs_paths c) (fc_gc_cursor c)
    (Some session_id) (fc_open_inode_counts c).

(** ** Open handles *)

Definition open_session_id : C string :=
  session ← gets fc_open_session_id;
  lift (ok_or (InvalidArg "client has no configured mount session id") session).

Definition recover_open_session : C unit :=
  session_id ← open_session_id;
  _ ← on_meta (ms_recover_session session_id);
  modify (set_counts ∅).

(** [counts.entry(inode).or_insert(0)] leaves a zero count behind when
    [open_inode] or the addition fails. *)
Definition open_inode_handle (inode : InodeId) : C unit :=
  session_id ← open_session_id;
  counts ← gets fc_open_inode_counts;
  let count := default 0 (counts !! inode) in
  _ ← modify (set_counts (<[inode := count]> counts));
  _ ← when (count =? 0) (on_meta (ms_open_inode session_id inode));
  next ← lift (ok_or (InvalidArg "open inode count overflow") (checked_add count 1));
  modify (λ c, set_counts (<[inode := next]> (fc_open_inode_counts c)) c).

Definition close_inode_handle (inode : InodeId) : C unit :=
  session_id ← open_session_id;
  counts ← gets fc_open_inode_counts;
  match counts !! inode with
  | None => on_meta (ms_close_inode session_id inode)
  | Some count =>
      if 1 <? count then modify (set_counts (<[inode := count - 1]> counts)) else
      _ ← on_meta (ms_close_inode session_id inode);
      modify (λ c, set_counts (delete inode (fc_open_inode_counts c)) c)
  end.

(** ** Importing names from the UFS *)

Definition join_rel (parent name : string) : string :=
  if bool_decide (parent = "") then name else trim_end SLASH parent +:+ "/" +:+ name.

Definition entry_name (path parent : string) : option string :=
  let path := trim_end SLASH (trim_start SLASH path) in
  let parent := trim_end SLASH (trim_start SLASH parent) in
  let finish rest := if bool_decide (rest = "") || str_contains SLASH rest then None else Some rest in
  if bool_decide (parent = "") then finish path else
  match strip_prefix parent path with
  | Some r => finish (trim_start SLASH r)
  | None => list.last (split SLASH path)
  end.

Definition parent_ufs_path (parent : InodeId) : C string :=
  paths ← gets fc_ufs_paths;
  lift (ok_or (InvalidArg ("missing UFS path cache for inode " +:+ pretty parent)) (paths !! parent)).

(** [self.parent_ufs_path(parent).unwrap_or_default()]. *)
Definition parent_ufs_path_or_default (parent : InodeId) : C string :=
  paths ← gets fc_ufs_paths; mret (default "" (paths !! parent)).

Definition remember_ufs_path (id : InodeId) (path : string) : C unit :=
  modify (λ c, set_ufs_paths (<[id := path]> (fc_ufs_paths c)) c).

Definition ensure_ufs_path (parent child : InodeId) (name : string) : C unit :=
  if is_none ufs then mret tt else
  paths ← gets fc_ufs_paths;
  if is_some (paths !! child) then mret tt else
  modify (set_ufs_paths (<[child := join_rel (default "" (paths !! parent)) name]> paths)).

Definition imported_fields : LocalityFields := mkLocalityFields UfsBacked UfsClean OpNone Imported.

Definition external_file (rel : string) (obj : UfsObject) (version : UfsVersion) (now : Z) : Inode :=
  {| i_id := 0; i_file_type := Regular; i_mode := 420; i_uid := 0; i_gid := 0;
     i_size := uo_size obj; i_mtime_ms := default now (uo_mtime_ms obj); i_ctime_ms := now;
     i_atime_ms := now; i_link_count := 1; i_symlink_target := None; i_generation := 1;
     i_head_gen := 0; i_ufs_gen := 0; i_ufs_base_version := Some version;
     i_locality := LExternal; i_locality_fields := Some imported_fields;
     i_ufs := Some (mkUfsObject rel (uo_size obj) (uo_etag obj) (uo_mtime_ms obj));
     i_extent_root := None; i_manifest_id := None; i_flush_intent := None; i_last_error := None |}.

Definition external_dir (rel : string) (now : Z) : Inode :=
  {| i_id := 0; i_file_type := Directory; i_mode := 493; i_uid := 0; i_gid := 0;
     i_size := 0; i_mtime_ms := now; i_ctime_ms := now; i_atime_ms := now; i_link_count := 2;
     i_symlink_target := None; i_generation := 1; i_head_gen := 0; i_ufs_gen := 0;
     i_ufs_base_version := None; i_locality := LExternal;
     i_locality_fields := Some imported_fields;
     i_ufs := Some (mkUfsObject (trim_end SLASH rel +:+ "/") 0 None (Some now));
     i_extent_root := None; i_manifest_id := None; i_flush_intent := None; i_last_error := None |}.

(** [import_external], where losing the race means looking the name up. *)
Definition import_or_lookup (op_id : RequestOpId) (parent : InodeId) (name rel : string)
    (template : Inode) (manifest : option Manifest) : C Inode := λ c,
  match on_meta (ms_import_external op_id parent name template manifest) c with
  | (Ok inode, c) => (_ ← remember_ufs_path (i_id inode) rel; mret inode) c
  | (Err AlreadyExists, c) => read_meta (ms_lookup parent name) c
  | (Err e, c) => (Err e, c)
  end.

Definition commit_external_file (now : Z) (op_id : RequestOpId) (parent : InodeId)
    (name rel : string) (obj : UfsObject) : C Inode :=
  let version := match uo_etag obj with Some etag => etag | None => "size:" +:+ pretty (uo_size obj) end in
  manifest ← (if uo_size obj =? 0 then mret None else
              extents ← lift (singleton (UfsRange 0 (uo_size obj) rel version 0));
              mret (Some (mkManifest 0 0 (uo_size obj) extents)));
  import_or_lookup op_id parent name rel (external_file rel obj version now) manifest.

Definition commit_external_dir (now : Z) (op_id : RequestOpId) (parent : InodeId)
    (name rel : string) : C Inode :=
  import_or_lookup op_id parent name rel (external_dir rel now) None.

Definition ufs_looks_like_dir (u : Ufs U) (parent_path rel name : string) (us : U) : Result bool :=
  parent_entries ← ufs_list u parent_path us;
  if existsb (λ e, bool_decide (entry_name (ue_path e) parent_path = Some name)
                   && bool_decide (ue_mode e = UfsModeDir)) parent_entries
  then Ok true else
  children ← ufs_list u rel us;
  Ok (match children with [] => false | _ => true end).

Definition lazy_import (now : Z) (op_id : RequestOpId) (parent : InodeId) (name : string) : C Inode :=
  u ← lift (ok_or (Capability "no UFS") ufs);
  parent_path ← parent_ufs_path_or_default parent;
  let rel := join_rel parent_path name in
  probed ← gets (λ c, ufs_probe u rel (fc_ufs_state c));
  match probed with
  | Ok (ProbeFile obj) => commit_external_file now op_id parent name rel obj
  | Ok ProbeDir => commit_external_dir now op_id parent name rel
  | Err NotFound =>
      dir ← peek (λ c, ufs_looks_like_dir u parent_path rel name (fc_ufs_state c));
      if dir : bool then commit_external_dir now op_id parent name rel else throw NotFound
  | Err e => throw e
  end.

(** [hydrate_dir_from_ufs]; [ids i] is the request id of the [i]-th import. *)
Fixpoint hydrate_entries (now : Z) (ids : nat → RequestOpId) (dir : InodeId) (path : string)
    (entries : list UfsEntry) : C unit :=
  match entries with
  | [] => mret tt
  | ent :: entries =>
      let rest := hydrate_entries now (λ i, ids (S i)) dir path entries in
      match entry_name (ue_path ent) path with
      | None => rest
      | Some name =>
          found ← gets (λ c, is_ok (ms_lookup dir name (fc_meta c)));
          if found : bool then rest else
          _ ← lazy_import now (ids O) dir name; rest
      end
  end.

Definition hydrate_dir_from_ufs (now : Z) (ids : nat → RequestOpId) (u : Ufs U) (dir : InodeId) : C unit :=
  path ← parent_ufs_path_or_default dir;
  entries ← peek (λ c, ufs_list u path (fc_ufs_state c));
  hydrate_entries now ids dir path entries.

(** ** Namespace calls *)

Definition reject_ufs_mutation : Result unit := if is_some ufs then Err ReadOnly else Ok tt.

Definition reject_imported_inode_mutation (inode : Inode) : Result unit :=
  let imported := is_some (i_ufs inode) ||
    match i_locality_fields inode with
    | Some f => bool_decide (lf_backing_mode f = UfsBacked) || bool_decide (lf_origin f = Imported)
    | None => false
    end in
  if imported then Err ReadOnly else Ok tt.

(** [reject_imported_inode_mutation(&self.meta.get_inode(id)?)?]. *)
Definition guard_inode (id : InodeId) : C unit :=
  inode ← read_meta (ms_get_inode id); lift (reject_imported_inode_mutation inode).
(** The same for the inode that a name is bound to. *)
Definition guard_name (parent : InodeId) (name : string) : C unit :=
  inode ← read_meta (ms_lookup parent name); lift (reject_imported_inode_mutation inode).

Definition mkdir (parent : InodeId) (name : string) (mode uid gid : N) : C Inode :=
  _ ← lift reject_ufs_mutation;
  _ ← guard_inode parent;
  on_meta (ms_create parent name Directory mode uid gid).

Definition create_file (parent : InodeId) (name : string) (mode uid gid : N) : C Inode :=
  _ ← lift reject_ufs_mutation;
  _ ← guard_inode parent;
  on_meta (ms_create parent name Regular mode uid gid).

Definition client_lookup (now : Z) (op_id : RequestOpId) (parent : InodeId) (name : string) : C Inode :=
  found ← (λ c, (Ok (ms_lookup parent name (fc_meta c)), c));
  match found with
  | Ok ino => _ ← ensure_ufs_path parent (i_id ino) name; mret ino
  | Err NotFound => if is_some ufs then lazy_import now op_id parent name else throw NotFound
  | Err e => throw e
  end.

Definition client_readdir (now : Z) (ids : nat → RequestOpId) (dir : InodeId) : C (list Dentry) :=
  _ ← match ufs with Some u => hydrate_dir_from_ufs now ids u dir | None => mret tt end;
  read_meta (ms_readdir dir).

Definition client_unlink (parent : InodeId) (name : string) : C unit :=
  _ ← lift reject_ufs_mutation;
  _ ← guard_inode parent;
  _ ← guard_name parent name;
  on_meta (ms_unlink parent name).

Definition client_rmdir (parent : InodeId) (name : string) : C unit :=
  _ ← lift reject_ufs_mutation;
  _ ← guard_inode parent;
  _ ← guard_name parent name;
  on_meta (ms_rmdir parent name).

Definition client_link (inode new_parent : InodeId) (new_name : string) : C Inode :=
  _ ← lift reject_ufs_mutation;
  _ ← guard_inode inode;
  _ ← guard_inode new_parent;
  on_meta (ms_link inode new_parent new_name).

Definition client_symlink (parent : InodeId) (name target : string) (uid gid : N) : C Inode :=
  _ ← lift reject_ufs_mutation;
  _ ← guard_inode parent;
  on_meta (ms_symlink parent name target uid gid).

Definition readlink (inode : InodeId) : C string :=
  i ← read_meta (ms_get_inode inode);
  _ ← fail_if (bool_decide (i_file_type i ≠ Symlink)) (InvalidArg "inode is not a symlink");
  lift (ok_or (Meta "symlink inode missing target") (i_symlink_target i)).

Definition client_set_xattr (inode : InodeId) (name : string) (value : bytes) (mode : XattrSetMode) :
    C Inode :=
  _ ← lift reject_ufs_mutation;
  current ← read_meta (ms_get_inode inode);
  _ ← lift (reject_imported_inode_mutation current);
  on_meta (ms_set_xattr_cas (i_generation current) inode name value mode).

Definition client_remove_xattr (inode : InodeId) (name : string) : C Inode :=
  _ ← lift reject_ufs_mutation;
  current ← read_meta (ms_get_inode inode);
  _ ← lift (reject_imported_inode_mutation current);
  on_meta (ms_remove_xattr_cas (i_generation current) inode name).

Definition client_rename (old_parent : InodeId) (old_name : string) (new_parent : InodeId)
    (new_name : string) (no_replace : bool) : C Inode :=
  _ ← lift reject_ufs_mutation;
  _ ← guard_inode old_parent;
  _ ← guard_name old_parent old_name;
  _ ← guard_inode new_parent;
  destination ← (λ c, (Ok (ms_lookup new_parent new_name (fc_meta c)), c));
  _ ← match destination with
      | Ok d => lift (reject_imported_inode_mutation d)
      | Err NotFound => mret tt
      | Err error => throw error
      end;
  on_meta (ms_rename old_parent old_name new_parent new_name no_replace).

(** ** Calls by path *)

Definition resolve (now : Z) (ids : nat → RequestOpId) (fuel : nat) (path : string) (follow : bool) (c : Cl) :
    option (Result Inode * Cl) :=
  resolve_path (λ i, client_lookup now (ids i)) (read_meta (ms_get_inode ROOT_INODE)) fuel path follow c.

Definition lookup_path (now : Z) (ids : nat → RequestOpId) (fuel : nat) (path : string) (c : Cl) :=
  resolve now ids fuel path true c.
Definition lstat_path (now : Z) (ids : nat → RequestOpId) (fuel : nat) (path : string) (c : Cl) :=
  resolve now ids fuel path false c.

(** [resolve_parent]; [None] as in [resolve_loop]. *)
Definition resolve_parent (now : Z) (ids : nat → RequestOpId) (fuel : nat) (path : string) (c : Cl) :
    option (Result (Inode * string) * Cl) :=
  match path_components path with
  | Err e => Some (Err e, c)
  | Ok parts =>
      match list.last parts with
      | None => Some (Err (InvalidArg "root has no parent name"), c)
      | Some name =>
          match lookup_path now ids fuel ("/" +:+ join "/" (take (pred (length parts)) parts)) c with
          | None => None
          | Some (Err e, c) => Some (Err e, c)
          | Some (Ok parent, c) =>
              if bool_decide (i_file_type parent ≠ Directory) then Some (Err NotDirectory, c)
              else Some (Ok (parent, name), c)
          end
      end
  end.
End client.
