(* ===== verification/ClientPath.v ===== *)
(** * Path resolution terminates

    Symbolic links may form cycles; the resolver stops because it follows at
    most [SYMLINK_MAX] of them and each step otherwise consumes a component. *)

From S2P Require Import Prelude Types Bytes Extents Keys ChunkStore MetaDb Namespace Ledger.
From S2P Require Import MetaStore Client.

Local Open Scope N_scope.

Section resolve.
Context {St : Type} (lookup : nat → InodeId → string → txn St FluxError Inode)
        (get_root : txn St FluxError Inode).

Abbreviation loop := (resolve_loop lookup get_root).

(** More fuel changes nothing once there was enough. *)
Lemma resolve_loop_mono fuel fuel' i follow pending resolved inode n s r :
  (fuel ≤ fuel')%nat → loop fuel i follow pending resolved inode n s = Some r →
  loop fuel' i follow pending resolved inode n s = Some r.
Proof.
  revert fuel' i pending resolved inode n s.
  induction fuel as [|fuel IH]; intros [|fuel'] i pending resolved inode n s Hle H; try done; [lia|].
  cbn [resolve_loop] in *. destruct pending as [|part pending]; [done|].
  destruct (lookup i (i_id inode) part s) as [[child|e] s1]; [|done].
  destruct (_ && _).
  - destruct (SYMLINK_MAX <? n + 1); [done|]. destruct (i_symlink_target child); [|done].
    destruct (append_symlink_target _ _); [|done]. destruct (get_root s1) as [[root|e] s2]; [|done].
    apply IH; [lia|done].
  - destruct (_ && _); [done|]. apply IH; [lia|done].
Qed.

(** [k] bounds the links that may still be followed. *)
Lemma resolve_loop_total k i follow pending resolved inode n s :
  SYMLINK_MAX ≤ n + N.of_nat k →
  ∃ fuel r, loop fuel i follow pending resolved inode n s = Some r.
Proof.
  revert i pending resolved inode n s. induction k as [k IHk] using lt_wf_ind.
  intros i pending. revert i. induction pending as [|part pending IHp]; intros i resolved inode n s Hk.
  { exists 1%nat. eexists. reflexivity. }
  destruct (lookup i (i_id inode) part s) as [[child|e] s1] eqn:Hl.
  2: { exists 1%nat. eexists. cbn. by rewrite Hl. }
  destruct (bool_decide (i_file_type child = Symlink) && (follow || negb (bool_decide (pending = [])))) eqn:Hf.
  - destruct (N.ltb_spec SYMLINK_MAX (n + 1)) as [Hmax|Hmax].
    { exists 1%nat. eexists. cbn. rewrite Hl, Hf. by rewrite (proj2 (N.ltb_lt _ _)). }
    destruct (i_symlink_target child) as [target|] eqn:Ht.
    2: { exists 1%nat. eexists. cbn. rewrite Hl, Hf, Ht. by rewrite (proj2 (N.ltb_ge _ _)). }
    destruct (append_symlink_target (if starts_with "/" target then [] else resolved) target)
      as [expanded|e] eqn:Ha.
    2: { exists 1%nat. eexists. cbn [resolve_loop]. rewrite Hl, Hf, Ht, Ha.
         by rewrite (proj2 (N.ltb_ge _ _)). }
    destruct (get_root s1) as [[root|e] s2] eqn:Hr.
    2: { exists 1%nat. eexists. cbn [resolve_loop]. rewrite Hl, Hf, Ht, Ha, Hr.
         by rewrite (proj2 (N.ltb_ge _ _)). }
    destruct k as [|k]; [lia|].
    destruct (IHk k ltac:(lia) (S i) (expanded ++ pending) [] root (n + 1) s2) as (fuel&r&Hfuel); [lia|].
    exists (S fuel), r. cbn [resolve_loop]. rewrite Hl, Hf, Ht, Ha, Hr.
    by rewrite (proj2 (N.ltb_ge _ _)).
  - destruct (negb (bool_decide (pending = [])) && negb (bool_decide (i_file_type child = Directory))) eqn:Hd.
    { exists 1%nat. eexists. cbn [resolve_loop]. by rewrite Hl, Hf, Hd. }
    destruct (IHp (S i) (resolved ++ [part]) child n s1 Hk) as (fuel&r&Hfuel).
    exists (S fuel), r. cbn [resolve_loop]. by rewrite Hl, Hf, Hd.
Qed.

(** Path resolution always ends.  Whatever the directory tree looks
    like, cyclic symbolic links included, and whatever importing lookups do
    to the state, resolving a path returns an inode or an error after
    finitely many steps, the same for every larger bound. *)
Theorem resolve_terminates path follow s :
  ∃ fuel r, ∀ fuel', (fuel ≤ fuel')%nat → resolve_path lookup get_root fuel' path follow s = Some r.
Proof.
  unfold resolve_path. destruct (path_components path) as [pending|e].
  2: { exists O. eexists. intros. reflexivity. }
  destruct (get_root s) as [[root|e] s1]; [|exists O; eexists; intros; reflexivity].
  destruct (resolve_loop_total (N.to_nat SYMLINK_MAX) 0 follow pending [] root 0 s1) as (fuel&r&H); [done|].
  exists fuel, r. intros fuel' Hle. by eapply resolve_loop_mono.
Qed.
End resolve.
