(* ===== verification/ClientIo.v ===== *)
(** * The client: file data ([crates/client/src/lib.rs])

    Reads assemble a byte range from the extents of an inode's manifest;
    writes copy the touched 4 MiB windows up into new chunks, stage a new
    manifest, and publish it under a write reservation and a generation
    check.  [now] is the clock sample, [ticket] and [op_id] the random ids a
    call draws. *)

From S2P Require Import Prelude Types Bytes Extents Keys ChunkStore Ufs MetaDb Namespace InodeData Gc.
From S2P Require Import Ledger MetaStore Client.

Local Open Scope N_scope.

Definition zero : byte := "000"%byte.

(** [output[start..start + data.len()].copy_from_slice(&data)]. *)
Definition splice (start : nat) (data out : bytes) : bytes :=
  take start out ++ data ++ drop (start + length data) out.

(** [bytes.resize(n, 0)]. *)
Definition resize (n : nat) (l : bytes) : bytes := take n l ++ replicate (n - length l) zero.

Record InodeSetAttr := mkInodeSetAttr {
  sa_mode : option N;
  sa_uid : option N;
  sa_gid : option N;
  sa_size : option N;
  sa_atime_ms : option Z;
  sa_mtime_ms : option Z
}.

(** The inode with the attributes applied and the [touched] flag. *)
Definition apply_inode_attrs (inode : Inode) (attrs : InodeSetAttr) : Inode * bool :=
  let inode := match sa_mode attrs with Some mode => set_mode (N.land mode 4095) inode | None => inode end in
  let inode := match sa_uid attrs with Some uid => set_uid uid inode | None => inode end in
  let inode := match sa_gid attrs with Some gid => set_gid gid inode | None => inode end in
  let inode := match sa_atime_ms attrs with Some t => set_atime_ms t inode | None => inode end in
  let inode := match sa_mtime_ms attrs with Some t => set_mtime_ms t inode | None => inode end in
  (inode, is_some (sa_mode attrs) || is_some (sa_uid attrs) || is_some (sa_gid attrs)
          || is_some (sa_atime_ms attrs) || is_some (sa_mtime_ms attrs)).

Definition mark_data_mutated (inode : Inode) : Inode :=
  let old_fields := default LocalityFields_default (i_locality_fields inode) in
  let fields :=
    match lf_backing_mode old_fields with
    | UfsBacked => mkLocalityFields UfsBacked Dirty OpNone (lf_origin old_fields)
    | BEphemeral => mkLocalityFields BEphemeral DEphemeral OpNone (lf_origin old_fields)
    end in
  let inode := set_locality_fields (Some fields) inode in
  set_locality (derive fields (i_head_gen inode) (i_ufs_gen inode)) inode.

Definition dirty_conflict (inode : Inode) : bool :=
  match i_locality_fields inode with
  | Some f => bool_decide (lf_data_state f = DirtyConflict)
  | None => false
  end.

(** How pinned ranges are read: [ufs_read] of the mounted UFS in its present
    state, if there is one. *)
Abbreviation Reader := (option (string → UfsObject → N → N → Result bytes)).
Definition reader {U} (ufs : option (Ufs U)) (u : U) : Reader :=
  (λ x key object offset len, ufs_read x key object offset len u) <$> ufs.

Section io.
Context {hash : bytes → ChunkId} {Mt Ct U : Type}.
Context `{!MetaStore Mt, !ChunkStore hash Ct}.
Context (ufs : option (Ufs U)).

Abbreviation Cl := (FluxClient Mt Ct U).
Abbreviation C := (txn Cl FluxError).

(** A read of both stores. *)
Definition view {A} (f : Cl → Result A) : C A := λ c, (f c, c).

(** ** Reading *)

Definition ufs_read_range (rd : Reader) (key : string) (object : UfsObject) (offset len : N) :
    Result bytes :=
  read ← ok_or (Capability "UfsRange read requires --ufs mount") rd;
  read key object offset len.

(** The bytes [source_start .. source_start + overlap_len) of an extent. *)
Definition extent_bytes (rd : Reader) (k : Ct) (inode : Inode) (e : Extent) (source_start overlap_len : N) :
    Result bytes :=
  match e with
  | Local _ len chunk =>
      chunk_data ← cs_get k chunk;
      if negb (N.of_nat (length chunk_data) =? len) then
        Err (Io ("chunk len mismatch: meta=" +:+ pretty len +:+ " actual="
                 +:+ pretty (N.of_nat (length chunk_data))))
      else Ok (take (N.to_nat overlap_len) (drop (N.to_nat source_start) chunk_data))
  | UfsRange _ _ ufs_key _ offset_in_object =>
      object ← ok_or (Meta "External inode missing pinned UFS object") (i_ufs inode);
      ufs_read_range rd ufs_key object (sat_add offset_in_object source_start) overlap_len
  end.

(** One iteration of the loop of [read_inode_range]. *)
Definition read_extent (rd : Reader) (k : Ct) (inode : Inode) (offset end_ : N) (e : Extent) (output : bytes) :
    Result bytes :=
  let extent_end := sat_add (ext_offset e) (ext_len e) in
  let overlap_start := N.max offset (ext_offset e) in
  let overlap_end := N.min end_ extent_end in
  if overlap_end <=? overlap_start then Ok output else
  let source_start := overlap_start - ext_offset e in
  let overlap_len := overlap_end - overlap_start in
  data ← extent_bytes rd k inode e source_start overlap_len;
  if negb (N.of_nat (length data) =? overlap_len) then
    Err (Io ("range len mismatch: want=" +:+ pretty overlap_len +:+ " got="
             +:+ pretty (N.of_nat (length data))))
  else Ok (splice (N.to_nat (overlap_start - offset)) data output).

Fixpoint read_extents (rd : Reader) (k : Ct) (inode : Inode) (offset end_ : N) (l : list Extent) (output : bytes) :
    Result bytes :=
  match l with
  | [] => Ok output
  | e :: l => output ← read_extent rd k inode offset end_ e output; read_extents rd k inode offset end_ l output
  end.

Definition read_inode_range (rd : Reader) (m : Mt) (k : Ct) (inode : Inode) (offset len : N) : Result bytes :=
  if bool_decide (i_file_type inode ≠ Regular) then Err IsDirectory else
  match i_manifest_id inode with
  | None => Ok []
  | Some mid =>
      if (len =? 0) || (i_size inode <=? offset) then Ok [] else
      let end_ := N.min (sat_add offset len) (i_size inode) in
      manifest ← ms_get_manifest mid m;
      read_extents rd k inode offset end_ (iter (m_extents manifest))
        (replicate (N.to_nat (end_ - offset)) zero)
  end.

Definition read_all (ino : InodeId) : C bytes :=
  inode ← read_meta (ms_get_inode ino);
  view (λ c, read_inode_range (reader ufs (fc_ufs_state c)) (fc_meta c) (fc_chunks c) inode 0 (i_size inode)).

Definition read_at (ino : InodeId) (offset size : N) : C bytes :=
  inode ← read_meta (ms_get_inode ino);
  view (λ c, read_inode_range (reader ufs (fc_ufs_state c)) (fc_meta c) (fc_chunks c) inode offset size).

(** ** Publishing a staged manifest *)

(** The loop that makes the staged chunks durable. *)
Definition put_staged (staged : list (ChunkId * bytes)) : C unit :=
  for_each (λ eb,
    actual ← on_chunks (cs_put eb.2);
    fail_if (negb (actual =? eb.1)) (Io "ChunkStore returned wrong content id")) staged.

(** [m] and, when it fails, the attempt to abort the reservation. *)
Definition or_abort {A} (ticket : WriteTicketId) (m : C A) : C A := λ c,
  match m c with
  | (Ok a, c) => (Ok a, c)
  | (Err e, c) => (Err e, (on_meta (ms_abort_chunk_reservation ticket) c).2)
  end.

Definition commit_staged_manifest (ticket : WriteTicketId) (op_id : RequestOpId)
    (expected_generation : N) (inode : Inode) (manifest : Manifest)
    (staged : list (ChunkId * bytes)) : C Inode :=
  _ ← on_meta (ms_reserve_chunks ticket (i_id inode) expected_generation (local_chunks manifest));
  or_abort ticket (
    _ ← put_staged staged;
    on_meta (ms_commit_reserved op_id ticket expected_generation inode manifest)).

(** ** Writing *)

(** The manifest an update starts from. *)
Definition current_manifest (m : Mt) (inode : Inode) : Result Manifest :=
  match i_manifest_id inode with
  | Some id => ms_get_manifest id m
  | None => Ok (Manifest_empty (i_id inode) (i_head_gen inode))
  end.

(** The new contents of one window. *)
Definition window_bytes (rd : Reader) (m : Mt) (k : Ct) (inode : Inode) (offset : N) (data : bytes)
    (end_ window_start window_end : N) : Result bytes :=
  let old_window_end := N.min window_end (i_size inode) in
  old ← (if window_start <? old_window_end
         then read_inode_range rd m k inode window_start (old_window_end - window_start)
         else Ok []);
  let bytes := resize (N.to_nat (window_end - window_start)) old in
  let overlay_start := N.max offset window_start in
  let overlay_end := N.min end_ window_end in
  let src := take (N.to_nat (overlay_end - overlay_start))
                  (drop (N.to_nat (overlay_start - offset)) data) in
  Ok (splice (N.to_nat (overlay_start - window_start)) src bytes).

(** The loop over the touched windows. *)
Fixpoint stage_windows (rd : Reader) (m : Mt) (k : Ct) (inode : Inode) (offset : N) (data : bytes)
    (end_ new_size gen : N) (windows : list N) (manifest : Manifest) :
    Result (Manifest * list (ChunkId * bytes)) :=
  match windows with
  | [] => Ok (manifest, [])
  | w :: windows =>
      window_start ← ok_or (InvalidArg "chunk offset overflow")
        (if w * CHUNK_SIZE <=? U64_MAX then Some (w * CHUNK_SIZE) else None);
      window_limit ← ok_or (InvalidArg "chunk end overflow") (checked_add window_start CHUNK_SIZE);
      let window_end := N.min window_limit new_size in
      bytes ← window_bytes rd m k inode offset data end_ window_start window_end;
      let chunk := hash bytes in
      manifest ← replace_range manifest (Local window_start (window_end - window_start) chunk) gen;
      '(manifest, staged) ← stage_windows rd m k inode offset data end_ new_size gen windows manifest;
      Ok (manifest, (chunk, bytes) :: staged)
  end.

(** [first_window..=last_window]. *)
Definition windows_of (offset end_ : N) : list N :=
  let first := offset / CHUNK_SIZE in
  let last := (end_ - 1) / CHUNK_SIZE in
  (λ i, first + N.of_nat i) <$> seq 0 (N.to_nat (last + 1 - first)).

(** The head of a file after new data was staged. *)
Definition mutated_head (now : Z) (inode : Inode) (new_size gen : N) : Inode :=
  let inode := set_size new_size inode in
  let inode := set_head_gen gen inode in
  let inode := set_generation (sat_add (i_generation inode) 1) inode in
  let inode := mark_data_mutated inode in
  let inode := set_mtime_ms now inode in
  set_ctime_ms now inode.

Definition set_m_size (size : N) (m : Manifest) : Manifest :=
  mkManifest (m_inode m) (m_gen m) size (m_extents m).

Definition write_chunked (now : Z) (ticket : WriteTicketId) (op_id : RequestOpId) (inode : Inode)
    (offset : N) (data : bytes) (end_ : N) : C N :=
  let new_size := N.max (i_size inode) end_ in
  let gen := sat_add (i_head_gen inode) 1 in
  '(manifest, staged) ← view (λ c,
    manifest ← current_manifest (fc_meta c) inode;
    stage_windows (reader ufs (fc_ufs_state c)) (fc_meta c) (fc_chunks c) inode offset data end_ new_size gen
      (windows_of offset end_) manifest);
  _ ← commit_staged_manifest ticket op_id (i_generation inode) (mutated_head now inode new_size gen)
        (set_m_size new_size manifest) staged;
  mret (N.of_nat (length data) mod (U32_MAX + 1)).

Definition write_at (now : Z) (ticket : WriteTicketId) (op_id : RequestOpId) (ino : InodeId)
    (offset : N) (data : bytes) : C N :=
  if bool_decide (data = []) then mret 0 else
  inode ← read_meta (ms_get_inode ino);
  _ ← fail_if (bool_decide (i_file_type inode ≠ Regular)) IsDirectory;
  _ ← fail_if (dirty_conflict inode) EDirtyConflict;
  end_ ← lift (ok_or (InvalidArg "offset overflow") (checked_add offset (N.of_nat (length data))));
  write_chunked now ticket op_id inode offset data end_.

(** ** Truncating and setting attributes *)

(** The loop of [truncate_locked]: the extents kept and the chunks staged. *)
Fixpoint truncate_extents (k : Ct) (size : N) (l : list Extent) :
    Result (list Extent * list (ChunkId * bytes)) :=
  match l with
  | [] => Ok ([], [])
  | extent :: l =>
      let start := ext_offset extent in
      if size <=? start then Ok ([], []) else
      end_ ← ok_or (InvalidArg "extent end overflow") (checked_add start (ext_len extent));
      if end_ <=? size then
        '(extents, staged) ← truncate_extents k size l;
        Ok (extent :: extents, staged)
      else
      let keep := size - start in
      match extent with
      | Local _ _ chunk =>
          bytes ← cs_get k chunk;
          if N.of_nat (length bytes) <? keep then Err (Io "chunk shorter than manifest extent") else
          let bytes := take (N.to_nat keep) bytes in
          '(extents, staged) ← truncate_extents k size l;
          Ok (Local start keep (hash bytes) :: extents, (hash bytes, bytes) :: staged)
      | UfsRange _ _ ufs_key ufs_version offset_in_object =>
          '(extents, staged) ← truncate_extents k size l;
          Ok (UfsRange start keep ufs_key ufs_version offset_in_object :: extents, staged)
      end
  end.

Definition truncate_locked (now : Z) (ticket : WriteTicketId) (op_id : RequestOpId) (inode : Inode)
    (size : N) (attrs : InodeSetAttr) : C Inode :=
  _ ← fail_if (dirty_conflict inode) EDirtyConflict;
  let gen := sat_add (i_head_gen inode) 1 in
  '(manifest, staged) ← view (λ c,
    current ← current_manifest (fc_meta c) inode;
    '(extents, staged) ← truncate_extents (fc_chunks c) size (iter (m_extents current));
    tree ← try_from extents;
    Ok (mkManifest (i_id inode) gen size tree, staged));
  commit_staged_manifest ticket op_id (i_generation inode)
    (apply_inode_attrs (mutated_head now inode size gen) attrs).1 manifest staged.

Definition setattr (now : Z) (ticket : WriteTicketId) (op_id : RequestOpId) (ino : InodeId)
    (attrs : InodeSetAttr) : C Inode :=
  inode ← read_meta (ms_get_inode ino);
  let rest : C Inode :=
    let '(inode', touched) := apply_inode_attrs inode attrs in
    if negb touched then mret inode' else
    let inode' := set_generation (sat_add (i_generation inode') 1) inode' in
    let inode' := set_ctime_ms now inode' in
    on_meta (ms_put_inode_cas (i_generation inode) inode') in
  match sa_size attrs with
  | Some size =>
      if bool_decide (i_file_type inode ≠ Regular) then throw IsDirectory
      else if negb (size =? i_size inode) then truncate_locked now ticket op_id inode size attrs
      else rest
  | None => rest
  end.

Definition truncate (now : Z) (ticket : WriteTicketId) (op_id : RequestOpId) (ino : InodeId) (size : N) :
    C Inode :=
  setattr now ticket op_id ino (mkInodeSetAttr None None None (Some size) None None).
End io.
