(* ===== verification/ClientCalls.v ===== *)
(** * The client: calls by path and streaming ([crates/client/src/lib.rs])

    The path calls resolve one or two paths and then act on inodes; [None]
    means that the fuel of a resolution ran out.  A [Read]er is the list of
    the blocks that its [read] calls return, a [Write]r the bytes that it has
    been given (it accepts all of them). *)

From S2P Require Import Prelude Types Bytes Extents Keys ChunkStore Ufs MetaDb Namespace InodeData Gc.
From S2P Require Import Ledger MetaStore Client ClientIo.

Local Open Scope N_scope.

Section calls.
Context {hash : bytes → ChunkId} {Mt Ct U : Type}.
Context `{!MetaStore Mt, !ChunkStore hash Ct}.
Context (ufs : option (Ufs U)).

Abbreviation Cl := (FluxClient Mt Ct U).
Abbreviation C := (txn Cl FluxError).
(** A call that resolves paths. *)
Abbreviation PC A := (Cl → option (Result A * Cl)).

(** ** Calls by path *)

Definition then_do {A B} (p : PC A) (f : A → PC B) : PC B := λ c,
  match p c with
  | None => None
  | Some (Err e, c) => Some (Err e, c)
  | Some (Ok a, c) => f a c
  end.
Definition run {A} (m : C A) : PC A := λ c, Some (m c).

(** Each resolution of a call draws ids of its own: [ids 0], [ids 1]. *)
Context (now : Z) (ids : nat → nat → RequestOpId) (fuel : nat).

Definition at_parent {A} (path : string) (f : Inode → string → C A) : PC A :=
  then_do (resolve_parent ufs now (ids 0%nat) fuel path) (λ pn, run (f pn.1 pn.2)).
Definition at_path {A} (path : string) (f : Inode → C A) : PC A :=
  then_do (lookup_path ufs now (ids 0%nat) fuel path) (λ i, run (f i)).
Definition at_link {A} (path : string) (f : Inode → C A) : PC A :=
  then_do (lstat_path ufs now (ids 0%nat) fuel path) (λ i, run (f i)).

Definition mkdir_path (path : string) (mode uid gid : N) : PC Inode :=
  at_parent path (λ parent name, mkdir ufs (i_id parent) name mode uid gid).
Definition create_file_path (path : string) (mode uid gid : N) : PC Inode :=
  at_parent path (λ parent name, create_file ufs (i_id parent) name mode uid gid).
Definition unlink_path (path : string) : PC unit :=
  at_parent path (λ parent name, client_unlink ufs (i_id parent) name).
Definition rmdir_path (path : string) : PC unit :=
  at_parent path (λ parent name, client_rmdir ufs (i_id parent) name).

Definition link_path (source destination : string) : PC Inode :=
  then_do (lstat_path ufs now (ids 0%nat) fuel source) (λ source,
  then_do (resolve_parent ufs now (ids 1%nat) fuel destination) (λ pn,
  run (client_link ufs (i_id source) (i_id pn.1) pn.2))).

Definition symlink_path (target path : string) (uid gid : N) : PC Inode :=
  at_parent path (λ parent name, client_symlink ufs (i_id parent) name target uid gid).
Definition readlink_path (path : string) : PC string :=
  at_link path (λ inode, readlink (i_id inode)).

Definition client_get_xattr (inode : InodeId) (name : string) : C bytes :=
  read_meta (ms_get_xattr inode name).
Definition client_list_xattrs (inode : InodeId) : C (list string) :=
  read_meta (ms_list_xattrs inode).

Definition get_xattr_path (path name : string) : PC bytes :=
  at_path path (λ i, client_get_xattr (i_id i) name).
Definition list_xattrs_path (path : string) : PC (list string) :=
  at_path path (λ i, client_list_xattrs (i_id i)).
Definition set_xattr_path (path name : string) (value : bytes) (mode : XattrSetMode) : PC Inode :=
  at_path path (λ i, client_set_xattr ufs (i_id i) name value mode).
Definition remove_xattr_path (path name : string) : PC Inode :=
  at_path path (λ i, client_remove_xattr ufs (i_id i) name).
Definition lget_xattr_path (path name : string) : PC bytes :=
  at_link path (λ i, client_get_xattr (i_id i) name).
Definition llist_xattrs_path (path : string) : PC (list string) :=
  at_link path (λ i, client_list_xattrs (i_id i)).
Definition lset_xattr_path (path name : string) (value : bytes) (mode : XattrSetMode) : PC Inode :=
  at_link path (λ i, client_set_xattr ufs (i_id i) name value mode).
Definition lremove_xattr_path (path name : string) : PC Inode :=
  at_link path (λ i, client_remove_xattr ufs (i_id i) name).

Definition rename_path (old_path new_path : string) (no_replace : bool) : PC Inode :=
  then_do (resolve_parent ufs now (ids 0%nat) fuel old_path) (λ old,
  then_do (resolve_parent ufs now (ids 1%nat) fuel new_path) (λ new,
  run (client_rename ufs (i_id old.1) old.2 (i_id new.1) new.2 no_replace))).

Definition setattr_path (ticket : WriteTicketId) (op_id : RequestOpId) (path : string)
    (attrs : InodeSetAttr) : PC Inode :=
  at_path path (λ i, setattr now ticket op_id (i_id i) attrs).

(** ** Streams *)

(** The [while offset < inode.size] loop; [inode.size] is read once, and each
    round reads the file anew.  Every round advances, so [size] rounds are
    enough. *)
Fixpoint read_to_writer_loop (rounds : nat) (ino : InodeId) (size offset : N) (out : bytes) :
    C (N * bytes) :=
  match rounds with
  | O => mret (offset, out)
  | S rounds =>
      if size <=? offset then mret (offset, out) else
      b ← read_at ufs ino offset (N.min (size - offset) CHUNK_SIZE);
      _ ← fail_if (bool_decide (b = [])) (Io "short streaming read");
      offset ← lift (ok_or (InvalidArg "stream offset overflow")
                       (checked_add offset (N.of_nat (length b))));
      read_to_writer_loop rounds ino size offset (out ++ b)
  end.

Definition read_to_writer (ino : InodeId) : C (N * bytes) :=
  inode ← read_meta (ms_get_inode ino);
  _ ← fail_if (bool_decide (i_file_type inode ≠ Regular)) IsDirectory;
  read_to_writer_loop (N.to_nat (i_size inode)) ino (i_size inode) 0 [].

(** The loop ends at the first empty block. *)
Fixpoint write_from_reader_loop (tickets ops : nat → N) (ino : InodeId) (offset : N)
    (blocks : list bytes) : C N :=
  match blocks with
  | [] | [] :: _ => mret offset
  | block :: blocks =>
      _ ← write_at ufs now (tickets O) (ops O) ino offset block;
      offset ← lift (ok_or (InvalidArg "stream offset overflow")
                       (checked_add offset (N.of_nat (length block))));
      write_from_reader_loop (λ i, tickets (S i)) (λ i, ops (S i)) ino offset blocks
  end.

Definition write_from_reader (tickets ops : nat → N) (ino : InodeId) (blocks : list bytes) : C N :=
  _ ← truncate now (tickets O) (ops O) ino 0;
  write_from_reader_loop (λ i, tickets (S i)) (λ i, ops (S i)) ino 0 blocks.

Definition put_chunk (data : bytes) : C ChunkId := on_chunks (cs_put data).
Definition get_chunk (id : ChunkId) : C bytes := read_chunks (λ k, cs_get k id).
End calls.
