(* ===== verification/ClientFlush.v ===== *)
(** * The client: flush and garbage collection ([crates/client/src/lib.rs])

    Flushing publishes a dirty file to the UFS under a durable intent;
    collection finds orphaned chunks page by page, tombstones them, deletes
    them from every target and finalises the tombstones.  Random ids are
    arguments: [ids i] is the [i]-th id that a call draws. *)

From S2P Require Import Prelude Types Bytes Extents Keys ChunkStore Ufs MetaDb Namespace InodeData Gc.
From S2P Require Import Ledger MetaStore Client ClientIo.

Local Open Scope N_scope.

Record FlushRecoveryReport := mkFlushRecoveryReport {
  fr_completed : nat; fr_conflicts : nat; fr_pending : nat
}.
Record OrphanGcReport := mkOrphanGcReport { og_removed_manifests : N; og_removed_chunks : N }.

(** [ChunkStore::gc_delete_targets] and [delete_from_target] of a store, and
    their provided definitions: one target, the store itself. *)
Record GcTargets (Ct : Type) := mkGcTargets {
  gc_delete_targets : Ct → Result (list WorkerTargetId);
  delete_from_target : ChunkId → WorkerTargetId → txn Ct FluxError unit
}.
Arguments gc_delete_targets {Ct}. Arguments delete_from_target {Ct}.

Definition one_target {hash Ct} `{!ChunkStore hash Ct} : GcTargets Ct := {|
  gc_delete_targets _ := Ok [0];
  delete_from_target id target :=
    if negb (target =? 0) then throw (InvalidArg ("unknown chunk delete target " +:+ pretty target))
    else cs_delete id
|}.

Section flush.
Context {hash : bytes → ChunkId} {Mt Ct U : Type}.
Context `{!MetaStore Mt, !ChunkStore hash Ct}.
Context (ufs : option (Ufs U)).

Abbreviation Cl := (FluxClient Mt Ct U).
Abbreviation C := (txn Cl FluxError).

(** ** Streaming a file *)

(** The ranges that the loop of [for_each_inode_chunk] visits. *)
Definition stream_ranges (size : N) : list (N * N) :=
  (λ i, (N.of_nat i * CHUNK_SIZE, N.min (size - N.of_nat i * CHUNK_SIZE) CHUNK_SIZE))
    <$> seq 0 (N.to_nat ((size + CHUNK_SIZE - 1) / CHUNK_SIZE)).

(** [consume] may change the state that the next range is read in. *)
Definition for_each_inode_chunk {S} (rd_of : S → Reader) (m : Mt) (k : Ct) (inode : Inode)
    (consume : bytes → txn S FluxError unit) : txn S FluxError unit :=
  for_each (λ ol,
    bytes ← peek (λ s, read_inode_range (rd_of s) m k inode ol.1 ol.2);
    _ ← fail_if (negb (N.of_nat (length bytes) =? ol.2))
          (Io ("streamed inode range length mismatch: want=" +:+ pretty ol.2
               +:+ " got=" +:+ pretty (N.of_nat (length bytes))));
    consume bytes) (stream_ranges (i_size inode)).

(** The hasher is the bytes that it has absorbed. *)
Definition inode_digest (rd : Reader) (m : Mt) (k : Ct) (inode : Inode) : Result ChunkId :=
  match for_each_inode_chunk (λ _, rd) m k inode (λ b, modify (λ h, h ++ b)) [] with
  | (Ok _, hasher) => Ok (hash hasher)
  | (Err e, _) => Err e
  end.

(** ** Flushing *)

(** The two loops [for _ in 0..4] that retry on a lost generation check. *)
Fixpoint record_flush_conflict (tries : nat) (ino : InodeId) (flush_id : FlushId) (message : string) :
    C Inode :=
  match tries with
  | O => throw Busy
  | S tries =>
      current ← read_meta (ms_get_inode ino);
      match_with (on_meta (ms_fail_flush_conflict (i_generation current) ino flush_id message))
        (λ _, throw EDirtyConflict)
        (λ e, match e with
              | CasFailed _ _ => record_flush_conflict tries ino flush_id message
              | e => throw e
              end)
  end.

Fixpoint commit_flush_retry (tries : nat) (ids : nat → RequestOpId) (ino : InodeId)
    (flush_id : FlushId) (published : UfsObject) : C Inode :=
  match tries with
  | O => throw Busy
  | S tries =>
      current ← read_meta (ms_get_inode ino);
      match_with (on_meta (ms_commit_flush (ids O) (i_generation current) ino flush_id published))
        mret
        (λ e, match e with
              | CasFailed _ _ => commit_flush_retry tries (λ i, ids (S i)) ino flush_id published
              | e => throw e
              end)
  end.

Definition FLUSH_TRIES : nat := 4.

(** A call on the writer of a publication and on the UFS. *)
Definition on_publish {W A} (w : W) (f : txn (W * U) FluxError A) : C (result FluxError A * W) := λ c,
  let '(r, (w, u)) := f (w, fc_ufs_state c) in (Ok (r, w), set_ufs_state u c).

Definition DRIFT : string := "conditional UFS publish detected external version drift".

(** The branch of [complete_flush_intent] that uploads. *)
Definition upload (u : Ufs U) (inode : Inode) (object : UfsObject) (intent : FlushIntent) :
    C (UfsObject + string) := λ c,
  match on_ufs (ufs_begin_verified_publish u (uo_key object) (i_size inode)
                  (fi_expected_ufs_version intent) (fi_target_digest intent)) c with
  | (Err EDirtyConflict, c) => (Ok (inr DRIFT), c)
  | (Err e, c) => (Err e, c)
  | (Ok writer, c) =>
      let stream := for_each_inode_chunk (λ s, reader ufs s.2) (fc_meta c) (fc_chunks c) inode
                      (ufs_write u) in
      match on_publish writer stream c with
      | (Ok (Err e, writer), c) =>
          let '(_, c) := on_publish writer (ufs_abort u) c in (Err e, c)
      | (Ok (Ok _, writer), c) =>
          match on_ufs (ufs_finish u writer) c with
          | (Ok published, c) => (Ok (inl published), c)
          | (Err (InvalidArg _), c) =>
              (Ok (inr "flush reconstructed bytes do not match target digest"), c)
          | (Err EDirtyConflict, c) => (Ok (inr DRIFT), c)
          | (Err e, c) => (Err e, c)
          end
      | (Err e, c) => (Err e, c)
      end
  end.

Definition complete_flush_intent (ids : nat → RequestOpId) (ino : InodeId) (intent : FlushIntent) :
    C Inode :=
  u ← lift (ok_or (Capability "flush requires a UFS mount") ufs);
  inode ← read_meta (ms_get_inode ino);
  _ ← fail_if (bool_decide (fi_flush_id <$> i_flush_intent inode ≠ Some (fi_flush_id intent))) Busy;
  object ← lift (ok_or (Meta "Dirty inode missing UFS target") (i_ufs inode));
  manifest_id ← lift (ok_or (Meta "flushing inode missing manifest") (i_manifest_id inode));
  manifest ← read_meta (ms_get_manifest manifest_id);
  if negb (root_digest hash manifest =? fi_snapshot_manifest_root intent) then
    record_flush_conflict FLUSH_TRIES ino (fi_flush_id intent) "flush snapshot manifest changed"
  else
  found ← peek (λ c, ufs_find_verified_publish u (uo_key object) (i_size inode)
                       (fi_target_digest intent) (fc_ufs_state c));
  outcome ← match found with
            | Some published => mret (inl published)
            | None => upload u inode object intent
            end;
  match outcome with
  | inl published => commit_flush_retry FLUSH_TRIES ids ino (fi_flush_id intent) published
  | inr message => record_flush_conflict FLUSH_TRIES ino (fi_flush_id intent) message
  end.

(** The intent of a new flush. *)
Definition new_intent (flush_id : FlushId) (inode : Inode) (fields : LocalityFields) (c : Cl) :
    Result FlushIntent :=
  manifest_id ← ok_or (Meta "Dirty inode missing manifest") (i_manifest_id inode);
  manifest ← ms_get_manifest manifest_id (fc_meta c);
  if negb (m_gen manifest =? i_head_gen inode) || negb (m_size manifest =? i_size inode) then
    Err (Meta "Dirty inode head does not match manifest snapshot") else
  target_digest ← inode_digest (reader ufs (fc_ufs_state c)) (fc_meta c) (fc_chunks c) inode;
  target ← ok_or (Meta "Dirty inode missing UFS target") (i_ufs inode);
  expected ← match uo_etag target with
             | Some etag => Ok (Some etag)
             | None =>
                 if bool_decide (lf_origin fields = FluxCreated) then Ok None
                 else Err (Capability "safe overwrite of imported data requires a UFS ETag")
             end;
  Ok (mkFlushIntent flush_id (i_head_gen inode) (root_digest hash manifest) expected target_digest).

Definition flush_inode (flush_id : FlushId) (ids : nat → RequestOpId) (ino : InodeId) : C Inode :=
  inode ← read_meta (ms_get_inode ino);
  _ ← fail_if (bool_decide (i_file_type inode ≠ Regular)) IsDirectory;
  fields ← lift (ok_or MISSING_LOCALITY (i_locality_fields inode));
  if bool_decide (lf_backing_mode fields = BEphemeral) || bool_decide (lf_data_state fields = UfsClean)
  then mret inode else
  if bool_decide (lf_data_state fields = DirtyConflict) then throw EDirtyConflict else
  match i_flush_intent inode with
  | Some intent => complete_flush_intent ids ino intent
  | None =>
      if bool_decide (lf_data_state fields ≠ Dirty) then throw Busy else
      intent ← peek (new_intent flush_id inode fields);
      _ ← on_meta (ms_begin_flush (ids O) (i_generation inode) (i_id inode) intent);
      complete_flush_intent (λ i, ids (S i)) (i_id inode) intent
  end.

(** [reconcile_flushes]; the outcomes are counted, not returned. *)
Fixpoint reconcile_loop (ids : nat → nat → RequestOpId) (intents : list (InodeId * FlushIntent))
    (report : FlushRecoveryReport) : C FlushRecoveryReport :=
  match intents with
  | [] => mret report
  | (inode, intent) :: intents =>
      let next r := reconcile_loop (λ i, ids (S i)) intents r in
      match_with (complete_flush_intent (ids O) inode intent)
        (λ _, next (mkFlushRecoveryReport (S (fr_completed report)) (fr_conflicts report) (fr_pending report)))
        (λ e, next (match e with
                    | EDirtyConflict =>
                        mkFlushRecoveryReport (fr_completed report) (S (fr_conflicts report)) (fr_pending report)
                    | _ =>
                        mkFlushRecoveryReport (fr_completed report) (fr_conflicts report) (S (fr_pending report))
                    end))
  end.

Definition reconcile_flushes (ids : nat → nat → RequestOpId) : C FlushRecoveryReport :=
  intents ← read_meta ms_list_flush_intents;
  reconcile_loop ids intents (mkFlushRecoveryReport 0 0 0).

(** ** Garbage collection *)

Context (targets : GcTargets Ct).

(** The deletions of one tombstone: the acknowledged targets, and whether
    some target failed. *)
Fixpoint delete_targets (chunk : ChunkId) (pending : list WorkerTargetId) :
    C (list (ChunkId * WorkerTargetId) * bool) :=
  match pending with
  | [] => mret ([], false)
  | target :: pending =>
      match_with (on_chunks (delete_from_target targets chunk target))
        (λ _, '(acks, failed) ← delete_targets chunk pending; mret ((chunk, target) :: acks, failed))
        (λ _, '(acks, _) ← delete_targets chunk pending; mret (acks, true))
  end.

Fixpoint delete_tombstones (all : list WorkerTargetId) (tombstones : list GcTombstone) :
    C (list (ChunkId * WorkerTargetId) * list ChunkId) :=
  match tombstones with
  | [] => mret ([], [])
  | t :: tombstones =>
      let pending := if gt_targets_initialized t then gt_pending_targets t else all in
      '(acks, failed) ← delete_targets (gt_chunk t) pending;
      '(acks', completed) ← delete_tombstones all tombstones;
      mret (acks ++ acks', if failed : bool then completed else gt_chunk t :: completed)
  end.

Definition reclaim_tombstones (tombstones : list GcTombstone) : C N :=
  all ← read_chunks (gc_delete_targets targets);
  let uninitialized := gt_chunk <$> filter (λ t, gt_targets_initialized t = false) tombstones in
  _ ← when (negb (bool_decide (uninitialized = [])))
        (on_meta (ms_initialize_gc_delete_targets uninitialized all));
  '(acknowledged, completed) ← delete_tombstones all tombstones;
  _ ← when (negb (bool_decide (acknowledged = []))) (on_meta (ms_acknowledge_gc_deletes acknowledged));
  _ ← when (negb (bool_decide (completed = []))) (on_meta (ms_finalize_gc_tombstones completed));
  mret (N.of_nat (length completed)).

Definition run_concurrent_gc_pass (batch_size : N) : C OrphanGcReport :=
  if batch_size =? 0 then throw (InvalidArg "GC batch size must be non-zero") else
  _ ← on_meta (ms_expire_chunk_reservations batch_size);
  pending ← read_meta ms_list_gc_tombstones;
  if negb (bool_decide (pending = [])) then
    removed ← reclaim_tombstones (take (N.to_nat batch_size) pending);
    mret (mkOrphanGcReport 0 removed)
  else
    cursor ← gets fc_gc_cursor;
    page ← read_chunks (λ k, list_chunks_page (cs_list k) cursor batch_size);
    _ ← modify (set_gc_cursor (cp_next_cursor page));
    batch ← on_meta (ms_tombstone_gc_batch (cp_chunks page));
    listed ← read_meta ms_list_gc_tombstones;
    removed ← reclaim_tombstones (filter (λ t, gt_chunk t ∈ gb_tombstoned_chunks batch) listed);
    mret (mkOrphanGcReport (gb_removed_manifests batch) removed).

Definition run_orphan_gc : C OrphanGcReport := run_concurrent_gc_pass 256.

(** The loop of [execute_gc_plan]; every chunk outside the plan goes. *)
Fixpoint sweep_chunks (live : list ChunkId) (chunks : list ChunkId) : C N :=
  match chunks with
  | [] => mret 0
  | chunk :: chunks =>
      if bool_decide (chunk ∈ live) then sweep_chunks live chunks else
      _ ← on_chunks (cs_delete chunk);
      n ← sweep_chunks live chunks;
      mret (n + 1)
  end.

Definition execute_gc_plan (plan : GcPlan) : C OrphanGcReport :=
  chunks ← read_chunks cs_list;
  removed ← sweep_chunks (gp_live_chunks plan) chunks;
  _ ← on_meta (ms_finish_gc (gp_lease_id plan));
  mret (mkOrphanGcReport (gp_removed_manifests plan) removed).

Definition resume_orphan_gc : C (option OrphanGcReport) :=
  plan ← read_meta ms_current_gc_plan;
  match plan with
  | None => mret None
  | Some plan => report ← execute_gc_plan plan; mret (Some report)
  end.

Definition release_interrupted_gc_lease : C bool :=
  plan ← read_meta ms_current_gc_plan;
  match plan with
  | None => mret false
  | Some plan => _ ← on_meta (ms_finish_gc (gp_lease_id plan)); mret true
  end.
End flush.
