(* ===== verification/Foyer.v ===== *)
(** * The cache tier of a worker ([FoyerChunkStore], [crates/chunk/src/foyer_store.rs])

    A durable store with foyer's [HybridCache] in front of it.  The cache is
    a parameter with the laws of a cache: it returns only what was inserted
    and not removed since, and it may drop anything at any time. *)

From S2P Require Import Prelude Types Bytes ChunkStore Pack ClientFlush.

Local Open Scope N_scope.

(** The methods of [DiskChunkStore] that the tier forwards to. *)
Class DiskStore (hash : bytes → ChunkId) (St : Type) := {
  ds_store :: ChunkStore hash St;
  ds_contains : St → ChunkId → Result bool;
  ds_contains_law s id : cs_wf s → ds_contains s id = Ok (is_ok (cs_get s id))
}.

Class HybridCache (C : Type) := {
  hc_get : ChunkId → txn C string (option bytes);
  hc_insert : ChunkId → bytes → C → C;
  hc_remove : ChunkId → C → C;
  (** What a lookup may return. *)
  hc_entry : C → ChunkId → bytes → Prop;
  hc_get_law k c r c' :
    hc_get k c = (r, c') →
    (∀ v, r = Ok (Some v) → hc_entry c k v) ∧ ∀ k' v', hc_entry c' k' v' → hc_entry c k' v';
  hc_insert_law k v c k' v' :
    hc_entry (hc_insert k v c) k' v' → (k' = k ∧ v' = v) ∨ (k' ≠ k ∧ hc_entry c k' v');
  hc_remove_law k c k' v' : hc_entry (hc_remove k c) k' v' → k' ≠ k ∧ hc_entry c k' v'
}.

Record FoyerCacheConfig := mkFoyerCacheConfig { fc_memory_capacity_bytes : N; fc_disk_capacity_bytes : N; fc_cache_dir : string }.
Definition FoyerCacheConfig_new (cache_dir : string) (memory_capacity_bytes disk_capacity_bytes : N) : FoyerCacheConfig :=
  mkFoyerCacheConfig (N.max memory_capacity_bytes (64 * 1024)) disk_capacity_bytes cache_dir.

(** The block size of the disk tier, [None] when it is disabled. *)
Definition cache_block_size (config : FoyerCacheConfig) : option N :=
  if fc_disk_capacity_bytes config =? 0 then None
  else Some (N.min (N.max (fc_disk_capacity_bytes config / 4) (64 * 1024)) (4 * 1024 * 1024)).

Record FoyerChunkStore (St C : Type) := mkFoyer { fs_disk : St; fs_cache : C }.
Arguments mkFoyer {St C}. Arguments fs_disk {St C}. Arguments fs_cache {St C}.

Section foyer.
Context {hash : bytes → ChunkId} {St C : Type} `{!DiskStore hash St, !HybridCache C}.

Abbreviation Fs := (FoyerChunkStore St C).
Abbreviation F := (txn Fs FluxError).

Definition on_disk {A} (m : txn St FluxError A) : F A := λ s,
  let '(r, d) := m (fs_disk s) in (r, mkFoyer d (fs_cache s)).
Definition read_disk {A} (f : St → Result A) : F A := λ s, (f (fs_disk s), s).

Definition cache_clean (id : ChunkId) (data : bytes) : F unit :=
  modify (λ s, mkFoyer (fs_disk s) (hc_insert id data (fs_cache s))).
Definition cache_remove (id : ChunkId) : F unit :=
  modify (λ s, mkFoyer (fs_disk s) (hc_remove id (fs_cache s))).
Definition cache_get (id : ChunkId) : F (option bytes) := λ s,
  let '(r, c) := hc_get id (fs_cache s) in
  (match r with Ok entry => Ok entry | Err e => Err (Io ("foyer get: " +:+ e)) end, mkFoyer (fs_disk s) c).

Definition foyer_put (data : bytes) : F ChunkId := on_disk (cs_put data).

Definition get_with_promote (id : ChunkId) (promote_cache : bool) : F bytes :=
  cached ← cache_get id;
  match cached with
  | Some data => mret data
  | None =>
      data ← read_disk (λ d, cs_get d id);
      _ ← when promote_cache (cache_clean id data);
      mret data
  end.
Definition foyer_get (id : ChunkId) : F bytes := get_with_promote id false.

Definition foyer_contains (id : ChunkId) : F bool := read_disk (λ d, ds_contains d id).
Definition foyer_list_chunks : F (list ChunkId) := read_disk cs_list.
Definition foyer_list_chunks_page (cursor : option ChunkId) (limit : N) : F ChunkPage :=
  read_disk (λ d, list_chunks_page (cs_list d) cursor limit).
Definition foyer_delete (id : ChunkId) : F unit :=
  _ ← cache_remove id;
  on_disk (cs_delete id).

(** The targets are the ones of the disk store. *)
Definition foyer_targets : GcTargets Fs := {|
  gc_delete_targets s := gc_delete_targets one_target (fs_disk s);
  delete_from_target id target :=
    _ ← cache_remove id;
    on_disk (delete_from_target one_target id target)
|}.

(** ** Properties *)

(** The durable store is sound and the cache repeats it. *)
Record fs_coherent (s : Fs) : Prop := {
  fs_wf : cs_wf (fs_disk s);
  fs_cached k v : hc_entry (fs_cache s) k v → cs_get (fs_disk s) k = Ok v
}.

Lemma cache_get_inv id s r s' :
  cache_get id s = (r, s') →
  fs_disk s' = fs_disk s ∧
  (∀ k v, hc_entry (fs_cache s') k v → hc_entry (fs_cache s) k v) ∧
  match r with
  | Ok (Some v) => hc_entry (fs_cache s) id v
  | Ok None => True
  | Err e => ∃ m, e = Io ("foyer get: " +:+ m)
  end.
Proof.
  unfold cache_get. destruct (hc_get id (fs_cache s)) as [r0 c] eqn:Hg. intros [= <- <-].
  apply hc_get_law in Hg as [Hv Hc]. split; [done|]. split; [done|]. destruct r0 as [[v|]|e]; eauto.
Qed.

(** The events of a tier's life, with the loss of entries by eviction or
    restart, and the same events on the durable store alone. *)
Inductive FEvent :=
  | FPut (data : bytes)
  | FGet (id : ChunkId) (promote_cache : bool)
  | FContains (id : ChunkId)
  | FList
  | FPage (cursor : option ChunkId) (limit : N)
  | FDelete (id : ChunkId)
  | FDeleteFrom (id : ChunkId) (target : WorkerTargetId)
  | FLose (cache : C).
Inductive FAnswer :=
  | APut (r : Result ChunkId) | AGet (r : Result bytes) | AContains (r : Result bool)
  | AList (r : Result (list ChunkId)) | APage (r : Result ChunkPage) | ADone (r : Result unit).

Definition answering {S A} (k : Result A → FAnswer) (m : txn S FluxError A) (s : S) : FAnswer * S :=
  let '(r, s') := m s in (k r, s').

Definition foyer_event (ev : FEvent) : Fs → FAnswer * Fs :=
  match ev with
  | FPut data => answering APut (foyer_put data)
  | FGet id promote => answering AGet (get_with_promote id promote)
  | FContains id => answering AContains (foyer_contains id)
  | FList => answering AList foyer_list_chunks
  | FPage cursor limit => answering APage (foyer_list_chunks_page cursor limit)
  | FDelete id => answering ADone (foyer_delete id)
  | FDeleteFrom id target => answering ADone (delete_from_target foyer_targets id target)
  | FLose cache => λ s, (ADone (Ok tt), mkFoyer (fs_disk s) cache)
  end.

Definition disk_event (ev : FEvent) : St → FAnswer * St :=
  match ev with
  | FPut data => answering APut (cs_put data)
  | FGet id _ => λ s, (AGet (cs_get s id), s)
  | FContains id => λ s, (AContains (ds_contains s id), s)
  | FList => λ s, (AList (cs_list s), s)
  | FPage cursor limit => λ s, (APage (list_chunks_page (cs_list s) cursor limit), s)
  | FDelete id => answering ADone (cs_delete id)
  | FDeleteFrom id target => answering ADone (delete_from_target one_target id target)
  | FLose _ => λ s, (ADone (Ok tt), s)
  end.

(** Puts find room and no other data under their hash; losses only lose. *)
Definition allowed (ev : FEvent) (s : Fs) : Prop :=
  match ev with
  | FPut data => cs_room (fs_disk s) data ∧ ∀ d, cs_get (fs_disk s) (hash data) = Ok d → d = data
  | FLose cache => ∀ k v, hc_entry cache k v → hc_entry (fs_cache s) k v
  | _ => True
  end.

(** An answer of the tier: the one of the durable store, or an error of the
    cache on a read. *)
Definition same_answer (a a0 : FAnswer) : Prop :=
  a = a0 ∨ ∃ m, a = AGet (Err (Io ("foyer get: " +:+ m))).

Lemma coherent_same s s' :
  fs_coherent s → fs_disk s' = fs_disk s →
  (∀ k v, hc_entry (fs_cache s') k v → hc_entry (fs_cache s) k v) → fs_coherent s'.
Proof. intros [Hwf Hc] Hd Hsub. split; rewrite Hd; auto. Qed.

Lemma coherent_delete s id d :
  fs_coherent s → cs_wf d → (∀ id', id' ≠ id → cs_get d id' = cs_get (fs_disk s) id') →
  fs_coherent (mkFoyer d (hc_remove id (fs_cache s))).
Proof. intros [Hwf Hc] Hd Hold. split; [done|]. cbn. intros k v [Hne He]%hc_remove_law. rewrite Hold by done. auto. Qed.

Lemma get_step id promote s r s' :
  fs_coherent s → get_with_promote id promote s = (r, s') →
  fs_disk s' = fs_disk s ∧ fs_coherent s' ∧
  (r = cs_get (fs_disk s) id ∨ ∃ m, r = Err (Io ("foyer get: " +:+ m))).
Proof.
  intros Hs H. unfold get_with_promote in H.
  apply txn_bind_inv in H as [(cached&s1&Hg&H)|(e&Hg&->)]; apply cache_get_inv in Hg as (Hd&Hsub&Hr).
  2: { split; [done|]. split; [by apply (coherent_same s)|]. destruct Hr as [m ->]. eauto. }
  assert (Hs1 := coherent_same _ _ Hs Hd Hsub). destruct cached as [v|].
  { injection H as <- <-. split; [done|]. split; [done|]. left. symmetry. by apply Hs. }
  apply txn_bind_inv in H as [(data&s2&Hget&H)|(e&Hget&->)];
    unfold read_disk in Hget; injection Hget as Hget <-; rewrite Hd in Hget; rewrite Hget; [|by eauto].
  unfold when in H. destruct promote; [|by injection H as <- <-; eauto].
  injection H as <- <-. cbn. split; [done|]. split; [|by left]. split; cbn; [apply Hs1|].
  intros k v [[-> ->]|[_ He]]%hc_insert_law; [by rewrite Hd|by apply Hs1].
Qed.

Lemma foyer_step ev s a s' :
  fs_coherent s → allowed ev s → foyer_event ev s = (a, s') →
  fs_coherent s' ∧ ∃ a0, disk_event ev (fs_disk s) = (a0, fs_disk s') ∧ same_answer a a0.
Proof.
  intros Hs Hev H. assert (Hwf := fs_wf _ Hs). unfold same_answer.
  destruct ev as [data|id promote|id| |cursor limit|id|id target|cache]; cbn in H, Hev |- *; unfold answering in *.
  - destruct Hev as [Hroom Hcol]. destruct (cs_put_law _ _ Hwf Hroom) as (d&Hput&Hd&Hnew&Hold).
    unfold foyer_put, on_disk in H. rewrite Hput in H |- *. injection H as <- <-. split; [|eauto].
    split; [done|]. cbn. intros k v Hk%Hs. destruct (decide (k = hash data)) as [->|]; [|by rewrite Hold].
    rewrite Hnew. f_equal. symmetry. by apply Hcol.
  - destruct (get_with_promote id promote s) as [r s1] eqn:Hg. injection H as <- <-.
    destruct (get_step _ _ _ _ _ Hs Hg) as (Hd&Hs1&Hr). rewrite Hd. split; [done|]. eexists. split; [done|].
    destruct Hr as [->|[m ->]]; eauto.
  - injection H as <- <-. eauto.
  - injection H as <- <-. eauto.
  - injection H as <- <-. eauto.
  - destruct (cs_delete_law _ id Hwf) as (d&Hdel&Hd&_&Hold).
    unfold foyer_delete, cache_remove, on_disk, modify, mbind, txn_bind in H. cbn in H. rewrite Hdel in H |- *.
    injection H as <- <-. split; [by apply coherent_delete|eauto].
  - destruct (cs_delete_law _ id Hwf) as (d&Hdel&Hd&_&Hold).
    unfold cache_remove, on_disk, modify, mbind, txn_bind in H. cbn in H.
    destruct (negb (target =? 0)).
    + injection H as <- <-. split; [|eauto]. by apply coherent_delete.
    + rewrite Hdel in H |- *. injection H as <- <-. split; [by apply coherent_delete|eauto].
  - injection H as <- <-. split; [by apply (coherent_same s)|eauto].
Qed.

(** A run of events, with the condition met at each. *)
Inductive foyer_run : list FEvent → list FAnswer → Fs → Fs → Prop :=
  | run_nil s : foyer_run [] [] s s
  | run_cons ev evs a answers s s1 s2 :
      allowed ev s → foyer_event ev s = (a, s1) → foyer_run evs answers s1 s2 →
      foyer_run (ev :: evs) (a :: answers) s s2.
Fixpoint disk_run (evs : list FEvent) (s : St) : list FAnswer * St :=
  match evs with
  | [] => ([], s)
  | ev :: evs =>
      let '(a, s) := disk_event ev s in
      let '(answers, s) := disk_run evs s in (a :: answers, s)
  end.

End foyer.

(** ** Instances *)

Lemma pack_contains_law hash s id : contains hash s id = Ok (is_ok (get hash s id)).
Proof.
  unfold contains, get, get_if_valid_unlocked. destruct (pk_index s !! id); [|done].
  destruct (read_record hash s _); [|done]. by destruct (_ =? _).
Qed.

Definition pack_disk hash (width : ∀ data, hash data < 256 ^ N.of_nat 32) : DiskStore hash PackStore := {|
  ds_store := pack_chunk_store hash width;
  ds_contains := contains hash;
  ds_contains_law s id _ := pack_contains_law hash s id
|}.

(** A cache in memory that evicts nothing of its own accord. *)
#[export] Instance map_cache : HybridCache (gmap ChunkId bytes).
Proof.
  refine {|
    hc_get k c := (Ok (c !! k), c);
    hc_insert k v c := <[k := v]> c;
    hc_remove k c := base.delete k c;
    hc_entry c k v := c !! k = Some v
  |}.
  - intros k c r c' [= <- <-]. split; [|done]. by intros v [= ->].
  - intros k v c k' v'. rewrite lookup_insert_Some. naive_solver.
  - intros k c k' v'. rewrite lookup_delete_Some. naive_solver.
Defined.

(** A chunk is written, cached, lost from the cache, read again and deleted. *)
Definition tier : FoyerChunkStore PackStore (gmap ChunkId bytes) := mkFoyer new_store ∅.
Definition tier_events : list (FEvent (C := gmap ChunkId bytes)) :=
  let id := toy_hash chunk_a in
  [FPut chunk_a; FGet id true; FLose ∅; FGet id true; FDelete id; FGet id false].
Definition tier_run : list FAnswer * FoyerChunkStore PackStore (gmap ChunkId bytes) :=
  let H := pack_disk toy_hash toy_hash_width in
  foldl (λ '(answers, s) ev, let '(a, s) := foyer_event ev s in (answers ++ [a], s)) ([], tier) tier_events.

