(* ===== verification/Worker.v ===== *)
(** * The chunk worker ([crates/chunkworker/src/main.rs])

    The handlers of the worker process over its store [FoyerChunkStore], with
    the two pools of permits that bound the operations in flight, the
    worker's registration, and the messages of [chunk.proto].  [req] is the
    request's envelope: the principal the interceptor attached. *)

From S2P Require Import Prelude Types Bytes Keys ChunkStore Pack ClientFlush Foyer Auth Wire Authz.

Local Open Scope N_scope.

(** ** Messages *)

Inductive WorkerRpc :=
  | PutChunkRequest (data : bytes)
  | GetChunkRequest (chunk_id : bytes) (promote_cache : bool)
  | ContainsChunkRequest (chunk_id : bytes)
  | ListChunksRequest (after_chunk_id : bytes) (limit : N)
  | DeleteChunkRequest (chunk_id : bytes)
  | HealthRequest.

Inductive WorkerReply :=
  | PutChunkResponse (chunk_id : bytes) (worker_id : N) (durable : bool)
  | GetChunkResponse (data : bytes) (worker_id : N)
  | ContainsChunkResponse (present : bool) (worker_id : N)
  | ListChunksResponse (chunk_ids : list bytes) (worker_id : N) (next_cursor : bytes)
  | DeleteChunkResponse (worker_id : N)
  | HealthResponse (worker_id : N) (ready : bool).

(** [ChunkId::as_bytes] and [ChunkId::try_from(&[u8])]. *)
Definition as_bytes (id : ChunkId) : bytes := be_bytes 32 id.
Definition ChunkId_try_from (b : bytes) : Result ChunkId :=
  if bool_decide (length b = 32%nat) then Ok (of_be_bytes b)
  else Err (InvalidArg ("chunk id must be 32 bytes, got " +:+ pretty (N.of_nat (length b)))).

(** [status_from_flux] of the worker. *)
Definition worker_status (error : FluxError) : Status :=
  match error with
  | NotFound => status_new CodeNotFound "chunk not found"
  | InvalidArg message => status_new InvalidArgument message
  | Busy => status_new Unavailable "chunk worker busy"
  | other => status_new Internal (FluxError_to_string other)
  end.

Record ChunkSvc (St C : Type) := mkChunkSvc {
  sv_worker_id : N;
  sv_store : FoyerChunkStore St C;
  sv_in_flight : N;
  sv_gc_in_flight : N
}.
Arguments mkChunkSvc {St C}. Arguments sv_worker_id {St C}. Arguments sv_store {St C}.
Arguments sv_in_flight {St C}. Arguments sv_gc_in_flight {St C}.

Section worker.
Context {hash : bytes → ChunkId} {St C : Type} `{!DiskStore hash St, !HybridCache C, !Serde FluxError}.
Context (req : Request).

Abbreviation Svc := (ChunkSvc St C).
Abbreviation SvcT := (txn Svc Status).

(** ** Permits *)

Definition pool (gc : bool) (s : Svc) : N := if gc then sv_gc_in_flight s else sv_in_flight s.
Definition set_pool (gc : bool) (n : N) (s : Svc) : Svc :=
  if gc then mkChunkSvc (sv_worker_id s) (sv_store s) (sv_in_flight s) n
  else mkChunkSvc (sv_worker_id s) (sv_store s) n (sv_gc_in_flight s).

(** [TrackedPermit::acquire]: [try_acquire_owned] of the semaphore. *)
Definition acquire (gc : bool) : SvcT unit := λ s,
  if pool gc s =? 0 then (Err (status_new ResourceExhausted "chunk worker in-flight limit reached"), s)
  else (Ok tt, set_pool gc (pool gc s - 1) s).
(** [Drop for TrackedPermit]. *)
Definition release (gc : bool) (s : Svc) : Svc := set_pool gc (pool gc s + 1) s.

(** The scope of [let _permit = self.try_enter()?]. *)
Definition releasing {A} (gc : bool) (body : SvcT A) : SvcT A := λ s,
  let '(r, s') := body s in (r, release gc s').
Definition with_permit {A} (gc : bool) (body : SvcT A) : SvcT A :=
  _ ← acquire gc;
  releasing gc body.

(** ** Handlers *)

Definition capable (cap : Capability) : SvcT unit := λ s, (require_in_extensions req cap, s).

(** A result of the store or of decoding, with [map_err(status_from_flux)?]. *)
Definition or_status {A} (r : Result A) : result Status A :=
  match r with Ok a => Ok a | Err e => Err (worker_status e) end.
Definition decoding {A} (r : Result A) : SvcT A := λ s, (or_status r, s).

(** [spawn_blocking(move || store.op(..)).await?.map_err(status_from_flux)?]. *)
Definition blocking {A} (m : txn (FoyerChunkStore St C) FluxError A) : SvcT A := λ s,
  let '(r, store) := m (sv_store s) in
  (or_status r, mkChunkSvc (sv_worker_id s) store (sv_in_flight s) (sv_gc_in_flight s)).

Definition worker_put_chunk (data : bytes) : SvcT WorkerReply :=
  _ ← capable PutChunk;
  with_permit false (
    chunk ← blocking (foyer_put data);
    id ← gets sv_worker_id;
    mret (PutChunkResponse (as_bytes chunk) id true)).

Definition worker_get_chunk (chunk_id : bytes) (promote_cache : bool) : SvcT WorkerReply :=
  _ ← capable GetChunk;
  with_permit false (
    chunk ← decoding (ChunkId_try_from chunk_id);
    data ← blocking (get_with_promote chunk promote_cache);
    id ← gets sv_worker_id;
    mret (GetChunkResponse data id)).

Definition worker_contains_chunk (chunk_id : bytes) : SvcT WorkerReply :=
  _ ← capable GetChunk;
  with_permit false (
    chunk ← decoding (ChunkId_try_from chunk_id);
    present ← blocking (foyer_contains chunk);
    id ← gets sv_worker_id;
    mret (ContainsChunkResponse present id)).

Definition worker_health : SvcT WorkerReply :=
  _ ← capable ReadMeta;
  id ← gets sv_worker_id;
  mret (HealthResponse id true).

Definition worker_list_chunks (after_chunk_id : bytes) (limit : N) : SvcT WorkerReply :=
  _ ← capable GetChunk;
  with_permit true (
    _ ← fail_if (limit =? 0) (status_new InvalidArgument "inventory limit must be non-zero");
    cursor ← (if bool_decide (after_chunk_id = []) then mret None
              else c ← decoding (ChunkId_try_from after_chunk_id); mret (Some c));
    page ← blocking (foyer_list_chunks_page cursor limit);
    id ← gets sv_worker_id;
    mret (ListChunksResponse (as_bytes <$> cp_chunks page) id
            match cp_next_cursor page with Some c => as_bytes c | None => [] end)).

Definition worker_delete_chunk (chunk_id : bytes) : SvcT WorkerReply :=
  _ ← capable DeleteChunk;
  with_permit true (
    chunk ← decoding (ChunkId_try_from chunk_id);
    _ ← blocking (foyer_delete chunk);
    id ← gets sv_worker_id;
    mret (DeleteChunkResponse id)).

(** The generated dispatch of [ChunkWorkerServer]. *)
Definition worker_serve (r : WorkerRpc) : SvcT WorkerReply :=
  match r with
  | PutChunkRequest data => worker_put_chunk data
  | GetChunkRequest id promote => worker_get_chunk id promote
  | ContainsChunkRequest id => worker_contains_chunk id
  | ListChunksRequest after limit => worker_list_chunks after limit
  | DeleteChunkRequest id => worker_delete_chunk id
  | HealthRequest => worker_health
  end.

(** ** Properties *)

(** What a message needs, and the pool it takes a permit from. *)
Definition worker_needs (r : WorkerRpc) : Capability :=
  match r with
  | PutChunkRequest _ => PutChunk
  | GetChunkRequest _ _ | ContainsChunkRequest _ | ListChunksRequest _ _ => GetChunk
  | DeleteChunkRequest _ => DeleteChunk
  | HealthRequest => ReadMeta
  end.
Definition uses_pool (r : WorkerRpc) : option bool :=
  match r with
  | HealthRequest => None
  | ListChunksRequest _ _ | DeleteChunkRequest _ => Some true
  | _ => Some false
  end.

(** The body of a handler, once it is admitted. *)
Definition worker_body (r : WorkerRpc) : SvcT WorkerReply :=
  match r with
  | PutChunkRequest data =>
      chunk ← blocking (foyer_put data);
      id ← gets sv_worker_id;
      mret (PutChunkResponse (as_bytes chunk) id true)
  | GetChunkRequest chunk_id promote_cache =>
      chunk ← decoding (ChunkId_try_from chunk_id);
      data ← blocking (get_with_promote chunk promote_cache);
      id ← gets sv_worker_id;
      mret (GetChunkResponse data id)
  | ContainsChunkRequest chunk_id =>
      chunk ← decoding (ChunkId_try_from chunk_id);
      present ← blocking (foyer_contains chunk);
      id ← gets sv_worker_id;
      mret (ContainsChunkResponse present id)
  | ListChunksRequest after_chunk_id limit =>
      _ ← fail_if (limit =? 0) (status_new InvalidArgument "inventory limit must be non-zero");
      cursor ← (if bool_decide (after_chunk_id = []) then mret None
                else c ← decoding (ChunkId_try_from after_chunk_id); mret (Some c));
      page ← blocking (foyer_list_chunks_page cursor limit);
      id ← gets sv_worker_id;
      mret (ListChunksResponse (as_bytes <$> cp_chunks page) id
              match cp_next_cursor page with Some c => as_bytes c | None => [] end)
  | DeleteChunkRequest chunk_id =>
      chunk ← decoding (ChunkId_try_from chunk_id);
      _ ← blocking (foyer_delete chunk);
      id ← gets sv_worker_id;
      mret (DeleteChunkResponse id)
  | HealthRequest =>
      id ← gets sv_worker_id;
      mret (HealthResponse id true)
  end.

Lemma worker_serve_body r :
  worker_serve r =
  (_ ← capable (worker_needs r);
   match uses_pool r with Some gc => with_permit gc (worker_body r) | None => worker_body r end).
Proof. by destruct r. Qed.

(** A handler's body touches the store only, and not by the pools. *)
Definition pool_free {A} (m : SvcT A) : Prop :=
  ∀ s a b, let '(r, s') := m s in
    m (mkChunkSvc (sv_worker_id s) (sv_store s) a b) =
      (r, mkChunkSvc (sv_worker_id s) (sv_store s') a b) ∧
    sv_worker_id s' = sv_worker_id s ∧ sv_in_flight s' = sv_in_flight s ∧ sv_gc_in_flight s' = sv_gc_in_flight s.

Lemma pool_free_bind {A B} (m : SvcT A) (k : A → SvcT B) :
  pool_free m → (∀ x, pool_free (k x)) → pool_free (m ≫= k).
Proof.
  intros Hm Hk s a b. specialize (Hm s a b). unfold mbind, txn_bind.
  destruct (m s) as [[x|e] s1]; destruct Hm as (->&Hid&H1&H2); [|done].
  specialize (Hk x s1 a b). rewrite Hid in Hk. destruct (k x s1) as [r s2].
  destruct Hk as (->&?&?&?). split_and!; congruence.
Qed.
Lemma pool_free_pure {A} (r : result Status A) : pool_free (λ s, (r, s)).
Proof. done. Qed.
Lemma pool_free_id : pool_free (gets sv_worker_id).
Proof. done. Qed.
Lemma pool_free_blocking {A} (m : txn (FoyerChunkStore St C) FluxError A) : pool_free (blocking m).
Proof. intros s a b. unfold blocking. cbn. by destruct (m (sv_store s)). Qed.

Lemma pool_free_body r : pool_free (worker_body r).
Proof.
  destruct r; cbn [worker_body];
    repeat first [apply pool_free_blocking|apply pool_free_id|apply pool_free_pure
                 |apply pool_free_bind; [|intros ?]|case_match].
Qed.

Definition EXHAUSTED : Status := status_new ResourceExhausted "chunk worker in-flight limit reached".
Definition pool_empty (r : WorkerRpc) (s : Svc) : bool :=
  match uses_pool r with Some gc => pool gc s =? 0 | None => false end.

(** What a handler answers and does, by the worker's id and store alone. *)
Definition worker_answer (r : WorkerRpc) (id : N) (store : FoyerChunkStore St C) :
    result Status WorkerReply * FoyerChunkStore St C :=
  let '(res, s) := worker_body r (mkChunkSvc id store 0 0) in (res, sv_store s).

Lemma worker_body_answer r s :
  worker_body r s =
  let '(res, store) := worker_answer r (sv_worker_id s) (sv_store s) in
  (res, mkChunkSvc (sv_worker_id s) store (sv_in_flight s) (sv_gc_in_flight s)).
Proof.
  unfold worker_answer. assert (H := pool_free_body r s 0 0).
  destruct (worker_body r s) as [res s'] eqn:Hb. destruct H as (->&Hid&H1&H2). cbn.
  destruct s'; cbn in *. by subst.
Qed.

Lemma worker_serve_spec r s :
  worker_serve r s =
  match require_in_extensions req (worker_needs r) with
  | Err st => (Err st, s)
  | Ok _ =>
      if pool_empty r s then (Err EXHAUSTED, s)
      else let '(res, store) := worker_answer r (sv_worker_id s) (sv_store s) in
           (res, mkChunkSvc (sv_worker_id s) store (sv_in_flight s) (sv_gc_in_flight s))
  end.
Proof.
  rewrite worker_serve_body. unfold capable, mbind, txn_bind.
  destruct (require_in_extensions req (worker_needs r)) as [[]|st]; [|done].
  unfold pool_empty. destruct (uses_pool r) as [gc|]; [|apply worker_body_answer].
  unfold with_permit, acquire, mbind, txn_bind. destruct (N.eqb_spec (pool gc s) 0) as [|Hne]; [done|].
  unfold releasing. rewrite worker_body_answer.
  assert (sv_worker_id (set_pool gc (pool gc s - 1) s) = sv_worker_id s ∧
          sv_store (set_pool gc (pool gc s - 1) s) = sv_store s) as [-> ->] by (by destruct gc).
  destruct (worker_answer r (sv_worker_id s) (sv_store s)) as [res store]. f_equal.
  destruct gc, s; unfold release, set_pool; cbn in *; f_equal; lia.
Qed.

(** C27: a worker's calls are admitted, bounded and isolated.  A call without its
    capability gets the status of the check, and one whose own pool of
    permits is empty RESOURCE_EXHAUSTED, and both change nothing.  In every
    case, errors included, the permits afterwards are those before, and the
    answer and the store afterwards are the same whatever the other pool
    holds: deletions and listings in flight do not hold up reads and writes,
    nor the reverse. *)
Theorem worker_isolated r s res s' :
  worker_serve r s = (res, s') →
  (∀ st, require_in_extensions req (worker_needs r) = Err st → res = Err st ∧ s' = s) ∧
  (require_in_extensions req (worker_needs r) = Ok tt → pool_empty r s = true → res = Err EXHAUSTED ∧ s' = s) ∧
  (sv_worker_id s' = sv_worker_id s ∧ ∀ gc, pool gc s' = pool gc s) ∧
  ∀ gc n, uses_pool r ≠ Some gc → worker_serve r (set_pool gc n s) = (res, set_pool gc n s').
Proof.
  rewrite worker_serve_spec. intros H. assert (∀ gc n, sv_worker_id (set_pool gc n s) = sv_worker_id s ∧
    sv_store (set_pool gc n s) = sv_store s) as Hset by (by intros []).
  assert (∀ gc n, uses_pool r ≠ Some gc → pool_empty r (set_pool gc n s) = pool_empty r s) as Hpool.
  { intros gc n. unfold pool_empty. by destruct (uses_pool r) as [[]|], gc. }
  destruct (require_in_extensions req (worker_needs r)) as [[]|st] eqn:Hreq.
  2: { injection H as <- <-. split_and!; [by intros ? [= ->]|done|done|done|].
       intros gc n _. by rewrite worker_serve_spec, Hreq. }
  destruct (pool_empty r s) eqn:He.
  { injection H as <- <-. split_and!; [done|done|done|done|].
    intros gc n Hgc. by rewrite worker_serve_spec, Hreq, Hpool. }
  destruct (worker_answer r (sv_worker_id s) (sv_store s)) as [x store] eqn:Ha. injection H as <- <-.
  split_and!; [done|done|done|by intros []|]. intros gc n Hgc. rewrite worker_serve_spec, Hreq, Hpool by done.
  destruct (Hset gc n) as [-> ->]. rewrite Ha. by destruct gc.
Qed.
End worker.

(** ** Registration *)

(** The options of the command line that registration reads. *)
Record Cli := mkCli {
  cli_worker_id : N;
  cli_listen : string;
  cli_tls_server_cert : option string;
  cli_advertise_endpoint : option string;
  cli_failure_domain : string;
  cli_capacity_bytes : N;
  cli_available_bytes : option N;
  cli_max_in_flight : N;
  cli_gc_max_in_flight : N;
  cli_heartbeat_interval_secs : N;
  cli_lease_secs : N
}.

(** The checks at the start of [main]. *)
Definition check_cli (cli : Cli) : result string unit :=
  if (cli_max_in_flight cli =? 0) || (cli_gc_max_in_flight cli =? 0) then
    Err "--max-in-flight and --gc-max-in-flight must be greater than zero"
  else if (cli_heartbeat_interval_secs cli =? 0) || (cli_lease_secs cli <=? cli_heartbeat_interval_secs cli) then
    Err "--lease-secs must exceed a non-zero --heartbeat-interval-secs"
  else Ok tt.

Definition registration (cli : Cli) (now_ms : N) : result string WorkerRegistration :=
  let lease_ms := cli_lease_secs cli * 1000 in
  if U64_MAX <? lease_ms then Err "--lease-secs overflow" else
  let endpoint :=
    default ((if is_some (cli_tls_server_cert cli) then "https" else "http") +:+ "://" +:+ cli_listen cli)
      (cli_advertise_endpoint cli) in
  let registration :=
    mkWorkerRegistration (cli_worker_id cli) endpoint (cli_failure_domain cli) (cli_capacity_bytes cli)
      (default (cli_capacity_bytes cli) (cli_available_bytes cli)) (sat_add now_ms lease_ms) in
  match WorkerRegistration_validate registration with
  | Ok _ => Ok registration
  | Err e => Err (FluxError_to_string e)
  end.

(** One round of the heartbeat task: what it registers at [now_ms]. *)
Definition heartbeat (template : WorkerRegistration) (lease_ms now_ms : N) : WorkerRegistration :=
  mkWorkerRegistration (wr_id template) (wr_endpoint template) (wr_failure_domain template)
    (wr_capacity_bytes template) (wr_available_bytes template) (sat_add now_ms lease_ms).

(** ** A worker with one foreground permit, no permit for collection left *)

Definition no_details : Serde FluxError := {| to_vec _ := Ok []; from_slice _ := Err "" |}.
Definition mount_request : Request := mkRequestInfo None (Some (mkPrincipal (identity_client_admin "mount") "")).
Definition demo_worker : ChunkSvc PackStore (gmap ChunkId bytes) := mkChunkSvc 3 tier 1 0.
Definition demo_serve : WorkerRpc → txn (ChunkSvc PackStore (gmap ChunkId bytes)) Status WorkerReply :=
  worker_serve (DiskStore0 := pack_disk toy_hash toy_hash_width) (Serde0 := no_details) mount_request.

Lemma worker_isolated_witness :
  demo_serve (PutChunkRequest chunk_a) demo_worker =
    (Ok (PutChunkResponse (as_bytes (toy_hash chunk_a)) 3 true), mkChunkSvc 3 (mkFoyer after_put ∅) 1 0) ∧
  demo_serve (DeleteChunkRequest (as_bytes (toy_hash chunk_a))) demo_worker = (Err EXHAUSTED, demo_worker) ∧
  demo_serve (PutChunkRequest chunk_a) (set_pool true 5 demo_worker) =
    (Ok (PutChunkResponse (as_bytes (toy_hash chunk_a)) 3 true), mkChunkSvc 3 (mkFoyer after_put ∅) 1 5).
Proof.
  assert (demo_serve (PutChunkRequest chunk_a) demo_worker =
    (Ok (PutChunkResponse (as_bytes (toy_hash chunk_a)) 3 true), mkChunkSvc 3 (mkFoyer after_put ∅) 1 0)) as H
    by (vm_compute; reflexivity).
  split; [exact H|]. split; [vm_compute; reflexivity|].
  apply (worker_isolated (DiskStore0 := pack_disk toy_hash toy_hash_width) (Serde0 := no_details) mount_request
           (PutChunkRequest chunk_a) demo_worker _ _ H). done.
Defined.
