(* ===== verification/WorkerNet.v ===== *)
(** * Workers behind a network

    What the chunk client may rely on when it calls workers, as a class, and
    the instance: any number of worker processes reached through a network
    that may refuse a request, or lose the reply after the worker has acted,
    with whatever status it likes. *)

From S2P Require Import Prelude Types Bytes Keys ChunkStore Pack ClientFlush Foyer Auth Wire Authz Worker.

Local Open Scope N_scope.

(** The cursor of a listing as it is sent. *)
Definition cursor_bytes (cursor : option ChunkId) : bytes :=
  match cursor with Some c => as_bytes c | None => [] end.

Section interface.
Context (hash : bytes → ChunkId) {W : Type} (holds : W → N → ChunkId → Prop).

(** How a call, answered or not, may change what the workers hold. *)
Definition call_effect (r : WorkerRpc) (w w' : W) : Prop :=
  match r with
  | PutChunkRequest data =>
      ∀ wk id, (holds w wk id → holds w' wk id) ∧ (holds w' wk id → holds w wk id ∨ id = hash data)
  | DeleteChunkRequest b =>
      ∀ wk id, (holds w' wk id → holds w wk id) ∧ (ChunkId_try_from b ≠ Ok id → holds w wk id → holds w' wk id)
  | _ => ∀ wk id, holds w' wk id ↔ holds w wk id
  end.

(** What an answer tells about the worker it names. *)
Definition call_told (r : WorkerRpc) (reply : WorkerReply) (w w' : W) : Prop :=
  match r, reply with
  | PutChunkRequest data, PutChunkResponse chunk_id wk durable =>
      durable = true → ChunkId_try_from chunk_id = Ok (hash data) → holds w' wk (hash data)
  | ContainsChunkRequest b, ContainsChunkResponse present wk =>
      ∀ id, ChunkId_try_from b = Ok id → present = true → holds w wk id
  | ListChunksRequest after limit, ListChunksResponse ids wk next =>
      ∃ inventory cursor,
        StronglySorted N.lt inventory ∧ (∀ id, id ∈ inventory ↔ holds w wk id) ∧
        (after = [] ∧ cursor = None ∨ ∃ c, ChunkId_try_from after = Ok c ∧ cursor = Some c) ∧
        ids = as_bytes <$> cp_chunks (page_of inventory cursor limit) ∧
        next = cursor_bytes (cp_next_cursor (page_of inventory cursor limit))
  | DeleteChunkRequest b, DeleteChunkResponse wk => ∀ id, ChunkId_try_from b = Ok id → ¬ holds w' wk id
  | _, _ => True
  end.
End interface.

(** [wn_fine] says that nothing has gone wrong so far that a worker cannot
    notice; it is lost for good.  [wn_holds w k id]: worker [k] has a valid
    copy of the chunk on its disk. *)
Class ChunkRpc (hash : bytes → ChunkId) (W : Type) := {
  rpc : string → WorkerRpc → txn W Status WorkerReply;
  wn_wf : W → Prop;
  wn_fine : W → Prop;
  wn_holds : W → N → ChunkId → Prop;
  wn_width w wk id : wn_wf w → wn_holds w wk id → id < 256 ^ N.of_nat 32;
  rpc_fine e r w x w' : rpc e r w = (x, w') → wn_fine w' → wn_fine w;
  rpc_law e r w x w' :
    wn_wf w → rpc e r w = (x, w') → wn_fine w' →
    wn_wf w' ∧ call_effect hash wn_holds r w w' ∧
    ∀ reply, x = Ok reply → call_told hash wn_holds r reply w w'
}.

(** ** Worker processes *)

Inductive Fault :=
  | Deliver
  | DropRequest (status : Status)
  | DropReply (status : Status).

(** [nt_faults] is what the network does to the calls to come, [nt_puts]
    records the disk and the data of every put that reached a worker. *)
Record Net (St C : Type) := mkNet {
  nt_workers : gmap string (ChunkSvc St C);
  nt_faults : list Fault;
  nt_puts : list (St * bytes)
}.
Arguments mkNet {St C}. Arguments nt_workers {St C}. Arguments nt_faults {St C}. Arguments nt_puts {St C}.

Section net.
Context {hash : bytes → ChunkId} {St C : Type} `{!DiskStore hash St, !HybridCache C, !Serde FluxError}.
Context (hash_width : ∀ data, hash data < 256 ^ N.of_nat 32).
Context (req : Request).

Abbreviation W := (Net St C).
Abbreviation disk svc := (fs_disk (sv_store svc)).

Definition UNREACHABLE : Status := status_new Unavailable "tcp connect error".

Definition put_record (r : WorkerRpc) (svc : ChunkSvc St C) : list (St * bytes) :=
  match r with PutChunkRequest data => [(disk svc, data)] | _ => [] end.

(** The call as the worker at the endpoint serves it. *)
Definition reach (e : string) (r : WorkerRpc) : txn W Status WorkerReply := λ w,
  match nt_workers w !! e with
  | None => (Err UNREACHABLE, w)
  | Some svc =>
      let '(x, svc') := worker_serve req r svc in
      (x, mkNet (<[e := svc']> (nt_workers w)) (nt_faults w) (put_record r svc ++ nt_puts w))
  end.

Definition net_rpc (e : string) (r : WorkerRpc) : txn W Status WorkerReply := λ w,
  match nt_faults w with
  | [] => reach e r w
  | f :: faults =>
      let w := mkNet (nt_workers w) faults (nt_puts w) in
      match f with
      | Deliver => reach e r w
      | DropRequest st => (Err st, w)
      | DropReply st => (Err st, (reach e r w).2)
      end
  end.

(** Every put that reached a worker found room on its disk. *)
Definition net_fine (w : W) : Prop := Forall (λ p, cs_room p.1 p.2) (nt_puts w).

Record net_wf (w : W) : Prop := {
  nw_disks e svc : nt_workers w !! e = Some svc → cs_wf (disk svc);
  nw_ids e1 e2 svc1 svc2 :
    nt_workers w !! e1 = Some svc1 → nt_workers w !! e2 = Some svc2 →
    sv_worker_id svc1 = sv_worker_id svc2 → e1 = e2
}.

Definition net_holds (w : W) (wk : N) (id : ChunkId) : Prop :=
  ∃ e svc, nt_workers w !! e = Some svc ∧ sv_worker_id svc = wk ∧ is_ok (cs_get (disk svc) id) = true.

(** *** One worker *)

Definition disk_effect (r : WorkerRpc) (d d' : St) : Prop :=
  match r with
  | PutChunkRequest data => d' = d ∨ cs_put data d = (Ok (hash data), d')
  | DeleteChunkRequest b => d' = d ∨ ∃ id, ChunkId_try_from b = Ok id ∧ cs_delete id d = (Ok tt, d')
  | _ => d' = d
  end.

Definition disk_told (r : WorkerRpc) (reply : WorkerReply) (k : N) (d d' : St) : Prop :=
  match r, reply with
  | PutChunkRequest data, PutChunkResponse chunk_id wk durable =>
      wk = k ∧ cs_put data d = (Ok (hash data), d')
  | ContainsChunkRequest b, ContainsChunkResponse present wk =>
      wk = k ∧ ∃ id, ChunkId_try_from b = Ok id ∧ present = is_ok (cs_get d id)
  | ListChunksRequest after limit, ListChunksResponse ids wk next =>
      wk = k ∧ ∃ l cursor, cs_list d = Ok l ∧
        (after = [] ∧ cursor = None ∨ ∃ c, ChunkId_try_from after = Ok c ∧ cursor = Some c) ∧
        ids = as_bytes <$> cp_chunks (page_of (sort_dedup l) cursor limit) ∧
        next = cursor_bytes (cp_next_cursor (page_of (sort_dedup l) cursor limit))
  | DeleteChunkRequest b, DeleteChunkResponse wk =>
      wk = k ∧ ∃ id, ChunkId_try_from b = Ok id ∧ cs_delete id d = (Ok tt, d')
  | _, _ => True
  end.

Lemma get_disk id promote (s : FoyerChunkStore St C) r s' :
  get_with_promote id promote s = (r, s') → fs_disk s' = fs_disk s.
Proof.
  intros H. unfold get_with_promote in H.
  apply txn_bind_inv in H as [(cached&s1&Hg&H)|(e&Hg&->)]; apply cache_get_inv in Hg as (<-&_&_); [|done].
  destruct cached as [v|]; [by injection H as <- <-|].
  apply txn_bind_inv in H as [(data&s2&Hget&H)|(e&Hget&->)]; injection Hget as _ <-; [|done].
  by destruct promote; injection H as <- <-.
Qed.

Lemma blocking_inv {A} (m : txn (FoyerChunkStore St C) FluxError A) s x s' :
  blocking m s = (x, s') →
  ∃ r store, m (sv_store s) = (r, store) ∧ x = or_status r ∧ sv_store s' = store ∧ sv_worker_id s' = sv_worker_id s.
Proof. unfold blocking. destruct (m (sv_store s)) as [r store]. intros [= <- <-]. by eexists _, _. Qed.

Lemma decoding_inv {A} (r : Result A) (s : ChunkSvc St C) x s' : decoding r s = (x, s') → x = or_status r ∧ s' = s.
Proof. by intros [= <- <-]. Qed.

Lemma worker_answer_disk r k store x store' :
  cs_wf (fs_disk store) → (∀ data, r = PutChunkRequest data → cs_room (fs_disk store) data) →
  worker_answer r k store = (x, store') →
  disk_effect r (fs_disk store) (fs_disk store') ∧
  ∀ reply, x = Ok reply → disk_told r reply k (fs_disk store) (fs_disk store').
Proof.
  intros Hwf Hroom H. unfold worker_answer in H.
  destruct (worker_body r _) as [x0 s'] eqn:Hb. injection H as <- <-.
  destruct r as [data|b promote|b|after limit|b|]; cbn [worker_body] in Hb; cbn [disk_effect disk_told].
  - destruct (cs_put_law _ _ Hwf (Hroom _ eq_refl)) as (d&Hput&_).
    unfold blocking, foyer_put, on_disk, mbind, txn_bind in Hb. cbn in Hb. rewrite Hput in Hb. cbn in Hb.
    injection Hb as <- <-. cbn. split; [by right|]. by intros reply [= <-].
  - apply txn_bind_inv in Hb as [(id&s1&Hd&Hb)|(e&Hd&->)]; apply decoding_inv in Hd as [_ ->]; [|done].
    apply txn_bind_inv in Hb as [(data&s1&Hg&Hb)|(e&Hg&->)];
      apply blocking_inv in Hg as (r0&st&Hg&_&Hst&_); apply get_disk in Hg; cbn in Hg.
    + injection Hb as <- <-. rewrite Hst. split; [done|]. by intros reply [= <-].
    + by rewrite Hst.
  - apply txn_bind_inv in Hb as [(id&s1&Hd&Hb)|(e&Hd&->)]; apply decoding_inv in Hd as [Hid ->]; [|done].
    unfold blocking, foyer_contains, read_disk, mbind, txn_bind in Hb. cbn in Hb.
    rewrite ds_contains_law in Hb by done. cbn in Hb. injection Hb as <- <-. split; [done|].
    intros reply [= <-]. split; [done|]. exists id. destruct (ChunkId_try_from b); [|done]. by injection Hid as ->.
  - destruct (cs_list_law _ Hwf) as (l&Hl&_). apply txn_bind_inv in Hb as [(u&s1&Hlim&Hb)|(e&Hlim&->)].
    2: { unfold fail_if in Hlim. by destruct (limit =? 0); injection Hlim as _ <-. }
    unfold fail_if in Hlim. destruct (N.eqb_spec limit 0) as [->|Hne]; [done|]. injection Hlim as _ <-.
    assert (∀ cursor, (page ← blocking (foyer_list_chunks_page cursor limit); id ← gets sv_worker_id;
        mret (ListChunksResponse (as_bytes <$> cp_chunks page) id
              match cp_next_cursor page with Some c => as_bytes c | None => [] end)) (mkChunkSvc k store 0 0) =
      (Ok (let page := page_of (sort_dedup l) cursor limit in
           ListChunksResponse (as_bytes <$> cp_chunks page) k (cursor_bytes (cp_next_cursor page))),
       mkChunkSvc k store 0 0)) as Hpage.
    { intros cursor. unfold blocking, foyer_list_chunks_page, read_disk, list_chunks_page, mbind, txn_bind. cbn.
      rewrite (proj2 (N.eqb_neq _ _) Hne). cbn. by rewrite Hl. }
    case_bool_decide as Hafter.
    + unfold mbind at 1, txn_bind at 1 in Hb. cbn in Hb. setoid_rewrite Hpage in Hb. injection Hb as <- <-.
      split; [done|]. intros reply [= <-]. split; [done|]. exists l, None. auto.
    + apply txn_bind_inv in Hb as [(cursor&s1&Hc&Hb)|(e&Hc&->)].
      2: { apply txn_bind_inv in Hc as [(c&s2&Hc&Hc2)|(e'&Hc&_)]; apply decoding_inv in Hc as [_ ->]; [|done].
           by injection Hc2 as _ <-. }
      apply txn_bind_inv in Hc as [(c&s2&Hc&Hc2)|(e'&_&?)]; [|done]. apply decoding_inv in Hc as [Hc ->].
      injection Hc2 as <- <-. setoid_rewrite Hpage in Hb. injection Hb as <- <-.
      split; [done|]. intros reply [= <-]. split; [done|]. exists l, (Some c). split_and!; [done| |done..]. right.
      exists c. destruct (ChunkId_try_from after); [|done]. by injection Hc as ->.
  - apply txn_bind_inv in Hb as [(id&s1&Hd&Hb)|(e&Hd&->)]; apply decoding_inv in Hd as [Hid ->]; [|by split; [left|]].
    assert (ChunkId_try_from b = Ok id) as Hb' by (destruct (ChunkId_try_from b); [by injection Hid as ->|done]).
    destruct (cs_delete_law _ id Hwf) as (d&Hdel&_).
    unfold blocking, foyer_delete, cache_remove, on_disk, modify, mbind, txn_bind in Hb. cbn in Hb.
    rewrite Hdel in Hb. injection Hb as <- <-. cbn. split; [eauto|]. intros reply [= <-]. eauto.
  - injection Hb as <- <-. split; [done|]. by intros reply [= <-].
Qed.

Lemma serve_disk r (svc : ChunkSvc St C) x svc' :
  cs_wf (disk svc) → (∀ data, r = PutChunkRequest data → cs_room (disk svc) data) →
  worker_serve req r svc = (x, svc') →
  sv_worker_id svc' = sv_worker_id svc ∧ disk_effect r (disk svc) (disk svc') ∧
  ∀ reply, x = Ok reply → disk_told r reply (sv_worker_id svc) (disk svc) (disk svc').
Proof.
  intros Hwf Hroom H. rewrite worker_serve_spec in H.
  assert (disk_effect r (disk svc) (disk svc)) as Hno by (destruct r; cbn; auto).
  destruct (require_in_extensions req _) as [[]|st]; [|by injection H as <- <-].
  destruct (pool_empty r svc); [by injection H as <- <-|].
  destruct (worker_answer r (sv_worker_id svc) (sv_store svc)) as [x0 store] eqn:Ha. injection H as <- <-.
  destruct (worker_answer_disk _ _ _ _ _ Hwf Hroom Ha) as [Heff Htold]. done.
Qed.

(** *** The network *)

Lemma holds_split (w : W) e svc wk id :
  nt_workers w !! e = Some svc →
  net_holds w wk id ↔
  (wk = sv_worker_id svc ∧ is_ok (cs_get (disk svc) id) = true) ∨
  ∃ e' svc', e' ≠ e ∧ nt_workers w !! e' = Some svc' ∧ sv_worker_id svc' = wk ∧
             is_ok (cs_get (disk svc') id) = true.
Proof.
  intros He. unfold net_holds. cbn. split.
  - intros (e'&svc'&He'&Hk&Hok). destruct (decide (e' = e)) as [->|]; [|eauto 10]. simplify_eq. auto.
  - intros [[-> Hok]|(e'&svc'&_&He'&Hk&Hok)]; eauto 10.
Qed.

Lemma holds_after w f p e svc svc' wk id :
  net_wf w → nt_workers w !! e = Some svc → sv_worker_id svc' = sv_worker_id svc →
  ∃ rest : Prop, (rest → wk ≠ sv_worker_id svc) ∧
    (net_holds w wk id ↔ (wk = sv_worker_id svc ∧ is_ok (cs_get (disk svc) id) = true) ∨ rest) ∧
    (net_holds (mkNet (<[e := svc']> (nt_workers w)) f p) wk id ↔
       (wk = sv_worker_id svc ∧ is_ok (cs_get (disk svc') id) = true) ∨ rest).
Proof.
  intros Hw He Hid.
  exists (∃ e' svc0, e' ≠ e ∧ nt_workers w !! e' = Some svc0 ∧ sv_worker_id svc0 = wk ∧
                     is_ok (cs_get (disk svc0) id) = true).
  split; [|split; [by apply holds_split|]].
  { intros (e'&svc0&Hne&He'&<-&_) Hk. by apply Hne, (nw_ids _ Hw e' e svc0 svc). }
  rewrite (holds_split _ e svc') by apply lookup_insert_eq. rewrite Hid. cbn [nt_workers].
  split; (intros [?|(e'&svc0&Hne&H&?)]; [by left|right; exists e', svc0]).
  - by rewrite lookup_insert_ne in H.
  - by rewrite lookup_insert_ne.
Qed.

(** The copies on one disk. *)
Abbreviation copy d id := (is_ok (cs_get d id) = true).

Lemma disk_effect_copies r d d' :
  cs_wf d → (∀ data, r = PutChunkRequest data → cs_room d data) → disk_effect r d d' →
  cs_wf d' ∧
  match r with
  | PutChunkRequest data => ∀ id, (copy d id → copy d' id) ∧ (copy d' id → copy d id ∨ id = hash data)
  | DeleteChunkRequest b =>
      ∀ id, (copy d' id → copy d id) ∧ (ChunkId_try_from b ≠ Ok id → copy d id → copy d' id)
  | _ => ∀ id, copy d' id ↔ copy d id
  end.
Proof.
  intros Hwf Hroom. destruct r as [data|b promote|b|after limit|b|]; cbn [disk_effect]; try (by intros ->).
  - intros [->|Hput]; [split; [done|]; auto|]. destruct (cs_put_law _ _ Hwf (Hroom _ eq_refl)) as (d1&Hput1&Hwf1&Hnew&Hold).
    rewrite Hput1 in Hput. injection Hput as ->. split; [done|]. intros id.
    destruct (decide (id = hash data)) as [->|Hne]; [rewrite Hnew|rewrite Hold by done]; auto.
  - intros [->|(id&Hb&Hdel)]; [split; [done|]; auto|]. destruct (cs_delete_law _ id Hwf) as (d1&Hdel1&Hwf1&[e Hgone]&Hold).
    rewrite Hdel1 in Hdel. injection Hdel as ->. split; [done|]. intros id'.
    destruct (decide (id' = id)) as [->|Hne]; [rewrite Hgone|rewrite Hold by done; auto]. split; [done|]. congruence.
Qed.

Lemma sort_dedup_inventory d l :
  cs_wf d → cs_list d = Ok l → StronglySorted N.lt (sort_dedup l) ∧ ∀ id, id ∈ sort_dedup l ↔ copy d id.
Proof.
  intros Hwf Hl. destruct (cs_list_law _ Hwf) as (l0&Hl0&Hin). rewrite Hl0 in Hl. injection Hl as ->.
  split; [apply sort_dedup_sorted|]. intros id. rewrite elem_of_sort_dedup, Hin.
  destruct (cs_get d id); cbn; naive_solver.
Qed.

Lemma reach_law e r w x w' :
  net_wf w → reach e r w = (x, w') → net_fine w' →
  net_wf w' ∧ call_effect hash net_holds r w w' ∧
  ∀ reply, x = Ok reply → call_told hash net_holds r reply w w'.
Proof using hash_width.
  intros Hw H Hfine. unfold reach in H. destruct (nt_workers w !! e) as [svc|] eqn:He.
  2: { injection H as <- <-. split; [done|]. split; [|done]. by destruct r; cbn; auto. }
  destruct (worker_serve req r svc) as [x0 svc'] eqn:Hs. injection H as <- <-.
  assert (Hwf := nw_disks _ Hw _ _ He).
  assert (∀ data, r = PutChunkRequest data → cs_room (disk svc) data) as Hroom.
  { intros data ->. by apply Forall_cons in Hfine as [Hroom _]. }
  destruct (serve_disk r svc x0 svc' Hwf Hroom Hs) as (Hid&Heff&Htold).
  assert (∀ wk id, ∃ rest : Prop, (rest → wk ≠ sv_worker_id svc) ∧
    (net_holds w wk id ↔ (wk = sv_worker_id svc ∧ is_ok (cs_get (disk svc) id) = true) ∨ rest) ∧
    (net_holds (mkNet (<[e := svc']> (nt_workers w)) (nt_faults w) (put_record r svc ++ nt_puts w)) wk id ↔
     (wk = sv_worker_id svc ∧ is_ok (cs_get (disk svc') id) = true) ∨ rest)) as Hh
    by (intros wk id; by apply holds_after).
  destruct (disk_effect_copies _ _ _ Hwf Hroom Heff) as [Hwf' Hcopies].
  split; [|split].
  - destruct Hw as [Hd Hi]. split; cbn.
    + intros e1 svc1 [[_ <-]|[_ H1]]%lookup_insert_Some; [done|by eapply Hd].
    + intros e1 e2 svc1 svc2 H1 H2 Heq. apply lookup_insert_Some in H1 as [[<- <-]|[_ H1]];
        apply lookup_insert_Some in H2 as [[<- <-]|[_ H2]]; try done; eapply Hi; eauto; congruence.
  - destruct r; cbn in Hcopies |- *; intros wk id; destruct (Hh wk id) as (rest&_&->&->);
      specialize (Hcopies id); naive_solver.
  - intros reply Hx. specialize (Htold reply Hx). destruct r, reply; try done; cbn in Htold, Hcopies |- *.
    + intros _ _. destruct (Hh worker_id (hash data)) as (rest&_&_&->). left. destruct Htold as [-> Hput].
      split; [done|]. destruct (cs_put_law _ _ Hwf (Hroom _ eq_refl)) as (d1&Hput1&_&Hnew&_).
      rewrite Hput1 in Hput. injection Hput as ->. by rewrite Hnew.
    + intros id Hb Hp. destruct Htold as (->&id'&Hb'&->). destruct (Hh (sv_worker_id svc) id) as (rest&_&->&_).
      left. split; [done|]. congruence.
    + destruct Htold as (->&l&cursor&Hl&Hcur&->&->). destruct (sort_dedup_inventory _ _ Hwf Hl) as [Hsort Hin].
      exists (sort_dedup l), cursor. split_and!; [done| |done..]. intros id. rewrite Hin.
      destruct (Hh (sv_worker_id svc) id) as (rest&Hrest&->&_). split; [auto|]. by intros [[_ ?]|?%Hrest].
    + intros id Hb. destruct Htold as (->&id'&Hb'&Hdel). rewrite Hb in Hb'. injection Hb' as <-.
      destruct (Hh (sv_worker_id svc) id) as (rest&Hrest&_&->).
      destruct (cs_delete_law _ id Hwf) as (d1&Hdel1&_&[e0 Hgone]&_). rewrite Hdel1 in Hdel. injection Hdel as ->.
      rewrite Hgone. by intros [[_ ?]|?%Hrest].
Qed.

Lemma reach_fine e r w x w' : reach e r w = (x, w') → net_fine w' → net_fine w.
Proof.
  unfold reach. destruct (nt_workers w !! e) as [svc|]; [|by intros [= _ <-]].
  destruct (worker_serve req r svc). intros [= _ <-]. unfold net_fine. cbn. by intros [_ ?]%Forall_app.
Qed.

Definition net_chunk_rpc : ChunkRpc hash W.
Proof.
  refine {| rpc := net_rpc; wn_wf := net_wf; wn_fine := net_fine; wn_holds := net_holds |}.
  - intros w wk id Hw (e&svc&He&_&Hok). destruct (cs_get (disk svc) id) as [data|] eqn:Hg; [|done].
    by rewrite <-(cs_get_law _ _ _ (nw_disks _ Hw _ _ He) Hg).
  - intros e r w x w' H Hfine. unfold net_rpc in H. destruct (nt_faults w) as [|f faults]; [by eapply reach_fine|].
    change (net_fine (mkNet (nt_workers w) faults (nt_puts w))).
    destruct f as [|st|st]; [by eapply reach_fine|by injection H as <- <-|].
    injection H as <- <-. eapply reach_fine; [apply surjective_pairing|done].
  - intros e r w x w' Hw H Hfine. unfold net_rpc in H. destruct (nt_faults w) as [|f faults]; [by eapply reach_law|].
    assert (net_wf (mkNet (nt_workers w) faults (nt_puts w))) as Hw1 by (by destruct Hw).
    change (net_wf w' ∧ call_effect hash net_holds r (mkNet (nt_workers w) faults (nt_puts w)) w' ∧
      ∀ reply, x = Ok reply → call_told hash net_holds r reply (mkNet (nt_workers w) faults (nt_puts w)) w').
    destruct f as [|st|st]; [by eapply reach_law|..].
    + injection H as <- <-. split; [done|]. split; [|done]. by destruct r; cbn; auto.
    + destruct (reach e r _) as [x0 w0] eqn:Hr. injection H as <- <-.
      destruct (reach_law _ _ _ _ _ Hw1 Hr Hfine) as (?&?&_). done.
Defined.
End net.
