(* ===== verification/RemoteChunk.v ===== *)
(** * The remote chunk store ([crates/chunk/src/remote.rs])

    The thread that owns the connections of [RemoteReplicatedChunkStore]: it
    takes one command at a time, calls workers one after the other and
    answers.  [RpcThread] is its state, [now] the readings of the clock, one
    after the other.  The store has two such threads, for data and for
    collection and scrub, with queues that answer [Busy] when they are full. *)

From S2P Require Import Prelude Types Bytes Keys ChunkStore Placement Wire Authz Worker WorkerNet.

Local Open Scope N_scope.

Definition REPAIR_PAGE_SIZE : nat := 256.

(** The loops below run on fuel; this error stands for running out of it and
    is no answer of the code. *)
Definition OUT_OF_FUEL : FluxError := Meta "".
(** The generated client yields no other message. *)
Definition UNEXPECTED_REPLY : FluxError := Io "unexpected message".

Record WorkerRpcClient := mkWorkerRpcClient { wc_id : N; wc_endpoint : string }.

Record RpcThread (W : Type) := mkRpcThread {
  rt_clients : list WorkerRpcClient;
  rt_membership : option WorkerMembership;
  rt_required : nat;
  rt_last_healthy : gset N;
  rt_repair_cursor : gmap N ChunkId;
  rt_list_cursor : gmap N ChunkId;
  rt_ticks : nat;
  rt_net : W
}.
Arguments mkRpcThread {W}. Arguments rt_clients {W}. Arguments rt_membership {W}. Arguments rt_required {W}.
Arguments rt_last_healthy {W}. Arguments rt_repair_cursor {W}. Arguments rt_list_cursor {W}.
Arguments rt_ticks {W}. Arguments rt_net {W}.

(** [BTreeMap::insert], a map as the list of its entries in order. *)
Fixpoint am_insert {A} (k : N) (v : A) (l : list (N * A)) : list (N * A) :=
  match l with
  | [] => [(k, v)]
  | (k', v') :: l' =>
      if k <? k' then (k, v) :: l
      else if k =? k' then (k, v) :: l'
      else (k', v') :: am_insert k v l'
  end.

Record RepairReport := mkRepairReport {
  rr_healthy_workers : list N;
  rr_checked_chunks : nat;
  rr_repaired_replicas : nat;
  rr_more : bool
}.

Definition rpc_status_error (status_to_string : Status → string) (error : Status) : FluxError :=
  if bool_decide (st_code error = ResourceExhausted) then Busy else Io (status_to_string error).

Section remote.
Context {hash : bytes → ChunkId} {W : Type} `{!ChunkRpc hash W}.
Context (now : nat → N) (status_to_string : Status → string).

Abbreviation T := (RpcThread W).
Abbreviation RT := (txn (RpcThread W) FluxError).
Abbreviation status_error := (rpc_status_error status_to_string).

Definition set_net (w : W) (t : T) : T :=
  mkRpcThread (rt_clients t) (rt_membership t) (rt_required t) (rt_last_healthy t) (rt_repair_cursor t)
    (rt_list_cursor t) (rt_ticks t) w.
Definition set_last_healthy (h : gset N) (t : T) : T :=
  mkRpcThread (rt_clients t) (rt_membership t) (rt_required t) h (rt_repair_cursor t) (rt_list_cursor t)
    (rt_ticks t) (rt_net t).
Definition set_repair_cursor (c : gmap N ChunkId) (t : T) : T :=
  mkRpcThread (rt_clients t) (rt_membership t) (rt_required t) (rt_last_healthy t) c (rt_list_cursor t)
    (rt_ticks t) (rt_net t).
Definition set_list_cursor (c : gmap N ChunkId) (t : T) : T :=
  mkRpcThread (rt_clients t) (rt_membership t) (rt_required t) (rt_last_healthy t) (rt_repair_cursor t) c
    (rt_ticks t) (rt_net t).
Definition tick (t : T) : T :=
  mkRpcThread (rt_clients t) (rt_membership t) (rt_required t) (rt_last_healthy t) (rt_repair_cursor t)
    (rt_list_cursor t) (S (rt_ticks t)) (rt_net t).

(** [unix_time_millis()]. *)
Definition unix_time_millis : RT N := λ t, (Ok (now (rt_ticks t)), tick t).

(** A call on a client, its outcome a value. *)
Definition call (endpoint : string) (r : WorkerRpc) : RT (result Status WorkerReply) := λ t,
  let '(x, w) := rpc endpoint r (rt_net t) in (Ok x, set_net w t).

(** [clients[index]]. *)
Definition client_at (index : nat) : RT WorkerRpcClient := λ t,
  (ok_or (Io "index out of bounds") (rt_clients t !! index), t).

(** ** Health *)

Fixpoint healthy_loop (index : nat) (clients : list WorkerRpcClient) (healthy : list (N * nat)) :
    RT (list (N * nat)) :=
  match clients with
  | [] => mret healthy
  | client :: clients =>
      x ← call (wc_endpoint client) HealthRequest;
      match x with
      | Ok (HealthResponse worker_id ready) =>
          if ready && negb (worker_id =? wc_id client) then
            throw (InvalidArg ("configured worker id " +:+ pretty (wc_id client) +:+ " answered as "
                               +:+ pretty worker_id))
          else if ready && bool_decide (worker_id ∈ healthy.*1) then
            throw (InvalidArg ("duplicate remote worker id " +:+ pretty worker_id))
          else healthy_loop (S index) clients (if ready then am_insert worker_id index healthy else healthy)
      | _ => healthy_loop (S index) clients healthy
      end
  end.
Definition healthy_workers : RT (list (N * nat)) :=
  clients ← gets rt_clients; healthy_loop 0 clients [].

(** ** Writing one copy *)

Definition put_one (client : WorkerRpcClient) (expected_worker : N) (data : bytes) (expected_chunk : ChunkId) :
    RT unit :=
  x ← call (wc_endpoint client) (PutChunkRequest data);
  match x with
  | Err status => throw (status_error status)
  | Ok (PutChunkResponse chunk_id worker_id durable) =>
      chunk ← lift (ChunkId_try_from chunk_id);
      if negb (worker_id =? expected_worker) || negb (chunk =? expected_chunk) || negb durable then
        throw (Io ("worker " +:+ pretty expected_worker +:+ " returned mismatched/non-durable chunk"))
      else mret tt
  | Ok _ => throw UNEXPECTED_REPLY
  end.

(** The targets of a chunk under the membership, if there is one. *)
Definition targets (chunk : ChunkId) : RT (option (Result (gset N))) :=
  membership ← gets rt_membership;
  match membership with
  | None => mret None
  | Some membership =>
      required ← gets rt_required;
      t ← unix_time_millis;
      mret (Some (match select_worker_targets hash membership chunk required t with
                  | Ok workers => Ok (list_to_set (wr_id <$> workers))
                  | Err e => Err e
                  end))
  end.

(** ** Inventory: the merge of the workers' listings *)

(** The entry of one healthy worker in [buffers] and [may_have_more]. *)
Record Lane := mkLane { ln_worker : N; ln_index : nat; ln_buffer : list ChunkId; ln_more : bool }.

Definition fetch_lane (limit : nat) (cursor : gmap N ChunkId) (lane : Lane) : RT Lane :=
  if negb (bool_decide (ln_buffer lane = [])) || negb (ln_more lane) then mret lane else
  client ← client_at (ln_index lane);
  x ← call (wc_endpoint client)
        (ListChunksRequest (cursor_bytes (cursor !! ln_worker lane)) (N.min (N.of_nat limit) U32_MAX));
  match x with
  | Err status => throw (status_error status)
  | Ok (ListChunksResponse chunk_ids worker_id next_cursor) =>
      if negb (worker_id =? ln_worker lane) then
        throw (Io ("inventory worker id mismatch: expected " +:+ pretty (ln_worker lane) +:+ ", got "
                   +:+ pretty worker_id))
      else
        ids ← lift (mapM ChunkId_try_from chunk_ids);
        let has_more := negb (bool_decide (next_cursor = [])) in
        mret (mkLane (ln_worker lane) (ln_index lane) ids (if bool_decide (ids = []) then false else has_more))
  | Ok _ => throw UNEXPECTED_REPLY
  end.
Fixpoint refill (limit : nat) (cursor : gmap N ChunkId) (lanes : list Lane) : RT (list Lane) :=
  match lanes with
  | [] => mret []
  | lane :: lanes =>
      lane ← fetch_lane limit cursor lane;
      lanes ← refill limit cursor lanes;
      mret (lane :: lanes)
  end.

Definition front (lane : Lane) : option ChunkId := head (ln_buffer lane).
Fixpoint min_front (lanes : list Lane) : option ChunkId :=
  match lanes with
  | [] => None
  | lane :: lanes =>
      match front lane, min_front lanes with
      | Some a, Some b => Some (N.min a b)
      | Some a, None => Some a
      | None, b => b
      end
  end.
Definition pop (min_key : ChunkId) (lane : Lane) : Lane :=
  if bool_decide (front lane = Some min_key)
  then mkLane (ln_worker lane) (ln_index lane) (tail (ln_buffer lane)) (ln_more lane) else lane.
Definition holders_of (min_key : ChunkId) (lanes : list Lane) : list N :=
  ln_worker <$> filter (λ lane, front lane = Some min_key) lanes.

Record InventoryPage := mkInventoryPage { ip_chunks : list (ChunkId * gset N); ip_more : bool }.

(** The loop; the cursors it advances are the thread's own, so an error
    leaves them where they are. *)
Section merging.
Context (get_cursor : T → gmap N ChunkId) (set_cursor : gmap N ChunkId → T → T).

Fixpoint merge_loop (fuel limit : nat) (lanes : list Lane) (page : list (ChunkId * gset N)) :
    RT (list Lane * list (ChunkId * gset N)) :=
  if (limit <=? length page)%nat then mret (lanes, page) else
  match fuel with
  | O => throw OUT_OF_FUEL
  | S fuel =>
      cursor ← gets get_cursor;
      lanes ← refill limit cursor lanes;
      match min_front lanes with
      | None => mret (lanes, page)
      | Some min_key =>
          let holders := holders_of min_key lanes in
          _ ← modify (set_cursor (foldl (λ c w, <[w := min_key]> c) cursor holders));
          merge_loop fuel limit (pop min_key <$> lanes) (am_insert min_key (list_to_set holders) page)
      end
  end.

Definition inventory_page_with_holders (healthy : list (N * nat)) (limit : nat) : RT InventoryPage :=
  '(lanes, page) ← merge_loop limit limit ((λ h, mkLane h.1 h.2 [] true) <$> healthy) [];
  let more := bool_decide (length page = limit) &&
              existsb (λ lane, negb (bool_decide (ln_buffer lane = [])) || ln_more lane) lanes in
  mret (mkInventoryPage page more).
End merging.

(** ** Repair *)

(** How many of the holders count: all, or those among the targets. *)
Definition placed (desired : option (gset N)) (holders : gset N) : nat :=
  match desired with None => size holders | Some d => size (holders ∩ d) end.
Definition wanted (desired : option (gset N)) (worker_id : N) : bool :=
  match desired with None => true | Some d => bool_decide (worker_id ∈ d) end.

(** [set.iter().next()]. *)
Definition first_of (s : gset N) : option N := head (sort_dedup (elements s)).
Definition index_of (worker_id : N) (healthy : list (N * nat)) : option nat :=
  (λ p, p.2.2) <$> list_find (λ h, h.1 = worker_id) healthy.

Fixpoint copy_loop (desired : option (gset N)) (required : nat) (chunk : ChunkId) (data : bytes)
    (healthy : list (N * nat)) (holders : gset N) (repaired : nat) : RT (gset N * nat) :=
  match healthy with
  | [] => mret (holders, repaired)
  | (worker_id, index) :: healthy =>
      if (required <=? placed desired holders)%nat then mret (holders, repaired)
      else if bool_decide (worker_id ∈ holders) || negb (wanted desired worker_id) then
        copy_loop desired required chunk data healthy holders repaired
      else
        client ← client_at index;
        _ ← put_one client worker_id data chunk;
        copy_loop desired required chunk data healthy ({[worker_id]} ∪ holders) (S repaired)
  end.

Definition desired_targets (chunk : ChunkId) : RT (option (gset N)) :=
  desired ← targets chunk;
  match desired with
  | None => mret None
  | Some (Ok d) => mret (Some d)
  | Some (Err e) => throw e
  end.

Definition source_of (chunk : ChunkId) (healthy : list (N * nat)) (holders : gset N) : Result nat :=
  ok_or (Io ("no source replica for " +:+ to_hex chunk)) (first_of holders ≫= λ w, index_of w healthy).

(** The body of the loop over a page: how many copies were written. *)
Definition repair_chunk (healthy : list (N * nat)) (chunk : ChunkId) (holders : gset N) : RT nat :=
  required ← gets rt_required;
  desired ← desired_targets chunk;
  if (required <=? placed desired holders)%nat then mret 0%nat else
  source ← lift (source_of chunk healthy holders);
  client ← client_at source;
  x ← call (wc_endpoint client) (GetChunkRequest (as_bytes chunk) false);
  match x with
  | Err status => throw (status_error status)
  | Ok (GetChunkResponse data _) =>
      if negb (hash data =? chunk) then
        throw (Io ("repair source checksum mismatch for " +:+ to_hex chunk))
      else
        '(holders, repaired) ← copy_loop desired required chunk data healthy holders 0;
        if (placed desired holders <? required)%nat then
          throw (Io ("repair left " +:+ to_hex chunk +:+ " at " +:+ pretty (N.of_nat (placed desired holders))
                     +:+ "/" +:+ pretty (N.of_nat required) +:+ " replicas"))
        else mret repaired
  | Ok _ => throw UNEXPECTED_REPLY
  end.

Fixpoint repair_chunks (healthy : list (N * nat)) (chunks : list (ChunkId * gset N)) (repaired : nat) : RT nat :=
  match chunks with
  | [] => mret repaired
  | (chunk, holders) :: chunks =>
      n ← repair_chunk healthy chunk holders;
      repair_chunks healthy chunks (repaired + n)
  end.

Definition repair_pass_with_health (healthy : list (N * nat)) (limit : nat) : RT RepairReport :=
  required ← gets rt_required;
  if (length healthy <? required)%nat then
    throw (Io ("repair requires " +:+ pretty (N.of_nat required) +:+ " healthy workers, found "
               +:+ pretty (N.of_nat (length healthy))))
  else if (limit =? 0)%nat then throw (InvalidArg "repair page limit must be non-zero")
  else
    page ← inventory_page_with_holders rt_repair_cursor set_repair_cursor healthy limit;
    repaired ← repair_chunks healthy (ip_chunks page) 0;
    mret (mkRepairReport healthy.*1 (length (ip_chunks page)) repaired (ip_more page)).

Fixpoint repair_loop (fuel : nat) (healthy : list (N * nat)) (checked repaired : nat) : RT RepairReport :=
  match fuel with
  | O => throw OUT_OF_FUEL
  | S fuel =>
      page ← repair_pass_with_health healthy REPAIR_PAGE_SIZE;
      let checked := (checked + rr_checked_chunks page)%nat in
      let repaired := (repaired + rr_repaired_replicas page)%nat in
      if rr_more page then repair_loop fuel healthy checked repaired
      else mret (mkRepairReport healthy.*1 checked repaired false)
  end.
Definition repair_with_health (fuel : nat) (healthy : list (N * nat)) : RT RepairReport :=
  _ ← modify (set_repair_cursor ∅);
  repair_loop fuel healthy 0 0.

(** ** Commands *)

(** An outcome as a value, for calls whose errors are collected. *)
Definition attempt {A} (m : RT A) : RT (Result A) := λ t, let '(r, t') := m t in (Ok r, t').

Definition worker_set (healthy : list (N * nat)) : gset N := list_to_set healthy.*1.

(** The loop of [Put] over the selected workers. *)
Fixpoint put_workers (data : bytes) (expected : ChunkId) (required : nat) (selected : gset N)
    (healthy : list (N * nat)) (durable : gset N) (errors : list string) (overloaded : bool) :
    RT (gset N * list string * bool) :=
  match healthy with
  | [] => mret (durable, errors, overloaded)
  | (worker_id, index) :: healthy =>
      if negb (bool_decide (worker_id ∈ selected)) then
        put_workers data expected required selected healthy durable errors overloaded
      else
        client ← client_at index;
        r ← attempt (put_one client worker_id data expected);
        match r with
        | Ok _ =>
            let durable := {[worker_id]} ∪ durable in
            if bool_decide (size durable = required) then mret (durable, errors, overloaded)
            else put_workers data expected required selected healthy durable errors overloaded
        | Err error =>
            put_workers data expected required selected healthy durable
              (errors ++ [FluxError_to_string error]) (overloaded || bool_decide (error = Busy))
        end
  end.

Definition command_put (fuel : nat) (data : bytes) : RT ChunkId :=
  let expected := hash data in
  healthy ← healthy_workers;
  let current := worker_set healthy in
  last_healthy ← gets rt_last_healthy;
  _ ← when (negb (bool_decide (current = last_healthy)))
        (_ ← modify (set_repair_cursor ∅);
         _ ← repair_with_health fuel healthy;
         modify (set_last_healthy current));
  required ← gets rt_required;
  desired ← desired_targets expected;
  let selected := default current desired in
  '(durable, errors, overloaded) ← put_workers data expected required selected healthy ∅ [] false;
  if (required <=? size durable)%nat then mret expected
  else if overloaded : bool then throw Busy
  else throw (Io ("remote chunk " +:+ to_hex expected +:+ " reached " +:+ pretty (N.of_nat (size durable)) +:+ "/"
                  +:+ pretty (N.of_nat required) +:+ " distinct durable workers: "
                  +:+ String.concat "; " errors)).

(** The loop of [Get]: the data and its source, the errors, and whether a
    worker was overloaded. *)
Fixpoint get_loop (id : ChunkId) (promote_cache : bool) (clients : list WorkerRpcClient) (errors : list string)
    (overloaded : bool) : RT (option (bytes * N) * list string * bool) :=
  match clients with
  | [] => mret (None, errors, overloaded)
  | client :: clients =>
      x ← call (wc_endpoint client) (GetChunkRequest (as_bytes id) promote_cache);
      match x with
      | Ok (GetChunkResponse data worker_id) =>
          if hash data =? id then mret (Some (data, worker_id), errors, overloaded)
          else get_loop id promote_cache clients (errors ++ ["worker returned data with wrong checksum"]) overloaded
      | Ok _ => get_loop id promote_cache clients (errors ++ ["unexpected message"]) overloaded
      | Err error =>
          get_loop id promote_cache clients (errors ++ [status_to_string error])
            (overloaded || bool_decide (st_code error = ResourceExhausted))
      end
  end.

(** The read repair behind a successful [Get]. *)
Fixpoint read_repair (desired : option (gset N)) (required : nat) (id : ChunkId) (data : bytes)
    (healthy : list (N * nat)) (repaired : gset N) : RT unit :=
  match healthy with
  | [] => mret tt
  | (worker_id, index) :: healthy =>
      if bool_decide (placed desired repaired = required) then mret tt
      else if bool_decide (worker_id ∈ repaired) || negb (wanted desired worker_id) then
        read_repair desired required id data healthy repaired
      else
        client ← client_at index;
        r ← attempt (put_one client worker_id data id);
        read_repair desired required id data healthy (if is_ok r then {[worker_id]} ∪ repaired else repaired)
  end.

Definition repair_after_read (id : ChunkId) (data : bytes) (source : N) : RT unit :=
  healthy ← attempt healthy_workers;
  match healthy with
  | Err _ => mret tt
  | Ok healthy =>
      required ← gets rt_required;
      desired ← targets id;
      let desired := match desired with Some (Ok d) => Some d | _ => None end in
      read_repair desired required id data healthy {[source]}
  end.

Definition command_get (id : ChunkId) (promote_cache : bool) : RT bytes :=
  clients ← gets rt_clients;
  '(result, errors, overloaded) ← get_loop id promote_cache clients [] false;
  match result with
  | Some (data, source) => _ ← repair_after_read id data source; mret data
  | None =>
      if overloaded : bool then throw Busy
      else throw (Io ("no readable remote replica for " +:+ to_hex id +:+ ": " +:+ String.concat "; " errors))
  end.

Fixpoint present_loop (id : ChunkId) (clients : list WorkerRpcClient) (present : gset N) : RT (gset N) :=
  match clients with
  | [] => mret present
  | client :: clients =>
      x ← call (wc_endpoint client) (ContainsChunkRequest (as_bytes id));
      match x with
      | Ok (ContainsChunkResponse true worker_id) => present_loop id clients ({[worker_id]} ∪ present)
      | _ => present_loop id clients present
      end
  end.
Definition command_contains (id : ChunkId) : RT bool :=
  clients ← gets rt_clients;
  present ← present_loop id clients ∅;
  required ← gets rt_required;
  mret (required <=? size present)%nat.

Definition command_available_workers : RT (list N) :=
  healthy ← healthy_workers;
  _ ← modify (set_last_healthy (worker_set healthy));
  mret healthy.*1.

Definition command_repair (fuel : nat) : RT RepairReport :=
  healthy ← healthy_workers;
  _ ← modify (set_repair_cursor ∅);
  report ← repair_with_health fuel healthy;
  _ ← modify (set_last_healthy (worker_set healthy));
  mret report.

Definition command_repair_pass (limit : nat) : RT RepairReport :=
  healthy ← healthy_workers;
  let current := worker_set healthy in
  last_healthy ← gets rt_last_healthy;
  _ ← when (negb (bool_decide (current = last_healthy)))
        (_ ← modify (set_repair_cursor ∅); modify (set_last_healthy current));
  repair_pass_with_health healthy limit.

Definition all_chunks_page (limit : nat) : RT ChunkPage :=
  if (limit =? 0)%nat then throw PAGE_LIMIT_ZERO else
  healthy ← healthy_workers;
  page ← inventory_page_with_holders rt_list_cursor set_list_cursor healthy limit;
  mret (mkChunkPage (ip_chunks page).*1 (if ip_more page then last (ip_chunks page).*1 else None)).
Definition command_list_chunks_page (cursor : option ChunkId) (limit : nat) : RT ChunkPage :=
  _ ← when (is_none cursor) (modify (set_list_cursor ∅));
  all_chunks_page limit.

Definition command_targets : RT (list WorkerTargetId) := gets (λ t, wc_id <$> rt_clients t).

Definition command_delete_target (id : ChunkId) (target : WorkerTargetId) : RT unit :=
  clients ← gets rt_clients;
  match list_find (λ client, wc_id client = target) clients with
  | None => throw (InvalidArg ("unknown chunk delete target " +:+ pretty target))
  | Some (_, client) =>
      x ← call (wc_endpoint client) (DeleteChunkRequest (as_bytes id));
      match x with
      | Ok _ => mret tt
      | Err status => throw (status_error status)
      end
  end.

(** ** Membership *)

Definition set_routing (clients : list WorkerRpcClient) (membership : WorkerMembership) (t : T) : T :=
  mkRpcThread clients (Some membership) (rt_required t) (rt_last_healthy t) (rt_repair_cursor t)
    (rt_list_cursor t) (rt_ticks t) (rt_net t).

(** The connections a membership asks for, under the thread's TLS settings. *)
Definition worker_clients_from_membership (tls_enabled insecure_dev : bool) (membership : WorkerMembership) :
    RT (list WorkerRpcClient) :=
  t ← unix_time_millis;
  lift (mapM (λ worker, url ← configured_endpoint InvalidArg (wr_endpoint worker) tls_enabled insecure_dev;
                        Ok (mkWorkerRpcClient (wr_id worker) url))
             (active_at membership t)).

Definition apply_membership_refresh (refreshed : WorkerMembership)
    (build_clients : WorkerMembership → RT (list WorkerRpcClient)) : RT bool :=
  t ← unix_time_millis;
  clients ← gets rt_clients;
  membership ← gets rt_membership;
  let desired : gset N := list_to_set (wr_id <$> active_at refreshed t) in
  let current : gset N := list_to_set (wc_id <$> clients) in
  let routing_changed :=
    match membership with None => true | Some old => negb (wm_epoch old =? wm_epoch refreshed) end ||
    negb (bool_decide (desired = current)) in
  if negb routing_changed then
    _ ← modify (set_routing clients refreshed); mret false
  else
    next_clients ← attempt (build_clients refreshed);
    match next_clients with
    | Err _ => mret false
    | Ok next_clients => _ ← modify (set_routing next_clients refreshed); mret true
    end.

(** The start of a round of [rpc_loop], [refreshed] being the membership that
    was fetched, if one was due and arrived. *)
Definition refresh_routing (tls_enabled insecure_dev : bool) (refreshed : option WorkerMembership) : RT unit :=
  match refreshed with
  | None => mret tt
  | Some refreshed =>
      routing_rebuilt ← apply_membership_refresh refreshed (worker_clients_from_membership tls_enabled insecure_dev);
      when routing_rebuilt
        (modify (λ t, set_list_cursor ∅ (set_repair_cursor ∅ (set_last_healthy ∅ t))))
  end.

(** [new_with_targets]: the thread it starts. *)
Definition new_with_targets (workers : list (N * string)) (required max_pending : nat)
    (membership : option WorkerMembership) (tls_enabled insecure_dev : bool) (w : W) : Result T :=
  if bool_decide (required = 0%nat) || (length workers <? required)%nat then
    Err (InvalidArg ("remote replication requires " +:+ pretty (N.of_nat required) +:+ " workers, got "
                     +:+ pretty (N.of_nat (length workers)) +:+ " targets"))
  else if (max_pending =? 0)%nat then Err (InvalidArg "remote chunk max_pending must be greater than zero")
  else
    clients ← mapM (λ target, url ← configured_endpoint InvalidArg target.2 tls_enabled insecure_dev;
                              Ok (mkWorkerRpcClient target.1 url)) workers;
    Ok (mkRpcThread clients membership required ∅ ∅ ∅ 0 w).

(** ** The store over its threads *)

(** [ChunkStore::delete]. *)
Definition remote_delete (id : ChunkId) : RT unit :=
  targets ← command_targets;
  for_each (command_delete_target id) targets.

(** The loop of [ChunkStore::list_chunks]. *)
Fixpoint remote_list_chunks (fuel : nat) (cursor : option ChunkId) : RT (list ChunkId) :=
  match fuel with
  | O => throw OUT_OF_FUEL
  | S fuel =>
      page ← command_list_chunks_page cursor 1024;
      match cp_next_cursor page with
      | None => mret (cp_chunks page)
      | Some next => rest ← remote_list_chunks fuel (Some next); mret (cp_chunks page ++ rest)
      end
  end.
End remote.
