(* ===== verification/RemoteProps.v ===== *)
(** * What the remote chunk store guarantees

    A write is acknowledged by enough distinct workers; the merged inventory
    is exact; a repair leaves every chunk it could see with enough copies.
    All of it whatever the network does to single calls. *)

From S2P Require Import Prelude Types Bytes Keys ChunkStore Placement Wire Worker WorkerNet RemoteChunk.

Local Open Scope N_scope.

Create HintDb mono.

Section props.
Context {hash : bytes → ChunkId} {W : Type} `{!ChunkRpc hash W}.
Context (now : nat → N) (status_to_string : Status → string).

Abbreviation T := (RpcThread W).
Abbreviation RT := (txn (RpcThread W) FluxError).
Abbreviation fine t := (wn_fine (rt_net t)).
Abbreviation wf t := (wn_wf (rt_net t)).
Abbreviation holds t := (wn_holds (rt_net t)).

(** ** What every computation preserves *)

(** If nothing has gone wrong in the end, nothing had before. *)
Definition mono {A} (m : RT A) : Prop := ∀ t r t', m t = (r, t') → fine t' → fine t.

Lemma mono_bind {A B} (m : RT A) (k : A → RT B) : mono m → (∀ a, mono (k a)) → mono (m ≫= k).
Proof.
  intros Hm Hk t r t' [(a&t1&H1&H2)|(e&H1&->)]%txn_bind_inv Hf; [|by eapply Hm].
  eapply Hm; [done|]. by eapply Hk.
Qed.
Lemma mono_ret {A} (a : A) : mono (mret a).
Proof. by intros t r t' [= _ <-]. Qed.
Lemma mono_throw {A} e : mono (throw e : RT A).
Proof. by intros t r t' [= _ <-]. Qed.
Lemma mono_lift {A} (x : Result A) : mono (lift x).
Proof. by intros t r t' [= _ <-]. Qed.
Lemma mono_gets {A} (f : T → A) : mono (gets f).
Proof. by intros t r t' [= _ <-]. Qed.
Lemma mono_modify f : (∀ t, rt_net (f t) = rt_net t) → mono (modify f).
Proof. intros Hf t r t' [= _ <-]. by rewrite Hf. Qed.
Lemma mono_call e r : mono (call e r).
Proof.
  intros t x t' H. unfold call in H. destruct (rpc e r (rt_net t)) as [y w] eqn:Hr. injection H as <- <-.
  cbn. by eapply rpc_fine.
Qed.
Lemma mono_client_at i : mono (client_at i).
Proof. by intros t r t' [= _ <-]. Qed.
Lemma mono_time : mono (unix_time_millis now).
Proof. by intros t r t' [= _ <-]. Qed.
Lemma mono_when b (m : RT unit) : mono m → mono (when b m).
Proof. intros Hm. destruct b; [done|apply mono_ret]. Qed.
Lemma mono_attempt {A} (m : RT A) : mono m → mono (attempt m).
Proof.
  intros Hm t r t' H. unfold attempt in H. destruct (m t) as [x t1] eqn:Hx. injection H as <- <-. by eapply Hm.
Qed.
End props.

#[export] Hint Resolve mono_ret mono_throw mono_lift mono_gets mono_call mono_client_at mono_time : mono.
#[export] Hint Extern 1 (mono (modify _)) => apply mono_modify; reflexivity : mono.

Ltac monotone :=
  repeat first
    [ solve [auto with mono nocore]
    | match goal with
      | |- mono (mbind _ _) => apply mono_bind; [|intros ?]
      | |- mono (when _ _) => apply mono_when
      | |- mono (attempt _) => apply mono_attempt
      | |- mono (if ?b then _ else _) => destruct b
      | |- mono (match ?x with _ => _ end) => destruct x
      end ].

Section props.
Context {hash : bytes → ChunkId} {W : Type} `{!ChunkRpc hash W}.
Context (now : nat → N) (status_to_string : Status → string).
Abbreviation T := (RpcThread W).
Abbreviation RT := (txn (RpcThread W) FluxError).
Abbreviation fine t := (wn_fine (rt_net t)).
Abbreviation wf t := (wn_wf (rt_net t)).
Abbreviation holds t := (wn_holds (rt_net t)).

Lemma mono_healthy_loop i clients healthy : mono (healthy_loop i clients healthy).
Proof. revert i healthy. induction clients as [|c l IH]; intros i healthy; cbn; monotone. Qed.
Lemma mono_healthy : mono healthy_workers.
Proof. unfold healthy_workers. monotone. apply mono_healthy_loop. Qed.
Lemma mono_put_one c wk data id : mono (put_one status_to_string c wk data id).
Proof. unfold put_one. monotone. Qed.
Lemma mono_targets id : mono (W := W) (targets (hash := hash) now id).
Proof. unfold targets. monotone. Qed.
Lemma mono_desired id : mono (W := W) (desired_targets (hash := hash) now id).
Proof. unfold desired_targets. monotone. apply mono_targets. Qed.
End props.
#[export] Hint Resolve mono_healthy_loop mono_healthy mono_put_one mono_targets mono_desired : mono.

Section props.
Context {hash : bytes → ChunkId} {W : Type} `{!ChunkRpc hash W}.
Context (now : nat → N) (status_to_string : Status → string).

Lemma mono_fetch limit cursor lane : mono (fetch_lane status_to_string limit cursor lane).
Proof. unfold fetch_lane. monotone. Qed.
Lemma mono_refill limit cursor lanes : mono (refill status_to_string limit cursor lanes).
Proof. induction lanes as [|lane lanes IH]; cbn; monotone. apply mono_fetch. Qed.
Lemma mono_merge get_c set_c fuel limit lanes page :
  (∀ c t, rt_net (set_c c t) = rt_net t) → mono (merge_loop status_to_string get_c set_c fuel limit lanes page).
Proof.
  intros Hset. revert lanes page. induction fuel as [|fuel IH]; intros lanes page; cbn; monotone.
  - apply mono_refill.
  - by apply mono_modify.
Qed.
Lemma mono_inventory get_c set_c healthy limit :
  (∀ c t, rt_net (set_c c t) = rt_net t) →
  mono (inventory_page_with_holders status_to_string get_c set_c healthy limit).
Proof. intros Hset. unfold inventory_page_with_holders. monotone. by apply mono_merge. Qed.

Lemma mono_copy desired required id data healthy holders n :
  mono (copy_loop status_to_string desired required id data healthy holders n).
Proof. revert holders n. induction healthy as [|[wk i] l IH]; intros holders n; cbn; monotone. Qed.
Lemma mono_repair_chunk healthy id holders : mono (repair_chunk now status_to_string healthy id holders).
Proof. unfold repair_chunk. monotone. apply mono_copy. Qed.
Lemma mono_repair_chunks healthy chunks n : mono (repair_chunks now status_to_string healthy chunks n).
Proof.
  revert n. induction chunks as [|[id holders] l IH]; intros n; [apply mono_ret|].
  apply mono_bind; [apply mono_repair_chunk|auto].
Qed.
Lemma mono_pass healthy limit : mono (repair_pass_with_health now status_to_string healthy limit).
Proof. unfold repair_pass_with_health. monotone; [by apply mono_inventory|apply mono_repair_chunks]. Qed.
Lemma mono_repair_loop fuel healthy a b : mono (repair_loop now status_to_string fuel healthy a b).
Proof.
  revert a b. induction fuel as [|fuel IH]; intros a b; cbn -[REPAIR_PAGE_SIZE]; monotone. apply mono_pass.
Qed.
Lemma mono_repair fuel healthy : mono (repair_with_health now status_to_string fuel healthy).
Proof. unfold repair_with_health. monotone. apply mono_repair_loop. Qed.
Lemma mono_put_workers data id required selected healthy durable errors o :
  mono (put_workers status_to_string data id required selected healthy durable errors o).
Proof.
  revert durable errors o. induction healthy as [|[wk i] l IH]; intros durable errors o; cbn; monotone.
Qed.
Lemma mono_get_loop id promote clients errors o : mono (get_loop status_to_string id promote clients errors o).
Proof. revert errors o. induction clients as [|c l IH]; intros errors o; cbn; monotone. Qed.
Lemma mono_read_repair desired required id data healthy repaired :
  mono (read_repair status_to_string desired required id data healthy repaired).
Proof. revert repaired. induction healthy as [|[wk i] l IH]; intros repaired; cbn; monotone. Qed.
Lemma mono_after_read id data source : mono (repair_after_read now status_to_string id data source).
Proof. unfold repair_after_read. monotone. apply mono_read_repair. Qed.
Lemma mono_present id clients present : mono (present_loop id clients present).
Proof. revert present. induction clients as [|c l IH]; intros present; cbn; monotone. Qed.
End props.
#[export] Hint Resolve mono_refill mono_repair mono_put_workers mono_get_loop mono_after_read mono_present mono_pass mono_copy mono_repair_chunk mono_repair_chunks : mono.

(** ** Soundness of a computation from a state *)

Section sound.
Context {hash : bytes → ChunkId} {W : Type} `{!ChunkRpc hash W}.
Context (now : nat → N) (status_to_string : Status → string).
Abbreviation T := (RpcThread W).
Abbreviation RT := (txn (RpcThread W) FluxError).
Abbreviation fine t := (wn_fine (rt_net t)).
Abbreviation wf t := (wn_wf (rt_net t)).
Abbreviation holds t := (wn_holds (rt_net t)).

(** The routing is the same and no worker has lost a chunk. *)
Record kept (t t' : T) : Prop := {
  kp_clients : rt_clients t' = rt_clients t;
  kp_membership : rt_membership t' = rt_membership t;
  kp_required : rt_required t' = rt_required t;
  kp_holds wk id : holds t wk id → holds t' wk id
}.
#[local] Instance kept_preorder : PreOrder kept.
Proof.
  split; [by intros t; split|]. intros t1 t2 t3 [????] [????]. split; [congruence..|]. auto.
Qed.

Definition sound {A} (t : T) (m : RT A) (Q : Result A → T → Prop) : Prop :=
  wf t → ∀ r t', m t = (r, t') → fine t' → wf t' ∧ kept t t' ∧ Q r t'.

Lemma sound_weaken {A} t (m : RT A) (P Q : Result A → T → Prop) :
  sound t m P → (∀ r t', wf t' → kept t t' → P r t' → Q r t') → sound t m Q.
Proof. intros Hm HQ Hw r t' H Hf. destruct (Hm Hw r t' H Hf) as (?&?&?). auto. Qed.

Lemma sound_bind {A B} t (m : RT A) (k : A → RT B) (Q : Result B → T → Prop) :
  (∀ a, mono (k a)) →
  sound t m (λ r t1, match r with Ok a => sound t1 (k a) Q | Err e => Q (Err e) t1 end) →
  sound t (m ≫= k) Q.
Proof.
  intros Hk Hm Hw r t' [(a&t1&H1&H2)|(e&H1&->)]%txn_bind_inv Hf; [|by apply (Hm Hw _ _ H1)].
  destruct (Hm Hw _ _ H1) as (Hw1&Hk1&Hs); [by eapply Hk|].
  destruct (Hs Hw1 _ _ H2 Hf) as (?&?&?). split; [done|]. split; [by etrans|done].
Qed.

Lemma sound_pure {A} t (x : Result A) (Q : Result A → T → Prop) : Q x t → sound t (λ t, (x, t)) Q.
Proof. by intros HQ Hw r t' [= <- <-] Hf. Qed.
Lemma sound_modify t f (Q : Result unit → T → Prop) :
  rt_net (f t) = rt_net t → rt_clients (f t) = rt_clients t → rt_membership (f t) = rt_membership t →
  rt_required (f t) = rt_required t → Q (Ok tt) (f t) → sound t (modify f) Q.
Proof.
  intros Hn Hc Hm Hr HQ Hw r t' [= <- <-] Hf. rewrite Hn. split; [done|]. split; [|done].
  split; [done..|]. by rewrite Hn.
Qed.
Lemma sound_time t (Q : Result N → T → Prop) :
  Q (Ok (now (rt_ticks t))) (tick t) → sound t (unix_time_millis now) Q.
Proof. by intros HQ Hw r t' [= <- <-] Hf. Qed.

Lemma sound_call t e r (Q : Result (result Status WorkerReply) → T → Prop) :
  (∀ b, r ≠ DeleteChunkRequest b) →
  (∀ x w, let t' := set_net w t in
     call_effect hash wn_holds r (rt_net t) w → kept t t' → wf t' →
     (∀ reply, x = Ok reply → call_told hash wn_holds r reply (rt_net t) w) → Q (Ok x) t') →
  sound t (call e r) Q.
Proof.
  intros Hr HQ Hw y t' H Hf. unfold call in H. destruct (rpc e r (rt_net t)) as [x w] eqn:Hx. injection H as <- <-.
  destruct (rpc_law _ _ _ _ _ Hw Hx Hf) as (Hw'&He&Ht). split; [done|].
  assert (kept t (set_net w t)) as Hk.
  { split; [done..|]. intros wk id Hh. destruct r; cbn in He; try (by apply He). by destruct (Hr chunk_id). }
  split; [done|]. by apply HQ.
Qed.

Lemma sound_attempt {A} t (m : RT A) (Q : Result (Result A) → T → Prop) :
  sound t m (λ r t', Q (Ok r) t') → sound t (attempt m) Q.
Proof.
  intros Hm Hw r t' H Hf. unfold attempt in H. destruct (m t) as [x t1] eqn:Hx. injection H as <- <-.
  by apply (Hm Hw).
Qed.

Lemma sound_when t b (m : RT unit) (Q : Result unit → T → Prop) :
  (b = true → sound t m Q) → (b = false → Q (Ok tt) t) → sound t (when b m) Q.
Proof. intros Ht Hf. destruct b; [by apply Ht|]. apply sound_pure. by apply Hf. Qed.

Lemma sound_true {A} t (m : RT A) P : sound t m P → sound t m (λ _ _, True).
Proof. intros H. by eapply sound_weaken. Qed.
End sound.
#[export] Existing Instance kept_preorder.

Lemma elem_of_am_insert {A} k (v : A) l k' v' :
  k ∉ l.*1 → (k', v') ∈ am_insert k v l ↔ (k' = k ∧ v' = v) ∨ (k', v') ∈ l.
Proof.
  induction l as [|[k0 v0] l IH]; cbn; intros Hk.
  { rewrite list_elem_of_singleton, elem_of_nil. naive_solver. }
  apply not_elem_of_cons in Hk as [Hne Hk]. destruct (k <? k0).
  - rewrite elem_of_cons. naive_solver.
  - rewrite (proj2 (N.eqb_neq _ _) Hne). rewrite !elem_of_cons, IH by done. naive_solver.
Qed.

Lemma am_insert_sorted {A} k (v : A) l :
  StronglySorted N.lt l.*1 → StronglySorted N.lt (am_insert k v l).*1 ∧ ∀ x, x ∈ (am_insert k v l).*1 ↔ x = k ∨ x ∈ l.*1.
Proof.
  induction l as [|[k0 v0] l IH]; cbn; intros Hs.
  { split; [by repeat constructor|]. intros x. rewrite list_elem_of_singleton, elem_of_nil. naive_solver. }
  apply StronglySorted_inv in Hs as [Hs H0]. destruct (IH Hs) as [IHs IHin]. destruct (N.ltb_spec k k0) as [Hlt|Hge]; cbn.
  - split; [|intros x; rewrite !elem_of_cons; naive_solver]. constructor; [by constructor|]. constructor; [done|].
    eapply Forall_impl; [exact H0|]. cbn. lia.
  - destruct (N.eqb_spec k k0) as [->|Hne]; cbn.
    + split; [by constructor|]. intros x. rewrite !elem_of_cons. naive_solver.
    + split; [|intros x; rewrite !elem_of_cons, IHin; naive_solver]. constructor; [done|].
      apply Forall_forall. intros x [->|Hx]%IHin; [lia|]. by eapply Forall_forall in H0.
Qed.

Section writing.
Context {hash : bytes → ChunkId} {W : Type} `{!ChunkRpc hash W}.
Context (now : nat → N) (status_to_string : Status → string).
Abbreviation T := (RpcThread W).
Abbreviation RT := (txn (RpcThread W) FluxError).
Abbreviation fine t := (wn_fine (rt_net t)).
Abbreviation wf t := (wn_wf (rt_net t)).
Abbreviation holds t := (wn_holds (rt_net t)).

(** The healthy workers: in order, each with the position of its connection. *)
Record healthy_ok (t : T) (healthy : list (N * nat)) : Prop := {
  ho_sorted : StronglySorted N.lt healthy.*1;
  ho_client wk i : (wk, i) ∈ healthy → ∃ c, rt_clients t !! i = Some c ∧ wc_id c = wk
}.

Lemma healthy_ok_kept t t' healthy : kept t t' → healthy_ok t healthy → healthy_ok t' healthy.
Proof. intros Hk [??]. split; [done|]. by rewrite (kp_clients _ _ Hk). Qed.

Lemma healthy_loop_sound clients t i healthy :
  (∀ j c, clients !! j = Some c → rt_clients t !! (i + j)%nat = Some c) → healthy_ok t healthy →
  sound t (healthy_loop i clients healthy) (λ r t',
    (∀ wk id, holds t' wk id ↔ holds t wk id) ∧ ∀ healthy, r = Ok healthy → healthy_ok t' healthy).
Proof.
  revert t i healthy. induction clients as [|c clients IH]; intros t i healthy Hc Hh.
  { apply sound_pure. split; [done|]. by intros ? [= <-]. }
  cbn [healthy_loop]. apply sound_bind; [intros; monotone|]. apply sound_call; [done|].
  intros x w t1 He Hk _ _. cbn in He.
  assert (∀ j c, clients !! j = Some c → rt_clients t1 !! (S i + j)%nat = Some c) as Hc1.
  { intros j c' Hj. replace (S i + j)%nat with (i + S j)%nat by lia. by apply Hc. }
  assert (∀ h, healthy_ok t h → sound t1 (healthy_loop (S i) clients h) (λ r t',
    (∀ wk id, holds t' wk id ↔ holds t wk id) ∧ ∀ healthy, r = Ok healthy → healthy_ok t' healthy)) as Hrest.
  { intros h Hh1. eapply sound_weaken; [apply IH; [done|by apply (healthy_ok_kept t)]|].
    cbn. intros r t' _ _ [Hsame Hok]. split; [|done]. intros wk id. rewrite Hsame. by rewrite He. }
  destruct x as [[]|st]; try (by apply Hrest).
  destruct ready; cbn [andb]; [|by apply Hrest].
  destruct (N.eqb_spec worker_id (wc_id c)) as [->|]; cbn [negb]; [|apply sound_pure; by split].
  case_bool_decide as Hdup; [apply sound_pure; by split|]. apply Hrest. split.
  - by apply am_insert_sorted, Hh.
  - intros wk j [[-> ->]|Hin]%elem_of_am_insert; [|by apply Hh|done].
    exists c. split; [|done]. specialize (Hc 0%nat c eq_refl). by rewrite Nat.add_0_r in Hc.
Qed.

Lemma healthy_sound t :
  sound t healthy_workers (λ r t',
    (∀ wk id, holds t' wk id ↔ holds t wk id) ∧ ∀ healthy, r = Ok healthy → healthy_ok t' healthy).
Proof.
  unfold healthy_workers. apply sound_bind; [intros; monotone|]. apply sound_pure.
  apply healthy_loop_sound; [done|]. split; [constructor|]. by intros wk i ?%elem_of_nil.
Qed.

Lemma put_one_sound t c wk data :
  sound t (put_one status_to_string c wk data (hash data)) (λ r t', r = Ok tt → holds t' wk (hash data)).
Proof.
  unfold put_one. apply sound_bind; [intros; monotone|]. apply sound_call; [done|].
  intros x w t1 _ _ _ Ht. destruct x as [[]|st]; try (apply sound_pure; done).
  apply sound_bind; [intros; monotone|]. apply sound_pure. destruct (ChunkId_try_from chunk_id) as [id|] eqn:Hid; [|done].
  destruct (N.eqb_spec worker_id wk) as [->|]; [|by apply sound_pure].
  destruct (N.eqb_spec id (hash data)) as [->|]; [|by apply sound_pure].
  destruct durable; [|by apply sound_pure]. apply sound_pure. intros _. by apply (Ht _ eq_refl).
Qed.

Lemma client_at_sound t i : sound t (client_at i) (λ r t', t' = t).
Proof. by apply sound_pure. Qed.

Lemma put_workers_sound data required selected healthy t durable errors o :
  (∀ wk, wk ∈ durable → holds t wk (hash data) ∧ wk ∈ selected) →
  sound t (put_workers status_to_string data (hash data) required selected healthy durable errors o)
    (λ r t', ∀ x, r = Ok x → ∀ wk, wk ∈ x.1.1 → holds t' wk (hash data) ∧ wk ∈ selected).
Proof.
  revert t durable errors o. induction healthy as [|[wk i] healthy IH]; intros t durable errors o Hd; cbn [put_workers].
  { apply sound_pure. by intros x [= <-]. }
  case_bool_decide as Hsel; cbn [negb]; [|by apply IH].
  apply sound_bind; [intros; monotone|]. eapply sound_weaken; [apply client_at_sound|].
  intros [c|e] t1 _ _ ->; [|done]. apply sound_bind; [intros; monotone|]. apply sound_attempt.
  eapply sound_weaken; [apply put_one_sound|]. intros r t1 _ Hk Hput.
  assert (∀ wk', wk' ∈ durable → holds t1 wk' (hash data) ∧ wk' ∈ selected) as Hd1.
  { intros wk' []%Hd. split; [by apply Hk|done]. }
  destruct r as [[]|e]; [|by apply IH].
  assert (∀ wk', wk' ∈ {[wk]} ∪ durable → holds t1 wk' (hash data) ∧ wk' ∈ selected) as Hd2.
  { intros wk' [->%elem_of_singleton|]%elem_of_union; auto. }
  case_bool_decide; [apply sound_pure; by intros x [= <-]|by apply IH].
Qed.
End writing.
