(* ===== verification/RemoteMerge.v ===== *)
(** * The merged inventory of the workers

    [inventory_page_with_holders] merges the listings of the healthy workers:
    the next page holds the smallest chunks that some worker has behind its
    cursor, each with exactly the workers that hold it so, and moves the
    cursors past exactly these. *)

From S2P Require Import Prelude Types Bytes Keys ChunkStore Placement Wire Worker WorkerNet RemoteChunk RemoteProps.

Local Open Scope N_scope.

Lemma try_from_as_bytes id : id < 256 ^ N.of_nat 32 → ChunkId_try_from (as_bytes id) = Ok id.
Proof.
  intros Hid. unfold ChunkId_try_from, as_bytes. rewrite be_bytes_length, bool_decide_true by done.
  by rewrite of_be_bytes_be.
Qed.
Lemma try_from_all l :
  Forall (λ id, id < 256 ^ N.of_nat 32) l → mapM ChunkId_try_from (as_bytes <$> l) = Ok l.
Proof.
  induction 1 as [|id l Hid _ IH]; [done|]. cbn [fmap list_fmap mapM]. rewrite try_from_as_bytes by done. cbn.
  by rewrite IH.
Qed.
Lemma as_bytes_nonempty id : as_bytes id ≠ [].
Proof. intros H. assert (Hl := be_bytes_length 32 id). unfold as_bytes in H. by rewrite H in Hl. Qed.

(** A page is a prefix of what is behind the cursor; the next cursor is set
    when there is more. *)
Lemma page_of_prefix inventory cursor limit :
  0 < limit → limit < U64_MAX →
  let rest := filter (λ c, after_cursor cursor c = true) inventory in
  cp_chunks (page_of inventory cursor limit) = take (N.to_nat limit) rest ∧
  (cursor_bytes (cp_next_cursor (page_of inventory cursor limit)) = [] ↔ (length rest ≤ N.to_nat limit)%nat).
Proof.
  intros Hpos Hmax rest. unfold page_of. fold rest. cbn [cp_chunks cp_next_cursor].
  rewrite take_take. assert (N.to_nat (sat_add limit 1) = S (N.to_nat limit)) as Hs.
  { unfold sat_add, sat_add_w. lia. }
  rewrite Hs. replace (N.to_nat limit `min` S (N.to_nat limit))%nat with (N.to_nat limit) by lia.
  split; [done|]. rewrite length_take. destruct (N.ltb_spec limit (N.of_nat (S (N.to_nat limit) `min` length rest))) as [H|H].
  - split; [|lia]. destruct (last (take (N.to_nat limit) rest)) as [c|] eqn:Hl; cbn; [by intros ?%as_bytes_nonempty|].
    apply last_None in Hl. apply (f_equal length) in Hl. rewrite length_take in Hl. cbn in Hl. lia.
  - split; [lia|done].
Qed.

Section lanes.
(** What the workers hold while the page is made, and the cursors. *)
Context (H : N → ChunkId → Prop).

Definition left_over (cur : gmap N ChunkId) (wk : N) (k : ChunkId) : Prop :=
  H wk k ∧ after_cursor (cur !! wk) k = true.

Record lane_ok (cur : gmap N ChunkId) (lane : Lane) : Prop := {
  lo_sorted : StronglySorted N.lt (ln_buffer lane);
  lo_left k : k ∈ ln_buffer lane → left_over cur (ln_worker lane) k;
  lo_all k : left_over cur (ln_worker lane) k →
    k ∈ ln_buffer lane ∨ (ln_more lane = true ∧ ∀ b, b ∈ ln_buffer lane → b < k)
}.
Definition more_true (cur : gmap N ChunkId) (lane : Lane) : Prop :=
  ln_more lane = true → ∃ k, left_over cur (ln_worker lane) k ∧ ∀ b, b ∈ ln_buffer lane → b < k.
Definition lane_full (cur : gmap N ChunkId) (lane : Lane) : Prop :=
  lane_ok cur lane ∧ more_true cur lane ∧
  (ln_buffer lane = [] → ∀ k, ¬ left_over cur (ln_worker lane) k).

(** The lane after a listing. *)
Lemma fetched_lane (inventory : list ChunkId) cur wk i limit :
  StronglySorted N.lt inventory → (∀ id, id ∈ inventory ↔ H wk id) → 0 < limit → limit < U64_MAX →
  let page := page_of inventory (cur !! wk) limit in
  lane_full cur (mkLane wk i (cp_chunks page)
    (if bool_decide (cp_chunks page = []) then false else negb (bool_decide (cursor_bytes (cp_next_cursor page) = [])))).
Proof.
  intros Hs Hin Hpos Hmax page. destruct (page_of_prefix inventory (cur !! wk) limit Hpos Hmax) as [Hpage Hnext].
  fold page in Hpage, Hnext. set (rest := filter (λ c, after_cursor (cur !! wk) c = true) inventory) in *.
  assert (∀ k, left_over cur wk k ↔ k ∈ rest) as Hleft.
  { intros k. unfold left_over, rest. rewrite list_elem_of_filter, Hin. naive_solver. }
  assert (StronglySorted N.lt rest) as Hrest by (by apply StronglySorted_filter).
  assert (∀ k, k ∈ drop (N.to_nat limit) rest → ∀ b, b ∈ take (N.to_nat limit) rest → b < k) as Hbeyond.
  { intros k Hk b Hb. rewrite <-(take_drop (N.to_nat limit) rest) in Hrest.
    by eapply StronglySorted_app_1_elem_of. }
  assert (cp_chunks page = [] → rest = []) as Hempty.
  { rewrite Hpage. destruct rest; [done|]. destruct (N.to_nat limit) eqn:?; [lia|done]. }
  split; [|split].
  - split; cbn [ln_buffer ln_worker ln_more]; rewrite Hpage.
    + rewrite <-(take_drop (N.to_nat limit) rest) in Hrest. by apply StronglySorted_app_1_l in Hrest.
    + intros k Hk%elem_of_take. apply Hleft. destruct Hk as (j&Hj&_). by eapply list_elem_of_lookup_2.
    + intros k Hk%Hleft. rewrite <-(take_drop (N.to_nat limit) rest) in Hk.
      apply elem_of_app in Hk as [Hk|Hk]; [by left|right]. split; [|by apply Hbeyond].
      rewrite <-Hpage. rewrite bool_decide_false.
      2: { intros Hp%Hempty. rewrite Hp in Hk. by rewrite drop_nil in Hk; apply elem_of_nil in Hk. }
      rewrite bool_decide_false; [done|]. intros Hlen%Hnext. rewrite drop_ge in Hk by done. by apply elem_of_nil in Hk.
  - unfold more_true. cbn [ln_buffer ln_worker ln_more]. case_bool_decide as Hp; [done|].
    case_bool_decide as Hn; [done|]. intros _.
    destruct (drop (N.to_nat limit) rest) as [|k l] eqn:Hd.
    { exfalso. apply Hn, Hnext. apply (f_equal length) in Hd. rewrite length_drop in Hd. cbn in Hd. lia. }
    exists k. split; [|rewrite Hpage; apply Hbeyond; set_solver].
    apply Hleft. rewrite <-(take_drop (N.to_nat limit) rest), Hd. set_solver.
  - cbn [ln_buffer ln_worker]. intros Hp%Hempty k Hk%Hleft. rewrite Hp in Hk. by apply elem_of_nil in Hk.
Qed.
End lanes.

Section fetching.
Context {hash : bytes → ChunkId} {W : Type} `{!ChunkRpc hash W}.
Context (status_to_string : Status → string).
Abbreviation T := (RpcThread W).
Abbreviation RT := (txn (RpcThread W) FluxError).
Abbreviation fine t := (wn_fine (rt_net t)).
Abbreviation wf t := (wn_wf (rt_net t)).
Abbreviation holds t := (wn_holds (rt_net t)).

Context (H : N → ChunkId → Prop) (H_width : ∀ wk id, H wk id → id < 256 ^ N.of_nat 32).
Context (limit : nat) (limit_pos : (0 < limit)%nat).

(** Only the connections were used since [t0]: what the workers hold and all
    of the thread but the network is as it was. *)
Record steady (t0 t : T) : Prop := {
  sd_holds wk id : holds t wk id ↔ H wk id;
  sd_same : t = set_net (rt_net t) t0
}.

Definition cursors_ok (cur : gmap N ChunkId) : Prop := ∀ wk c, cur !! wk = Some c → c < 256 ^ N.of_nat 32.

(** A lane that has been filled, or is still empty. *)
Definition lane_fresh (cur : gmap N ChunkId) (lane : Lane) : Prop :=
  lane_ok H cur lane ∧ (ln_buffer lane = [] ∨ more_true H cur lane).

Lemma status_fuel st : rpc_status_error status_to_string st ≠ OUT_OF_FUEL.
Proof using. unfold rpc_status_error. by case_bool_decide. Qed.

Lemma fetch_sound t0 t cur lane :
  cursors_ok cur → steady t0 t → lane_fresh cur lane →
  sound t (fetch_lane status_to_string limit cur lane) (λ r t', steady t0 t' ∧ r ≠ Err OUT_OF_FUEL ∧
    ∀ lane', r = Ok lane' →
      ln_worker lane' = ln_worker lane ∧ ln_index lane' = ln_index lane ∧ lane_full H cur lane').
Proof using H_width limit_pos.
  intros Hcur Hst [Hok Hseen]. unfold fetch_lane. case_bool_decide as Hb; cbn [negb orb].
  2: { apply sound_pure. split; [done|]. split; [done|]. intros lane' [= <-]. split_and!; [done..|]. by destruct Hseen. }
  destruct (ln_more lane) eqn:Hm; cbn [negb].
  2: { apply sound_pure. split; [done|]. split; [done|]. intros lane' [= <-]. split_and!; [done..|].
    split_and!; [done|by intros ?; congruence|]. intros _ k [Hk|[? _]]%Hok; [|congruence].
    rewrite Hb in Hk. by apply elem_of_nil in Hk. }
  apply sound_bind; [intros; monotone|]. unfold client_at.
  apply sound_pure. destruct (rt_clients t !! ln_index lane) as [c|]; cbn [ok_or]; [|by split].
  apply sound_bind; [intros; monotone|]. apply sound_call; [done|].
  intros x w t1 He _ _ Ht. cbn in He.
  assert (steady t0 t1) as Hst1.
  { split; [intros wk id; etrans; [apply He|apply Hst]|]. subst t1. by rewrite (sd_same _ _ Hst). }
  destruct x as [[]|st]; try (by apply sound_pure).
  2: { apply sound_pure. split; [done|]. split; [|done]. intros [= Hst']. by eapply status_fuel. }
  destruct (N.eqb_spec worker_id (ln_worker lane)) as [->|]; cbn [negb]; [|by apply sound_pure].
  destruct (Ht _ eq_refl) as (inventory&cursor&Hs&Hin&Hc&->&->).
  assert (cursor = cur !! ln_worker lane) as ->.
  { unfold cursor_bytes in Hc. destruct (cur !! ln_worker lane) as [c'|] eqn:Hl.
    - destruct Hc as [[?%as_bytes_nonempty _]|(c''&Hc&->)]; [done|]. rewrite try_from_as_bytes in Hc by eauto. congruence.
    - destruct Hc as [[_ ->]|(c''&Hc&->)]; done. }
  apply sound_bind; [intros; monotone|]. apply sound_pure.
  rewrite try_from_all.
  2: { destruct (page_of_prefix inventory (cur !! ln_worker lane) (N.min (N.of_nat limit) U32_MAX)) as [-> _];
         [unfold U32_MAX; lia|unfold U32_MAX, U64_MAX; lia|]. apply Forall_take, Forall_forall.
       intros id [_ Hid]%list_elem_of_filter. eapply H_width, Hst, Hin, Hid. }
  apply sound_pure. split; [done|]. split; [done|]. intros lane' [= <-]. split; [done|]. split; [done|]. apply fetched_lane; [done| | |].
  - intros id. rewrite Hin. apply Hst.
  - unfold U32_MAX; lia.
  - unfold U32_MAX, U64_MAX; lia.
Qed.

Lemma refill_sound t0 t cur lanes :
  cursors_ok cur → steady t0 t → Forall (lane_fresh cur) lanes →
  sound t (refill status_to_string limit cur lanes) (λ r t', steady t0 t' ∧ r ≠ Err OUT_OF_FUEL ∧
    ∀ lanes', r = Ok lanes' → ln_worker <$> lanes' = ln_worker <$> lanes ∧ Forall (lane_full H cur) lanes').
Proof using H_width limit_pos.
  intros Hcur Hst Hl. revert t Hst. induction Hl as [|lane lanes Hlane Hl IH]; intros t Hst; cbn [refill].
  { apply sound_pure. split; [done|]. split; [done|]. by intros lanes' [= <-]. }
  apply sound_bind; [intros; monotone|]. eapply sound_weaken; [by apply (fetch_sound t0)|].
  intros [lane'|e] t1 _ _ (Hst1&He1&Hlane'); [|split_and!; congruence].
  apply sound_bind; [intros; monotone|]. eapply sound_weaken; [by apply IH|].
  intros [lanes'|e] t2 _ _ (Hst2&He2&Hl'); [|split_and!; congruence].
  destruct (Hlane' _ eq_refl) as (Hw&_&?). destruct (Hl' _ eq_refl) as (Hws&?).
  apply sound_pure. split; [done|]. split; [done|]. intros l' [= <-]. split; [cbn; congruence|]. by constructor.
Qed.
End fetching.

Lemma lookup_advance (mk : ChunkId) hs (cur : gmap N ChunkId) (w : N) :
  foldl (λ c w, <[w := mk]> c) cur hs !! w = if bool_decide (w ∈ hs) then Some mk else cur !! w.
Proof.
  revert cur. induction hs as [|h hs IH]; intros cur; cbn; [done|]. rewrite IH.
  repeat case_bool_decide; try set_solver.
  - assert (w = h) as -> by set_solver. by rewrite lookup_insert_eq.
  - by rewrite lookup_insert_ne by set_solver.
Qed.

Lemma min_front_spec lanes :
  match min_front lanes with
  | None => ∀ lane, lane ∈ lanes → front lane = None
  | Some mk => (∃ lane, lane ∈ lanes ∧ front lane = Some mk) ∧
               ∀ lane k, lane ∈ lanes → front lane = Some k → mk ≤ k
  end.
Proof.
  induction lanes as [|lane lanes IH]; cbn [min_front]; [by intros ? ?%elem_of_nil|].
  destruct (front lane) as [a|] eqn:Ha, (min_front lanes) as [b|].
  - destruct IH as [(l&Hl&Hb) Hmin]. split.
    + destruct (N.min_spec a b) as [[_ ->]|[_ ->]]; [exists lane|exists l]; split; set_solver.
    + intros l' k [->|Hl']%elem_of_cons Hk; [simplify_eq; lia|]. specialize (Hmin _ _ Hl' Hk). lia.
  - split; [exists lane; set_solver|]. intros l' k [->|Hl']%elem_of_cons Hk; [simplify_eq; lia|].
    rewrite (IH _ Hl') in Hk. done.
  - destruct IH as [(l&Hl&Hb) Hmin]. split; [exists l; set_solver|].
    intros l' k [->|Hl']%elem_of_cons Hk; [congruence|]. eauto.
  - intros l [->|Hl]%elem_of_cons; auto.
Qed.

Section stepping.
Context (H : N → ChunkId → Prop).

(** A full lane shows the least of what is left. *)
Lemma front_least cur lane k :
  lane_full H cur lane → left_over H cur (ln_worker lane) k → ∃ k', front lane = Some k' ∧ k' ≤ k.
Proof.
  intros (Hok&_&Hfull) Hk. unfold front. destruct (ln_buffer lane) as [|k' l] eqn:Hb; [by destruct (Hfull eq_refl k)|].
  exists k'. split; [done|]. assert (Hs := lo_sorted _ _ _ Hok). rewrite Hb in Hs. apply StronglySorted_inv in Hs as [_ Hs].
  destruct (lo_all _ _ _ Hok k Hk) as [Hin|[_ Hbeyond]]; rewrite Hb in *.
  - apply elem_of_cons in Hin as [->|Hin]; [done|]. eapply Forall_forall in Hs; [|done]. lia.
  - specialize (Hbeyond k'). set_solver by lia.
Qed.
Lemma front_left cur lane k : lane_full H cur lane → front lane = Some k → left_over H cur (ln_worker lane) k.
Proof. intros (Hok&_) Hk. apply Hok. by apply head_Some_elem_of. Qed.

(** No lane shows anything: nothing is left. *)
Lemma none_left cur lanes :
  Forall (lane_full H cur) lanes → min_front lanes = None →
  ∀ w k, w ∈ (ln_worker <$> lanes) → ¬ left_over H cur w k.
Proof.
  intros Hl Hm w k (lane&->&Hin)%list_elem_of_fmap Hk. assert (Hs := min_front_spec lanes). rewrite Hm in Hs.
  eapply Forall_forall in Hl; [|done]. destruct (front_least _ _ _ Hl Hk) as (k'&Hf&_).
  rewrite Hs in Hf by done. done.
Qed.

Section one_step.
Context (cur : gmap N ChunkId) (lanes : list Lane) (mk : ChunkId).
Context (full : Forall (lane_full H cur) lanes) (least : min_front lanes = Some mk).

Abbreviation cur' := (foldl (λ c w, <[w := mk]> c) cur (holders_of mk lanes)).

Lemma least_left lane k : lane ∈ lanes → left_over H cur (ln_worker lane) k → mk ≤ k.
Proof using full least.
  intros Hin Hk. assert (Hs := min_front_spec lanes). rewrite least in Hs. destruct Hs as [_ Hmin].
  destruct (front_least _ _ _ (proj1 (Forall_forall _ _) full _ Hin) Hk) as (k'&Hf&?).
  specialize (Hmin _ _ Hin Hf). lia.
Qed.
Lemma front_iff lane : lane ∈ lanes → front lane = Some mk ↔ left_over H cur (ln_worker lane) mk.
Proof using full least.
  intros Hin. assert (Hfull := proj1 (Forall_forall _ _) full _ Hin). split; [by apply front_left|]. intros Hk.
  destruct (front_least _ _ _ Hfull Hk) as (k'&Hf&?). assert (mk ≤ k'); [|by replace mk with k' by lia].
  eapply least_left; [done|]. by apply front_left.
Qed.
Lemma elem_of_holders w : w ∈ holders_of mk lanes ↔ w ∈ (ln_worker <$> lanes) ∧ left_over H cur w mk.
Proof using full least.
  unfold holders_of. rewrite !list_elem_of_fmap. split.
  - intros (lane&->&[Hf Hin]%list_elem_of_filter). split; [eauto|]. by apply front_iff.
  - intros [(lane&->&Hin) Hl]. exists lane. rewrite list_elem_of_filter. split_and!; [done| |done]. by apply front_iff.
Qed.

Lemma left_advance w k :
  w ∈ (ln_worker <$> lanes) → left_over H cur' w k ↔ left_over H cur w k ∧ k ≠ mk.
Proof using full least.
  intros Hw. assert (Hw' := Hw). apply list_elem_of_fmap in Hw' as (lane&->&Hin).
  assert (Hh := elem_of_holders (ln_worker lane)).
  unfold left_over at 1. rewrite lookup_advance. case_bool_decide as Hm.
  - apply Hh in Hm as [_ [HH Hc]]. split.
    + intros [Hk Hlt%N.ltb_lt]. split; [|lia]. split; [done|]. unfold after_cursor in *.
      destruct (cur !! ln_worker lane); [|done]. rewrite N.ltb_lt in *. lia.
    + intros [Hl Hne]. assert (mk ≤ k) by (by eapply least_left). destruct Hl. split; [done|]. cbn. apply N.ltb_lt. lia.
  - rewrite Hh in Hm. split; [|by intros [? _]]. intros Hl. split; [done|]. intros ->. apply Hm. by split.
Qed.

Lemma pop_more_true lane : lane ∈ lanes → more_true H cur' (pop mk lane) .
Proof using full least.
  intros Hin Hm. destruct (proj1 (Forall_forall _ _) full _ Hin) as (Hok&Hmore&_).
  assert (ln_worker (pop mk lane) = ln_worker lane ∧ ln_more (pop mk lane) = ln_more lane ∧
          ∀ b, b ∈ ln_buffer (pop mk lane) → b ∈ ln_buffer lane) as (->&Hm'&Hsub).
  { unfold pop. case_bool_decide; [|done]. cbn. split_and!; [done..|]. intros b. destruct (ln_buffer lane); set_solver. }
  rewrite Hm' in Hm. destruct (Hmore Hm) as (k&Hk&Hbeyond). exists k. split; [|auto].
  apply left_advance; [by apply list_elem_of_fmap_2|]. split; [done|]. intros ->.
  apply front_iff in Hk; [|done]. apply head_Some_elem_of in Hk. specialize (Hbeyond _ Hk). lia.
Qed.

Lemma pop_ok lane : lane ∈ lanes → lane_ok H cur' (pop mk lane).
Proof using full least.
  intros Hin. assert (Hw : ln_worker lane ∈ (ln_worker <$> lanes)) by (by apply list_elem_of_fmap_2).
  destruct (proj1 (Forall_forall _ _) full _ Hin) as (Hok&_&_).
  assert (Hf := front_iff lane Hin). unfold pop, front in *. case_bool_decide as Hb.
  - destruct (ln_buffer lane) as [|k0 l] eqn:Hbuf; [done|]. injection Hb as ->.
    assert (Hs := lo_sorted _ _ _ Hok). rewrite Hbuf in Hs. apply StronglySorted_inv in Hs as [Hs Hall].
    rewrite Forall_forall in Hall. split; cbn [ln_buffer ln_worker ln_more tail].
    + done.
    + intros k Hk. apply left_advance; [done|]. split; [apply Hok; rewrite Hbuf; set_solver|].
      specialize (Hall _ Hk). lia.
    + intros k [Hk Hne]%left_advance; [|done]. destruct (lo_all _ _ _ Hok _ Hk) as [Hkin|[? Hbeyond]]; rewrite Hbuf in *.
      * left. set_solver.
      * right. split; [done|]. intros b Hb. apply Hbeyond. set_solver.
  - assert (¬ left_over H cur (ln_worker lane) mk) as Hno by (by rewrite <-Hf). split; [apply Hok| |].
    + intros k Hk. apply left_advance; [done|]. assert (Hl := lo_left _ _ _ Hok k Hk). split; [done|]. by intros ->.
    + intros k [Hk _]%left_advance; [|done]. by apply Hok.
Qed.
End one_step.
End stepping.

Section looping.
Context (H : N → ChunkId → Prop) (H_width : ∀ wk id, H wk id → id < 256 ^ N.of_nat 32).

(** Cursors only move on. *)
Record moved_on (cur0 cur : gmap N ChunkId) : Prop := {
  mo_ok : cursors_ok cur;
  mo_forward w k : after_cursor (cur !! w) k = true → after_cursor (cur0 !! w) k = true
}.

(** The page so far: the smallest of what was left, each with its holders;
    the cursors are past exactly these. *)
Record merge_inv (ws : list N) (cur0 : gmap N ChunkId) (lanes : list Lane) (page : list (ChunkId * gset N))
    (cur : gmap N ChunkId) : Prop := {
  mi_workers : (ln_worker <$> lanes) = ws;
  mi_sorted : StronglySorted N.lt page.*1;
  mi_page k h : (k, h) ∈ page → (∃ w, w ∈ h) ∧ ∀ w, w ∈ h ↔ w ∈ ws ∧ left_over H cur0 w k;
  mi_left w k : w ∈ ws → left_over H cur w k ↔ left_over H cur0 w k ∧ k ∉ page.*1;
  mi_behind w k k' : w ∈ ws → left_over H cur w k → k' ∈ page.*1 → k' < k;
  mi_cursors : moved_on cur0 cur
}.

Lemma merge_step ws cur0 lanes page cur mk :
  merge_inv ws cur0 lanes page cur → Forall (lane_full H cur) lanes → min_front lanes = Some mk →
  (mk ∉ page.*1) ∧
  merge_inv ws cur0 (pop mk <$> lanes) (am_insert mk (list_to_set (holders_of mk lanes)) page)
    (foldl (λ c w, <[w := mk]> c) cur (holders_of mk lanes)).
Proof using H_width.
  intros [Hws Hs Hp Hl Hb [Hc Hfw]] Hfull Hmin. assert (Hm := min_front_spec lanes). rewrite Hmin in Hm.
  destruct Hm as [(lane&Hin&Hf) _]. assert (Hw : ln_worker lane ∈ ws) by (rewrite <-Hws; by apply list_elem_of_fmap_2).
  assert (left_over H cur (ln_worker lane) mk) as Hmk by (by eapply front_iff).
  assert (mk ∉ page.*1) as Hnew by (apply (Hl _ _ Hw), Hmk). split; [done|].
  destruct (am_insert_sorted mk (list_to_set (holders_of mk lanes) : gset N) page Hs) as [Hs' Hin'].
  assert (Hholders := elem_of_holders H cur lanes mk Hfull Hmin).
  assert (Hadv := left_advance H cur lanes mk Hfull Hmin). rewrite Hws in Hholders, Hadv. split.
  - rewrite <-Hws, <-list_fmap_compose. apply list_fmap_ext. intros _ l _. cbn. unfold pop. by case_bool_decide.
  - done.
  - intros k h [[-> ->]|Hk]%elem_of_am_insert; [|by apply Hp|done]. split.
    + exists (ln_worker lane). apply elem_of_list_to_set, Hholders. by split.
    + intros w. rewrite elem_of_list_to_set, Hholders. split; intros [Hw' Hl']; split; try done; by apply Hl.
  - intros w k Hw'. rewrite Hadv, Hl, Hin' by done. tauto.
  - intros w k k' Hw' [Hk Hne]%Hadv [->|Hk']%Hin'; [|by eapply Hb|done].
    assert (∃ lane, lane ∈ lanes ∧ w = ln_worker lane) as (lane'&Hlane&->).
    { rewrite <-Hws in Hw'. apply list_elem_of_fmap in Hw'. naive_solver. }
    assert (mk ≤ k) by (by eapply least_left). lia.
  - split; [intros w c; rewrite lookup_advance; case_bool_decide; [|apply Hc]; intros [= <-]; eapply H_width, Hmk|].
    intros w k. rewrite lookup_advance. case_bool_decide as Hh; [|apply Hfw]. intros Hlt%N.ltb_lt. apply Hfw.
    apply Hholders in Hh as [_ [_ Hc']]. unfold after_cursor in *. destruct (cur !! w); [|done]. rewrite N.ltb_lt in *. lia.
Qed.

Lemma merge_step_lanes cur lanes mk :
  Forall (lane_full H cur) lanes → min_front lanes = Some mk →
  let cur' := foldl (λ c w, <[w := mk]> c) cur (holders_of mk lanes) in
  Forall (λ lane, lane_fresh H cur' lane ∧ more_true H cur' lane) (pop mk <$> lanes).
Proof using.
  intros Hfull Hmin cur'. apply Forall_forall. intros lane (lane0&->&Hin)%list_elem_of_fmap.
  assert (more_true H cur' (pop mk lane0)) by (by apply pop_more_true).
  split; [|done]. split; [by apply pop_ok|by right].
Qed.

Lemma am_insert_length {A} k (v : A) l : k ∉ l.*1 → length (am_insert k v l) = S (length l).
Proof using.
  induction l as [|[k0 v0] l IH]; cbn; [done|]. intros [Hne Hk]%not_elem_of_cons.
  destruct (k <? k0); [done|]. rewrite (proj2 (N.eqb_neq _ _) Hne). cbn. by rewrite IH.
Qed.
End looping.

Section merging.
Context {hash : bytes → ChunkId} {W : Type} `{!ChunkRpc hash W}.
Context (status_to_string : Status → string).
Abbreviation T := (RpcThread W).
Abbreviation RT := (txn (RpcThread W) FluxError).
Abbreviation fine t := (wn_fine (rt_net t)).
Abbreviation wf t := (wn_wf (rt_net t)).
Abbreviation holds t := (wn_holds (rt_net t)).
Context (get_cursor : T → gmap N ChunkId) (set_cursor : gmap N ChunkId → T → T).
Context (get_set : ∀ c t, get_cursor (set_cursor c t) = c).
Context (get_net : ∀ w t, get_cursor (set_net w t) = get_cursor t).
Context (set_keeps : ∀ c t, rt_net (set_cursor c t) = rt_net t ∧ rt_clients (set_cursor c t) = rt_clients t ∧
  rt_membership (set_cursor c t) = rt_membership t ∧ rt_required (set_cursor c t) = rt_required t).

Context (H : N → ChunkId → Prop) (H_width : ∀ wk id, H wk id → id < 256 ^ N.of_nat 32).
Context (limit : nat) (limit_pos : (0 < limit)%nat).

(** How the loop ends. *)
Record merged (ws : list N) (cur0 : gmap N ChunkId) (lanes : list Lane) (page : list (ChunkId * gset N))
    (cur : gmap N ChunkId) : Prop := {
  mg_inv : merge_inv H ws cur0 lanes page cur;
  mg_lanes : Forall (λ lane, lane_fresh H cur lane ∧ more_true H cur lane) lanes;
  mg_length : (length page ≤ limit)%nat;
  mg_full : (length page < limit)%nat → ∀ w k, w ∈ ws → ¬ left_over H cur w k
}.

Lemma merge_loop_sound fuel ws cur0 t lanes page :
  (∀ wk id, holds t wk id ↔ H wk id) → merge_inv H ws cur0 lanes page (get_cursor t) →
  Forall (λ lane, lane_fresh H (get_cursor t) lane ∧ (page ≠ [] → more_true H (get_cursor t) lane)) lanes →
  (length page ≤ limit)%nat → (limit ≤ length page + fuel)%nat →
  sound t (merge_loop status_to_string get_cursor set_cursor fuel limit lanes page) (λ r t',
    (∀ wk id, holds t' wk id ↔ H wk id) ∧ moved_on cur0 (get_cursor t') ∧ r ≠ Err OUT_OF_FUEL ∧
    ∀ x, r = Ok x → merged ws cur0 x.1 x.2 (get_cursor t')).
Proof using get_set get_net set_keeps H_width limit_pos.
  assert (Hset : ∀ c t, rt_net (set_cursor c t) = rt_net t) by (intros; apply set_keeps).
  revert t lanes page. induction fuel as [|fuel IH]; intros t lanes page Hh Hinv Hl Hle Hfuel.
  all: cbn [merge_loop]; destruct (Nat.leb_spec limit (length page)) as [Hfull|Hroom].
  1, 3: apply sound_pure; split; [done|]; split; [apply Hinv|]; split; [done|]; intros x [= <-]; split; [done| |done|cbn; lia];
    eapply Forall_impl; [exact Hl|]; intros lane [? Hm]; split; [done|]; apply Hm; destruct page; [cbn in *; lia|done].
  { lia. }
  apply sound_bind; [intros; monotone; [by apply mono_modify|by apply mono_merge]|]. apply sound_pure.
  apply sound_bind; [intros; monotone; [by apply mono_modify|by apply mono_merge]|].
  eapply sound_weaken; [apply (refill_sound _ H H_width limit limit_pos t); [apply (mi_cursors _ _ _ _ _ _ Hinv)|split; [done|by destruct t]|]|].
  { eapply Forall_impl; [exact Hl|]. by intros lane []. }
  intros r t1 _ _ ([Hh1 Hsame]&He1&Hl1). assert (get_cursor t1 = get_cursor t) as Hcur by (by rewrite Hsame, get_net).
  destruct r as [lanes'|e]; [|rewrite Hcur; split_and!; [done|apply Hinv|congruence|done]].
  destruct (Hl1 _ eq_refl) as [Hws Hfull].
  assert (merge_inv H ws cur0 lanes' page (get_cursor t)) as Hinv'.
  { destruct Hinv. split; try done. by rewrite Hws. }
  destruct (min_front lanes') as [mk|] eqn:Hmin.
  - destruct (merge_step H H_width _ _ _ _ _ _ Hinv' Hfull Hmin) as [Hnew Hstep].
    assert (Hlanes := merge_step_lanes H _ _ _ Hfull Hmin).
    apply sound_bind; [intros; by apply mono_merge|]. apply sound_modify; [apply set_keeps..|].
    apply IH; rewrite ?get_set, ?Hset, ?am_insert_length by done; try done; [|lia..].
    eapply Forall_impl; [exact Hlanes|]. by intros lane [].
  - apply sound_pure. rewrite Hcur. split; [done|]. split; [apply Hinv|]. split; [done|]. intros x [= <-]. split; try done.
    + eapply Forall_impl; [exact Hfull|]. intros lane (?&?&?). split; [split; [done|by right]|done].
    + intros _ w k Hw. eapply none_left; [done..|]. by rewrite (mi_workers _ _ _ _ _ _ Hinv').
Qed.

(** The page: nothing is missed, nothing invented, and [more] is right. *)
Record page_exact (ws : list N) (cur0 cur : gmap N ChunkId) (page : InventoryPage) : Prop := {
  pe_sorted : StronglySorted N.lt (ip_chunks page).*1;
  pe_length : (length (ip_chunks page) ≤ limit)%nat;
  pe_holders k h w : (k, h) ∈ ip_chunks page → w ∈ h ↔ w ∈ ws ∧ left_over H cur0 w k;
  pe_held k h : (k, h) ∈ ip_chunks page → h ≠ ∅;
  pe_left w k : w ∈ ws → left_over H cur w k ↔ left_over H cur0 w k ∧ k ∉ (ip_chunks page).*1;
  pe_least w k k' : w ∈ ws → left_over H cur w k → k' ∈ (ip_chunks page).*1 → k' < k;
  pe_more : ip_more page = true ↔ ∃ w k, w ∈ ws ∧ left_over H cur w k;
  pe_full : ip_more page = true → length (ip_chunks page) = limit
}.

Lemma inventory_sound t healthy :
  (∀ wk id, holds t wk id ↔ H wk id) → cursors_ok (get_cursor t) →
  sound t (inventory_page_with_holders status_to_string get_cursor set_cursor healthy limit) (λ r t',
    (∀ wk id, holds t' wk id ↔ H wk id) ∧ moved_on (get_cursor t) (get_cursor t') ∧ r ≠ Err OUT_OF_FUEL ∧
    ∀ page, r = Ok page → page_exact healthy.*1 (get_cursor t) (get_cursor t') page).
Proof using get_set get_net set_keeps H_width limit_pos.
  intros Hh Hc. unfold inventory_page_with_holders. apply sound_bind; [intros; monotone|].
  eapply sound_weaken; [apply (merge_loop_sound limit healthy.*1 (get_cursor t)); [done| | |cbn; lia|cbn; lia]|].
  - split; cbn; [|by constructor|by intros k h ?%elem_of_nil| |by intros w k k' _ _ ?%elem_of_nil|by split].
    + rewrite <-list_fmap_compose. by apply list_fmap_ext.
    + intros w k _. rewrite elem_of_nil. tauto.
  - apply Forall_forall. intros lane (h&->&_)%list_elem_of_fmap. split; [|done]. split; [|by left].
    split; cbn; [by constructor|by intros k ?%elem_of_nil|]. intros k _. right. split; [done|]. by intros b ?%elem_of_nil.
  - intros [[lanes page]|e] t1 _ _ (Hh1&Hmo&He&Hm); [|split_and!; [done|done|congruence|done]].
    destruct (Hm _ eq_refl) as [Hinv Hlanes Hlen Hfull]. cbn [fst snd] in *.
    apply sound_pure. split; [done|]. split; [done|]. split; [done|]. intros p [= <-].
    assert (Hex : existsb (λ lane, negb (bool_decide (ln_buffer lane = [])) || ln_more lane) lanes = true ↔
            ∃ w k, w ∈ healthy.*1 ∧ left_over H (get_cursor t1) w k).
    { rewrite existsb_exists, <-(mi_workers _ _ _ _ _ _ Hinv). setoid_rewrite <-list_elem_of_In. split.
      - intros (lane&Hin&Hb). eapply Forall_forall in Hlanes as [[Hok _] Hmore]; [|done].
        apply orb_true_iff in Hb as [Hb|Hb].
        + destruct (ln_buffer lane) as [|k l] eqn:Hbuf; [done|]. exists (ln_worker lane), k.
          split; [by apply list_elem_of_fmap_2|]. apply Hok. rewrite Hbuf. set_solver.
        + destruct (Hmore Hb) as (k&Hk&_). exists (ln_worker lane), k. split; [by apply list_elem_of_fmap_2|done].
      - intros (w&k&(lane&->&Hin)%list_elem_of_fmap&Hk). exists lane. split; [done|].
        eapply Forall_forall in Hlanes as [[Hok _] _]; [|done]. apply (lo_all _ _ _ Hok) in Hk as [Hk|[-> _]].
        + apply orb_true_iff. left. destruct (ln_buffer lane); [by apply elem_of_nil in Hk|done].
        + by rewrite orb_true_r. }
    destruct Hinv as [Hws Hs Hp Hl Hb _]. split; cbn; try done.
    + intros k h w Hin. by apply Hp.
    + intros k h Hin ->. destruct (Hp _ _ Hin) as [[w Hw] _]. set_solver.
    + rewrite andb_true_iff, bool_decide_eq_true, Hex. split; [tauto|]. intros (w&k&Hw&Hk). split; [|eauto].
      destruct (decide (length page = limit)) as [|Hne]; [done|]. exfalso. eapply Hfull; [lia|done..].
    + intros [Hlim _]%andb_true_iff. by apply bool_decide_eq_true in Hlim.
Qed.
End merging.

(** C24: the merged inventory.  A page of at most [limit] chunks that the
    listing makes for some workers lists, in order and without repetition,
    the smallest chunks that one of them holds behind its cursor, each with
    exactly the workers that hold it so; afterwards exactly the others are
    behind the cursors, [more] says whether there are any, and a page with
    more to come is full.  Listing changes nothing on the workers. *)
Theorem inventory_exact {hash : bytes → ChunkId} {W : Type} `{!ChunkRpc hash W} (status_to_string : Status → string)
    healthy limit (t : RpcThread W) page t' :
  wn_wf (rt_net t) → cursors_ok (rt_list_cursor t) → (0 < limit)%nat →
  inventory_page_with_holders status_to_string rt_list_cursor set_list_cursor healthy limit t = (Ok page, t') →
  wn_fine (rt_net t') →
  page_exact (wn_holds (rt_net t)) limit healthy.*1 (rt_list_cursor t) (rt_list_cursor t') page ∧
  ∀ w k, wn_holds (rt_net t') w k ↔ wn_holds (rt_net t) w k.
Proof.
  intros Hw Hc Hlimit H Hf.
  edestruct (inventory_sound status_to_string rt_list_cursor set_list_cursor) as (_&_&Hs&_&_&Hpage);
    [done..| |exact Hlimit|done|exact Hc|exact Hw|exact H|exact Hf|].
  { intros wk id. by apply wn_width. }
  split; [by apply Hpage|done].
Qed.
