(* ===== verification/RemoteRepair.v ===== *)
(** * Repair of the remote chunk store

    A full repair ends with enough copies of every chunk that a healthy
    worker had at its start, loses none and makes up none, and it ends. *)

From S2P Require Import Prelude Types Bytes Keys ChunkStore Pack Placement Foyer Wire Authz Worker WorkerNet RemoteChunk RemoteProps RemoteMerge.

Local Open Scope N_scope.

Section copies.
Context {hash : bytes → ChunkId} {W : Type} `{!ChunkRpc hash W}.
Context (now : nat → N) (status_to_string : Status → string).
Abbreviation T := (RpcThread W).
Abbreviation RT := (txn (RpcThread W) FluxError).
Abbreviation fine t := (wn_fine (rt_net t)).
Abbreviation wf t := (wn_wf (rt_net t)).
Abbreviation holds t := (wn_holds (rt_net t)).

Lemma sound_and {A} t (m : RT A) (P Q : Result A → T → Prop) :
  sound t m P → sound t m Q → sound t m (λ r t', P r t' ∧ Q r t').
Proof. intros HP HQ Hw r t' H Hf. destruct (HP Hw _ _ H Hf) as (?&?&?), (HQ Hw _ _ H Hf) as (?&?&?). auto. Qed.

(** The workers a chunk is to be on: any, or the targets at some moment. *)
Definition targeted (t : T) (chunk : ChunkId) (d : option (gset N)) : Prop :=
  match rt_membership t with
  | None => d = None
  | Some m =>
      ∃ n workers, select_worker_targets hash m chunk (rt_required t) (now n) = Ok workers ∧
                   d = Some (list_to_set (wr_id <$> workers))
  end.
Definition enough_copies (t : T) (chunk : ChunkId) : Prop :=
  ∃ S d, targeted t chunk d ∧ (rt_required t ≤ placed d S)%nat ∧ ∀ w, w ∈ S → holds t w chunk.

Lemma targeted_kept t t' chunk d : kept t t' → targeted t chunk d → targeted t' chunk d.
Proof. intros [_ Hm Hr _]. unfold targeted. by rewrite Hm, Hr. Qed.
Lemma enough_kept t t' chunk : kept t t' → enough_copies t chunk → enough_copies t' chunk.
Proof.
  intros Hk (S&d&Ht&Hp&HS). exists S, d. split; [by eapply targeted_kept|]. rewrite (kp_required _ _ Hk).
  split; [done|]. intros w Hw. by apply Hk, HS.
Qed.

(** Only copies of [chunk] appear. *)
Definition only_adds (chunk : ChunkId) (t t' : T) : Prop :=
  ∀ w id, holds t' w id → holds t w id ∨ id = chunk.
Lemma only_adds_trans chunk t1 t2 t3 : only_adds chunk t1 t2 → only_adds chunk t2 t3 → only_adds chunk t1 t3.
Proof. intros H1 H2 w id Hh. destruct (H2 _ _ Hh) as [Hh2|]; [|by right]. by apply H1. Qed.

Lemma put_one_effect t c wk data :
  sound t (put_one status_to_string c wk data (hash data)) (λ r t',
    only_adds (hash data) t t' ∧ r ≠ Err OUT_OF_FUEL).
Proof.
  unfold put_one. apply sound_bind; [intros; monotone|]. apply sound_call; [done|].
  intros x w t1 He _ _ _. assert (only_adds (hash data) t t1) by (intros w' id; apply He).
  destruct x as [[]|st]; try (by apply sound_pure).
  - apply sound_bind; [intros; monotone|]. apply sound_pure. unfold ChunkId_try_from. case_bool_decide; [|done].
    by destruct (_ || _ || _); apply sound_pure.
  - apply sound_pure. split; [done|]. intros [= Hst]. by eapply status_fuel.
Qed.

Lemma copy_loop_sound d required data healthy t holders n :
  (∀ w, w ∈ holders → holds t w (hash data)) →
  sound t (copy_loop status_to_string d required (hash data) data healthy holders n) (λ r t',
    (only_adds (hash data) t t' ∧ r ≠ Err OUT_OF_FUEL) ∧
    ∀ x, r = Ok x → ∀ w, w ∈ x.1 → holds t' w (hash data)).
Proof.
  revert t holders n. induction healthy as [|[wk i] healthy IH]; intros t holders n Hh; cbn [copy_loop].
  { apply sound_pure. split; [split; [by left|done]|]. by intros x [= <-]. }
  destruct (required <=? _)%nat; [apply sound_pure; split; [split; [by left|done]|by intros x [= <-]]|].
  destruct (_ || _); [by apply IH|].
  apply sound_bind; [intros; monotone|]. apply sound_pure.
  destruct (rt_clients t !! i) as [c|]; cbn [ok_or]; [|split; [split; [by left|done]|done]].
  apply sound_bind; [intros; monotone|].
  eapply sound_weaken; [apply sound_and; [apply put_one_sound|apply put_one_effect]|].
  intros [[]|e] t1 _ Hk (Hput&Hadd&He); [|split; [split; [done|congruence]|done]].
  eapply sound_weaken; [apply IH|].
  - intros w [->%elem_of_singleton|Hw]%elem_of_union; [by apply Hput|]. by apply Hk, Hh.
  - intros r t2 _ _ [[Hadd2 He2] Hx]. split; [|done]. split; [|done]. by eapply only_adds_trans.
Qed.

Lemma desired_sound t chunk :
  sound t (desired_targets (hash := hash) now chunk) (λ r t',
    (∀ w id, holds t' w id ↔ holds t w id) ∧ r ≠ Err OUT_OF_FUEL ∧ ∀ d, r = Ok d → targeted t' chunk d).
Proof.
  unfold desired_targets, targets. apply sound_bind; [intros; monotone|]. apply sound_bind; [intros; monotone|].
  apply sound_pure. destruct (rt_membership t) as [m|] eqn:Hm.
  2: { apply sound_pure. apply sound_pure. split; [done|]. split; [done|]. intros d [= <-]. unfold targeted. by rewrite Hm. }
  apply sound_bind; [intros; monotone|]. apply sound_pure. apply sound_bind; [intros; monotone|]. apply sound_time.
  apply sound_pure. destruct (select_worker_targets hash m chunk (rt_required t) _) as [workers|e] eqn:Hsel.
  - apply sound_pure. split; [done|]. split; [done|]. intros d [= <-]. unfold targeted. cbn. rewrite Hm. eauto.
  - apply sound_pure. split; [done|]. split; [|done]. intros [= ->]. unfold select_worker_targets in Hsel.
    repeat (case_bool_decide; try done). destruct (spread _ _ _ _); [done|]. by destruct (fill _ _ _).
Qed.

Lemma repair_chunk_sound t healthy chunk holders :
  (∀ w, w ∈ holders → holds t w chunk) →
  sound t (repair_chunk now status_to_string healthy chunk holders) (λ r t',
    (only_adds chunk t t' ∧ r ≠ Err OUT_OF_FUEL) ∧ ∀ n, r = Ok n → enough_copies t' chunk).
Proof.
  intros Hh. unfold repair_chunk. apply sound_bind; [intros; monotone|]. apply sound_pure.
  apply sound_bind; [intros; monotone|]. eapply sound_weaken; [apply desired_sound|].
  intros [d|e] t1 _ Hk1 (Hs1&He1&Hd); [|split; [split; [intros w id; rewrite Hs1; by left|congruence]|done]].
  specialize (Hd _ eq_refl). assert (only_adds chunk t t1) as Ha1 by (intros w id; rewrite Hs1; by left).
  destruct (Nat.leb_spec (rt_required t) (placed d holders)) as [Hle|Hlt].
  { apply sound_pure. split; [done|]. intros n _. exists holders, d. rewrite (kp_required _ _ Hk1).
    split_and!; [done..|]. intros w Hw. by apply Hs1, Hh. }
  apply sound_bind; [intros; monotone|]. apply sound_pure. unfold source_of.
  destruct (first_of holders ≫= _) as [source|]; cbn [ok_or]; [|done].
  apply sound_bind; [intros; monotone|]. apply sound_pure.
  destruct (rt_clients t1 !! source) as [c|]; cbn [ok_or]; [|done].
  apply sound_bind; [intros; monotone|]. apply sound_call; [done|].
  intros x w t2 He Hk2 _ _. cbn in He.
  assert (only_adds chunk t t2) as Ha2 by (intros w' id Hw'; apply Ha1, He, Hw').
  destruct x as [[]|st]; try (by apply sound_pure).
  2: { apply sound_pure. split; [split; [done|]|done]. intros [= Hst]. by eapply status_fuel. }
  destruct (N.eqb_spec (hash data) chunk) as [<-|]; cbn [negb]; [|by apply sound_pure].
  apply sound_bind; [intros; monotone|]. eapply sound_weaken; [apply copy_loop_sound|].
  { intros w' Hw'. by apply Hk2, Hk1, Hh. }
  intros [[holders' n]|e] t3 _ Hk3 [[Ha3 He3] Hx].
  2: { split; [split; [by eapply only_adds_trans|congruence]|done]. }
  assert (only_adds (hash data) t t3) by (by eapply only_adds_trans).
  destruct (Nat.ltb_spec (placed d holders') (rt_required t)); apply sound_pure; [done|]. split; [done|].
  intros n' _. exists holders', d. assert (kept t t3) as Hk by (etrans; [done|]; by etrans).
  rewrite (kp_required _ _ Hk). split_and!; [eapply targeted_kept; [|done]; by etrans|done|]. by apply (Hx _ eq_refl).
Qed.
End copies.

(** ** Copying leaves the cursors alone *)

Definition cursor_kept {W A} (m : txn (RpcThread W) FluxError A) : Prop :=
  ∀ t r t', m t = (r, t') → rt_repair_cursor t' = rt_repair_cursor t.

Section cursors.
Context {hash : bytes → ChunkId} {W : Type} `{!ChunkRpc hash W}.
Context (now : nat → N) (status_to_string : Status → string).
Abbreviation RT := (txn (RpcThread W) FluxError).

Lemma cursor_bind {A B} (m : RT A) (k : A → RT B) : cursor_kept m → (∀ a, cursor_kept (k a)) → cursor_kept (m ≫= k).
Proof.
  intros Hm Hk t r t' [(a&t1&H1&H2)|(e&H1&->)]%txn_bind_inv; [|by eapply Hm]. rewrite <-(Hm _ _ _ H1). by eapply Hk.
Qed.
Lemma cursor_pure {A} (f : RpcThread W → Result A) : cursor_kept (λ t, (f t, t)).
Proof. by intros t r t' [= _ <-]. Qed.
Lemma cursor_call e r : cursor_kept (call e r).
Proof. intros t x t' H. unfold call in H. destruct (rpc e r (rt_net t)). by injection H as <- <-. Qed.
Lemma cursor_time : cursor_kept (W := W) (unix_time_millis now).
Proof. by intros t r t' [= _ <-]. Qed.
End cursors.

Ltac keeps_cursor :=
  repeat match goal with
  | |- cursor_kept (mbind _ _) => apply cursor_bind; [|intros ?]
  | |- cursor_kept (call _ _) => apply cursor_call
  | |- cursor_kept (unix_time_millis _) => apply cursor_time
  | |- cursor_kept (if ?b then _ else _) => destruct b
  | |- cursor_kept (match ?x with _ => _ end) => destruct x
  | |- cursor_kept (_ _) => solve [auto | apply cursor_pure]
  end.

Section passes.
Context {hash : bytes → ChunkId} {W : Type} `{!ChunkRpc hash W}.
Context (now : nat → N) (status_to_string : Status → string).
Abbreviation T := (RpcThread W).
Abbreviation RT := (txn (RpcThread W) FluxError).
Abbreviation fine t := (wn_fine (rt_net t)).
Abbreviation wf t := (wn_wf (rt_net t)).
Abbreviation holds t := (wn_holds (rt_net t)).
Abbreviation enough_copies := (enough_copies now).

Lemma cursor_put_one c wk data id : cursor_kept (put_one status_to_string c wk data id).
Proof. unfold put_one. keeps_cursor. Qed.
Lemma cursor_copy d required id data healthy holders n :
  cursor_kept (copy_loop status_to_string d required id data healthy holders n).
Proof.
  revert holders n. induction healthy as [|[wk i] l IH]; intros holders n; cbn; keeps_cursor. apply cursor_put_one.
Qed.
Lemma cursor_repair_chunk healthy id holders : cursor_kept (repair_chunk now status_to_string healthy id holders).
Proof. unfold repair_chunk, desired_targets, targets. keeps_cursor. apply cursor_copy. Qed.
Lemma cursor_repair_chunks healthy chunks n : cursor_kept (repair_chunks now status_to_string healthy chunks n).
Proof.
  revert n. induction chunks as [|[id holders] l IH]; intros n; [by apply cursor_pure|].
  apply cursor_bind; [apply cursor_repair_chunk|auto].
Qed.

Lemma repair_chunks_sound healthy chunks t n :
  (∀ k h w, (k, h) ∈ chunks → w ∈ h → holds t w k) →
  sound t (repair_chunks now status_to_string healthy chunks n) (λ r t',
    (∀ w id, holds t' w id → holds t w id ∨ id ∈ chunks.*1) ∧ r ≠ Err OUT_OF_FUEL ∧
    ∀ n, r = Ok n → ∀ k, k ∈ chunks.*1 → enough_copies t' k).
Proof.
  revert t n. induction chunks as [|[k h] chunks IH]; intros t n Hh; cbn [repair_chunks].
  { apply sound_pure. split; [by left|]. split; [done|]. by intros _ _ k ?%elem_of_nil. }
  apply sound_bind; [intros; monotone|]. eapply sound_weaken; [apply repair_chunk_sound|].
  { intros w Hw. eapply Hh; [|done]. set_solver. }
  cbn [fmap list_fmap fst]. intros [m|e] t1 _ Hk1 [[Ha He] Hx].
  2: { split_and!; [|congruence|done]. intros w id []%Ha; set_solver. }
  eapply sound_weaken; [apply IH|].
  { intros k' h' w Hin Hw. apply Hk1. eapply Hh; [|done]. set_solver. }
  intros r t2 _ Hk2 (Ha2&He2&Hx2). split_and!; [|done|].
  - intros w id [Hw|Hw]%Ha2; [|set_solver]. apply Ha in Hw. set_solver.
  - intros m' Hr k' [->|Hk']%elem_of_cons; [|by eapply Hx2]. by eapply enough_kept, Hx.
Qed.

(** One pass: every chunk of its page has enough copies. *)
Record passed (ws : list N) (t t' : T) (more : bool) : Prop := {
  ps_placed w k : w ∈ ws → left_over (holds t) (rt_repair_cursor t) w k →
    enough_copies t' k ∨ left_over (holds t') (rt_repair_cursor t') w k ∧ more = true;
  ps_progress : more = true → ∃ w k, holds t w k ∧ w ∈ ws ∧
    after_cursor (rt_repair_cursor t !! w) k = true ∧ after_cursor (rt_repair_cursor t' !! w) k = false
}.
(** Whatever becomes of the pass, no chunk is made up and the cursors only
    move on. *)
Record advanced (t t' : T) : Prop := {
  ad_source w k : holds t' w k → ∃ w', holds t w' k;
  ad_moved : moved_on (rt_repair_cursor t) (rt_repair_cursor t')
}.

Lemma sound_wf {A} t (m : RT A) Q : (wf t → sound t m Q) → sound t m Q.
Proof. intros H Hw. by apply H. Qed.

Lemma sound_cursor {A} t (m : RT A) Q :
  cursor_kept m → sound t m Q → sound t m (λ r t', rt_repair_cursor t' = rt_repair_cursor t ∧ Q r t').
Proof. intros Hc Hm Hw r t' H Hf. destruct (Hm Hw _ _ H Hf) as (?&?&?). eauto. Qed.

Lemma repair_pass_sound t healthy limit :
  cursors_ok (rt_repair_cursor t) →
  sound t (repair_pass_with_health now status_to_string healthy limit) (λ r t',
    advanced t t' ∧ r ≠ Err OUT_OF_FUEL ∧ ∀ report, r = Ok report → passed healthy.*1 t t' (rr_more report)).
Proof.
  intros Hc. apply sound_wf. intros Hw. unfold repair_pass_with_health.
  assert (advanced t t) as Hrefl by (split; [eauto|by split]).
  apply sound_bind; [intros; monotone; [by apply mono_inventory]|]. apply sound_pure.
  destruct (_ <? _)%nat; [by apply sound_pure|].
  destruct (Nat.eqb_spec limit 0) as [|Hlimit]; [by apply sound_pure|].
  apply sound_bind; [intros; monotone|].
  eapply sound_weaken; [eapply (inventory_sound _ rt_repair_cursor set_repair_cursor)|]; try done; [|lia|].
  { intros wk id. by apply wn_width. }
  intros r t1 _ Hk1 (Hs1&Hmo&He1&Hpage). assert (advanced t t1) as Had.
  { split; [|done]. intros w k Hh. exists w. by apply Hs1. }
  destruct r as [page|e]; [|split_and!; [done|congruence|done]]. destruct (Hpage _ eq_refl) as [_ _ Hholders Hheld Hleft _ Hmore Hfull].
  apply sound_bind; [intros; monotone|]. eapply sound_weaken; [apply sound_cursor, repair_chunks_sound|].
  { apply cursor_repair_chunks. }
  { intros k h w Hin Hwh. apply Hs1. by apply (Hholders _ _ _ Hin) in Hwh as [_ [? _]]. }
  intros r t2 _ Hk2 (Hcur&Ha2&He2&Hx2). assert (advanced t t2) as Had2.
  { split; [|by rewrite Hcur]. intros w k [Hh|Hin]%Ha2; [exists w; by apply Hs1|].
    apply list_elem_of_fmap in Hin as ([k' h]&->&Hin). destruct (set_choose_L h (Hheld _ _ Hin)) as [w' Hw'].
    apply (Hholders _ _ _ Hin) in Hw' as [_ [? _]]. by exists w'. }
  destruct r as [n|e]; [|split_and!; [done|congruence|done]].
  apply sound_pure. split_and!; [done..|]. intros report [= <-]. split; cbn [rr_more].
  - intros w k Hws Hl. destruct (decide (k ∈ (ip_chunks page).*1)) as [Hin|Hout]; [left; by apply (Hx2 n)|right].
    assert (left_over (holds t) (rt_repair_cursor t1) w k) as Hl1 by (by apply Hleft).
    split; [|apply Hmore; eauto]. rewrite Hcur. destruct Hl1. split; [|done]. by apply Hk2, Hs1.
  - intros Hm. specialize (Hfull Hm). destruct (ip_chunks page) as [|[k h] l] eqn:Hp; [cbn in Hfull; lia|].
    destruct (set_choose_L h) as [w Hw']; [apply (Hheld k); set_solver|].
    apply (Hholders k h) in Hw' as [Hws Hl]; [|set_solver]. exists w, k. destruct Hl as [Hh Hafter].
    split_and!; [done..|]. rewrite Hcur. apply not_true_is_false. intros Hafter'.
    destruct (proj1 (Hleft w k Hws)) as [_ []]; [by split|]. set_solver.
Qed.

(** ** The whole repair *)

(** How many chunks, counted once for every worker, are behind the cursors. *)
Definition pending (ws : list N) (K : gset ChunkId) (cur : gmap N ChunkId) : nat :=
  sum_list ((λ w, size (filter (λ k, after_cursor (cur !! w) k = true) K)) <$> ws).

Lemma pending_le ws K cur0 cur : moved_on cur0 cur → (pending ws K cur ≤ pending ws K cur0)%nat.
Proof.
  intros [_ Hf]. unfold pending. induction ws as [|w ws IH]; cbn; [done|]. apply Nat.add_le_mono; [|done].
  apply subseteq_size. intros k. rewrite !elem_of_filter. naive_solver.
Qed.
Lemma pending_lt ws K cur0 cur w k :
  moved_on cur0 cur → w ∈ ws → k ∈ K →
  after_cursor (cur0 !! w) k = true → after_cursor (cur !! w) k = false →
  (pending ws K cur < pending ws K cur0)%nat.
Proof.
  intros Hm Hw HK Ht Hf. induction ws as [|w0 ws IH]; [by apply elem_of_nil in Hw|].
  assert (Hle := pending_le ws K _ _ Hm). unfold pending in *. cbn.
  assert (filter (λ k, after_cursor (cur !! w0) k = true) K ⊆ filter (λ k, after_cursor (cur0 !! w0) k = true) K) as Hsub.
  { intros k'. rewrite !elem_of_filter. destruct Hm. naive_solver. }
  apply elem_of_cons in Hw as [<-|Hw].
  - apply Nat.add_lt_le_mono; [|done]. apply subset_size. split; [done|]. intros Hback.
    specialize (Hback k). rewrite !elem_of_filter in Hback. destruct Hback; [done|congruence].
  - apply Nat.add_le_lt_mono; [by apply subseteq_size|auto].
Qed.
Lemma pending_start ws K cur : (pending ws K cur ≤ length ws * size K)%nat.
Proof.
  unfold pending. induction ws as [|w ws IH]; cbn; [done|]. apply Nat.add_le_mono; [|done].
  apply subseteq_size. intros k. rewrite elem_of_filter. tauto.
Qed.

Lemma repair_loop_sound healthy fuel t checked repaired :
  cursors_ok (rt_repair_cursor t) →
  sound t (repair_loop now status_to_string fuel healthy checked repaired) (λ r t',
    (∀ w k, holds t' w k → ∃ w', holds t w' k) ∧
    (∀ K, (∀ w k, holds t w k → k ∈ K) → (pending healthy.*1 K (rt_repair_cursor t) < fuel)%nat →
       r ≠ Err OUT_OF_FUEL) ∧
    ∀ report, r = Ok report → rr_healthy_workers report = healthy.*1 ∧
      ∀ w k, w ∈ healthy.*1 → left_over (holds t) (rt_repair_cursor t) w k → enough_copies t' k).
Proof.
  revert t checked repaired. induction fuel as [|fuel IH]; intros t checked repaired Hc; cbn [repair_loop].
  { apply sound_pure. split_and!; [eauto|lia|done]. }
  apply sound_bind; [intros; monotone; apply mono_repair_loop|]. eapply sound_weaken; [by apply repair_pass_sound|].
  intros [report|e] t1 _ Hk1 ([Hsrc Hmo]&He&Hp); [|split_and!; [done|congruence|done]].
  destruct (Hp _ eq_refl) as [Hplaced Hprog]. destruct (rr_more report) eqn:Hmore.
  2: { apply sound_pure. split_and!; [done..|]. intros rep [= <-]. split; [done|]. intros w k Hw Hl.
       by destruct (Hplaced _ _ Hw Hl) as [|[_ ?]]. }
  eapply sound_weaken; [apply IH, Hmo|]. intros r t' _ Hk' (Hs'&He'&Hr). split_and!.
  - intros w k (w'&Hh)%Hs'. by eapply Hsrc.
  - intros K HK Hlt. apply (He' K); [intros w k (w'&Hh)%Hsrc; by eapply HK|].
    destruct (Hprog eq_refl) as (w&k&Hh&Hw&Hb&Ha).
    assert (pending healthy.*1 K (rt_repair_cursor t1) < pending healthy.*1 K (rt_repair_cursor t))%nat; [|lia].
    eapply pending_lt; eauto.
  - intros rep Hrep. destruct (Hr _ Hrep) as [Hws Hdone]. split; [done|]. intros w k Hw Hl.
    destruct (Hplaced _ _ Hw Hl) as [Hen|[Hl1 _]]; [by eapply enough_kept|eauto].
Qed.

Lemma repair_with_health_sound healthy fuel t :
  sound t (repair_with_health now status_to_string fuel healthy) (λ r t',
    (∀ w k, holds t' w k → ∃ w', holds t w' k) ∧
    (∀ K : gset ChunkId, (∀ w k, holds t w k → k ∈ K) → (length healthy * size K < fuel)%nat → r ≠ Err OUT_OF_FUEL) ∧
    ∀ report, r = Ok report → rr_healthy_workers report = healthy.*1 ∧
      ∀ w k, w ∈ healthy.*1 → holds t w k → enough_copies t' k).
Proof.
  unfold repair_with_health. apply sound_bind; [intros; apply mono_repair_loop|]. apply sound_modify; [done..|].
  eapply sound_weaken; [by apply repair_loop_sound|]. cbn [set_repair_cursor rt_repair_cursor rt_net].
  intros r t' _ _ (Hs&Hf&Hr). split_and!; [done| |].
  - intros K HK Hlt. apply (Hf K HK). assert (Hp := pending_start healthy.*1 K ∅). rewrite length_fmap in Hp. lia.
  - intros report Hrep. destruct (Hr _ Hrep) as [Hws Hdone]. split; [done|]. intros w k Hw Hh. by apply (Hdone w).
Qed.

Lemma healthy_loop_length clients i healthy t h t' :
  healthy_loop i clients healthy t = (Ok h, t') → (length h ≤ length clients + length healthy)%nat.
Proof.
  revert i healthy t. induction clients as [|c clients IH]; intros i healthy t; cbn [healthy_loop].
  { intros [= <- _]. cbn. lia. }
  intros [(x&t1&_&H)|(e&_&[=])]%txn_bind_inv. destruct x as [[]|]; try (apply IH in H; cbn in *; lia).
  destruct ready; cbn [andb] in H; [|apply IH in H; cbn in *; lia].
  destruct (negb _); [done|]. case_bool_decide as Hdup; [done|]. apply IH in H. rewrite am_insert_length in H by done.
  cbn in *. lia.
Qed.

Lemma healthy_loop_fuel clients i healthy t t' : healthy_loop i clients healthy t ≠ (Err OUT_OF_FUEL, t').
Proof.
  revert i healthy t. induction clients as [|c clients IH]; intros i healthy t; cbn [healthy_loop]; [done|].
  intros [(x&t1&_&H)|(e&H&_)]%txn_bind_inv; [|unfold call in H; by destruct (rpc _ _ _)].
  destruct x as [[]|]; try (by eapply IH). destruct ready; cbn [andb] in H; [|by eapply IH].
  destruct (negb _); [done|]. case_bool_decide; [done|]. by eapply IH.
Qed.

(** ** What the commands promise *)

Lemma command_repair_sound fuel t :
  sound t (command_repair now status_to_string fuel) (λ r t',
    (∀ w k, holds t' w k → ∃ w', holds t w' k) ∧
    (∀ K : gset ChunkId, (∀ w k, holds t w k → k ∈ K) → (length (rt_clients t) * size K < fuel)%nat →
       r ≠ Err OUT_OF_FUEL) ∧
    ∀ report, r = Ok report → ∀ w k, w ∈ rr_healthy_workers report → holds t w k → enough_copies t' k).
Proof.
  unfold command_repair. intros Hw r t' H Hf.
  apply txn_bind_inv in H as [(healthy&t1&H1&H2)|(e&H1&->)].
  2: { destruct (healthy_sound t Hw _ _ H1 Hf) as (?&?&Hs&_). split; [done|]. split; [done|].
       split_and!; [intros w k ?%Hs; eauto| |done]. intros K _ _ [= ->].
       by apply (healthy_loop_fuel (rt_clients t) 0 [] t t'). }
  assert (Hlen : (length healthy ≤ length (rt_clients t))%nat).
  { apply (healthy_loop_length (rt_clients t) 0 [] t) in H1. cbn in H1. lia. }
  assert (sound t1 (_ ← modify (set_repair_cursor ∅); report ← repair_with_health now status_to_string fuel healthy;
                    _ ← modify (set_last_healthy (worker_set healthy)); mret report) (λ r t',
    (∀ w k, holds t' w k → ∃ w', holds t1 w' k) ∧
    (∀ K : gset ChunkId, (∀ w k, holds t1 w k → k ∈ K) → (length healthy * size K < fuel)%nat → r ≠ Err OUT_OF_FUEL) ∧
    ∀ report, r = Ok report → ∀ w k, w ∈ rr_healthy_workers report → holds t1 w k → enough_copies t' k)) as Hrest.
  { apply sound_bind; [intros; monotone|]. apply sound_modify; [done..|].
    apply sound_bind; [intros; monotone|]. eapply sound_weaken; [apply repair_with_health_sound|].
    intros [report|e] t2 _ Hk2 (Hs&He&Hr); [|split_and!; [done|intros K HK Hlt; specialize (He K HK Hlt); congruence|done]].
    apply sound_bind; [intros; monotone|]. apply sound_modify; [done..|]. apply sound_pure.
    split_and!; [done..|]. intros report' [= <-]. destruct (Hr _ eq_refl) as [-> Hdone]. done. }
  match type of H2 with ?m t1 = _ => assert (mono m) as Hmono by monotone end.
  assert (fine t1) as Hf1 by (by eapply Hmono).
  destruct (healthy_sound t Hw _ _ H1 Hf1) as (Hw1&Hk1&Hs1&_).
  destruct (Hrest Hw1 _ _ H2 Hf) as (Hw'&Hk'&Hsrc&Hfuel&Hdone). split; [done|]. split; [by etrans|]. split_and!.
  - intros w k (w'&?%Hs1)%Hsrc. eauto.
  - intros K HK Hlt. apply (Hfuel K); [intros w k ?%Hs1; by eapply HK|]. nia.
  - intros report Hrep w k Hin Hh. eapply Hdone; [done..|]. by apply Hs1.
Qed.

(** What appears is a copy of the chunk, or of one that was there. *)
Definition derived (chunk : ChunkId) (t t' : T) : Prop :=
  ∀ w k, holds t' w k → k = chunk ∨ ∃ w', holds t w' k.
Lemma derived_trans chunk t1 t2 t3 : derived chunk t1 t2 → derived chunk t2 t3 → derived chunk t1 t3.
Proof. intros H1 H2 w k [->|(w'&Hh)]%H2; [by left|]. by apply H1 in Hh. Qed.

Lemma put_workers_derived data required selected healthy t durable errors o :
  sound t (put_workers status_to_string data (hash data) required selected healthy durable errors o)
    (λ r t', derived (hash data) t t').
Proof.
  revert t durable errors o. induction healthy as [|[wk i] healthy IH]; intros t durable errors o; cbn [put_workers].
  { apply sound_pure. right. eauto. }
  destruct (negb _); [by apply IH|]. apply sound_bind; [intros; monotone|].
  apply sound_pure. destruct (rt_clients t !! i) as [c|]; cbn [ok_or]; [|by right; eauto].
  apply sound_bind; [intros; monotone|]. apply sound_attempt. eapply sound_weaken; [apply put_one_effect|].
  intros r t1 _ _ [Hadd _]. assert (derived (hash data) t t1) as Hd1 by (intros w k [?| ->]%Hadd; [right; eauto|by left]).
  destruct r as [[]|e]; [case_bool_decide; [by apply sound_pure|]|];
    (eapply sound_weaken; [apply IH|]; intros r t2 _ _ ?; by eapply derived_trans).
Qed.

Lemma refresh_sound b fuel healthy t :
  sound t (when b (_ ← modify (set_repair_cursor ∅);
                   _ ← repair_with_health now status_to_string fuel healthy;
                   modify (set_last_healthy (worker_set healthy))))
    (λ r t', ∀ w k, holds t' w k → ∃ w', holds t w' k).
Proof.
  apply sound_when; [intros _|eauto].
  apply sound_bind; [intros; monotone|]. apply sound_modify; [done..|]. apply sound_bind; [intros; monotone|].
  eapply sound_weaken; [apply repair_with_health_sound|]. intros [report|e] t1 _ _ (Hs&_); [|done].
  by apply sound_modify.
Qed.

Lemma store_sound data healthy t :
  sound t (required ← gets rt_required;
           desired ← desired_targets (hash := hash) now (hash data);
           let selected := default (worker_set healthy) desired in
           '(durable, errors, overloaded) ←
              put_workers status_to_string data (hash data) required selected healthy ∅ [] false;
           if (required <=? size durable)%nat then mret (hash data)
           else if overloaded : bool then throw Busy
           else throw (Io ("remote chunk " +:+ to_hex (hash data) +:+ " reached " +:+ pretty (N.of_nat (size durable))
                  +:+ "/" +:+ pretty (N.of_nat required) +:+ " distinct durable workers: "
                  +:+ String.concat "; " errors)))
    (λ r t', derived (hash data) t t' ∧ ∀ id, r = Ok id → id = hash data ∧ enough_copies t' id).
Proof.
  cbv zeta. apply sound_bind; [intros; monotone|]. apply sound_pure. apply sound_bind; [intros; monotone|].
  eapply sound_weaken; [apply desired_sound|]. intros [d|e] t1 _ Hk1 (Hs1&_&Hd).
  2: { split; [|done]. intros w k ?%Hs1. eauto. }
  specialize (Hd _ eq_refl). assert (derived (hash data) t t1) as Hd1 by (intros w k ?%Hs1; eauto).
  apply sound_bind; [intros; monotone|].
  eapply sound_weaken; [apply sound_and; [by apply put_workers_sound|apply put_workers_derived]|].
  intros [[[durable errors] o]|e] t2 _ Hk2 [Hput Hd2]; [|split; [by eapply derived_trans|done]].
  assert (derived (hash data) t t2) by (by eapply derived_trans). specialize (Hput _ eq_refl). cbn [fst] in Hput.
  destruct (Nat.leb_spec (rt_required t) (size durable)) as [Hle|]; [|by destruct o; apply sound_pure].
  apply sound_pure. split; [done|]. intros id [= <-]. split; [done|]. exists durable, d.
  assert (kept t t2) as Hk by (by etrans). split; [by apply (targeted_kept now t1)|]. rewrite (kp_required _ _ Hk). split.
  - destruct d as [d|]; cbn; [|done]. replace (durable ∩ d) with durable; [done|].
    apply set_eq. intros w. rewrite elem_of_intersection. specialize (Hput w). cbn in Hput. naive_solver.
  - intros w Hw. by apply Hput.
Qed.



(** C25: a full repair ends.  The passes of [Repair] go on while the merged
    inventory has more; with at most [size K] chunks on the workers, after
    as many passes as workers times chunks there is nothing more, whatever
    the network does and although repair adds copies on the way. *)
Theorem repair_terminates fuel (K : gset ChunkId) t r t' :
  wf t → (∀ w k, holds t w k → k ∈ K) → (length (rt_clients t) * size K < fuel)%nat →
  command_repair now status_to_string fuel t = (r, t') → fine t' → r ≠ Err OUT_OF_FUEL.
Proof.
  intros Hw HK Hfuel H Hf. destruct (command_repair_sound fuel t Hw _ _ H Hf) as (_&_&_&Hno&_). by apply (Hno K).
Qed.

(** ** The background scrub *)

Lemma healthy_loop_frame clients i healthy t r t' :
  healthy_loop i clients healthy t = (r, t') → t' = set_net (rt_net t') t.
Proof.
  revert i healthy t. induction clients as [|c clients IH]; intros i healthy t; cbn [healthy_loop].
  { intros [= _ <-]. by destruct t. }
  intros [(x&t1&H1&H)|(e&H&_)]%txn_bind_inv; [|unfold call in H; by destruct (rpc _ _ _)].
  assert (t1 = set_net (rt_net t1) t) as Ht1 by (unfold call in H1; destruct (rpc _ _ _); by injection H1 as _ <-).
  assert (∀ j h, healthy_loop j clients h t1 = (r, t') → t' = set_net (rt_net t') t) as Hrest.
  { intros j h Hj%IH. rewrite Hj, Ht1. done. }
  assert (∀ e : FluxError, (throw e : RT (list (N * nat))) t1 = (r, t') → t' = set_net (rt_net t') t) as Hthrow
    by (by intros e [= _ <-]).
  destruct x as [[]|]; try (by eapply Hrest). destruct (ready && _); [by eapply Hthrow|].
  destruct (ready && _); [by eapply Hthrow|by eapply Hrest].
Qed.

(** A page of the repair when nothing is behind the cursors. *)
Lemma pass_idle healthy limit t :
  cursors_ok (rt_repair_cursor t) → (∀ w k, w ∈ healthy.*1 → ¬ left_over (holds t) (rt_repair_cursor t) w k) →
  sound t (repair_pass_with_health now status_to_string healthy limit) (λ r t', ∀ report, r = Ok report →
    (rr_checked_chunks report = 0%nat ∧ rr_repaired_replicas report = 0%nat ∧ rr_more report = false) ∧
    (∀ w k, holds t' w k ↔ holds t w k) ∧ moved_on (rt_repair_cursor t) (rt_repair_cursor t')).
Proof.
  intros Hc Hnone. apply sound_wf. intros Hw. unfold repair_pass_with_health.
  apply sound_bind; [intros; monotone; [by apply mono_inventory]|]. apply sound_pure.
  destruct (_ <? _)%nat; [by apply sound_pure|].
  destruct (Nat.eqb_spec limit 0) as [|Hlimit]; [by apply sound_pure|]. apply sound_bind; [intros; monotone|].
  eapply sound_weaken; [eapply (inventory_sound _ rt_repair_cursor set_repair_cursor)|]; try done; [|lia|].
  { intros wk id. by apply wn_width. }
  intros [page|e] t2 _ _ (Hs2&Hmo&_&Hpage); [|done]. destruct (Hpage _ eq_refl) as [_ _ Hholders Hheld Hleft _ Hmore _].
  assert (ip_chunks page = []) as Hempty.
  { destruct (ip_chunks page) as [|[k h] l] eqn:Hp; [done|]. destruct (set_choose_L h) as [w Hwh].
    { apply (Hheld k); set_solver. }
    apply (Hholders k h) in Hwh as [Hin Hl]; [|set_solver]. by destruct (Hnone w k). }
  rewrite Hempty. apply sound_bind; [intros; monotone|]. apply sound_pure. apply sound_pure.
  intros report [= <-]. cbn. split_and!; [done|done| |done|apply Hmo..].
  apply not_true_is_false. intros (w&k&Hin&Hl)%Hmore. apply (Hleft w k Hin) in Hl as [Hl _]. by destruct (Hnone w k).
Qed.

(** C28: what the scrub does not do.  While the set of healthy workers stays
    what it was, and once the cursors are past all that these workers hold,
    a page of the scrub checks nothing, copies nothing and reports no more
    work, and the next page finds the same: a copy that goes bad or missing
    later is not noticed by it. *)
Theorem scrub_idle limit t healthy t1 report t' :
  wf t → cursors_ok (rt_repair_cursor t) → healthy_workers t = (Ok healthy, t1) →
  worker_set healthy = rt_last_healthy t →
  (∀ w k, w ∈ healthy.*1 → ¬ left_over (holds t) (rt_repair_cursor t) w k) →
  command_repair_pass now status_to_string limit t = (Ok report, t') → fine t' →
  (rr_checked_chunks report = 0%nat ∧ rr_repaired_replicas report = 0%nat ∧ rr_more report = false) ∧
  (∀ w k, holds t' w k ↔ holds t w k) ∧
  ∀ w k, w ∈ healthy.*1 → ¬ left_over (holds t') (rt_repair_cursor t') w k.
Proof.
  intros Hw Hc H1 Hset Hnone H Hf. assert (Hfr := healthy_loop_frame _ _ _ t _ _ H1).
  assert (rt_last_healthy t1 = rt_last_healthy t ∧ rt_repair_cursor t1 = rt_repair_cursor t) as [Hlh Hcur]
    by (by rewrite Hfr).
  unfold command_repair_pass in H. rewrite (txn_bind_ok _ _ _ _ _ H1) in H. cbv zeta in H.
  rewrite (txn_bind_ok (gets rt_last_healthy) _ t1 (rt_last_healthy t1) t1 eq_refl), Hlh in H.
  rewrite bool_decide_true in H by done. rewrite (txn_bind_ok (when (negb true) _) _ t1 tt t1 eq_refl) in H.
  assert (fine t1) as Hf1 by (eapply mono_pass; [exact H|done]).
  destruct (healthy_sound t Hw _ _ H1 Hf1) as (Hw1&_&Hs1&_).
  assert (∀ w k, left_over (holds t1) (rt_repair_cursor t1) w k ↔ left_over (holds t) (rt_repair_cursor t) w k) as Hl.
  { intros w k. unfold left_over. by rewrite Hs1, Hcur. }
  assert (Hidle : ∀ w k, w ∈ healthy.*1 → ¬ left_over (holds t1) (rt_repair_cursor t1) w k).
  { intros w k Hin ?%Hl. by eapply Hnone. }
  destruct (pass_idle healthy limit t1 (eq_rect_r cursors_ok Hc Hcur) Hidle Hw1 _ _ H Hf) as (_&_&Hr).
  destruct (Hr _ eq_refl) as (?&Hh&[_ Hfw]). split; [done|]. split; [intros w k; by rewrite Hh|].
  intros w k Hin [Hk Ha]. apply (Hidle w k Hin). split; [by apply Hh|by apply Hfw].
Qed.
End passes.

(** ** Three workers, one of which has a chunk *)

#[local] Instance demo_rpc : ChunkRpc toy_hash (Net PackStore (gmap ChunkId bytes)) :=
  net_chunk_rpc (DiskStore0 := pack_disk toy_hash toy_hash_width) (Serde0 := no_details) toy_hash_width mount_request.

Definition demo_thread (last_healthy : gset N) (repair_cursor : gmap N ChunkId) (faults : list Fault) :
    RpcThread (Net PackStore (gmap ChunkId bytes)) :=
  mkRpcThread [mkWorkerRpcClient 3 "a"; mkWorkerRpcClient 4 "b"; mkWorkerRpcClient 5 "c"] None 2
    last_healthy repair_cursor ∅ 0
    (mkNet (<["a" := mkChunkSvc 3 (mkFoyer after_put ∅) 4 4]>
             (<["b" := mkChunkSvc 4 tier 4 4]> (<["c" := mkChunkSvc 5 tier 4 4]> ∅))) faults []).
Definition demo_now (_ : nat) : N := 0.
Definition no_text (_ : Status) : string := "".

Lemma demo_wf h c f : wn_wf (rt_net (demo_thread h c f)).
Proof.
  assert (pack_wf toy_hash after_put) as Hwf.
  { destruct (put_law toy_hash toy_hash_width new_store chunk_a new_store_wf) as (s1&H1&Hwf1&_).
    - by apply (small_room _ _ 1).
    - unfold after_put. by rewrite H1. }
  split; cbn.
  - intros e svc H. repeat (apply lookup_insert_Some in H as [[<- <-]|[_ H]]; [first [exact Hwf|exact new_store_wf]|]).
    by rewrite lookup_empty in H.
  - intros e1 e2 s1 s2 H1 H2.
    repeat (apply lookup_insert_Some in H1 as [[<- <-]|[_ H1]];
      [repeat (apply lookup_insert_Some in H2 as [[<- <-]|[_ H2]]; [done|]); by rewrite lookup_empty in H2|]).
    by rewrite lookup_empty in H1.
Qed.

(** The reply of the first put is lost, two other workers have it. *)
Definition put_run := command_put demo_now no_text 10 chunk_b
  (demo_thread {[3; 4; 5]} ∅ [Deliver; Deliver; Deliver; DropReply UNREACHABLE]).
Definition repair_run := command_repair demo_now no_text 10 (demo_thread ∅ ∅ []).

Lemma demo_holds h c f w k : wn_holds (rt_net (demo_thread h c f)) w k → w = 3 ∧ k = toy_hash chunk_a.
Proof.
  intros (e&svc&H&Hid&Hok). cbn in H.
  apply lookup_insert_Some in H as [[<- <-]|[_ H]]; cbn in Hid, Hok.
  { split; [done|]. destruct (pk_index after_put !! k) as [loc|] eqn:Hi.
    - assert (∃ loc, pk_index after_put = {[toy_hash chunk_a := loc]}) as [loc' Heq] by (eexists; vm_compute; reflexivity).
      rewrite Heq in Hi. by apply lookup_singleton_Some in Hi as [-> _].
    - by rewrite get_unindexed in Hok. }
  repeat (apply lookup_insert_Some in H as [[<- <-]|[_ H]]; [by cbn in Hok; rewrite get_unindexed in Hok|]).
  by rewrite lookup_empty in H.
Qed.

Lemma demo_room l : Forall (λ p, p.1 = new_store ∨ p.1 = after_put) l → Forall (λ p, N.of_nat (length p.2) ≤ U32_MAX) l →
  Forall (λ p : PackStore * bytes, pack_room p.1 p.2) l.
Proof.
  intros Hs Hd. eapply Forall_impl; [apply Forall_and; exact (conj Hs Hd)|].
  intros [s data] [[-> | ->] Hlen]; cbn in *; by apply (small_room _ _ 1).
Qed.

Lemma put_run_fine : wn_fine (rt_net put_run.2).
Proof.
  change (Forall (λ p : PackStore * bytes, pack_room p.1 p.2) (nt_puts (rt_net put_run.2))).
  replace (nt_puts (rt_net put_run.2)) with [(new_store, chunk_b); (new_store, chunk_b); (after_put, chunk_b)]
    by (vm_compute; reflexivity).
  apply demo_room.
  - apply Forall_cons_2; [left; reflexivity|]. apply Forall_cons_2; [left; reflexivity|].
    apply Forall_cons_2; [right; reflexivity|constructor].
  - repeat (apply Forall_cons_2; [vm_compute; discriminate|]). constructor.
Qed.
Lemma repair_run_fine : wn_fine (rt_net repair_run.2).
Proof.
  change (Forall (λ p : PackStore * bytes, pack_room p.1 p.2) (nt_puts (rt_net repair_run.2))).
  replace (nt_puts (rt_net repair_run.2)) with [(new_store, chunk_a)] by (vm_compute; reflexivity).
  apply demo_room; (apply Forall_cons_2; [|constructor]); [left; reflexivity|vm_compute; discriminate].
Qed.



Lemma repair_terminates_witness : repair_run.1 ≠ Err OUT_OF_FUEL.
Proof.
  refine (repair_terminates demo_now no_text 10 {[toy_hash chunk_a]} (demo_thread ∅ ∅ []) repair_run.1 repair_run.2
            _ _ _ _ _).
  - apply demo_wf.
  - intros w k [_ ->]%demo_holds. by apply elem_of_singleton.
  - rewrite size_singleton. cbn. lia.
  - apply surjective_pairing.
  - exact repair_run_fine.
Defined.

(** The chunk has one copy of two, and is behind no cursor. *)
Definition idle_thread := demo_thread {[3; 4; 5]} {[3 := toy_hash chunk_a]} [].
Definition idle_run := command_repair_pass demo_now no_text REPAIR_PAGE_SIZE idle_thread.

Lemma scrub_idle_witness :
  idle_run.1 = Ok (mkRepairReport [3; 4; 5] 0 0 false) ∧
  ∀ w k, wn_holds (rt_net idle_run.2) w k ↔ wn_holds (rt_net idle_thread) w k.
Proof.
  assert (idle_run.1 = Ok (mkRepairReport [3; 4; 5] 0 0 false)) as Hr by (vm_compute; reflexivity).
  split; [exact Hr|].
  refine (proj1 (proj2 (scrub_idle demo_now no_text REPAIR_PAGE_SIZE idle_thread [(3, 0%nat); (4, 1%nat); (5, 2%nat)]
            (healthy_workers idle_thread).2 (mkRepairReport [3; 4; 5] 0 0 false) idle_run.2 _ _ _ _ _ _ _))).
  - apply demo_wf.
  - intros w c. cbn. rewrite lookup_singleton_Some. by intros [_ <-].
  - vm_compute. reflexivity.
  - vm_compute. reflexivity.
  - intros w k _ [[-> ->]%demo_holds Ha]. cbn in Ha. rewrite lookup_singleton_eq in Ha. cbn in Ha.
    by rewrite N.ltb_irrefl in Ha.
  - rewrite <-Hr. apply surjective_pairing.
  - change (Forall (λ p : PackStore * bytes, pack_room p.1 p.2) (nt_puts (rt_net idle_run.2))).
    replace (nt_puts (rt_net idle_run.2)) with (@nil (PackStore * bytes)) by (vm_compute; reflexivity). constructor.
Defined.

Definition page_run :=
  inventory_page_with_holders no_text rt_list_cursor set_list_cursor [(3, 0%nat); (4, 1%nat)] 5 (demo_thread ∅ ∅ []).

Lemma inventory_exact_witness :
  page_run.1 = Ok (mkInventoryPage [(toy_hash chunk_a, {[3]})] false) ∧
  page_exact (wn_holds (rt_net (demo_thread ∅ ∅ []))) 5 [3; 4] ∅ (rt_list_cursor page_run.2)
    (mkInventoryPage [(toy_hash chunk_a, {[3]})] false).
Proof.
  assert (page_run.1 = Ok (mkInventoryPage [(toy_hash chunk_a, {[3]})] false)) as Hr by (vm_compute; reflexivity).
  split; [exact Hr|].
  refine (proj1 (inventory_exact no_text [(3, 0%nat); (4, 1%nat)] 5 (demo_thread ∅ ∅ []) _ page_run.2 _ _ _ _ _)).
  - apply demo_wf.
  - by intros w c.
  - lia.
  - rewrite <-Hr. apply surjective_pairing.
  - change (Forall (λ p : PackStore * bytes, pack_room p.1 p.2) (nt_puts (rt_net page_run.2))).
    replace (nt_puts (rt_net page_run.2)) with (@nil (PackStore * bytes)) by (vm_compute; reflexivity). constructor.
Defined.
