(* ===== verification/ClientData.v ===== *)
(** * What the client's reads and writes mean

    The contents of a file are a function from positions to bytes, given by
    the byte sources of its extent tree.  Reads return slices of it; a write
    and a truncation change it the way POSIX says, provided the stores keep
    their contracts ([ChunkStore], [MetaStore]) and range reads of the pinned
    UFS object are consistent with each other. *)

From S2P Require Import Prelude Types Bytes Extents Keys ChunkStore Ufs MetaDb Namespace InodeData Gc.
From S2P Require Import Ledger Membership MetaStore Client ClientIo Pack.

Local Open Scope N_scope.

(** ** Slices of a function *)

Definition slice (f : N → byte) (off : N) (n : nat) : bytes :=
  (λ i, f (off + N.of_nat i)) <$> seq 0 n.

Lemma length_slice f off n : length (slice f off n) = n.
Proof. unfold slice. by rewrite length_fmap, length_seq. Qed.

Lemma lookup_slice f off n i :
  slice f off n !! i = if decide (i < n)%nat then Some (f (off + N.of_nat i)) else None.
Proof.
  unfold slice. rewrite list_lookup_fmap. case_decide as Hi.
  - by rewrite lookup_seq_lt.
  - by rewrite lookup_seq_ge by lia.
Qed.

Lemma slice_eq f off l :
  (∀ i b, l !! i = Some b → b = f (off + N.of_nat i)) → l = slice f off (length l).
Proof.
  intros H. apply list_eq. intros i. rewrite lookup_slice. case_decide as Hi.
  - destruct (lookup_lt_is_Some_2 l i Hi) as [b Hb]. rewrite Hb. f_equal. eauto.
  - apply lookup_ge_None. lia.
Qed.

Lemma slice_ext f g off n :
  (∀ x, off ≤ x → x < off + N.of_nat n → f x = g x) → slice f off n = slice g off n.
Proof.
  intros H. apply list_eq. intros i. rewrite !lookup_slice. case_decide; [|done].
  f_equal. apply H; lia.
Qed.

Lemma take_drop_slice f off n i m :
  (i + m ≤ n)%nat → take m (drop i (slice f off n)) = slice f (off + N.of_nat i) m.
Proof.
  intros Hi. apply list_eq. intros j. rewrite lookup_slice. case_decide as Hj.
  - rewrite lookup_take_lt, lookup_drop, lookup_slice by done. rewrite decide_True by lia.
    do 2 f_equal. lia.
  - apply lookup_ge_None. rewrite length_take, length_drop, length_slice. lia.
Qed.

Lemma slice_app f o n m : slice f o n ++ slice f (o + N.of_nat n) m = slice f o (n + m).
Proof.
  unfold slice. rewrite seq_app, fmap_app. f_equal.
  replace (seq (0 + n) m) with (Nat.add n <$> seq 0 m) by (rewrite fmap_add_seq; f_equal; lia).
  rewrite <-list_fmap_compose. apply list_fmap_ext. intros. cbn. f_equal. lia.
Qed.

(** ** Splicing and resizing *)

Lemma length_splice start data out :
  (start + length data ≤ length out)%nat → length (splice start data out) = length out.
Proof. intros. unfold splice. rewrite !length_app, length_take, length_drop. lia. Qed.

Lemma lookup_splice start data out i :
  (start + length data ≤ length out)%nat →
  splice start data out !! i =
    if decide (start ≤ i < start + length data)%nat then data !! (i - start)%nat else out !! i.
Proof.
  intros Hlen. unfold splice.
  assert (length (take start out) = start) as Ht by (rewrite length_take; lia).
  destruct (decide (i < start)%nat) as [H1|H1].
  { rewrite lookup_app_l by lia. rewrite lookup_take_lt by lia. by rewrite decide_False by lia. }
  rewrite lookup_app_r by lia. rewrite Ht. case_decide as H2.
  - by rewrite lookup_app_l by lia.
  - rewrite lookup_app_r by lia. rewrite lookup_drop. f_equal. lia.
Qed.

Lemma length_resize n l : length (resize n l) = n.
Proof. unfold resize. rewrite length_app, length_take, length_replicate. lia. Qed.

Lemma lookup_resize n l i :
  (i < n)%nat → resize n l !! i = Some (default zero (l !! i)).
Proof.
  intros Hi. unfold resize. destruct (decide (i < length l)%nat) as [Hl|Hl].
  - rewrite lookup_app_l by (rewrite length_take; lia). rewrite lookup_take_lt by lia.
    by destruct (lookup_lt_is_Some_2 l i Hl) as [b ->].
  - rewrite lookup_app_r by (rewrite length_take; lia). rewrite length_take.
    rewrite lookup_replicate_2 by lia. by rewrite (lookup_ge_None_2 l i) by lia.
Qed.

(** Range reads of a pinned object: a sub-range of a range that can be read
    reads the same bytes. *)
Definition reads_agree (rd : Reader) : Prop :=
  ∀ read key obj off len d,
    rd = Some read → read key obj off len = Ok d → N.of_nat (length d) = len →
    ∀ i n, 0 < n → i + n ≤ len →
    read key obj (off + i) n = Ok (take (N.to_nat n) (drop (N.to_nat i) d)).

Section data.
Context {hash : bytes → ChunkId} {Mt Ct U : Type}.
Context `{!MetaStore Mt, !ChunkStore hash Ct}.
Context (ufs : option (Ufs U)) (us : U).
Abbreviation rd := (reader ufs us).
Context (rd_sub : reads_agree rd).

(** ** Contents *)

(** The byte that a source names. *)
Definition src_byte (k : Ct) (obj : option UfsObject) (b : option ByteSource) : byte :=
  match b with
  | None => zero
  | Some (SrcChunk c a) =>
      match cs_get k c with Ok d => default zero (d !! N.to_nat a) | Err _ => zero end
  | Some (SrcUfs key _ a) =>
      match obj with
      | Some o => match ufs_read_range rd key o a 1 with Ok (b :: _) => b | _ => zero end
      | None => zero
      end
  end.

Definition content (k : Ct) (obj : option UfsObject) (t : ExtentTree) (x : N) : byte :=
  src_byte k obj (source t x).

(** The bytes of a whole extent, when they can be had. *)
Definition ext_data (k : Ct) (obj : option UfsObject) (e : Extent) (d : bytes) : Prop :=
  N.of_nat (length d) = ext_len e ∧
  match e with
  | Local _ _ chunk => cs_get k chunk = Ok d
  | UfsRange _ len key _ base =>
      base + len ≤ U64_MAX ∧ ∃ o, obj = Some o ∧ ufs_read_range rd key o base len = Ok d
  end.

Definition readable (k : Ct) (obj : option UfsObject) (t : ExtentTree) : Prop :=
  ∀ e, e ∈ iter t → ∃ d, ext_data k obj e d.

Lemma ufs_range_sub key o off len d i n :
  ufs_read_range rd key o off len = Ok d → N.of_nat (length d) = len → 0 < n → i + n ≤ len →
  ufs_read_range rd key o (off + i) n = Ok (take (N.to_nat n) (drop (N.to_nat i) d)).
Proof.
  unfold ufs_read_range. destruct rd as [read|] eqn:Hrd; [|done]. cbn. intros. by eapply rd_sub.
Qed.

Lemma ext_data_byte k obj e d x b :
  ext_data k obj e d → ext_covers e x → d !! N.to_nat (x - ext_offset e) = Some b →
  src_byte k obj (Some (ext_source e x)) = b.
Proof.
  intros [Hlen Hd] [H1 H2] Hb. destruct e as [o l c|o l key ver base]; cbn in *.
  - by rewrite Hd, Hb.
  - destruct Hd as (_&ob&->&Hd).
    rewrite (ufs_range_sub key ob base l d (x - o) 1 Hd) by lia.
    apply lookup_lt_Some in Hb as Hlt. by rewrite (drop_S _ b) by done.
Qed.

Lemma extent_bytes_ok k inode e d i n :
  ext_data k (i_ufs inode) e d → 0 < n → i + n ≤ ext_len e →
  extent_bytes rd k inode e i n = Ok (take (N.to_nat n) (drop (N.to_nat i) d)).
Proof.
  intros [Hlen Hd] Hn Hi. destruct e as [o l c|o l key ver base]; cbn in *.
  - rewrite Hd. cbn. by rewrite Hlen, N.eqb_refl.
  - destruct Hd as (Hb&ob&->&Hd). cbn. rewrite sat_add_small by lia.
    by apply (ufs_range_sub key ob base l).
Qed.

Lemma read_extent_ok k inode offset end_ e d output :
  ext_data k (i_ufs inode) e d → ext_offset e + ext_len e ≤ U64_MAX →
  N.of_nat (length output) = end_ - offset → offset ≤ end_ →
  ∃ out, read_extent rd k inode offset end_ e output = Ok out ∧
    length out = length output ∧
    ∀ x, offset ≤ x → x < end_ →
      out !! N.to_nat (x - offset) =
        if decide (ext_covers e x) then Some (src_byte k (i_ufs inode) (Some (ext_source e x)))
        else output !! N.to_nat (x - offset).
Proof.
  intros Hd Hb Hout Hoe. pose proof (proj1 Hd) as Hlen. unfold read_extent. cbv zeta.
  rewrite sat_add_small by done.
  destruct (N.leb_spec (N.min end_ (ext_offset e + ext_len e)) (N.max offset (ext_offset e))) as [Hno|Hov].
  { exists output. split_and!; [done..|]. intros x Hx1 Hx2. rewrite decide_False; [done|].
    unfold ext_covers. lia. }
  set (os := N.max offset (ext_offset e)) in *.
  set (oe := N.min end_ (ext_offset e + ext_len e)) in *.
  rewrite (extent_bytes_ok _ _ _ d) by (done || lia). cbn [mbind result_bind].
  set (piece := take _ _). assert (N.of_nat (length piece) = oe - os) as Hp.
  { unfold piece. rewrite length_take, length_drop. lia. }
  rewrite Hp, N.eqb_refl. cbn [negb]. eexists. split; [done|].
  split; [apply length_splice; lia|]. intros x Hx1 Hx2. rewrite lookup_splice by lia.
  destruct (decide (ext_covers e x)) as [Hc|Hc]; unfold ext_covers in Hc.
  - rewrite decide_True by lia.
    assert (is_Some (piece !! (N.to_nat (x - offset) - N.to_nat (os - offset))%nat)) as [b Hb']
      by (apply lookup_lt_is_Some; lia).
    rewrite Hb'. f_equal. symmetry. eapply ext_data_byte; [done|done|].
    unfold piece in Hb'. rewrite lookup_take_lt, lookup_drop in Hb' by lia.
    rewrite <-Hb'. f_equal. lia.
  - by rewrite decide_False by lia.
Qed.

Lemma read_extents_ok lo k inode offset end_ t output :
  wf_from lo t → readable k (i_ufs inode) t →
  N.of_nat (length output) = end_ - offset → offset ≤ end_ →
  ∃ out, read_extents rd k inode offset end_ (iter t) output = Ok out ∧
    length out = length output ∧
    ∀ x, offset ≤ x → x < end_ →
      out !! N.to_nat (x - offset) =
        match source t x with
        | Some b => Some (src_byte k (i_ufs inode) (Some b))
        | None => output !! N.to_nat (x - offset)
        end.
Proof.
  revert lo output. induction t as [|[key e] t IH]; intros lo output Hwf Hr Hlen Hoe.
  { exists output. by split_and!. }
  destruct Hwf as (->&_&Hpos&Hmax&Hwf). destruct (Hr e) as [d Hd]; [left|].
  destruct (read_extent_ok k inode offset end_ e d output) as (out1&H1&L1&G1); [done..|].
  destruct (IH (ext_offset e + ext_len e) out1) as (out&H2&L2&G2); [done| |lia|done|].
  { intros e' He'. apply Hr. by right. }
  exists out. split.
  { change (iter ((ext_offset e, e) :: t)) with (e :: iter t). cbn [read_extents]. by rewrite H1. } split; [lia|].
  intros x Hx1 Hx2. rewrite G2, G1, source_cons by done. case_decide as Hc; [|done].
  assert (source t x = None) as ->; [|done]. apply source_None. intros k' e' Hin Hc'.
  apply (wf_from_In _ _ _ _ Hwf) in Hin. unfold ext_covers in *. lia.
Qed.

(** ** Well-formed files *)

(** A regular file whose tree is well formed, lies within the file's size,
    has its chunks at window boundaries, and can be read. *)
Record file_wf (k : Ct) (inode : Inode) (t : ExtentTree) : Prop := {
  fw_type : i_file_type inode = Regular;
  fw_tree : et_wf t;
  fw_u64 : i_size inode ≤ U64_MAX;
  fw_within : ∀ e, e ∈ iter t → ext_offset e + ext_len e ≤ i_size inode;
  fw_aligned : ∀ o l c, Local o l c ∈ iter t → o mod CHUNK_SIZE = 0 ∧ l ≤ CHUNK_SIZE;
  fw_readable : readable k (i_ufs inode) t
}.

(** The same of an inode with the manifest it points to. *)
Record file_ok (m : Mt) (k : Ct) (inode : Inode) (man : Manifest) : Prop := {
  fo_manifest : current_manifest m inode = Ok man;
  fo_wf : file_wf k inode (m_extents man);
  fo_empty : i_manifest_id inode = None → i_size inode = 0
}.

Abbreviation file_content k inode man := (content k (i_ufs inode) (m_extents man)).

Lemma source_within k inode t x :
  file_wf k inode t → i_size inode ≤ x → source t x = None.
Proof.
  intros Hw Hx. apply source_None. intros key e Hin [_ Hc].
  assert (ext_offset e + ext_len e ≤ i_size inode); [|lia].
  apply (fw_within _ _ _ Hw). apply list_elem_of_fmap. by exists (key, e).
Qed.

Lemma readable_bounds k obj t : readable k obj t → object_bounds t.
Proof.
  intros Hr. apply Forall_forall. intros [key e] Hin.
  destruct (Hr e) as [d [_ Hd]]; [apply list_elem_of_fmap; by exists (key, e)|].
  destruct e; cbn; [done|]. apply Hd.
Qed.

Lemma read_range_ok m k inode man offset len :
  file_ok m k inode man → 0 < len → offset < i_size inode →
  read_inode_range rd m k inode offset len =
    Ok (slice (file_content k inode man) offset
          (N.to_nat (N.min (offset + len) (i_size inode) - offset))).
Proof.
  intros [Hm Hw He] Hlen Hoff. unfold read_inode_range.
  rewrite bool_decide_false by (rewrite (fw_type _ _ _ Hw); naive_solver).
  unfold current_manifest in Hm. destruct (i_manifest_id inode) as [mid|]; [|rewrite He in Hoff by done; lia].
  rewrite (proj2 (N.eqb_neq len 0)) by lia. rewrite (proj2 (N.leb_gt _ _)) by lia. cbn [orb].
  rewrite Hm. cbn [mbind result_bind].
  assert (N.min (sat_add offset len) (i_size inode) = N.min (offset + len) (i_size inode)) as ->.
  { unfold sat_add_w. pose proof (fw_u64 _ _ _ Hw). lia. }
  set (end_ := N.min (offset + len) (i_size inode)).
  destruct (read_extents_ok 0 k inode offset end_ (m_extents man)
              (replicate (N.to_nat (end_ - offset)) zero)) as (out&->&Hl&Hx);
    [apply Hw|apply Hw|rewrite length_replicate; lia|lia|].
  f_equal. rewrite length_replicate in Hl. rewrite <-Hl. apply slice_eq. intros i b Hb.
  assert (i < length out)%nat as Hi by (by eapply lookup_lt_Some).
  specialize (Hx (offset + N.of_nat i)). replace (N.to_nat (offset + N.of_nat i - offset)) with i in Hx by lia.
  rewrite Hb in Hx. unfold content.
  destruct (source (m_extents man) (offset + N.of_nat i)); specialize (Hx ltac:(lia) ltac:(lia)).
  - by injection Hx.
  - rewrite lookup_replicate_2 in Hx by lia. by injection Hx.
Qed.

(** ** Staging a write *)

(** The contents after a write. *)
Definition written (old : N → byte) (offset : N) (data : bytes) (x : N) : byte :=
  if decide (offset ≤ x ∧ x < offset + N.of_nat (length data))
  then default zero (data !! N.to_nat (x - offset)) else old x.

Lemma content_beyond k inode man x :
  file_wf k inode (m_extents man) → i_size inode ≤ x → file_content k inode man x = zero.
Proof. intros Hw Hx. unfold content. by rewrite (source_within k inode). Qed.

Lemma old_window m k inode man ws we :
  file_ok m k inode man →
  ∃ old, (if ws <? N.min we (i_size inode)
          then read_inode_range rd m k inode ws (N.min we (i_size inode) - ws) else Ok []) = Ok old ∧
    ∀ x, ws ≤ x → x < we → default zero (old !! N.to_nat (x - ws)) = file_content k inode man x.
Proof.
  intros Hf. destruct (N.ltb_spec ws (N.min we (i_size inode))) as [Hlt|Hge].
  - eexists. split; [by apply read_range_ok; [done|lia..]|]. intros x Hx1 Hx2.
    rewrite lookup_slice. case_decide.
    + cbn. f_equal. lia.
    + symmetry. apply content_beyond; [apply Hf|]. lia.
  - eexists. split; [done|]. intros x Hx1 Hx2. symmetry. apply content_beyond; [apply Hf|]. lia.
Qed.

Lemma window_bytes_ok m k inode man offset data ws we :
  let end_ := offset + N.of_nat (length data) in
  file_ok m k inode man → offset ≤ we → ws ≤ end_ → ws ≤ we →
  window_bytes rd m k inode offset data end_ ws we =
    Ok (slice (written (file_content k inode man) offset data) ws (N.to_nat (we - ws))).
Proof.
  intros end_ Hf H1 H2 H3. unfold window_bytes.
  destruct (old_window m k inode man ws we Hf) as (old&->&Hold). cbn [mbind result_bind]. f_equal.
  set (os := N.max offset ws). set (oe := N.min end_ we). set (src := take _ _).
  assert (length src = N.to_nat (oe - os)) as Hsrc.
  { unfold src. rewrite length_take, length_drop. lia. }
  set (b := splice _ _ _). assert (length b = N.to_nat (we - ws)) as Hb.
  { unfold b. rewrite length_splice; rewrite length_resize; lia. }
  rewrite <-Hb. apply slice_eq. intros i y Hy. assert (i < length b)%nat as Hi by (by eapply lookup_lt_Some).
  unfold b in Hy. rewrite lookup_splice in Hy by (rewrite length_resize; lia).
  unfold written. destruct (decide (offset ≤ ws + N.of_nat i ∧ ws + N.of_nat i < _)) as [Hc|Hc].
  - rewrite decide_True in Hy by lia. unfold src in Hy.
    rewrite lookup_take_lt, lookup_drop in Hy by lia.
    replace (N.to_nat (ws + N.of_nat i - offset)) with
      (N.to_nat (os - offset) + (i - N.to_nat (os - ws)))%nat by lia. by rewrite Hy.
  - rewrite decide_False in Hy by lia. rewrite lookup_resize in Hy by lia.
    injection Hy as <-. rewrite <-(Hold (ws + N.of_nat i)) by lia. do 2 f_equal. lia.
Qed.

(** The tree after windows have been replaced. *)
Definition in_window (windows : list N) (new_size x : N) : Prop :=
  x / CHUNK_SIZE ∈ windows ∧ x < new_size.
#[local] Instance in_window_dec ws n x : Decision (in_window ws n x).
Proof. unfold in_window. apply _. Defined.

Definition window_end (new_size w : N) : N := N.min (w * CHUNK_SIZE + CHUNK_SIZE) new_size.

Definition window_data (f : N → byte) (new_size w : N) : bytes :=
  slice f (w * CHUNK_SIZE) (N.to_nat (window_end new_size w - w * CHUNK_SIZE)).

(** A tree of which every chunk sits at a window boundary below [size]. *)
Record staged_tree (size : N) (t : ExtentTree) : Prop := {
  stt_wf : et_wf t;
  stt_bounds : object_bounds t;
  stt_within : ∀ e, e ∈ iter t → ext_offset e + ext_len e ≤ size;
  stt_aligned : ∀ o l c, Local o l c ∈ iter t → o mod CHUNK_SIZE = 0 ∧ l ≤ CHUNK_SIZE
}.

Lemma file_staged k inode t size :
  file_wf k inode t → i_size inode ≤ size → staged_tree size t.
Proof.
  intros Hw Hs. split; [apply Hw| | |apply Hw].
  - eapply readable_bounds, Hw.
  - intros e He. apply (fw_within _ _ _ Hw) in He. lia.
Qed.

(** A part of a UFS range. *)
Inductive piece_of : Extent → Extent → Prop :=
  | piece o l key ver base i l' :
      0 < l' → i + l' ≤ l →
      piece_of (UfsRange o l key ver base) (UfsRange (o + i) l' key ver (wrap_add base i)).

Lemma elem_of_cut_ext s end_ t kv :
  object_bounds t → kv ∈ cut s end_ t → ∃ e, e ∈ iter t ∧ (kv.2 = e ∨ piece_of e kv.2).
Proof.
  unfold cut. intros Hb ([k e]&Hkv&Hin)%list_elem_of_bind.
  exists e. split; [apply list_elem_of_fmap; by exists (k, e)|].
  unfold cut_one in Hkv. case_decide as Hov.
  2: { apply list_elem_of_singleton in Hkv as ->. by left. }
  destruct e as [o l c|o l key ver base]; [by apply elem_of_nil in Hkv|].
  unfold overlaps in Hov. cbn in Hov. right.
  assert (base + l ≤ U64_MAX) as Hbl.
  { unfold object_bounds in Hb. rewrite Forall_forall in Hb. apply (Hb _ Hin). }
  apply elem_of_app in Hkv as [Hkv|Hkv]; (case_match eqn:Hlt; [|by apply elem_of_nil in Hkv]);
    apply list_elem_of_singleton in Hkv as ->; cbn [snd]; bools.
  - pose proof (piece o l key ver base 0 (s - o)) as Hp.
    rewrite N.add_0_r, wrap_add_0 in Hp by lia. apply Hp; lia.
  - pose proof (piece o l key ver base (end_ - o) (o + l - end_)) as Hp.
    replace (o + (end_ - o)) with end_ in Hp by lia. apply Hp; lia.
Qed.

Lemma mod_eq_mul o : o mod CHUNK_SIZE = 0 → o = o / CHUNK_SIZE * CHUNK_SIZE.
Proof. intros H. pose proof (N.div_mod o CHUNK_SIZE ltac:(done)). lia. Qed.

Lemma window_div w x :
  w * CHUNK_SIZE ≤ x → x < w * CHUNK_SIZE + CHUNK_SIZE → x / CHUNK_SIZE = w.
Proof.
  intros. symmetry. apply (N.div_unique x CHUNK_SIZE w (x - w * CHUNK_SIZE)); [lia|].
  rewrite (N.mul_comm CHUNK_SIZE w). lia.
Qed.

Lemma window_bounds x :
  x / CHUNK_SIZE * CHUNK_SIZE ≤ x ∧ x < x / CHUNK_SIZE * CHUNK_SIZE + CHUNK_SIZE.
Proof.
  pose proof (N.div_mod x CHUNK_SIZE ltac:(done)) as H1. rewrite N.mul_comm in H1.
  pose proof (N.mod_lt x CHUNK_SIZE ltac:(done)) as H2.
  revert H1 H2. generalize (x / CHUNK_SIZE * CHUNK_SIZE), (x mod CHUNK_SIZE). lia.
Qed.

(** Replacing one window.  [P] is any property of extents that their parts
    inherit. *)
Lemma replace_window (P : Extent → Prop) size man w chunk gen :
  let e := Local (w * CHUNK_SIZE) (window_end size w - w * CHUNK_SIZE) chunk in
  staged_tree size (m_extents man) → w * CHUNK_SIZE < size →
  w * CHUNK_SIZE + CHUNK_SIZE ≤ U64_MAX →
  (∀ x y, piece_of x y → P x → P y) → (∀ x, x ∈ iter (m_extents man) → P x) → P e →
  ∃ man', replace_range man e gen = Ok man' ∧ staged_tree size (m_extents man') ∧
    m_inode man' = m_inode man ∧ (∀ x, x ∈ iter (m_extents man') → P x) ∧
    (∀ x, source (m_extents man') x =
       if decide (in_window [w] size x) then Some (SrcChunk chunk (x - w * CHUNK_SIZE))
       else source (m_extents man) x).
Proof.
  intros e Hst Hw Hmax Hpiece HP He. unfold window_end in *.
  set (we := N.min (w * CHUNK_SIZE + CHUNK_SIZE) size) in *.
  assert (w * CHUNK_SIZE < we ∧ we ≤ U64_MAX ∧ we ≤ size ∧ we ≤ w * CHUNK_SIZE + CHUNK_SIZE) as (H1&H2&H3&H4).
  { unfold we. assert (0 < CHUNK_SIZE) by done. lia. }
  destruct (replace_range_ok man e gen) as (t&Hrep&Hwf&Hel&Hsrc).
  { apply Hst. } { apply Hst. } { cbn. lia. } { cbn. lia. }
  { apply Forall_forall. intros x Hx Hp. destruct x as [o l c|]; [|done].
    destruct Hp as [[Ho1 Ho2] Hno]. cbn in *.
    destruct (stt_aligned _ _ Hst _ _ _ Hx) as [Hmod Hl]. apply mod_eq_mul in Hmod.
    pose proof (stt_within _ _ Hst _ Hx) as Hin. cbn in Hin. apply Hno.
    assert (o / CHUNK_SIZE = w) as Hq.
    { revert Hmod. generalize (o / CHUNK_SIZE). unfold CHUNK_SIZE in *. lia. }
    subst w. unfold we. lia. }
  eexists. split; [exact Hrep|]. cbn [m_extents m_inode].
  assert (∀ x, x ∈ iter t → x = e ∨ ∃ y, y ∈ iter (m_extents man) ∧ (x = y ∨ piece_of y x)) as Hiter.
  { intros x (kv&->&[->|Hkv]%Hel)%list_elem_of_fmap; [by left|]. right.
    eapply elem_of_cut_ext; [apply Hst|done]. }
  split_and!; [split|done| |].
  - done.
  - apply Forall_forall. intros [k x] Hx.
    assert (x ∈ iter t) as Hx' by (apply list_elem_of_fmap; by exists (k, x)).
    destruct (Hiter x Hx') as [->|(y&Hy&[->|Hp])]; [done| |].
    + apply list_elem_of_fmap in Hy as ([k' y']&->&Hy). pose proof (stt_bounds _ _ Hst) as Hob.
      unfold object_bounds in Hob. rewrite Forall_forall in Hob. apply (Hob _ Hy).
    + apply list_elem_of_fmap in Hy as ([k' y']&->&Hy). pose proof (stt_bounds _ _ Hst) as Hob.
      unfold object_bounds in Hob. rewrite Forall_forall in Hob. specialize (Hob _ Hy). cbn in Hob, Hp.
      destruct Hp. cbn. rewrite wrap_add_small by lia. lia.
  - intros x Hx. destruct (Hiter x Hx) as [->|(y&Hy&[->|Hp])].
    + cbn. lia.
    + by apply (stt_within _ _ Hst).
    + apply (stt_within _ _ Hst) in Hy. destruct Hp. cbn in *. lia.
  - intros o l c Hx. destruct (Hiter _ Hx) as [[= -> -> ->]|(y&Hy&[<-|Hp])].
    + split; [|lia]. apply N.Div0.mod_mul.
    + by apply (stt_aligned _ _ Hst) in Hy.
    + inversion Hp.
  - intros x Hx. destruct (Hiter _ Hx) as [->|(y&Hy&[->|Hp])]; eauto.
  - intros x. rewrite Hsrc. cbn [ext_source].
    assert (ext_covers e x ↔ in_window [w] size x) as Hiff.
    { unfold ext_covers, in_window. cbn [ext_offset ext_len e]. rewrite list_elem_of_singleton. split.
      - intros [Hx1 Hx2]. split; [apply window_div; lia|lia].
      - intros [<- Hx2]. pose proof (window_bounds x). unfold we. lia. }
    destruct (decide (ext_covers e x)), (decide (in_window [w] size x)); tauto.
Qed.

(** The touched windows. *)
Definition touched (offset end_ w : N) : Prop :=
  offset < w * CHUNK_SIZE + CHUNK_SIZE ∧ w * CHUNK_SIZE < end_.

Lemma elem_of_windows offset end_ w :
  offset < end_ → w ∈ windows_of offset end_ ↔ touched offset end_ w.
Proof.
  intros Hlt. unfold windows_of, touched. rewrite list_elem_of_fmap.
  pose proof (window_bounds offset) as [H1 H2]. pose proof (window_bounds (end_ - 1)) as [H3 H4].
  revert H1 H2 H3 H4. generalize (offset / CHUNK_SIZE), ((end_ - 1) / CHUNK_SIZE).
  intros f l H1 H2 H3 H4. unfold CHUNK_SIZE in *. split.
  - intros (i&->&Hi%elem_of_seq). lia.
  - intros [H5 H6]. exists (N.to_nat (w - f)). rewrite elem_of_seq. lia.
Qed.

Definition staged_of (f : N → byte) (new_size : N) (windows : list N) : list (ChunkId * bytes) :=
  (λ w, (hash (window_data f new_size w), window_data f new_size w)) <$> windows.

Lemma stage_ok (P : Extent → Prop) m k inode man offset data gen windows man0 :
  let end_ := offset + N.of_nat (length data) in
  let new_size := N.max (i_size inode) end_ in
  let f := written (file_content k inode man) offset data in
  file_ok m k inode man → staged_tree new_size (m_extents man0) →
  (∀ w, w ∈ windows → touched offset end_ w ∧ w * CHUNK_SIZE + CHUNK_SIZE ≤ U64_MAX) →
  (∀ x y, piece_of x y → P x → P y) → (∀ x, x ∈ iter (m_extents man0) → P x) →
  (∀ w, w ∈ windows → P (Local (w * CHUNK_SIZE) (window_end new_size w - w * CHUNK_SIZE)
                              (hash (window_data f new_size w)))) →
  ∃ man', stage_windows rd m k inode offset data end_ new_size gen windows man0 =
            Ok (man', staged_of f new_size windows) ∧
    staged_tree new_size (m_extents man') ∧ m_inode man' = m_inode man0 ∧
    (∀ x, x ∈ iter (m_extents man') → P x) ∧
    (∀ x, source (m_extents man') x =
       if decide (in_window windows new_size x)
       then Some (SrcChunk (hash (window_data f new_size (x / CHUNK_SIZE))) (x - x / CHUNK_SIZE * CHUNK_SIZE))
       else source (m_extents man0) x).
Proof.
  intros end_ new_size f Hf. revert man0.
  induction windows as [|w windows IH]; intros man0 Hst Hwin Hpiece HP HPw.
  { exists man0. by split_and!. }
  destruct (Hwin w) as [[Ht1 Ht2] Hmax]; [left|].
  destruct (replace_window P new_size man0 w (hash (window_data f new_size w)) gen)
    as (man1&Hrep&Hst1&Hino1&HP1&Hsrc1); [done|lia|done|done|done|apply HPw; left|].
  destruct (IH man1) as (man'&Hstage&Hst'&Hino'&HP'&Hsrc'); [done| |done|done| |].
  { intros w' ?. apply Hwin. by right. }
  { intros w' ?. apply HPw. by right. }
  exists man'. split_and!; [|done|congruence|done|].
  - cbn [stage_windows]. rewrite (proj2 (N.leb_le _ _)) by lia. cbn [ok_or mbind result_bind].
    rewrite (proj2 (checked_add_Some _ _ _ _)) by done. cbn [ok_or mbind result_bind].
    fold (window_end new_size w).
    pose proof (window_bytes_ok m k inode man offset data (w * CHUNK_SIZE) (window_end new_size w)) as Hwb.
    cbv zeta in Hwb. fold end_ f (window_data f new_size w) in Hwb.
    rewrite Hwb by (done || unfold window_end; lia). cbn [mbind result_bind].
    rewrite Hrep. cbn [mbind result_bind]. by rewrite Hstage.
  - intros x. rewrite Hsrc', Hsrc1.
    assert (in_window (w :: windows) new_size x ↔
            in_window windows new_size x ∨ in_window [w] new_size x) as Hiff.
    { unfold in_window. rewrite list_elem_of_singleton, elem_of_cons. tauto. }
    destruct (decide (in_window (w :: windows) new_size x)), (decide (in_window windows new_size x)),
      (decide (in_window [w] new_size x)) as [Hw|]; try done; try tauto.
    destruct Hw as [Hw%list_elem_of_singleton _]. by rewrite Hw.
Qed.

(** ** Publishing *)

(** The store has room for a sequence of chunks. *)
Fixpoint put_room (k : Ct) (l : list bytes) : Prop :=
  match l with
  | [] => True
  | b :: l => cs_room k b ∧ ∀ k', cs_put b k = (Ok (hash b), k') → put_room k' l
  end.

(** No two different chunks among [D] have the same content id, and the store
    holds only chunks of [D]. *)
Definition collision_free (D : bytes → Prop) (k : Ct) : Prop :=
  (∀ a b, D a → D b → hash a = hash b → a = b) ∧ (∀ id d, cs_get k id = Ok d → D d).

Lemma put_step D k b :
  cs_wf k → cs_room k b → collision_free D k → D b →
  ∃ k', cs_put b k = (Ok (hash b), k') ∧ cs_wf k' ∧ collision_free D k' ∧
    cs_get k' (hash b) = Ok b ∧ ∀ id d, cs_get k id = Ok d → cs_get k' id = Ok d.
Proof.
  intros Hwf Hroom [Hinj HD] Hb.
  destruct (cs_put_law k b Hwf Hroom) as (k'&Hput&Hwf'&Hget&Hold). exists k'.
  assert (∀ id d, cs_get k id = Ok d → cs_get k' id = Ok d) as Hkeep.
  { intros id d Hd. destruct (decide (id = hash b)) as [->|]; [|by rewrite Hold].
    rewrite Hget. f_equal. apply Hinj; [done|by eapply HD|].
    symmetry. exact (cs_get_law k _ _ Hwf Hd). }
  split_and!; try done. split; [done|]. intros id d Hd.
  destruct (decide (id = hash b)) as [->|]; [congruence|]. rewrite Hold in Hd by done. by eapply HD.
Qed.

Lemma put_staged_ok D (c : FluxClient Mt Ct U) staged :
  cs_wf (fc_chunks c) → put_room (fc_chunks c) (staged.*2) → collision_free D (fc_chunks c) →
  (∀ eb, eb ∈ staged → eb.1 = hash eb.2 ∧ D eb.2) →
  ∃ k', put_staged staged c = (Ok tt, set_chunks k' c) ∧ cs_wf k' ∧ collision_free D k' ∧
    (∀ eb, eb ∈ staged → cs_get k' eb.1 = Ok eb.2) ∧
    (∀ id d, cs_get (fc_chunks c) id = Ok d → cs_get k' id = Ok d).
Proof.
  revert c. induction staged as [|[e b] staged IH]; intros c Hwf Hroom HD Hst.
  { exists (fc_chunks c). split_and!; try done; [by destruct c|]. intros eb H. by apply elem_of_nil in H. }
  destruct (Hst (e, b)) as [He Hb]; [left|]. cbn in He, Hb. subst e.
  destruct Hroom as [Hr Hrest]. destruct (put_step D (fc_chunks c) b) as (k1&Hput&Hwf1&HD1&Hg1&Hk1); [done..|].
  destruct (IH (set_chunks k1 c)) as (k'&Hps&Hwf'&HD'&Hgs&Hks); [done|by apply Hrest|done| |].
  { intros eb ?. apply Hst. by right. }
  exists k'. split_and!; try done.
  - unfold put_staged in *. cbn [for_each]. erewrite txn_bind_ok; [exact Hps|].
    erewrite txn_bind_ok by (unfold on_chunks; cbn [snd]; by rewrite Hput).
    cbn [fst]. by rewrite N.eqb_refl.
  - intros eb [->|Hin]%elem_of_cons; [cbn; auto|auto].
  - auto.
Qed.

Lemma or_abort_ok {A} ticket (x : txn (FluxClient Mt Ct U) FluxError A) c a c' :
  or_abort ticket x c = (Ok a, c') → x c = (Ok a, c').
Proof. unfold or_abort. by destruct (x c) as [[]]. Qed.

Lemma commit_staged_ok D ticket op_id g inode man staged (c : FluxClient Mt Ct U) i' c' :
  commit_staged_manifest ticket op_id g inode man staged c = (Ok i', c') →
  cs_wf (fc_chunks c) → put_room (fc_chunks c) (staged.*2) → collision_free D (fc_chunks c) →
  (∀ eb, eb ∈ staged → eb.1 = hash eb.2 ∧ D eb.2) →
  ∃ mid, i' = set_manifest_id (Some mid) inode ∧
    ms_get_inode (i_id inode) (fc_meta c') = Ok i' ∧ ms_get_manifest mid (fc_meta c') = Ok man ∧
    cs_wf (fc_chunks c') ∧ collision_free D (fc_chunks c') ∧
    (∀ eb, eb ∈ staged → cs_get (fc_chunks c') eb.1 = Ok eb.2) ∧
    (∀ id d, cs_get (fc_chunks c) id = Ok d → cs_get (fc_chunks c') id = Ok d).
Proof.
  intros H Hwf Hroom HD Hst. unfold commit_staged_manifest in H.
  apply txn_bind_inv in H as [(u&c1&H1&H)|(e&_&?)]; [|done].
  assert (fc_chunks c1 = fc_chunks c) as Hc1.
  { unfold on_meta in H1. destruct (ms_reserve_chunks _ _ _ _ _) in H1. by simplify_eq. }
  apply or_abort_ok, txn_bind_inv in H as [(v&c2&H2&H)|(e&_&?)]; [|done].
  destruct (put_staged_ok D c1 staged) as (k'&Hps&Hwf'&HD'&Hgs&Hks); [by rewrite ?Hc1..|done|].
  rewrite Hps in H2. simplify_eq. unfold on_meta in H.
  destruct (ms_commit_reserved op_id ticket g inode man _) as [r m'] eqn:Hcom. simplify_eq.
  apply ms_commit_law in Hcom as (_&mid&->&Hi&Hm&_). exists mid. rewrite Hc1 in Hks. by split_and!.
Qed.

(** ** Reading after an update *)

Lemma source_Some t x b :
  source t x = Some b → ∃ e, e ∈ iter t ∧ ext_covers e x ∧ b = ext_source e x.
Proof.
  induction t as [|[key e] t IH]; [done|]. rewrite source_cons. case_decide.
  - intros [= <-]. exists e. split; [left|done].
  - intros (e'&?&?&?)%IH. exists e'. split; [by right|done].
Qed.

Lemma ext_data_piece k obj x y d :
  piece_of x y → ext_data k obj x d → ∃ d', ext_data k obj y d'.
Proof.
  intros [o l key ver base i l' Hpos Hi] [Hlen (Hb&ob&->&Hd)]. cbn in Hlen.
  eexists. split; cycle 1.
  - rewrite wrap_add_small by lia. split; [lia|]. exists ob. split; [done|].
    by apply (ufs_range_sub key ob base l d).
  - cbn. rewrite length_take, length_drop. lia.
Qed.

Definition keeps_chunks (k k' : Ct) : Prop := ∀ id d, cs_get k id = Ok d → cs_get k' id = Ok d.

Lemma ext_data_keep k k' obj e d : keeps_chunks k k' → ext_data k obj e d → ext_data k' obj e d.
Proof. intros Hk [Hlen Hd]. split; [done|]. destruct e; [by apply Hk|done]. Qed.

Lemma content_keep k k' obj t x :
  keeps_chunks k k' → readable k obj t → content k' obj t x = content k obj t x.
Proof.
  intros Hk Hr. unfold content. destruct (source t x) as [b|] eqn:Hs; [|done].
  destruct (source_Some _ _ _ Hs) as (e&He&_&->). destruct (Hr e He) as [d [_ Hd]].
  destruct e; cbn in *; [|done]. by rewrite (Hk _ _ Hd), Hd.
Qed.

Lemma stage_bounds m k inode offset data end_ n gen windows man0 r w :
  stage_windows rd m k inode offset data end_ n gen windows man0 = Ok r →
  w ∈ windows → w * CHUNK_SIZE + CHUNK_SIZE ≤ U64_MAX.
Proof.
  revert man0 r. induction windows as [|w' windows IH]; intros man0 r H Hw; [by apply elem_of_nil in Hw|].
  cbn [stage_windows] in H. apply bind_Ok in H as (ws&Hws&H). case_match eqn:Hle; [|done].
  injection Hws as <-. apply bind_Ok in H as (wl&[Hwl Hmax]%ok_or_Ok%checked_add_Some&H).
  apply bind_Ok in H as (b&_&H). apply bind_Ok in H as (man1&_&H). apply bind_Ok in H as ([m1 s1]&Hr&_).
  apply elem_of_cons in Hw as [->|Hw]; [lia|by eapply IH].
Qed.

(** Publishing does not touch the UFS. *)
Lemma commit_staged_ufs ticket op_id g inode man staged (c : FluxClient Mt Ct U) r c' :
  commit_staged_manifest ticket op_id g inode man staged c = (r, c') → fc_ufs_state c' = fc_ufs_state c.
Proof.
  assert (∀ {A} (f : txn Mt FluxError A), keeps (λ x : FluxClient Mt Ct U, fc_ufs_state x = fc_ufs_state c) (on_meta f)) as Hm.
  { intros A f c1 r1 c2 <- H. unfold on_meta in H. destruct (f _). by simplify_eq. }
  assert (keeps (λ x : FluxClient Mt Ct U, fc_ufs_state x = fc_ufs_state c)
    (commit_staged_manifest ticket op_id g inode man staged)) as Hk; [|by intros; eapply Hk].
  unfold commit_staged_manifest. apply keeps_bind; [apply Hm|]. intros _ c1 r1 c2 H1 H.
  unfold or_abort in H. set (m := _ ← put_staged staged; _) in H.
  assert (keeps (λ x : FluxClient Mt Ct U, fc_ufs_state x = fc_ufs_state c) m) as Hk.
  { apply keeps_bind; [|intros; apply Hm]. unfold put_staged. apply keeps_for_each. intros eb _.
    apply keeps_bind; [|intros; apply keeps_fail_if]. intros c3 r3 c4 H3 H4. unfold on_chunks in H4.
    destruct (cs_put _ _). by simplify_eq. }
  destruct (m c1) as [[a|e] c3] eqn:Hb; apply Hk in Hb; try done; simplify_eq; [done|].
  destruct (on_meta _ c3) as [r4 c4] eqn:Ha. by apply Hm in Ha.
Qed.

(** The whole file, read. *)
Lemma read_all_ok ino (c : FluxClient Mt Ct U) inode man :
  fc_ufs_state c = us → ms_get_inode ino (fc_meta c) = Ok inode → file_ok (fc_meta c) (fc_chunks c) inode man →
  read_all ufs ino c =
    (Ok (slice (file_content (fc_chunks c) inode man) 0 (N.to_nat (i_size inode))), c).
Proof.
  intros Hus Hi Hf. unfold read_all. rewrite (txn_bind_ok _ _ c inode c) by (unfold read_meta; by rewrite Hi).
  unfold view. rewrite Hus. f_equal. destruct (decide (i_size inode = 0)) as [Hz|Hnz].
  - rewrite Hz. unfold read_inode_range.
    rewrite bool_decide_false by (rewrite (fw_type _ _ _ (fo_wf _ _ _ _ Hf)); naive_solver).
    by destruct (i_manifest_id inode).
  - rewrite (read_range_ok _ _ _ man) by (done || lia). do 2 f_equal. lia.
Qed.

(** A file after its tree was replaced by [man'] over the chunks [k']. *)
Lemma update_ok m' k' inode' man' :
  i_file_type inode' = Regular → i_size inode' ≤ U64_MAX →
  current_manifest m' inode' = Ok man' → is_Some (i_manifest_id inode') →
  staged_tree (i_size inode') (m_extents man') → readable k' (i_ufs inode') (m_extents man') →
  file_ok m' k' inode' man'.
Proof.
  intros Ht Hu Hm [mid Hid] [] Hr. split; [done| |by rewrite Hid]. by split.
Qed.

(** The bytes of a file after [data] was written at [offset]. *)
Definition write_bytes (offset : N) (data old : bytes) : bytes :=
  splice (N.to_nat offset) data (resize (Nat.max (length old) (N.to_nat offset + length data)) old).

Lemma written_slice f offset data n :
  (∀ x, N.of_nat n ≤ x → f x = zero) →
  write_bytes offset data (slice f 0 n) =
  slice (written f offset data) 0 (Nat.max n (N.to_nat offset + length data)).
Proof.
  intros Hz. unfold write_bytes. rewrite length_slice. set (b := splice _ _ _).
  assert (length b = Nat.max n (N.to_nat offset + length data)) as Hb.
  { unfold b. rewrite length_splice; rewrite length_resize; lia. }
  rewrite <-Hb. apply slice_eq. intros i y Hy.
  assert (i < length b)%nat as Hi by (by eapply lookup_lt_Some).
  unfold b in Hy. rewrite lookup_splice in Hy by (rewrite length_resize; lia).
  unfold written. destruct (decide (offset ≤ 0 + N.of_nat i ∧ _)) as [Hc|Hc].
  - rewrite decide_True in Hy by lia. replace (N.to_nat (0 + N.of_nat i - offset)) with (i - N.to_nat offset)%nat by lia.
    by rewrite Hy.
  - rewrite decide_False in Hy by lia. rewrite lookup_resize, lookup_slice in Hy by lia.
    injection Hy as <-. case_decide; [done|]. cbn [default]. symmetry. apply Hz. lia.
Qed.

(** What a write stages. *)
Definition write_chunks (k : Ct) (inode : Inode) (man : Manifest) (offset : N) (data : bytes) : list bytes :=
  let end_ := offset + N.of_nat (length data) in
  window_data (written (file_content k inode man) offset data) (N.max (i_size inode) end_)
    <$> windows_of offset end_.

Lemma write_at_inv now ticket op_id ino offset data (c : FluxClient Mt Ct U) n c' inode man :
  fc_ufs_state c = us →
  ms_get_inode ino (fc_meta c) = Ok inode → current_manifest (fc_meta c) inode = Ok man →
  write_at ufs now ticket op_id ino offset data c = (Ok n, c') → data ≠ [] →
  let end_ := offset + N.of_nat (length data) in
  let new_size := N.max (i_size inode) end_ in
  let gen := sat_add (i_head_gen inode) 1 in
  end_ ≤ U64_MAX ∧ n = N.of_nat (length data) mod (U32_MAX + 1) ∧
  ∃ man1 staged i',
    stage_windows rd (fc_meta c) (fc_chunks c) inode offset data end_ new_size gen
      (windows_of offset end_) man = Ok (man1, staged) ∧
    commit_staged_manifest ticket op_id (i_generation inode) (mutated_head now inode new_size gen)
      (set_m_size new_size man1) staged c = (Ok i', c').
Proof.
  intros Hus Hino Hman H Hne. cbv zeta. unfold write_at in H. rewrite bool_decide_false in H by done.
  rewrite (txn_bind_ok _ _ c inode c) in H by (unfold read_meta; by rewrite Hino).
  unfold fail_if, lift, write_chunked, view in H.
  apply txn_bind_inv in H as [(?&c1&H1&H)|(e&_&?)]; [|done]. case_match; simplify_eq.
  apply txn_bind_inv in H as [(?&c2&H2&H)|(e&_&?)]; [|done]. destruct (dirty_conflict inode); simplify_eq.
  apply txn_bind_inv in H as [(end_&c3&H3&H)|(e&_&?)]; [|done].
  apply pair_equal_spec in H3 as [[-> Hend]%ok_or_Ok%checked_add_Some <-].
  apply txn_bind_inv in H as [([man1 staged]&c4&H4&H)|(e&_&?)]; [|done].
  apply pair_equal_spec in H4 as [H4 <-]. rewrite Hman in H4. cbn [mbind result_bind] in H4.
  apply txn_bind_inv in H as [(i'&c5&H5&H)|(e&_&?)]; [|done]. unfold mret, txn_ret in H. simplify_eq.
  split; [done|]. split; [done|]. eauto.
Qed.

(** The new tree means the written contents. *)
Lemma staged_content k k' inode man man' offset data :
  let end_ := offset + N.of_nat (length data) in
  let new_size := N.max (i_size inode) end_ in
  let f := written (file_content k inode man) offset data in
  file_wf k inode (m_extents man) → keeps_chunks k k' → (0 < length data)%nat →
  (∀ w, w ∈ windows_of offset end_ →
        cs_get k' (hash (window_data f new_size w)) = Ok (window_data f new_size w)) →
  (∀ x, source (m_extents man') x =
     if decide (in_window (windows_of offset end_) new_size x)
     then Some (SrcChunk (hash (window_data f new_size (x / CHUNK_SIZE))) (x - x / CHUNK_SIZE * CHUNK_SIZE))
     else source (m_extents man) x) →
  ∀ x, x < new_size → content k' (i_ufs inode) (m_extents man') x = f x.
Proof.
  intros end_ new_size f Hw Hk Hl Hget Hsrc x Hx. unfold content. rewrite Hsrc.
  pose proof (window_bounds x) as [Hb1 Hb2].
  destruct (decide (in_window (windows_of offset end_) new_size x)) as [[Hin _]|Hno].
  - cbn. rewrite (Hget _ Hin). unfold window_data. rewrite lookup_slice.
    rewrite decide_True by (unfold window_end; lia). cbn. f_equal. lia.
  - fold (content k' (i_ufs inode) (m_extents man) x). rewrite (content_keep k); [|done|apply Hw].
    unfold f, written. rewrite decide_False; [done|]. intros Hc. apply Hno. split; [|lia].
    apply elem_of_windows; [unfold end_; lia|]. unfold touched, end_. lia.
Qed.

Lemma mutated_head_fields now inode size gen :
  let i := mutated_head now inode size gen in
  i_id i = i_id inode ∧ i_size i = size ∧ i_ufs i = i_ufs inode ∧ i_file_type i = i_file_type inode.
Proof. done. Qed.

(** A staged write that was committed: the file it leaves. *)
Lemma write_published D now ticket op_id offset data (c : FluxClient Mt Ct U) c' inode man man1 staged i' gen :
  let end_ := offset + N.of_nat (length data) in
  let new_size := N.max (i_size inode) end_ in
  let f := written (file_content (fc_chunks c) inode man) offset data in
  file_ok (fc_meta c) (fc_chunks c) inode man → (0 < length data)%nat → end_ ≤ U64_MAX →
  cs_wf (fc_chunks c) → collision_free D (fc_chunks c) →
  put_room (fc_chunks c) (write_chunks (fc_chunks c) inode man offset data) →
  Forall D (write_chunks (fc_chunks c) inode man offset data) →
  stage_windows rd (fc_meta c) (fc_chunks c) inode offset data end_ new_size gen
    (windows_of offset end_) man = Ok (man1, staged) →
  commit_staged_manifest ticket op_id (i_generation inode) (mutated_head now inode new_size gen)
    (set_m_size new_size man1) staged c = (Ok i', c') →
  ms_get_inode (i_id inode) (fc_meta c') = Ok i' ∧ i_size i' = new_size ∧
  file_ok (fc_meta c') (fc_chunks c') i' (set_m_size new_size man1) ∧
  (∀ x, x < new_size → file_content (fc_chunks c') i' (set_m_size new_size man1) x = f x) ∧
  cs_wf (fc_chunks c') ∧ collision_free D (fc_chunks c') ∧ i_id i' = i_id inode.
Proof.
  intros end_ new_size f Hf Hl Hend Hwf HD Hroom HFD Hstage Hcom.
  assert (staged_tree new_size (m_extents man)) as Hst by (eapply file_staged; [apply Hf|lia]).
  assert (∀ w, w ∈ windows_of offset end_ →
            touched offset end_ w ∧ w * CHUNK_SIZE + CHUNK_SIZE ≤ U64_MAX) as Hwin.
  { intros w Hw. split; [by apply elem_of_windows; [unfold end_; lia|]|by eapply stage_bounds]. }
  destruct (stage_ok (λ _, True) (fc_meta c) (fc_chunks c) inode man offset data gen
              (windows_of offset end_) man) as (man1'&Hs1&_); [done..|].
  fold end_ new_size f in Hs1. rewrite Hs1 in Hstage. injection Hstage as -> <-.
  assert ((staged_of f new_size (windows_of offset end_)).*2 =
          write_chunks (fc_chunks c) inode man offset data) as Hsnd.
  { unfold staged_of, write_chunks. by rewrite <-list_fmap_compose. }
  destruct (commit_staged_ok D _ _ _ _ _ _ _ _ _ Hcom) as (mid&->&Hi'&Hm'&Hwf'&HD'&Hgs&Hks);
    [done|by rewrite Hsnd|done| |].
  { intros eb Heb. split; [by apply list_elem_of_fmap in Heb as (w&->&_)|].
    rewrite Forall_forall in HFD. apply HFD. rewrite <-Hsnd. by apply list_elem_of_fmap_2. }
  assert (∀ w, w ∈ windows_of offset end_ →
    cs_get (fc_chunks c') (hash (window_data f new_size w)) = Ok (window_data f new_size w)) as Hget.
  { intros w Hw. apply (Hgs (hash (window_data f new_size w), window_data f new_size w)).
    apply list_elem_of_fmap. eauto. }
  destruct (stage_ok (λ e, ∃ d, ext_data (fc_chunks c') (i_ufs inode) e d) (fc_meta c) (fc_chunks c)
              inode man offset data gen (windows_of offset end_) man) as (man2&Hs2&Hst2&_&HP2&Hsrc2).
  { done. } { done. } { done. } { intros x y Hxy [d Hd]. by eapply ext_data_piece. }
  { intros x Hx. destruct (fw_readable _ _ _ (fo_wf _ _ _ _ Hf) x Hx) as [d Hd].
    exists d. by eapply ext_data_keep. }
  { intros w Hw. exists (window_data f new_size w). split; [|by apply Hget]. cbn.
    unfold window_data. rewrite length_slice. unfold window_end. lia. }
  fold end_ new_size f in Hs2. rewrite Hs1 in Hs2. injection Hs2 as <-.
  split; [exact Hi'|]. split; [done|]. split; [|split; [|done]].
  - apply update_ok; try done; [apply (fw_type _ _ _ (fo_wf _ _ _ _ Hf))|].
    pose proof (fw_u64 _ _ _ (fo_wf _ _ _ _ Hf)). cbn. lia.
  - intros x Hx. eapply (staged_content (fc_chunks c) (fc_chunks c') inode man man1); try done. apply Hf.
Qed.

(** A write that succeeds, with the state of the stores after it. *)
Lemma write_at_reads D now ticket op_id ino offset data (c : FluxClient Mt Ct U) n c' inode man old :
  fc_ufs_state c = us → ms_get_inode ino (fc_meta c) = Ok inode → i_id inode = ino →
  file_ok (fc_meta c) (fc_chunks c) inode man →
  cs_wf (fc_chunks c) → collision_free D (fc_chunks c) →
  put_room (fc_chunks c) (write_chunks (fc_chunks c) inode man offset data) →
  Forall D (write_chunks (fc_chunks c) inode man offset data) →
  read_all ufs ino c = (Ok old, c) →
  write_at ufs now ticket op_id ino offset data c = (Ok n, c') → data ≠ [] →
  n = N.of_nat (length data) mod (U32_MAX + 1) ∧
  read_all ufs ino c' = (Ok (write_bytes offset data old), c') ∧
  (∃ inode' man', ms_get_inode ino (fc_meta c') = Ok inode' ∧ i_id inode' = ino ∧
    i_size inode' = N.max (i_size inode) (offset + N.of_nat (length data)) ∧
    file_ok (fc_meta c') (fc_chunks c') inode' man') ∧
  fc_ufs_state c' = us ∧ cs_wf (fc_chunks c') ∧ collision_free D (fc_chunks c').
Proof.
  intros Hus Hino Hid Hf Hwf HD Hroom HFD Hold H Hne.
  assert (0 < length data)%nat as Hl0 by (destruct data; [done|cbn; lia]).
  destruct (write_at_inv _ _ _ _ _ _ _ _ _ _ _ Hus Hino (fo_manifest _ _ _ _ Hf) H Hne)
    as (Hend&->&man1&staged&i'&Hstage&Hcom). split; [done|].
  destruct (write_published D now ticket op_id offset data c c' inode man man1 staged i'
              (sat_add (i_head_gen inode) 1)) as (Hi'&Hsz&Hf'&Hcont&Hwf'&HD'&Hid'); [done..|].
  pose proof (commit_staged_ufs _ _ _ _ _ _ _ _ _ Hcom) as Hus'. rewrite Hus in Hus'.
  rewrite Hid in Hi', Hid'.
  split; [|split; [by exists i', (set_m_size (N.max (i_size inode) (offset + N.of_nat (length data))) man1)|done]].
  rewrite (read_all_ok _ _ _ _ Hus Hino Hf) in Hold. rewrite (read_all_ok _ _ _ _ Hus' Hi' Hf').
  apply pair_equal_spec in Hold as [[= <-] _]. do 2 f_equal. rewrite written_slice.
  - rewrite Hsz.
    replace (Nat.max _ _) with (N.to_nat (N.max (i_size inode) (offset + N.of_nat (length data)))) by lia.
    apply slice_ext. intros x _ Hx. apply Hcont. lia.
  - intros x Hx. apply content_beyond; [apply Hf|lia].
Qed.

(** C33: reads see writes.  When [write_at] succeeds on a well-formed file,
    over stores that keep their contracts and have room for the chunks the
    write stages, the whole file then reads as before with the written bytes
    laid over it at the offset (any gap before them filled with zeros), its
    size is the larger of the old size and the end of the write, and the file
    is well formed again. *)
Theorem read_after_write D now ticket op_id ino offset data (c : FluxClient Mt Ct U) n c' inode man old :
  fc_ufs_state c = us → ms_get_inode ino (fc_meta c) = Ok inode → i_id inode = ino →
  file_ok (fc_meta c) (fc_chunks c) inode man →
  cs_wf (fc_chunks c) → collision_free D (fc_chunks c) →
  put_room (fc_chunks c) (write_chunks (fc_chunks c) inode man offset data) →
  Forall D (write_chunks (fc_chunks c) inode man offset data) →
  read_all ufs ino c = (Ok old, c) →
  write_at ufs now ticket op_id ino offset data c = (Ok n, c') → data ≠ [] →
  n = N.of_nat (length data) mod (U32_MAX + 1) ∧
  read_all ufs ino c' = (Ok (write_bytes offset data old), c') ∧
  ∃ inode' man', ms_get_inode ino (fc_meta c') = Ok inode' ∧
    i_size inode' = N.max (i_size inode) (offset + N.of_nat (length data)) ∧
    file_ok (fc_meta c') (fc_chunks c') inode' man'.
Proof.
  intros Hus Hino Hid Hf Hwf HD Hroom HFD Hold H Hne.
  destruct (write_at_reads D now ticket op_id ino offset data c n c' inode man old)
    as (->&?&(inode'&man'&?&_&?&?)&_); [done..|]. split_and!; [done..|]. by exists inode', man'.
Qed.

(** ** Truncation *)

Definition keyed_tree (l : list Extent) : ExtentTree := (λ e, (ext_offset e, e)) <$> l.

Lemma iter_keyed_tree l : iter (keyed_tree l) = l.
Proof. unfold iter, keyed_tree. rewrite <-list_fmap_compose. apply list_fmap_id. Qed.

(** What one iteration of the loop makes of an extent that starts below
    [size]. *)
Definition cut_at (size : N) (e : Extent) (d : bytes) : Extent * list (ChunkId * bytes) :=
  if ext_offset e + ext_len e <=? size then (e, [])
  else
    let keep := size - ext_offset e in
    match e with
    | Local o _ _ =>
        let b := take (N.to_nat keep) d in (Local o keep (hash b), [(hash b, b)])
    | UfsRange o _ key ver base => (UfsRange o keep key ver base, [])
    end.

Lemma cut_at_fields size e d :
  ext_offset e < size →
  ext_offset (cut_at size e d).1 = ext_offset e ∧
  ext_len (cut_at size e d).1 = N.min (ext_len e) (size - ext_offset e).
Proof. intros. unfold cut_at. case_match eqn:Hc; bools; [|destruct e]; cbn in *; lia. Qed.

Lemma cut_at_data k k' obj size e d :
  ext_offset e < size → 0 < ext_len e → ext_data k obj e d → keeps_chunks k k' →
  (∀ eb, eb ∈ (cut_at size e d).2 → cs_get k' eb.1 = Ok eb.2) →
  (∃ d', ext_data k' obj (cut_at size e d).1 d') ∧
  ∀ x, ext_covers e x → x < size →
    src_byte k' obj (Some (ext_source (cut_at size e d).1 x)) = src_byte k obj (Some (ext_source e x)).
Proof.
  intros Ho Hpos Hd Hk Hst. unfold cut_at in *. destruct (N.leb_spec (ext_offset e + ext_len e) size) as [Hle|Hgt].
  { split; [exists d; by eapply ext_data_keep|]. intros x _ _.
    destruct e; cbn in *; [|done]. destruct Hd as [_ Hd]. by rewrite Hd, (Hk _ _ Hd). }
  destruct e as [o l ch|o l key ver base]; cbn in *.
  - destruct Hd as [Hlen Hd]. cbn in Hlen. specialize (Hst _ (list_elem_of_here _ _)). cbn in Hst. split.
    + eexists. split; [|exact Hst]. cbn. rewrite length_take. lia.
    + intros x [Hx1 Hx2] Hx. cbn in Hx1, Hx2. rewrite Hst, Hd. by rewrite lookup_take_lt by lia.
  - split; [|done]. pose proof (piece o l key ver base 0 (size - o)) as Hp.
    rewrite N.add_0_r, wrap_add_0 in Hp by (destruct Hd as [_ [? _]]; lia).
    destruct (ext_data_piece k obj _ _ d (Hp ltac:(lia) ltac:(lia)) Hd) as [d' Hd'].
    exists d'. by eapply ext_data_keep.
Qed.

Lemma truncate_step k obj size e d l0 l staged :
  ext_data k obj e d → ext_offset e < size → ext_offset e + ext_len e ≤ U64_MAX →
  truncate_extents k size l0 = Ok (l, staged) →
  truncate_extents k size (e :: l0) = Ok ((cut_at size e d).1 :: l, (cut_at size e d).2 ++ staged).
Proof.
  intros [Hlen Hd] Ho Hmax H. cbn [truncate_extents]. rewrite (proj2 (N.leb_gt _ _)) by done.
  rewrite (proj2 (checked_add_Some _ _ _ _)) by done. cbn [ok_or mbind result_bind]. unfold cut_at.
  destruct (N.leb_spec (ext_offset e + ext_len e) size) as [Hle|Hgt]; [by rewrite H|].
  destruct e as [o n ch|o n key ver base]; cbn in *; [|by rewrite H].
  rewrite Hd. cbn. rewrite (proj2 (N.ltb_ge _ _)) by lia. by rewrite H.
Qed.

(** The loop on a readable tree. *)
Lemma truncate_extents_ok lo k obj size t :
  wf_from lo t → readable k obj t →
  ∃ l staged, truncate_extents k size (iter t) = Ok (l, staged) ∧
    wf_from lo (keyed_tree l) ∧
    (∀ e, e ∈ l → ext_offset e + ext_len e ≤ size) ∧
    (∀ o n c, Local o n c ∈ l → ∃ n' c', Local o n' c' ∈ iter t ∧ n ≤ n') ∧
    (∀ eb, eb ∈ staged → eb.1 = hash eb.2) ∧
    ∀ k', keeps_chunks k k' → (∀ eb, eb ∈ staged → cs_get k' eb.1 = Ok eb.2) →
      readable k' obj (keyed_tree l) ∧
      ∀ x, x < size → content k' obj (keyed_tree l) x = content k obj t x.
Proof.
  revert lo. induction t as [|[key e] t IH]; intros lo Hwf Hr.
  { exists [], []. split_and!; try done; intros *; rewrite ?elem_of_nil; try done.
    intros _ _. split; [|done]. intros e' He'. by apply elem_of_nil in He'. }
  destruct Hwf as (->&Hlo&Hpos&Hmax&Hwf). destruct (Hr e) as [d Hd]; [left|].
  change (iter ((ext_offset e, e) :: t)) with (e :: iter t).
  destruct (decide (size ≤ ext_offset e)) as [Hge|Hlt%N.nle_gt].
  { exists [], []. cbn [truncate_extents]. rewrite (proj2 (N.leb_le _ _)) by done. split_and!; try done; intros *; rewrite ?elem_of_nil; try done.
    intros _ _. split; [intros e' He'; by apply elem_of_nil in He'|].
    intros x Hx. unfold content. rewrite (proj2 (source_None ((ext_offset e, e) :: t) x)); [done|].
    intros key' e' [Heq|Hin]%elem_of_cons; unfold ext_covers; [simplify_eq; lia|].
    apply (wf_from_In _ _ _ _ Hwf) in Hin. lia. }
  destruct (IH (ext_offset e + ext_len e) Hwf) as (l&staged&Ht&Hwf'&Hin&Hloc&Hst&Hk).
  { intros e' He'. apply Hr. by right. }
  destruct (cut_at_fields size e d Hlt) as [Hco Hcl].
  eexists _, _. split; [by eapply truncate_step|]. split_and!.
  - cbn. rewrite Hco. split_and!; [done|done|lia|lia|]. eapply wf_from_weaken; [|exact Hwf']. lia.
  - intros e' [->|He']%elem_of_cons; [lia|auto].
  - intros o n c [Heq|He']%elem_of_cons.
    + rewrite <-Heq in Hco, Hcl. cbn in Hco, Hcl. unfold cut_at in Heq.
      destruct (_ <=? _); destruct e as [o0 n0 c0|]; simplify_eq/=; eexists _, _; (split; [left|lia]).
    + destruct (Hloc o n c He') as (n'&c'&Hin'&?). exists n', c'. split; [by right|done].
  - intros eb [Heb|Heb]%elem_of_app; [|auto]. unfold cut_at in Heb.
    destruct (_ <=? _); [by apply elem_of_nil in Heb|].
    destruct e; [by apply list_elem_of_singleton in Heb as ->|by apply elem_of_nil in Heb].
  - intros k' Hkeep Hget.
    destruct (cut_at_data k k' obj size e d) as [Hd' Hbyte]; [done..| |].
    { intros eb Heb. apply Hget, elem_of_app. by left. }
    destruct (Hk k' Hkeep) as [Hread Hcont].
    { intros eb Heb. apply Hget, elem_of_app. by right. }
    split.
    + intros e'. rewrite iter_keyed_tree. intros [->|He']%elem_of_cons; [done|].
      apply Hread. by rewrite iter_keyed_tree.
    + intros x Hx. unfold content. cbn [keyed_tree fmap list_fmap]. rewrite !source_cons.
      assert (ext_covers (cut_at size e d).1 x ↔ ext_covers e x) as Hiff
        by (unfold ext_covers; rewrite Hco, Hcl; lia).
      destruct (decide (ext_covers e x)), (decide (ext_covers (cut_at size e d).1 x)); try tauto;
        [by apply Hbyte|by apply Hcont].
Qed.

(** What a truncation stages. *)
Definition truncate_chunks (k : Ct) (man : Manifest) (size : N) : list bytes :=
  match truncate_extents k size (iter (m_extents man)) with
  | Ok (_, staged) => staged.*2
  | Err _ => []
  end.

Lemma resize_slice f n size :
  (∀ x, N.of_nat n ≤ x → f x = zero) → resize size (slice f 0 n) = slice f 0 size.
Proof.
  intros Hz. rewrite <-(length_resize size (slice f 0 n)) at 2. apply slice_eq. intros i y Hy.
  assert (i < size)%nat as Hi by (apply lookup_lt_Some in Hy; by rewrite length_resize in Hy).
  rewrite lookup_resize, lookup_slice in Hy by done. injection Hy as <-. case_decide; [done|].
  symmetry. apply Hz. lia.
Qed.

Lemma truncate_inv now ticket op_id ino size (c : FluxClient Mt Ct U) i' c' inode man :
  ms_get_inode ino (fc_meta c) = Ok inode → current_manifest (fc_meta c) inode = Ok man →
  truncate now ticket op_id ino size c = (Ok i', c') →
  (size = i_size inode ∧ i' = inode ∧ c' = c) ∨
  ∃ l staged t, size ≠ i_size inode ∧
    truncate_extents (fc_chunks c) size (iter (m_extents man)) = Ok (l, staged) ∧
    try_from l = Ok t ∧
    commit_staged_manifest ticket op_id (i_generation inode)
      (mutated_head now inode size (sat_add (i_head_gen inode) 1))
      (mkManifest (i_id inode) (sat_add (i_head_gen inode) 1) size t) staged c = (Ok i', c').
Proof.
  intros Hino Hman H. unfold truncate, setattr in H.
  rewrite (txn_bind_ok _ _ c inode c) in H by (unfold read_meta; by rewrite Hino).
  cbn [sa_size] in H. case_bool_decide; [done|].
  destruct (N.eqb_spec size (i_size inode)) as [->|Hne]; cbn [negb] in H.
  { left. cbn in H. unfold mret, txn_ret in H. by simplify_eq. }
  right. unfold truncate_locked, fail_if, view in H.
  apply txn_bind_inv in H as [(?&c1&H1&H)|(e&_&?)]; [|done]. destruct (dirty_conflict inode); simplify_eq.
  apply txn_bind_inv in H as [([man1 staged]&c2&H2&H)|(e&_&?)]; [|done].
  apply pair_equal_spec in H2 as [H2 <-]. rewrite Hman in H2. cbn [mbind result_bind] in H2.
  apply bind_Ok in H2 as ([l st]&Htr&H2). apply bind_Ok in H2 as (t&Ht&H2). injection H2 as <- <-. eauto 10.
Qed.

(** A truncation that succeeds, with the state of the stores after it. *)
Lemma truncate_reads D now ticket op_id ino size (c : FluxClient Mt Ct U) i' c' inode man old :
  fc_ufs_state c = us → ms_get_inode ino (fc_meta c) = Ok inode → i_id inode = ino → size ≤ U64_MAX →
  file_ok (fc_meta c) (fc_chunks c) inode man →
  cs_wf (fc_chunks c) → collision_free D (fc_chunks c) →
  put_room (fc_chunks c) (truncate_chunks (fc_chunks c) man size) →
  Forall D (truncate_chunks (fc_chunks c) man size) →
  read_all ufs ino c = (Ok old, c) →
  truncate now ticket op_id ino size c = (Ok i', c') →
  read_all ufs ino c' = (Ok (resize (N.to_nat size) old), c') ∧
  ms_get_inode ino (fc_meta c') = Ok i' ∧ i_size i' = size ∧
  (∃ man', file_ok (fc_meta c') (fc_chunks c') i' man') ∧ i_id i' = ino ∧
  fc_ufs_state c' = us ∧ cs_wf (fc_chunks c') ∧ collision_free D (fc_chunks c').
Proof.
  intros Hus Hino Hid Hsz Hf Hwf HD Hroom HFD Hold H.
  rewrite (read_all_ok _ _ _ _ Hus Hino Hf) in Hold. apply pair_equal_spec in Hold as [[= <-] _].
  assert (∀ x, N.of_nat (N.to_nat (i_size inode)) ≤ x → file_content (fc_chunks c) inode man x = zero) as Hz
    by (intros x Hx; apply content_beyond; [apply Hf|lia]).
  apply (truncate_inv _ _ _ _ _ _ _ _ _ man Hino (fo_manifest _ _ _ _ Hf)) in H
    as [(->&->&->)|(l&staged&t&Hne&Htr&Ht&Hcom)].
  { rewrite (read_all_ok _ _ _ _ Hus Hino Hf), resize_slice by done. eauto 12. }
  pose proof (fo_wf _ _ _ _ Hf) as Hw. unfold truncate_chunks in *. rewrite Htr in *.
  destruct (truncate_extents_ok 0 (fc_chunks c) (i_ufs inode) size (m_extents man))
    as (l'&staged'&Htr'&Hwf'&Hin&Hloc&Hst&Hk); [apply Hw|apply Hw|].
  rewrite Htr in Htr'. injection Htr' as <- <-.
  assert (t = keyed_tree l) as ->.
  { assert (try_from l = Ok (keyed_tree l)) as Ht'; [|congruence].
    apply try_from_correct. by rewrite iter_keyed_tree. }
  destruct (commit_staged_ok D _ _ _ _ _ _ _ _ _ Hcom) as (mid&->&Hi'&Hm'&Hwfk&HD'&Hgs&Hks);
    [done|done|done| |].
  { intros eb Heb. split; [by apply Hst|]. rewrite Forall_forall in HFD. apply HFD.
    by apply list_elem_of_fmap_2. }
  destruct (Hk (fc_chunks c')) as [Hread Hcont]; [done|done|].
  set (inode' := set_manifest_id _ _) in *. cbn in Hi'. rewrite Hid in Hi'.
  set (man' := mkManifest _ _ _ _) in *.
  assert (file_ok (fc_meta c') (fc_chunks c') inode' man') as Hf'.
  { apply update_ok; try done; [apply Hw|]. split; cbn; try done.
    - by eapply readable_bounds.
    - intros e. rewrite iter_keyed_tree. auto.
    - intros o n ch. rewrite iter_keyed_tree. intros (n'&c''&Hl&?)%Hloc.
      apply (fw_aligned _ _ _ Hw) in Hl as [? ?]. split; [done|lia]. }
  pose proof (commit_staged_ufs _ _ _ _ _ _ _ _ _ Hcom) as Hus'. rewrite Hus in Hus'.
  split; [|by eauto 12]. rewrite (read_all_ok _ _ _ _ Hus' Hi' Hf'), resize_slice by done. do 2 f_equal.
  apply slice_ext. intros x _ Hx. apply Hcont. cbn in Hx. lia.
Qed.
End data.

(** ** Witnesses: an embedded metadata store over a pack store *)

Definition demo_db : Db :=
  upd_next_manifest (λ _, Some 1)
    (upd_inodes (λ _, {[2 := new_node 2 Regular 420 0 0 None 0%Z]}) empty_db).
#[local] Instance demo_meta : MetaStore Db := heed_meta (λ _, 7%Z) 1000 (λ _, "").
#[local] Instance demo_chunks : ChunkStore toy_hash PackStore := pack_chunk_store toy_hash toy_hash_width.
Definition demo_client : FluxClient Db PackStore unit := client_new demo_db new_store tt.
Definition no_ufs : option (Ufs unit) := None.
Definition demo_inode : Inode := new_node 2 Regular 420 0 0 None 0%Z.
Definition demo_data : bytes := [x61; x62; x63]%byte.
Definition demo_written : FluxClient Db PackStore unit :=
  (write_at no_ufs 5%Z 9 11 2 2 demo_data demo_client).2.

Lemma no_ufs_sub : reads_agree (reader no_ufs tt).
Proof. discriminate. Qed.

Lemma demo_file_ok : file_ok no_ufs tt (fc_meta demo_client) (fc_chunks demo_client) demo_inode (Manifest_empty 2 1).
Proof.
  split; [reflexivity| |done]. split; try done; [intros ? H|intros ? ? ? H|intros ? H];
    by apply elem_of_nil in H.
Qed.

Lemma demo_collision_free l :
  collision_free (λ b, b = l) (fc_chunks demo_client).
Proof.
  split; [congruence|]. intros id d H. cbn in H. rewrite get_unindexed in H; [done|]. apply lookup_empty.
Qed.

Lemma demo_write : write_at no_ufs 5%Z 9 11 2 2 demo_data demo_client = (Ok 3, demo_written).
Proof.
  rewrite (surjective_pairing (write_at _ _ _ _ _ _ _ _)). apply pair_equal_spec.
  split; [vm_compute; reflexivity|reflexivity].
Qed.

Lemma read_after_write_witness :
  read_all no_ufs 2 demo_written = (Ok [zero; zero; x61; x62; x63]%byte, demo_written).
Proof.
  refine (proj1 (proj2 (read_after_write no_ufs tt no_ufs_sub (λ b, b = [zero; zero; x61; x62; x63]%byte)
    5%Z 9 11 2 2 demo_data demo_client 3 demo_written demo_inode (Manifest_empty 2 1) []
    _ _ _ demo_file_ok _ (demo_collision_free _) _ _ _ _ _))).
  - reflexivity.
  - reflexivity.
  - reflexivity.
  - exact new_store_wf.
  - split; [by apply (small_room _ _ 1)|done].
  - apply Forall_singleton. reflexivity.
  - reflexivity.
  - exact demo_write.
  - discriminate.
Defined.

Definition demo_bytes : bytes := [zero; zero; x61; x62; x63]%byte.
Definition demo_inode2 : Inode := set_manifest_id (Some 1) (mutated_head 5%Z demo_inode 5 2).
Definition demo_manifest2 : Manifest := mkManifest 2 2 5 [(0, Local 0 5 (toy_hash demo_bytes))].

Lemma demo_file_ok2 :
  file_ok no_ufs tt (fc_meta demo_written) (fc_chunks demo_written) demo_inode2 demo_manifest2.
Proof.
  split; [vm_compute; reflexivity| |done]. split; try done.
  - intros e ->%list_elem_of_singleton. done.
  - intros o l c [= -> -> ->]%list_elem_of_singleton. done.
  - intros e ->%list_elem_of_singleton. exists demo_bytes. split; [done|]. vm_compute. reflexivity.
Qed.

Lemma demo_written_wf :
  cs_wf (fc_chunks demo_written) ∧
  collision_free (λ b, b = demo_bytes ∨ b = take 4 demo_bytes) (fc_chunks demo_written).
Proof.
  destruct (put_step (λ b, b = demo_bytes ∨ b = take 4 demo_bytes) (fc_chunks demo_client) demo_bytes)
    as (k'&Hput&Hwf&HD&_).
  - exact new_store_wf.
  - by apply (small_room _ _ 1).
  - split; [|intros id d H; cbn in H; rewrite get_unindexed in H; [done|apply lookup_empty]].
    intros a b [-> | ->] [-> | ->]; try done; vm_compute; discriminate.
  - by left.
  - assert (fc_chunks demo_written = k') as ->; [|done].
    change k' with (Ok (toy_hash demo_bytes) : Result ChunkId, k').2. rewrite <-Hput.
    vm_compute. reflexivity.
Qed.

Definition demo_truncated : FluxClient Db PackStore unit := (truncate 6%Z 10 12 2 4 demo_written).2.

Lemma demo_truncate :
  truncate 6%Z 10 12 2 4 demo_written =
    (Ok (set_manifest_id (Some 2) (mutated_head 6%Z demo_inode2 4 3)), demo_truncated).
Proof.
  rewrite (surjective_pairing (truncate _ _ _ _ _ _)). apply pair_equal_spec.
  split; [vm_compute; reflexivity|reflexivity].
Qed.

