(* ===== verification/FlushData.v ===== *)
(** * Flushing keeps the contents of a file

    A flush uploads the file, verified against the digest taken before, and
    turns the inode into a reference to the published object.  The theorem
    puts together the client's protocol, the metadata store and the UFS, each
    through its contract. *)

From S2P Require Import Prelude Types Bytes Extents Keys ChunkStore Ufs UfsPublish UfsRead UfsLaws.
From S2P Require Import MetaDb Namespace InodeData Gc GcInv Membership Ledger Apply HeedStore MetaStore.
From S2P Require Import Client ClientIo ClientFlush ClientData Pack.

Local Open Scope N_scope.

(** ** What a metadata store promises about flushes *)

(** The fields that decide what a file reads as. *)
Definition same_file (i i' : Inode) : Prop :=
  i_id i' = i_id i ∧ i_file_type i' = i_file_type i ∧ i_size i' = i_size i ∧
  i_head_gen i' = i_head_gen i ∧ i_manifest_id i' = i_manifest_id i ∧ i_ufs i' = i_ufs i.

(** A flushed file: clean, and one range of the published object. *)
Definition flushed {St} `{!MetaStore St} (pub : UfsObject) (cur i : Inode) (s : St) : Prop :=
  i_id i = i_id cur ∧ i_file_type i = i_file_type cur ∧ i_size i = i_size cur ∧
  i_flush_intent i = None ∧ i_ufs i = Some pub ∧
  (∃ f, i_locality_fields i = Some f ∧ lf_data_state f = UfsClean) ∧
  match i_manifest_id i with
  | None => i_size i = 0
  | Some mid => ∃ m ver, ms_get_manifest mid s = Ok m ∧
                         m_extents m = [(0, UfsRange 0 (i_size i) (uo_key pub) ver 0)]
  end.

Class FlushStore (St : Type) `{!MetaStore St} := {
  fs_begin_law op_id g ino intent s i s' cur :
    ms_get_inode ino s = Ok cur → i_id cur = ino →
    ms_begin_flush_with_id op_id g ino intent s = (Ok i, s') →
    ms_get_inode ino s' = Ok i ∧ i_flush_intent i = Some intent ∧ same_file cur i ∧
    i_head_gen cur = fi_snapshot_gen intent ∧
    ∀ mid, ms_get_manifest mid s' = ms_get_manifest mid s;
  fs_commit_law op_id g ino fid pub s i s' cur intent :
    ms_get_inode ino s = Ok cur → i_id cur = ino → i_flush_intent cur = Some intent →
    i_head_gen cur = fi_snapshot_gen intent →
    ms_commit_flush_with_id op_id g ino fid pub s = (Ok i, s') →
    ms_get_inode ino s' = Ok i ∧ flushed pub cur i s';
  fs_commit_err_law op_id g ino fid pub s e s' :
    ms_commit_flush_with_id op_id g ino fid pub s = (Err e, s') →
    ∀ id, ms_get_inode id s' = ms_get_inode id s
}.

Section heed.
Context (now : nat → Z) (ms : N) (debug : MetaRaftResponse → string).
Existing Instance heed_meta.
Abbreviation store := (heed_meta now ms debug).

Lemma heed_begin_flush_law g ino intent d i d' cur :
  heed_get_inode ino d = Ok cur → i_id cur = ino →
  heed_begin_flush_with_id g ino intent d = (Ok i, d') →
  heed_get_inode ino d' = Ok i ∧ i_flush_intent i = Some intent ∧ same_file cur i ∧
  i_head_gen cur = fi_snapshot_gen intent ∧
  ∀ mid, heed_get_manifest mid d' = heed_get_manifest mid d.
Proof.
  intros Hcur Hid [[_ [? ?]]|(a&[= <-]&H)]%write_txn_inv; [done|].
  unfold heed_get_inode in Hcur. apply ok_or_Ok in Hcur.
  unfold begin_flush_in_txn in H. db_inv H; bools; simplify_eq/=.
  unfold heed_get_inode, heed_get_manifest. cbn. split_and!; try done.
  by rewrite lookup_insert_eq.
Qed.

Lemma heed_commit_flush_law g ino fid pub d i d' cur intent :
  heed_get_inode ino d = Ok cur → i_id cur = ino → i_flush_intent cur = Some intent →
  i_head_gen cur = fi_snapshot_gen intent →
  heed_commit_flush_with_id g ino fid pub d = (Ok i, d') →
  heed_get_inode ino d' = Ok i ∧ @flushed _ store pub cur i d'.
Proof.
  intros Hcur Hid Hint Hgen [[_ [? ?]]|(a&[= <-]&H)]%write_txn_inv; [done|].
  unfold heed_get_inode in Hcur. apply ok_or_Ok in Hcur. unfold commit_flush_in_txn in H.
  db_step H H1; db_inv H1. db_step H H2; db_inv H2. db_step H H3; db_inv H3.
  db_step H H4; db_inv H4. apply matching_flush_intent_Ok in H3 as [H3 Hfid]. simplify_eq/=.
  db_step H Hc; cbv zeta in Hc; cbn in Hc; rewrite Hgen, N.eqb_refl in Hc;
    destruct (install_clean_cases _ _ _ _ _ _ _ Hc) as [[-> (?&?)]|(mid&ver&?&Hs&Hcase)]; simplify_eq/=.
  db_inv H. unfold heed_get_inode. cbn. rewrite lookup_insert_eq. split; [done|].
  split_and!; cbn; try done; [by eexists|].
  destruct Hcase as [(?&->&_)|(n&_&->&_&->)]; [done|]. unfold heed_get_manifest. cbn.
  rewrite lookup_insert_eq. by do 2 eexists.
Qed.

Lemma heed_commit_flush_err g ino fid pub d e d' :
  heed_commit_flush_with_id g ino fid pub d = (Err e, d') →
  ∀ id, heed_get_inode id d' = heed_get_inode id d.
Proof. intros [[-> _]|(a&[=]&_)]%write_txn_inv. done. Qed.

#[export] Instance heed_flush : @FlushStore Db store := {
  fs_begin_law _ := heed_begin_flush_law;
  fs_commit_law _ := heed_commit_flush_law;
  fs_commit_err_law _ := heed_commit_flush_err
}.
End heed.

(** ** The client's side *)

Lemma for_each_inv {S E A} (P : S → Prop) (f : A → txn S E unit) l s s' :
  (∀ x s s', P s → f x s = (Ok tt, s') → P s') → P s → for_each f l s = (Ok tt, s') → P s'.
Proof.
  intros Hf. revert s. induction l as [|x l IH]; intros s Hs H; cbn [for_each] in H.
  { unfold mret, txn_ret in H. by simplify_eq. }
  apply txn_bind_inv in H as [([]&s1&H1&H)|(e&_&[=])]. eauto.
Qed.

Lemma stream_ranges_below size i :
  N.of_nat i < (size + CHUNK_SIZE - 1) / CHUNK_SIZE → N.of_nat i * CHUNK_SIZE < size.
Proof.
  intros Hi. pose proof (div_bounds (size + CHUNK_SIZE - 1) CHUNK_SIZE ltac:(done)) as Hb.
  revert Hi Hb. generalize ((size + CHUNK_SIZE - 1) / CHUNK_SIZE). intros q Hi Hb.
  assert (CHUNK_SIZE * (N.of_nat i + 1) ≤ CHUNK_SIZE * q) by (apply N.mul_le_mono_l; lia).
  unfold CHUNK_SIZE in *. lia.
Qed.

Section flush_data.
Context {hash : bytes → ChunkId} {Mt Ct U : Type}.
Context `{!MetaStore Mt, !FlushStore Mt, !ChunkStore hash Ct}.
Context (hash_width : ∀ b, hash b < 256 ^ N.of_nat 32).
Context (u : Ufs U) `{!UfsLaws hash u}.

Abbreviation Cl := (FluxClient Mt Ct U).

(** The digest taken before a flush is the digest of the file. *)
Lemma stream_all us (Hrd : reads_agree (reader (Some u) us)) m k inode man (h : bytes) :
  file_ok (Some u) us m k inode man →
  for_each_inode_chunk (λ _, reader (Some u) us) m k inode (λ b, modify (λ h, h ++ b)) h =
  (Ok tt, h ++ slice (content (Some u) us k (i_ufs inode) (m_extents man)) 0 (N.to_nat (i_size inode))).
Proof.
  intros Hf. unfold for_each_inode_chunk, stream_ranges. set (f := content _ _ _ _ _).
  set (body := λ ol : N * N, _). set (total := N.to_nat _).
  assert (∀ n a h, (a + n = total)%nat →
    for_each body ((λ i, (N.of_nat i * CHUNK_SIZE, N.min (i_size inode - N.of_nat i * CHUNK_SIZE) CHUNK_SIZE))
                     <$> seq a n) h =
    (Ok tt, h ++ slice f (N.of_nat a * CHUNK_SIZE) (N.to_nat (i_size inode - N.of_nat a * CHUNK_SIZE)))) as Hgen.
  { induction n as [|n IH]; intros a h' Ha.
    - cbn. replace (N.to_nat _) with O; [by rewrite app_nil_r|].
      pose proof (div_bounds (i_size inode + CHUNK_SIZE - 1) CHUNK_SIZE ltac:(done)) as Hb.
      assert (N.of_nat a = (i_size inode + CHUNK_SIZE - 1) / CHUNK_SIZE) as Hq by (unfold total in Ha; lia).
      rewrite <-Hq in Hb. unfold CHUNK_SIZE in *. lia.
    - assert (N.of_nat a * CHUNK_SIZE < i_size inode) as Hlt.
      { apply stream_ranges_below. unfold total in Ha. lia. }
      cbn [seq fmap list_fmap for_each].
      set (len := N.min (i_size inode - N.of_nat a * CHUNK_SIZE) CHUNK_SIZE).
      assert (0 < len) as Hlen by (unfold len, CHUNK_SIZE in *; lia).
      assert (read_inode_range (reader (Some u) us) m k inode (N.of_nat a * CHUNK_SIZE) len =
              Ok (slice f (N.of_nat a * CHUNK_SIZE) (N.to_nat len))) as Hread.
      { rewrite (read_range_ok _ _ Hrd _ _ _ man) by done. do 2 f_equal. unfold len. lia. }
      assert (body (N.of_nat a * CHUNK_SIZE, len) h' =
              (Ok tt, h' ++ slice f (N.of_nat a * CHUNK_SIZE) (N.to_nat len))) as Hb.
      { unfold body. cbn [fst snd]. erewrite txn_bind_ok by (unfold peek; by rewrite Hread).
        unfold fail_if. rewrite length_slice, N2Nat.id, N.eqb_refl. done. }
      rewrite (txn_bind_ok _ _ h' tt _ Hb), (IH (S a)), <-app_assoc by lia. do 2 f_equal.
      set (rest := N.to_nat (i_size inode - N.of_nat (S a) * CHUNK_SIZE)).
      assert (slice f (N.of_nat (S a) * CHUNK_SIZE) rest =
              slice f (N.of_nat a * CHUNK_SIZE + N.of_nat (N.to_nat len)) rest) as ->.
      { destruct (decide (i_size inode - N.of_nat a * CHUNK_SIZE ≤ CHUNK_SIZE)).
        - assert (rest = O) as -> by (unfold rest, CHUNK_SIZE in *; lia). done.
        - f_equal. unfold len, CHUNK_SIZE in *. lia. }
      rewrite slice_app. f_equal. unfold rest, len, CHUNK_SIZE in *. lia. }
  pose proof (Hgen total 0%nat h eq_refl) as Hall. rewrite N.sub_0_r in Hall. exact Hall.
Qed.

Lemma inode_digest_ok us (Hrd : reads_agree (reader (Some u) us)) m k inode man :
  file_ok (Some u) us m k inode man →
  inode_digest (hash := hash) (reader (Some u) us) m k inode =
  Ok (hash (slice (content (Some u) us k (i_ufs inode) (m_extents man)) 0 (N.to_nat (i_size inode)))).
Proof. intros Hf. unfold inode_digest. by rewrite (stream_all us Hrd m k inode man []). Qed.

Lemma upload_ok inode object intent (c : Cl) pub c' :
  upload (Some u) u inode object intent c = (Ok (inl pub), c') →
  ul_wf (fc_ufs_state c) → ul_key (uo_key object) → i_size inode ≤ U64_MAX →
  fc_meta c' = fc_meta c ∧ fc_chunks c' = fc_chunks c ∧ ul_wf (fc_ufs_state c') ∧
  uo_key pub = uo_key object ∧
  ∃ sent, hash sent = fi_target_digest intent ∧ N.of_nat (length sent) = i_size inode ∧
          serves u (fc_ufs_state c') (uo_key object) pub sent.
Proof.
  intros H Hwf Hkey Hmax. unfold upload, on_ufs in H.
  destruct (ufs_begin_verified_publish u _ _ _ _ _) as [[w|e] s1] eqn:Hb; [|by destruct e].
  apply ul_begin in Hb as [Hwf1 Hw]; [|done]. destruct (Hw w eq_refl) as (Hok&Hk&Hs&Hd&_). clear Hw.
  unfold on_publish in H. cbn [fc_ufs_state set_ufs_state fc_meta fc_chunks] in H.
  destruct (for_each_inode_chunk _ _ _ _ _ _) as [[[]|e] [w1 s2]] eqn:Hst; cbn in H.
  2: { by destruct (ufs_abort u _) as [? [? ?]]. }
  unfold for_each_inode_chunk in Hst.
  apply (for_each_inv (λ ws, ul_wf ws.2 ∧ uw_ok ws.1 ws.2 ∧ uw_key ws.1 = uw_key w ∧
           uw_size ws.1 = uw_size w ∧ uw_digest ws.1 = uw_digest w)) in Hst as (Hwf2&Hok2&Hk2&Hs2&Hd2); [|clear Hst|done].
  2: { intros ol [w2 s3] [w3 s4] (Hwf3&Hok3&Hk3&Hs3&Hd3) Hx. cbn in *.
       apply txn_bind_inv in Hx as [(b&x1&Hx1&Hx)|(e&_&[=])]. unfold peek in Hx1. simplify_eq/=.
       apply txn_bind_inv in Hx as [([]&x2&Hx2&Hx)|(e&_&[=])]. unfold fail_if in Hx2. simplify_eq/=.
       apply ul_write in Hx as [Hwf4 Hx]; [|done..]. destruct (Hx eq_refl) as (?&?&?&?&?).
       split_and!; congruence. }
  cbn in *. destruct (ufs_finish u w1 s2) as [[obj|e] s3] eqn:Hfin; [|by destruct e].
  simplify_eq/=. apply ul_finish in Hfin as (Hwf3&Hh&Hl&Hko&Hserve); [|done..|congruence|congruence].
  split_and!; [done..|congruence|]. exists (uw_sent w1). rewrite Hk2, Hk in Hserve. split_and!; [congruence..|done].
Qed.

Lemma commit_retry_ok tries ids ino fid pub (c : Cl) i c' cur intent :
  commit_flush_retry tries ids ino fid pub c = (Ok i, c') →
  ms_get_inode ino (fc_meta c) = Ok cur → i_id cur = ino → i_flush_intent cur = Some intent →
  i_head_gen cur = fi_snapshot_gen intent →
  ms_get_inode ino (fc_meta c') = Ok i ∧ flushed pub cur i (fc_meta c') ∧
  fc_chunks c' = fc_chunks c ∧ fc_ufs_state c' = fc_ufs_state c.
Proof.
  revert ids c. induction tries as [|tries IH]; intros ids c H Hcur Hid Hint Hgen; [done|].
  cbn [commit_flush_retry] in H.
  rewrite (txn_bind_ok _ _ c cur c) in H by (unfold read_meta; by rewrite Hcur).
  unfold match_with, on_meta, ms_commit_flush in H.
  destruct (ms_commit_flush_with_id _ _ _ _ _ _) as [[i1|e] s1] eqn:Hc.
  - unfold mret, txn_ret in H. injection H as <- <-. destruct (fs_commit_law _ _ _ _ _ _ _ _ _ _ Hcur Hid Hint Hgen Hc).
    done.
  - pose proof (fs_commit_err_law _ _ _ _ _ _ _ _ Hc) as Hsame.
    destruct e; try done. apply IH in H as (?&?&?&?); [done| |done..]. cbn. by rewrite Hsame.
Qed.

Lemma record_conflict_err tries ino fid msg (c : Cl) i c' :
  record_flush_conflict tries ino fid msg c ≠ (Ok i, c').
Proof.
  revert c. induction tries as [|tries IH]; intros c H; [done|]. cbn [record_flush_conflict] in H.
  apply txn_bind_inv in H as [(cur&c1&_&H)|(e&_&[=])]. unfold match_with in H.
  destruct (on_meta _ c1) as [[?|e] c2]; [done|]. destruct e; try done. by apply IH in H.
Qed.

(** A flushed file reads as the object. *)
Lemma flushed_reads pub cur i (c : Cl) data :
  ms_get_inode (i_id cur) (fc_meta c) = Ok i → flushed pub cur i (fc_meta c) →
  i_file_type cur = Regular → N.of_nat (length data) = i_size cur → i_size cur ≤ U64_MAX →
  serves u (fc_ufs_state c) (uo_key pub) pub data →
  read_all (Some u) (i_id cur) c = (Ok data, c).
Proof.
  intros Hi (Hid&Ht&Hs&_&Hu&_&Hm) Hreg Hlen Hmax Hserve. unfold read_all.
  rewrite (txn_bind_ok _ _ c i c) by (unfold read_meta; by rewrite Hi).
  unfold view. f_equal. unfold read_inode_range. rewrite bool_decide_false by (rewrite Ht, Hreg; naive_solver).
  destruct (i_manifest_id i) as [mid|].
  2: { destruct data; [done|]. cbn in Hlen. lia. }
  destruct (decide (i_size i = 0)) as [Hz|Hz].
  { rewrite Hz. cbn. destruct data; [done|]. cbn in Hlen. lia. }
  rewrite (proj2 (N.eqb_neq _ _)), (proj2 (N.leb_gt _ _)) by lia. cbn [orb].
  destruct Hm as (m&ver&->&Hext). cbn [mbind result_bind]. rewrite Hext. rewrite sat_add_small by lia.
  replace (N.min (0 + i_size i) (i_size i)) with (i_size i) by lia. cbn [iter fmap list_fmap snd read_extents].
  unfold read_extent. cbn [ext_offset ext_len]. rewrite sat_add_small by lia.
  replace (N.max 0 0) with 0 by lia. replace (N.min (i_size i) (0 + i_size i)) with (i_size i) by lia.
  rewrite (proj2 (N.leb_gt _ _)) by lia. rewrite !N.sub_0_r. cbn [extent_bytes]. rewrite Hu. cbn [ok_or mbind result_bind].
  unfold ufs_read_range. cbn [reader fmap option_fmap option_map ok_or mbind result_bind].
  rewrite sat_add_small by lia. rewrite ?N.add_0_l. rewrite (Hserve 0 (i_size i)) by lia. cbn [mbind result_bind].
  rewrite drop_0, take_ge by lia. rewrite Hlen, Hs, N.eqb_refl. cbn. unfold splice. cbn.
  rewrite drop_ge; [by rewrite app_nil_r|]. rewrite length_replicate. lia.
Qed.

(** The second half of a flush: the intent is durable, the digest is that of
    [old]. *)
Lemma complete_ok ids ino intent (c : Cl) i' c' inode old :
  (∀ b, length b = length old → hash b = hash old → b = old) →
  ms_get_inode ino (fc_meta c) = Ok inode → i_id inode = ino → i_file_type inode = Regular →
  i_flush_intent inode = Some intent → i_head_gen inode = fi_snapshot_gen intent →
  fi_target_digest intent = hash old → N.of_nat (length old) = i_size inode → i_size inode ≤ U64_MAX →
  (∀ object, i_ufs inode = Some object → ul_key (uo_key object)) → ul_wf (fc_ufs_state c) →
  complete_flush_intent (Some u) ids ino intent c = (Ok i', c') →
  read_all (Some u) ino c' = (Ok old, c') ∧ ms_get_inode ino (fc_meta c') = Ok i' ∧
  fc_chunks c' = fc_chunks c ∧
  ∃ object pub, i_ufs inode = Some object ∧ uo_key pub = uo_key object ∧
    flushed pub inode i' (fc_meta c') ∧ serves u (fc_ufs_state c') (uo_key pub) pub old.
Proof.
  intros Hpre Hino Hid Hreg Hint Hgen Hdig Hlen Hmax Hkey Hwf H. unfold complete_flush_intent in H.
  rewrite (txn_bind_ok _ _ c u c) in H by done.
  rewrite (txn_bind_ok _ _ c inode c) in H by (unfold read_meta; by rewrite Hino).
  rewrite (txn_bind_ok _ _ c tt c) in H by (unfold fail_if; rewrite Hint; by rewrite bool_decide_false by naive_solver).
  apply txn_bind_inv in H as [(object&c1&Hx&H)|(e&_&[=])].
  apply pair_equal_spec in Hx as [Hobj%ok_or_Ok <-].
  apply txn_bind_inv in H as [(mid&c1&Hx&H)|(e&_&[=])]. apply pair_equal_spec in Hx as [_ <-].
  apply txn_bind_inv in H as [(m&c1&Hx&H)|(e&_&[=])]. apply pair_equal_spec in Hx as [_ <-].
  destruct (negb _) in H; [by apply record_conflict_err in H|].
  apply txn_bind_inv in H as [(found&c1&Hx&H)|(e&_&[=])]. apply pair_equal_spec in Hx as [Hfind <-].
  apply txn_bind_inv in H as [(outcome&c1&Hout&H)|(e&_&[=])].
  destruct outcome as [pub|msg]; [|by apply record_conflict_err in H].
  assert (fc_meta c1 = fc_meta c ∧ fc_chunks c1 = fc_chunks c ∧ uo_key pub = uo_key object ∧
          serves u (fc_ufs_state c1) (uo_key pub) pub old) as (Hm1&Hk1&Hpk&Hserve).
  { destruct found as [pub'|].
    - unfold mret, txn_ret in Hout. injection Hout as <- <-.
      apply ul_find in Hfind as (Hpk&data&Hh&Hl&Hserve); [|done|by apply Hkey|done|rewrite Hdig; apply hash_width].
      rewrite Hpk. assert (data = old) as ->; [|done]. apply Hpre; [lia|congruence].
    - apply upload_ok in Hout as (?&?&_&Hpk&sent&Hh&Hl&Hserve); [|done|by apply Hkey|done].
      rewrite Hpk. assert (sent = old) as ->; [|done]. apply Hpre; [lia|congruence]. }
  apply (commit_retry_ok _ _ _ _ _ _ _ _ inode intent) in H as (Hi'&Hfl&Hk2&Hu2); [|by rewrite Hm1|done..].
  rewrite <-Hu2 in Hserve. split_and!; [|done|congruence|eauto 10].
  rewrite <-Hid. rewrite <-Hid in Hi'. by eapply flushed_reads.
Qed.

(** C19: a flush keeps the contents of a file.  When flushing a well-formed
    dirty file succeeds, the file reads exactly as before, now from the
    object that was published: the inode is clean, carries no intent, and
    pins an object under the old key that serves every range of the old
    bytes.  No chunk is touched.  [old] has no second preimage of its length
    under the hash. *)
Theorem flush_preserves fid ids ino (c : Cl) i' c' inode man fields old :
  reads_agree (reader (Some u) (fc_ufs_state c)) → ul_wf (fc_ufs_state c) →
  ms_get_inode ino (fc_meta c) = Ok inode → i_id inode = ino →
  file_ok (Some u) (fc_ufs_state c) (fc_meta c) (fc_chunks c) inode man →
  i_locality_fields inode = Some fields → lf_backing_mode fields ≠ BEphemeral →
  lf_data_state fields = Dirty → i_flush_intent inode = None →
  (∀ object, i_ufs inode = Some object → ul_key (uo_key object)) →
  read_all (Some u) ino c = (Ok old, c) →
  (∀ b, length b = length old → hash b = hash old → b = old) →
  flush_inode (Some u) fid ids ino c = (Ok i', c') →
  read_all (Some u) ino c' = (Ok old, c') ∧ ms_get_inode ino (fc_meta c') = Ok i' ∧
  i_flush_intent i' = None ∧ (∃ f, i_locality_fields i' = Some f ∧ lf_data_state f = UfsClean) ∧
  fc_chunks c' = fc_chunks c ∧
  ∃ object pub, i_ufs inode = Some object ∧ i_ufs i' = Some pub ∧ uo_key pub = uo_key object ∧
    serves u (fc_ufs_state c') (uo_key pub) pub old.
Proof.
  intros Hrd Hwf Hino Hid Hf Hfields Hback Hdirty Hnone Hkey Hold Hpre H. pose proof (fo_wf _ _ _ _ _ _ Hf) as Hw.
  rewrite (read_all_ok _ _ Hrd _ _ _ man eq_refl Hino Hf) in Hold.
  apply pair_equal_spec in Hold as [[= Hold] _]. unfold flush_inode in H.
  rewrite (txn_bind_ok _ _ c inode c) in H by (unfold read_meta; by rewrite Hino).
  rewrite (txn_bind_ok _ _ c tt c) in H.
  2: { unfold fail_if. by rewrite bool_decide_false by (rewrite (fw_type _ _ _ _ _ Hw); naive_solver). }
  rewrite (txn_bind_ok _ _ c fields c) in H by (unfold lift; by rewrite Hfields).
  rewrite Hdirty, Hnone, (bool_decide_false (lf_backing_mode fields = BEphemeral)) in H by done. cbn [bool_decide] in H.
  rewrite !bool_decide_false in H by naive_solver. cbn [orb] in H.
  apply txn_bind_inv in H as [(intent&c1&Hx&H)|(e&_&[=])]. apply pair_equal_spec in Hx as [Hint <-].
  assert (fi_target_digest intent = hash old ∧ fi_snapshot_gen intent = i_head_gen inode) as [Hdig Hsnap].
  { unfold new_intent in Hint. apply bind_Ok in Hint as (mid&_&Hint). apply bind_Ok in Hint as (m&_&Hint).
    destruct (_ || _) in Hint; [done|]. rewrite (inode_digest_ok _ Hrd _ _ _ man Hf) in Hint. cbn [mbind result_bind] in Hint.
    apply bind_Ok in Hint as (t&_&Hint). apply bind_Ok in Hint as (ex&_&Hint). injection Hint as <-.
    cbn. by rewrite Hold. }
  apply txn_bind_inv in H as [(i1&c1&Hx&H)|(e&_&[=])]. unfold on_meta, ms_begin_flush in Hx.
  destruct (ms_begin_flush_with_id _ _ _ _ _) as [r1 s1] eqn:Hb. apply pair_equal_spec in Hx as [-> <-].
  rewrite Hid in Hb. apply (fs_begin_law _ _ _ _ _ _ _ inode) in Hb as (Hi1&Hin1&(Hd1&Ht1&Hs1&Hg1&_&Hu1)&_&_); [|done..].
  rewrite Hid in H, Hd1.
  apply (complete_ok _ _ _ _ _ _ i1 old) in H as (Hread&Hi'&Hk&object&pub&Ho&Hpk&(_&_&_&Hfi&Hui&Hcl&_)&Hserve); try done.
  - split_and!; [done..|]. exists object, pub. by rewrite <-Hu1.
  - by rewrite Ht1, (fw_type _ _ _ _ _ Hw).
  - congruence.
  - rewrite <-Hold, length_slice, Hs1. lia.
  - rewrite Hs1. apply Hw.
  - intros o. rewrite Hu1. apply Hkey.
Qed.
End flush_data.

(** ** Witness: an embedded store, a pack store and an object store in memory *)

#[local] Instance flush_meta : MetaStore Db := heed_meta (λ _, 7%Z) 1000 (λ _, "").
#[local] Instance flush_store : FlushStore Db := heed_flush (λ _, 7%Z) 1000 (λ _, "").
#[local] Instance flush_chunks : ChunkStore toy_hash PackStore := pack_chunk_store toy_hash toy_hash_width.
Definition mem_ufs : Ufs Mem :=
  opendal_ufs toy_hash (mem_operator "s3") "" ReadPathConfig_default (λ _ _, "") "n".
#[local] Instance mem_ufs_laws : UfsLaws toy_hash mem_ufs :=
  opendal_laws toy_hash toy_hash_width (mem_operator "s3") "" ReadPathConfig_default (λ _ _, "") "n"
    ltac:(done) ltac:(done).

Definition dirty_fields : LocalityFields := mkLocalityFields UfsBacked Dirty OpNone Imported.
Definition dirty_object : UfsObject := mkUfsObject "f" 1 (Some (to_hex 0)) None.
Definition dirty_inode : Inode :=
  set_ufs (Some dirty_object) (set_manifest_id (Some 1) (set_size 3
    (set_locality_fields (Some dirty_fields) (new_node 2 Regular 420 0 0 None 0%Z)))).
Definition dirty_manifest : Manifest := mkManifest 2 1 3 [(0, Local 0 3 (toy_hash demo_data))].
Definition dirty_db : Db :=
  upd_next_manifest (λ _, Some 2) (upd_manifests (λ _, {[1 := dirty_manifest]})
    (upd_inodes (λ _, {[2 := dirty_inode]}) empty_db)).
Definition dirty_client : FluxClient Db PackStore Mem :=
  client_new dirty_db (put toy_hash demo_data new_store).2 ({["f" := ([x61]%byte, 0, ∅)]}, 1).
Definition flush_ids (i : nat) : RequestOpId := 11 + N.of_nat i.

Lemma dirty_file_ok :
  file_ok (Some mem_ufs) (fc_ufs_state dirty_client) (fc_meta dirty_client) (fc_chunks dirty_client)
    dirty_inode dirty_manifest.
Proof.
  split; [vm_compute; reflexivity| |done]. split; try done.
  - intros e ->%list_elem_of_singleton. done.
  - intros o l c [= -> -> ->]%list_elem_of_singleton. done.
  - intros e ->%list_elem_of_singleton. exists demo_data. split; [done|]. vm_compute. reflexivity.
Qed.

Lemma toy_hash_short a b :
  (length a ≤ 32)%nat → length b = length a → toy_hash b = toy_hash a → b = a.
Proof.
  intros Ha Hl H. unfold toy_hash in H.
  assert (∀ l, (length l ≤ 32)%nat → of_le_bytes l < 256 ^ N.of_nat 32) as Hb.
  { intros l Hle. eapply N.lt_le_trans; [apply of_le_bytes_bound|]. apply N.pow_le_mono_r; lia. }
  rewrite !N.mod_small in H by (apply Hb; lia).
  by rewrite <-(le_bytes_of_le b), <-(le_bytes_of_le a), Hl, H.
Qed.

Lemma opendal_reads_agree {U} hash (op : Operator U) prefix config foyer_text nonce us :
  0 < part_size config → reads_agree (reader (Some (opendal_ufs hash op prefix config foyer_text nonce)) us).
Proof. intros Hps read key obj off len d [= <-] Hr Hlen i n Hn Hle. by apply (read_within _ _ _ _ _ Hps _ _ _ len). Qed.

Lemma dirty_digests : digests_true toy_hash (mem_operator "s3") (fc_ufs_state dirty_client).
Proof.
  intros key data md d H Hd Hm. unfold objects in H. cbn in H. rewrite lookup_fmap, fmap_Some in H.
  destruct H as (o&[<- <-]%lookup_singleton_Some&H). injection H as -> ->. cbn in Hm. done.
Qed.

Lemma flush_preserves_witness :
  ∃ i' c', flush_inode (Some mem_ufs) 9 flush_ids 2 dirty_client = (Ok i', c') ∧
    read_all (Some mem_ufs) 2 c' = (Ok demo_data, c').
Proof.
  assert (match flush_inode (Some mem_ufs) 9 flush_ids 2 dirty_client with (Ok _, _) => true | _ => false end = true)
    as Hok by (vm_compute; reflexivity).
  assert (match read_all (Some mem_ufs) 2 dirty_client with (Ok b, _) => bool_decide (b = demo_data) | _ => false end = true)
    as Hr by (vm_compute; reflexivity).
  destruct (flush_inode _ _ _ _ _) as [[i'|e] c'] eqn:Hf; [|done]. exists i', c'. split; [done|].
  assert (reads_agree (reader (Some mem_ufs) (fc_ufs_state dirty_client))) as Hrd by by apply opendal_reads_agree.
  eapply (flush_preserves toy_hash_width mem_ufs 9 flush_ids 2 dirty_client i' c' dirty_inode dirty_manifest
    dirty_fields demo_data).
  - done.
  - exact dirty_digests.
  - vm_compute. reflexivity.
  - done.
  - exact dirty_file_ok.
  - done.
  - done.
  - done.
  - done.
  - intros object [= <-]. done.
  - assert (ms_get_inode 2 (fc_meta dirty_client) = Ok dirty_inode) as Hg by (vm_compute; reflexivity).
    rewrite (read_all_ok _ _ Hrd 2 _ _ _ eq_refl Hg dirty_file_ok) in *. by apply bool_decide_eq_true in Hr as ->.
  - intros b Hb. apply toy_hash_short; [vm_compute; lia|done].
  - done.
Defined.
