(* ===== verification/ApplyInv.v ===== *)
(** * Invariants of the metadata state machine

    Every request that [apply_raft_request] can run keeps the store
    invariant, the worker registry and the ledger within bounds, whether it
    answers with a value or with an error; the ledger makes retries safe; a
    held collection lease freezes the store. *)

From S2P Require Import MetaDb Namespace NamespaceInv Evolve Rename InodeData Gc GcInv.
From S2P Require Import Membership Ledger Apply Frame.

Local Open Scope N_scope.

(** ** The state-machine invariant *)

Record sm_inv (d : Db) : Prop := {
  sm_store : store_inv d;
  sm_workers : membership_ok (membership_of d);
  sm_ledger : N.of_nat (size (client_requests d)) ≤ CLIENT_REQUEST_LEDGER_SOFT_CAP
}.

(** What clients owe the store: an inode row they submit is derived from the
    one whose generation they name, and an imported template is a fresh
    external node without local chunks. *)
Definition admissible (d : Db) (o : MetaRaftOp) : Prop :=
  match o with
  | PutInode inode =>
      ∃ current, inodes d !! i_id inode = Some current ∧ client_inode current inode ∧
                 i_manifest_id inode = i_manifest_id current
  | CommitInodeManifest g inode _ | CommitInodeManifestReserved _ g inode _ =>
      ∀ current, inodes d !! i_id inode = Some current → i_generation current = g →
                 client_inode current inode
  | ImportExternal _ _ template manifest _ =>
      importable template ∧ flush_ok template ∧
      ∀ m, manifest = Some m → local_chunks m = []
  | _ => True
  end.

Lemma no_local_chunks m : manifest_has_local m = false → local_chunks m = [].
Proof.
  unfold manifest_has_local, local_chunks. induction (iter _) as [|e l IH]; [done|].
  simpl. intros [He Hl]%orb_false_iff. destruct e; [discriminate He|]. auto.
Qed.

Lemma respond_inv {A} (m : M A) f d r d' :
  respond m f d = (r, d') →
  ∃ r0, m d = (r0, d') ∧ r = Ok (match r0 with Ok a => f a | Err e => RErr e end).
Proof.
  unfold respond, try_catch. destruct (m d) as [[a|e] d1]; intros [= <- <-]; eauto.
Qed.

Lemma keeps_run {A} I (m : M A) d r d' : keeps I m → I d → m d = (r, d') → I d'.
Proof. intros H ??. by eapply H. Qed.

Lemma store_ledger d f : store_inv d → store_inv (upd_client_requests f d).
Proof. by apply same_store_inv. Qed.

Lemma prune_same cutoff limit d r d' :
  prune_client_requests_in_txn cutoff limit d = (r, d') →
  ∃ f, d' = upd_client_requests f d ∧ f (client_requests d) ⊆ client_requests d.
Proof.
  rewrite prune_run. intros [= _ <-]. eexists. split; [done|]. apply map_filter_subseteq.
Qed.

Lemma dispatch_store now o d r d' :
  store_inv d → store_room d → membership_ok (membership_of d) → admissible d o →
  dispatch now o d = (r, d') → store_inv d'.
Proof.
  intros Hst Hroom Hmem Hadm H.
  assert (ns_inv d) as Hns by apply Hst. assert (room d) as Hrm by apply Hroom.
  destruct o; cbn [dispatch] in H; simpl in Hadm;
    try (destruct (manifest_has_local _) eqn:Hloc; [by injection H as <- <-|]);
    apply respond_inv in H as (r0&H&->).
  - apply register_worker_cases in H; [|done]. destruct r0; [|by rewrite (H : d' = d)].
    destruct H as [-> _]. by apply same_store_inv with d.
  - eapply store_evolves; [done|by eapply create_evolves|by eapply create_node_keeps].
  - eapply store_evolves; [done|by eapply symlink_evolves|by eapply symlink_keeps].
  - destruct Hadm as (cur&Hc&[Hd Hf]&Hmid). injection H as _ <-. by eapply store_put_same.
  - by eapply put_inode_cas_store.
  - by eapply put_manifest_store.
  - eapply commit_manifest_store; try done. rewrite (no_local_chunks _ Hloc). set_solver.
  - by eapply reserve_store.
  - by eapply abort_store.
  - apply txn_bind_inv in H as [(n&d1&H1&H2)|(e&H1&_)]; [|by eapply expire_store].
    apply prune_same in H2 as (f&->&_). eapply store_ledger, expire_store; done.
  - apply prune_same in H as (f&->&_). by apply store_ledger.
  - by eapply commit_reserved_store.
  - destruct (tombstone_batch_run candidates d Hst) as (l&rm&d1&Hrun&_&Hst1&_). congruence.
  - by eapply finalize_store.
  - by eapply initialize_store.
  - by eapply acknowledge_store.
  - by eapply begin_flush_store.
  - by eapply commit_flush_store.
  - by eapply fail_flush_store.
  - by eapply begin_gc_store.
  - by eapply finish_gc_store.
  - destruct Hadm as (?&?&?). by eapply import_store.
  - eapply store_evolves; [done|by eapply unlink_evolves|by eapply unlink_keeps].
  - eapply store_evolves; [done|by eapply open_evolves|by eapply open_keeps].
  - eapply store_evolves; [done|by eapply close_evolves|by eapply close_keeps].
  - eapply store_evolves; [done|by eapply recover_evolves|by eapply recover_keeps].
  - eapply store_evolves; [done|by eapply link_evolves|by eapply link_keeps].
  - eapply store_evolves; [done|by eapply set_xattr_evolves|by eapply set_xattr_keeps].
  - eapply store_evolves; [done|by eapply remove_xattr_evolves|by eapply remove_xattr_keeps].
  - eapply store_evolves; [done|by eapply rmdir_evolves|by eapply rmdir_keeps].
  - destruct (rename_cases _ _ _ _ _ _ _ _ _ _ _ Hns Hrm H) as (?&?&_).
    by eapply store_evolves.
Qed.

(** ** The ledger and the registry across a request *)

Lemma dispatch_total now o d : ∃ resp d', dispatch now o d = (Ok resp, d').
Proof.
  destruct (dispatch now o d) as [r d'] eqn:H. exists (default REmpty (match r with
    | Ok a => Some a | Err _ => None end)), d'. f_equal.
  destruct o; cbn [dispatch] in H; try (destruct (manifest_has_local _);
    [by injection H as <- <-|]); apply respond_inv in H as (?&_&->); done.
Qed.

(** The time up to which a request may drop ledger rows, besides its own
    stamp. *)
Definition op_cutoff (o : MetaRaftOp) : N :=
  match o with
  | ExpireChunkReservations cutoff _ | PruneClientRequests cutoff _ => cutoff
  | _ => 0
  end.

(** Rows of [d] that outlive [cutoff] are in [d'], and [d'] has no others. *)
Definition ledger_pruned (cutoff : N) (d d' : Db) : Prop :=
  client_requests d' ⊆ client_requests d ∧
  ∀ k e, client_requests d !! k = Some e → cutoff < expires_at_unix_ms e →
         client_requests d' !! k = Some e.

Lemma ledger_pruned_same cutoff d d' :
  client_requests d' = client_requests d → ledger_pruned cutoff d d'.
Proof. intros H. split; rewrite H; auto. Qed.

Lemma prune_pruned cutoff limit d r d' :
  prune_client_requests_in_txn cutoff limit d = (r, d') →
  ledger_pruned cutoff d d' ∧ worker_membership d' = worker_membership d ∧
  gc_lease d' = gc_lease d.
Proof.
  rewrite prune_run. intros [= _ <-]. split; [|done]. split; simpl; [apply map_filter_subseteq|].
  intros k e He Hlt. apply map_lookup_filter_Some. split; [done|]. simpl.
  intros (e'&?&?)%pruned_expired. simplify_eq. lia.
Qed.

Lemma begin_gc_aux lease d r d' :
  begin_gc_in_txn lease d = (r, d') →
  client_requests d' = client_requests d ∧ worker_membership d' = worker_membership d.
Proof.
  intros H. unfold begin_gc_in_txn in H. rewrite txn_bind_gets in H.
  destruct (gc_lease d) as [l|]; [by destruct (l =? lease); db_inv H|].
  rewrite txn_bind_modify, !txn_bind_gets in H. cbv zeta in H.
  erewrite txn_bind_ok in H by apply for_each_modify. rewrite fold_upd_manifests in H.
  by db_inv H.
Qed.

Lemma register_ledger reg d r d' :
  register_worker_in_txn reg d = (r, d') → client_requests d' = client_requests d.
Proof.
  assert (keeps (λ x, client_requests x = client_requests d) (register_worker_in_txn reg)) as Hk;
    [|by eapply Hk].
  unfold register_worker_in_txn.
  repeat first [apply keeps_bind; [|intros ?]|case_match|by apply keeps_modify
    |solve [auto with fluxfs nocore]].
Qed.

Lemma dispatch_ledger now o d r d' :
  dispatch now o d = (r, d') → ledger_pruned (op_cutoff o) d d'.
Proof.
  intros H. destruct (store_op o) eqn:Ho.
  { assert (aux d' = aux d) as Ha by (by eapply (dispatch_framed now o)).
    unfold aux in Ha. injection Ha as _ Hc _ _ _. by apply ledger_pruned_same. }
  destruct o; try discriminate Ho; cbn [dispatch] in H; apply respond_inv in H as (r0&H&->).
  - apply ledger_pruned_same. by eapply register_ledger.
  - apply txn_bind_inv in H as [(n&d1&H1&H2)|(e&H1&_)].
    + assert (aux d1 = aux d) as Ha by (by eapply (expire_framed (f := aux))).
      unfold aux in Ha. injection Ha as _ Hc _ _ _.
      apply prune_pruned in H2 as ([Hsub Hkeep]&_). split; rewrite <-Hc; auto.
    + assert (aux d' = aux d) as Ha by (by eapply (expire_framed (f := aux))).
      unfold aux in Ha. injection Ha as _ Hc _ _ _. by apply ledger_pruned_same.
  - by apply prune_pruned in H as [? _].
  - apply ledger_pruned_same. by apply begin_gc_aux in H as [Hc _].
  - apply ledger_pruned_same. unfold finish_gc_in_txn in H. by db_inv H.
Qed.

Lemma dispatch_workers now o d r d' :
  membership_ok (membership_of d) → dispatch now o d = (r, d') →
  membership_ok (membership_of d').
Proof.
  intros Hmem H. unfold membership_of in *. destruct (store_op o) eqn:Ho.
  { assert (aux d' = aux d) as Ha by (by eapply (dispatch_framed now o)).
    unfold aux in Ha. injection Ha as Hw _ _ _ _. by rewrite Hw. }
  destruct o; try discriminate Ho; cbn [dispatch] in H; apply respond_inv in H as (r0&H&->).
  - apply register_worker_cases in H; [|done]. destruct r0 as [m|e].
    + by destruct H as (->&?&_).
    + by rewrite (H : d' = d).
  - apply txn_bind_inv in H as [(n&d1&H1&H2)|(e&H1&_)].
    + assert (aux d1 = aux d) as Ha by (by eapply (expire_framed (f := aux))).
      unfold aux in Ha. injection Ha as Hw _ _ _ _.
      apply prune_pruned in H2 as (_&Hw1&_). by rewrite Hw1, Hw.
    + assert (aux d' = aux d) as Ha by (by eapply (expire_framed (f := aux))).
      unfold aux in Ha. injection Ha as Hw _ _ _ _. by rewrite Hw.
  - apply prune_pruned in H as (_&Hw&_). by rewrite Hw.
  - apply begin_gc_aux in H as [_ Hw]. by rewrite Hw.
  - unfold finish_gc_in_txn in H. by db_inv H.
Qed.

(** ** One log entry *)

Definition ledger_key (id : RequestOpId) : string := RequestOpId_to_hex id.

(** The row of [id] that still answers at [t]. *)
Definition live_row (d : Db) (id : RequestOpId) (t : N) : option ClientRequestLedgerEntry :=
  match client_requests d !! ledger_key id with
  | Some e => if expires_at_unix_ms e <=? t then None else Some e
  | None => None
  end.

(** The database after the prune that precedes a new request. *)
Definition after_prune (t : N) (d : Db) : Db :=
  (prune_client_requests_in_txn t CLIENT_REQUEST_PRUNE_BATCH d).2.

Definition ledger_full (d : Db) : Prop :=
  CLIENT_REQUEST_LEDGER_SOFT_CAP ≤ N.of_nat (size (client_requests d)).

Inductive applied (now : nat → Z) (req : MetaRaftRequest) (d : Db) :
    MetaRaftResponse → Db → Prop :=
  | applied_anonymous resp d0 :
      dedup_id req = None → execute now (op req) d = (Ok resp, d0) →
      applied now req d resp d0
  | applied_cached id e :
      dedup_id req = Some id → live_row d id (ledger_now_unix_ms req) = Some e →
      applied now req d (response e) d
  | applied_full id :
      dedup_id req = Some id → live_row d id (ledger_now_unix_ms req) = None →
      ledger_full (after_prune (ledger_now_unix_ms req) d) →
      applied now req d (RErr Busy) (after_prune (ledger_now_unix_ms req) d)
  | applied_new id resp d0 :
      dedup_id req = Some id → live_row d id (ledger_now_unix_ms req) = None →
      ¬ ledger_full (after_prune (ledger_now_unix_ms req) d) →
      execute now (op req) (after_prune (ledger_now_unix_ms req) d) = (Ok resp, d0) →
      applied now req d resp
        (upd_client_requests <[ledger_key id :=
           mkLedgerEntry (ledger_now_unix_ms req)
             (sat_add (ledger_now_unix_ms req) CLIENT_REQUEST_RETENTION_MS) resp]> d0).

Lemma execute_total now o d : ∃ resp d', execute now o d = (Ok resp, d').
Proof.
  unfold execute. rewrite txn_bind_gets. destruct (_ && _); [by eexists _, _|].
  apply dispatch_total.
Qed.

Lemma get_client_request_run id t d :
  get_client_request_in_txn (RequestOpId_to_hex id) t d = (Ok (response <$> live_row d id t), d).
Proof.
  unfold get_client_request_in_txn, live_row, ledger_key. rewrite txn_bind_gets.
  destruct (client_requests d !! _) as [e|]; [|done]. by destruct (_ <=? _).
Qed.

Lemma after_prune_run t d :
  ∃ n, prune_client_requests_in_txn t CLIENT_REQUEST_PRUNE_BATCH d = (Ok n, after_prune t d).
Proof. eexists. unfold after_prune. by rewrite prune_run. Qed.

Lemma apply_run now req sm d :
  ∃ resp d0, apply_raft_request now req sm d = (Ok resp, save_sm_meta_only sm d0) ∧
             applied now req d resp d0.
Proof.
  unfold apply_raft_request. cbv zeta. destruct (dedup_id req) as [id|] eqn:Hid.
  - erewrite txn_bind_ok by apply get_client_request_run.
    destruct (live_row d id (ledger_now_unix_ms req)) as [e|] eqn:Hrow; cbn [fmap option_fmap option_map].
    + eexists _, _. split; [done|]. by eapply applied_cached.
    + destruct (after_prune_run (ledger_now_unix_ms req) d) as [n Hn].
      erewrite txn_bind_ok by exact Hn. unfold client_request_count_in_txn.
      rewrite txn_bind_gets. destruct (CLIENT_REQUEST_LEDGER_SOFT_CAP <=? _) eqn:Hcap; bools.
      * eexists _, _. split; [done|]. by eapply applied_full.
      * destruct (execute_total now (op req) (after_prune (ledger_now_unix_ms req) d))
          as (resp&d0&Hex). erewrite txn_bind_ok by exact Hex.
        eexists _, _. split; [done|]. eapply applied_new; try done. unfold ledger_full. lia.
  - destruct (execute_total now (op req) d) as (resp&d0&Hex).
    erewrite txn_bind_ok by exact Hex. eexists _, _. split; [done|]. by apply applied_anonymous.
Qed.

Lemma apply_inv now req sm d r d' :
  apply_raft_request now req sm d = (r, d') →
  ∃ resp d0, r = Ok resp ∧ d' = save_sm_meta_only sm d0 ∧ applied now req d resp d0.
Proof.
  intros H. destruct (apply_run now req sm d) as (resp&d0&Hrun&Ha).
  rewrite Hrun in H. injection H as <- <-. eauto.
Qed.

Lemma after_prune_pruned t d : ledger_pruned t d (after_prune t d).
Proof. destruct (after_prune_run t d) as [n Hn]. by eapply prune_pruned. Qed.

Lemma after_prune_same t d : ∃ f, after_prune t d = upd_client_requests f d.
Proof. unfold after_prune. rewrite prune_run. by eexists. Qed.

Lemma sm_inv_pruned cutoff d d' :
  sm_inv d → store_inv d' → membership_ok (membership_of d') →
  ledger_pruned cutoff d d' → sm_inv d'.
Proof.
  intros [_ _ Hl] Hst Hm [Hsub _]. split; try done.
  apply map_subseteq_size in Hsub. lia.
Qed.

Lemma sm_inv_after_prune t d : sm_inv d → sm_inv (after_prune t d).
Proof.
  intros Hsm. destruct (after_prune_same t d) as [f Hf].
  apply (sm_inv_pruned t d); [done| | |apply after_prune_pruned]; rewrite Hf.
  - apply store_ledger, Hsm.
  - apply Hsm.
Qed.

Lemma execute_cases now o d r d' :
  execute now o d = (r, d') →
  (r = Ok (RErr Busy) ∧ d' = d) ∨ dispatch now o d = (r, d').
Proof.
  unfold execute. rewrite txn_bind_gets. destruct (_ && _); [|by right].
  intros [= <- <-]. by left.
Qed.

Lemma execute_sm now o d r d' :
  sm_inv d → store_room d → admissible d o → execute now o d = (r, d') →
  sm_inv d' ∧ ledger_pruned (op_cutoff o) d d'.
Proof.
  intros Hsm Hroom Hadm [[-> ->]|H]%execute_cases; [by split; [|apply ledger_pruned_same]|].
  assert (Hl := dispatch_ledger _ _ _ _ _ H). split; [|done].
  eapply sm_inv_pruned; try done; [eapply dispatch_store; try done; apply Hsm|].
  eapply dispatch_workers; [apply Hsm|done].
Qed.

Lemma apply_sm now req sm d r d' :
  sm_inv d → store_room d → admissible d (op req) →
  apply_raft_request now req sm d = (r, d') → sm_inv d'.
Proof.
  intros Hsm Hroom Hadm (resp&d0&->&->&Ha)%apply_inv.
  enough (sm_inv d0) as [H1 H2 H3] by (split; [by apply same_store_inv with d0|done..]).
  destruct (after_prune_same (ledger_now_unix_ms req) d) as [f Hf].
  destruct Ha as [resp d0 _ Hex|id e|id ? ? ?|id resp d0 _ Hrow Hfull Hex]; [|done| |].
  - by eapply execute_sm.
  - by apply sm_inv_after_prune.
  - assert (sm_inv (after_prune (ledger_now_unix_ms req) d)) as Hsm1 by by apply sm_inv_after_prune.
    assert (sm_inv d0 ∧ ledger_pruned (op_cutoff (op req)) (after_prune (ledger_now_unix_ms req) d) d0)
      as [[H1 H2 _] [Hsub _]].
    { eapply execute_sm; try done; by rewrite Hf. }
    split; [by apply store_ledger|done|]. apply map_subseteq_size in Hsub. simpl.
    unfold ledger_full in Hfull. rewrite map_size_insert. case_match; unfold Datatypes.id; lia.
Qed.
