(* ===== verification/Snapshot.v ===== *)
(** * Snapshots of the metadata store

    [export_snapshot_to_path] and [install_snapshot_from_reader] of
    [crates/meta/src/heed_store.rs] over the stream format of
    [crates/meta/src/snapshot_stream.rs], and the older form of a snapshot as
    one JSON object.  A file is its bytes, a reader the bytes still to read. *)

From S2P Require Import MetaDb NamespaceInv InodeData Gc GcInv Membership Ledger Apply ApplyInv Wire.

Local Open Scope N_scope.

(** ** The stream format *)

(** [b"fluxfs-meta-snapshot\n"]. *)
Definition SNAPSHOT_MAGIC : bytes := str_bytes "fluxfs-meta-snapshot" ++ [x0a]%byte.
Definition SNAPSHOT_VERSION : N := 3.

Inductive SnapshotFormat := StreamingV1 | LegacyJson.

Inductive SnapshotRecord :=
  | SHeader (next_inode next_manifest : N) (sm : SmAppliedMeta) (gc_lease : option GcLeaseId)
      (worker_membership : WorkerMembership)
  | SInode (inode : Inode)
  | SDentry (parent : N) (name : string) (child : N)
  | SManifest (id : N) (manifest : Manifest)
  | SXattr (inode : N) (name : string) (value : bytes)
  | SOpenPresence (inode : N) (session_id : string)
  | SClientRequest (id : string) (resp : MetaRaftResponse) (expires_at created_at : N)
  | SReservation (reservation : ChunkReservation)
  | SDeleteTombstone (tombstone : GcTombstone)
  | SEnd.

#[export] Instance carried_record : Carried SnapshotRecord := λ r,
  match r with SManifest _ m => et_wf (m_extents m) | _ => True end.

(** [MetaSnapshotData], the payload of a snapshot in one JSON object. *)
Record MetaSnapshotData := mkSnapshotData {
  sd_inodes : list Inode;
  sd_dentries : list (N * string * N);
  sd_manifests : list (N * Manifest);
  sd_xattrs : list (N * string * bytes);
  sd_open_presences : list (N * string);
  sd_next_inode : N;
  sd_next_manifest : N;
  sd_sm : SmAppliedMeta;
  sd_client_requests : list (string * MetaRaftResponse);
  sd_gc_lease : option GcLeaseId;
  sd_chunk_reservations : list ChunkReservation;
  sd_gc_tombstones : list ChunkId;
  sd_gc_delete_tombstones : list GcTombstone;
  sd_worker_membership : WorkerMembership
}.

(** Rows with keys of an inode and a name, in key order. *)
#[export] Instance row_le_dec {A} : RelDecision (λ a b : (N * string) * A, expiry_le a.1 b.1).
Proof. intros a b. apply _. Defined.
Definition rows {A} (m : gmap (N * string) A) : list ((N * string) * A) :=
  merge_sort (λ a b, expiry_le a.1 b.1) (map_to_list m).
Definition ledger_rows (d : Db) : list (string * ClientRequestLedgerEntry) :=
  sort_by_name fst (map_to_list (client_requests d)).
Definition presence_rows (d : Db) : list (N * string) := merge_sort expiry_le (elements (open_presences d)).

(** The failures of a reader. *)
Definition UNEXPECTED_EOF : FluxError := Io "failed to fill whole buffer".

Section stream.
Context `{!Serde SnapshotRecord, !Serde MetaSnapshotData}.

(** ** Writing *)

Definition json_error {A} (r : result string A) : Result A :=
  match r with Ok a => Ok a | Err e => Err (Meta e) end.

Definition write_magic_and_version : bytes := SNAPSHOT_MAGIC ++ le_bytes 4 SNAPSHOT_VERSION.

Definition write_record (record : SnapshotRecord) : Result bytes :=
  b ← json_error (to_vec record);
  if U32_MAX <? N.of_nat (length b) then Err (Meta "snapshot record too large")
  else Ok (le_bytes 4 (N.of_nat (length b)) ++ b).

(** The keys of open presences are parsed again, sessions included. *)
Definition presence_record (k : N * string) : Result SnapshotRecord :=
  _ ← validate_session_id k.2; Ok (SOpenPresence k.1 k.2).

Definition snapshot_records (sm : SmAppliedMeta) (d : Db) : Result (list SnapshotRecord) :=
  ni ← ok_or (Meta "missing next_inode") (next_inode d);
  nm ← ok_or (Meta "missing next_manifest") (next_manifest d);
  presences ← mapM presence_record (presence_rows d);
  Ok (SHeader ni nm sm (gc_lease d) (membership_of d)
      :: ((λ kv, SInode kv.2) <$> kv_sorted (inodes d))
      ++ ((λ kv, SDentry kv.1.1 kv.1.2 kv.2) <$> rows (dentries d))
      ++ ((λ kv, SManifest kv.1 kv.2) <$> kv_sorted (manifests d))
      ++ ((λ kv, SXattr kv.1.1 kv.1.2 kv.2) <$> rows (xattrs d))
      ++ presences
      ++ ((λ kv, SClientRequest kv.1 (response kv.2) (expires_at_unix_ms kv.2) (created_at_unix_ms kv.2))
            <$> ledger_rows d)
      ++ (SReservation <$> list_reservations d)
      ++ (SDeleteTombstone <$> list_tombstones d)
      ++ [SEnd]).

(** The bytes of the file. *)
Definition export_snapshot_to_path (sm : SmAppliedMeta) (d : Db) : Result bytes :=
  records ← snapshot_records sm d;
  body ← mapM write_record records;
  Ok (write_magic_and_version ++ concat body).

(** ** Reading *)

Definition read_exact (n : nat) (r : bytes) : option (bytes * bytes) :=
  if (length r <? n)%nat then None else Some (take n r, drop n r).

(** The format, and where the reader is left. *)
Definition detect_format (file : bytes) : Result (SnapshotFormat * bytes) :=
  match read_exact (length SNAPSHOT_MAGIC) file with
  | None => Ok (LegacyJson, file)
  | Some (magic, r) =>
      if negb (bool_decide (magic = SNAPSHOT_MAGIC)) then Ok (LegacyJson, file)
      else
        '(ver, r) ← ok_or UNEXPECTED_EOF (read_exact 4 r);
        let version := of_le_bytes ver in
        if (version =? 1) || (version =? 2) || (version =? SNAPSHOT_VERSION) then Ok (StreamingV1, r)
        else Err (Meta ("unsupported snapshot version " +:+ pretty version))
  end.

Definition read_record (r : bytes) : Result (option (SnapshotRecord * bytes)) :=
  match read_exact 4 r with
  | None => Ok None
  | Some (len, r) =>
      '(b, r) ← ok_or UNEXPECTED_EOF (read_exact (N.to_nat (of_le_bytes len)) r);
      record ← json_error (from_slice b);
      Ok (Some (record, r))
  end.

(** ** Installing *)

(** The tables of the application and the rows of [meta] under the three
    prefixes. *)
Definition clear_tables (d : Db) : Db :=
  mkDb ∅ ∅ ∅ ∅ ∅ (next_inode d) (next_manifest d) (gc_lease d) (schema_version d) (worker_membership d)
    (sm_meta d) ∅ ∅ ∅.

Definition put_client_request_entry_in_txn (op_id : string) (entry : ClientRequestLedgerEntry) : M unit :=
  modify (upd_client_requests <[op_id := entry]>).

(** One turn of the loop over the records; [now_ms] is the clock read for a
    ledger row without a time. *)
Definition install_record (now_ms : N) (record : SnapshotRecord) (header_sm : option SmAppliedMeta) :
    M (option SmAppliedMeta) :=
  match record with
  | SHeader ni nm sm lease membership =>
      _ ← modify (upd_next_inode (λ _, Some ni));
      _ ← modify (upd_next_manifest (λ _, Some nm));
      _ ← modify (upd_gc_lease (λ _, lease));
      _ ← put_sm_meta_raw sm;
      _ ← modify (upd_worker_membership (λ _, Some membership));
      mret (Some sm)
  | SInode inode => _ ← put_inode_raw inode; mret header_sm
  | SDentry parent name child => _ ← put_dentry (parent, name) child; mret header_sm
  | SManifest id manifest => _ ← modify (upd_manifests <[id := manifest]>); mret header_sm
  | SXattr inode name value => _ ← modify (upd_xattrs <[(inode, name) := value]>); mret header_sm
  | SOpenPresence inode session_id =>
      _ ← lift (validate_session_id session_id);
      _ ← modify (upd_open_presences (λ s, {[(inode, session_id)]} ∪ s));
      mret header_sm
  | SClientRequest id resp expires_at created_at =>
      let created := if created_at =? 0 then now_ms else created_at in
      let expires := if expires_at =? 0 then sat_add created CLIENT_REQUEST_RETENTION_MS else expires_at in
      _ ← put_client_request_entry_in_txn id (mkLedgerEntry created expires resp);
      mret header_sm
  | SReservation reservation => _ ← put_reservation_in_txn reservation; mret header_sm
  | SDeleteTombstone tombstone => _ ← put_tombstone_in_txn tombstone; mret header_sm
  | SEnd => mret header_sm
  end.

(** The loop: the header, and whether the end was seen.  A record takes at
    least four bytes, so the length of what is left bounds the turns. *)
Fixpoint install_loop (fuel : nat) (now : nat → N) (r : bytes) (header_sm : option SmAppliedMeta) :
    M (option SmAppliedMeta * bool) :=
  match fuel with
  | O => mret (header_sm, false)
  | S fuel =>
      next ← lift (read_record r);
      match next with
      | None => mret (header_sm, false)
      | Some (SEnd, _) => mret (header_sm, true)
      | Some (record, r) =>
          header_sm ← install_record (now (length r)) record header_sm;
          install_loop fuel now r header_sm
      end
  end.

(** A write transaction: dropped on an error. *)
Definition in_write_txn {A} (m : M A) : M A := λ d,
  match m d with (Ok a, d') => (Ok a, d') | (Err e, _) => (Err e, d) end.

Definition install_streaming_snapshot (now : nat → N) (r : bytes) : M SmAppliedMeta :=
  in_write_txn (
    _ ← modify clear_tables;
    _ ← modify (upd_worker_membership (λ _, None));
    '(header_sm, saw_end) ← install_loop (S (length r)) now r None;
    if negb saw_end then throw (Meta "snapshot missing End record")
    else lift (ok_or (Meta "snapshot missing Header") header_sm)).

(** [install_snapshot_data]. *)
Definition install_snapshot_data (install_now : N) (snap : MetaSnapshotData) : M unit :=
  in_write_txn (
    _ ← modify (λ d, mkDb ∅ ∅ ∅ ∅ (client_requests d) (next_inode d) (next_manifest d) (gc_lease d)
                       (schema_version d) (worker_membership d) (sm_meta d) (reservations d)
                       (tombstones d) (open_presences d));
    _ ← for_each put_inode_raw (sd_inodes snap);
    _ ← for_each (λ x, put_dentry x.1 x.2) (sd_dentries snap);
    _ ← for_each (λ x, modify (upd_manifests <[x.1 := x.2]>)) (sd_manifests snap);
    _ ← for_each (λ x, modify (upd_xattrs <[x.1 := x.2]>)) (sd_xattrs snap);
    _ ← modify (upd_client_requests (λ _, ∅));
    _ ← for_each (λ x, put_client_request_in_txn x.1 x.2 install_now) (sd_client_requests snap);
    _ ← modify (upd_next_inode (λ _, Some (sd_next_inode snap)));
    _ ← modify (upd_next_manifest (λ _, Some (sd_next_manifest snap)));
    _ ← modify (upd_gc_lease (λ _, sd_gc_lease snap));
    _ ← modify (upd_reservations (λ _, ∅));
    _ ← modify (upd_tombstones (λ _, ∅));
    _ ← modify (upd_open_presences (λ _, ∅));
    _ ← for_each put_reservation_in_txn (sd_chunk_reservations snap);
    _ ← for_each (λ c, put_tombstone_in_txn (mkGcTombstone c false [])) (sd_gc_tombstones snap);
    _ ← for_each put_tombstone_in_txn (sd_gc_delete_tombstones snap);
    _ ← for_each (λ k : N * string,
          _ ← lift (validate_session_id k.2); modify (upd_open_presences (λ s, {[k]} ∪ s)))
          (sd_open_presences snap);
    _ ← modify (upd_worker_membership (λ _, Some (sd_worker_membership snap)));
    put_sm_meta_raw (sd_sm snap)).

(** [export_snapshot]. *)
Definition export_snapshot (sm : SmAppliedMeta) (d : Db) : Result MetaSnapshotData :=
  presences ← mapM (λ k : N * string, _ ← validate_session_id k.2; Ok k) (presence_rows d);
  ni ← ok_or (Meta "missing next_inode") (next_inode d);
  nm ← ok_or (Meta "missing next_manifest") (next_manifest d);
  Ok (mkSnapshotData (kv_sorted (inodes d)).*2 (rows (dentries d)) (kv_sorted (manifests d)) (rows (xattrs d))
        presences ni nm sm ((λ kv, (kv.1, response kv.2)) <$> ledger_rows d) (gc_lease d)
        (list_reservations d) [] (list_tombstones d) (membership_of d)).

Definition install_snapshot_from_reader (now : nat → N) (file : bytes) : M SmAppliedMeta :=
  '(format, r) ← lift (detect_format file);
  match format with
  | LegacyJson =>
      snap ← lift (json_error (from_slice r));
      _ ← install_snapshot_data (now 0%nat) snap;
      mret (sd_sm snap)
  | StreamingV1 => install_streaming_snapshot now r
  end.
End stream.

(** ** Records in, records out *)

Lemma txn_bind_assoc {S E A B C} (m : txn S E A) (f : A → txn S E B) (g : B → txn S E C) s :
  ((m ≫= f) ≫= g) s = (m ≫= λ a, f a ≫= g) s.
Proof. unfold mbind, txn_bind. by destruct (m s) as [[]]. Qed.

Section reading.
Context `{!Serde SnapshotRecord, !Serde MetaSnapshotData, !SerdeLaws SnapshotRecord}.

Lemma snapshot_read_exact_app n a b : length a = n → read_exact n (a ++ b) = Some (a, b).
Proof.
  intros <-. unfold read_exact. rewrite length_app.
  destruct (Nat.ltb_spec (length a + length b) (length a)); [lia|]. by rewrite take_app_length, drop_app_length.
Qed.
Lemma read_exact_short n r : (length r < n)%nat → read_exact n r = None.
Proof. intros H. unfold read_exact. by rewrite (proj2 (Nat.ltb_lt _ _) H). Qed.

Lemma write_record_bytes record b :
  write_record record = Ok b →
  ∃ j, to_vec record = Ok j ∧ N.of_nat (length j) < 256 ^ N.of_nat 4 ∧ b = le_bytes 4 (N.of_nat (length j)) ++ j.
Proof.
  unfold write_record, json_error. destruct (to_vec record) as [j|] eqn:Hj; [|done]. cbn.
  destruct (N.ltb_spec U32_MAX (N.of_nat (length j))) as [|Hle]; [done|]. intros [= <-]. exists j.
  split_and!; [done| |done]. unfold U32_MAX in Hle. lia.
Qed.

Lemma read_written record b rest :
  carried record → write_record record = Ok b → read_record (b ++ rest) = Ok (Some (record, rest)).
Proof using SerdeLaws0.
  intros Hc (j&Hj&Hlen&->)%write_record_bytes. unfold read_record.
  rewrite <-app_assoc, snapshot_read_exact_app by apply le_bytes_length. rewrite of_le_bytes_le, Nat2N.id by done.
  rewrite snapshot_read_exact_app by done. cbn. by rewrite (from_to_vec _ _ Hc Hj).
Qed.

(** A written record that is cut off is not read. *)
Lemma read_cut record b n :
  write_record record = Ok b → (n < length b)%nat →
  read_record (take n b) = Ok None ∨ read_record (take n b) = Err UNEXPECTED_EOF.
Proof using.
  intros (j&_&Hlen&->)%write_record_bytes Hn. rewrite length_app, le_bytes_length in Hn. unfold read_record.
  destruct (decide (n < 4)%nat) as [Hshort|Hlong].
  - left. rewrite read_exact_short; [done|]. rewrite length_take. lia.
  - right. rewrite take_app_ge by (rewrite le_bytes_length; lia).
    rewrite snapshot_read_exact_app by apply le_bytes_length. rewrite of_le_bytes_le, Nat2N.id by done.
    rewrite read_exact_short; [done|]. rewrite length_take, le_bytes_length. lia.
Qed.

Lemma written_nonempty record b : write_record record = Ok b → (4 ≤ length b)%nat.
Proof using. intros (j&_&_&->)%write_record_bytes. rewrite length_app, le_bytes_length. lia. Qed.

(** The records of a list one after the other. *)
Fixpoint install_all (now : nat → N) (rest : bytes) (l : list (SnapshotRecord * bytes)) (h : option SmAppliedMeta) :
    M (option SmAppliedMeta) :=
  match l with
  | [] => mret h
  | (record, b) :: l =>
      h ← install_record (now (length (concat l.*2 ++ rest))) record h;
      install_all now rest l h
  end.

Lemma loop_all now l rest h d fuel :
  Forall (λ x, carried x.1 ∧ write_record x.1 = Ok x.2 ∧ x.1 ≠ SEnd) l →
  (length (concat l.*2 ++ rest) < fuel)%nat →
  ∃ fuel', (length rest < fuel')%nat ∧
    install_loop fuel now (concat l.*2 ++ rest) h d =
    (h ← install_all now rest l h; install_loop fuel' now rest h) d.
Proof using SerdeLaws0.
  revert h d fuel. induction l as [|[record b] l IH]; intros h d fuel Hl Hfuel.
  { exists fuel. cbn in *. done. }
  apply Forall_cons in Hl as [(Hc&Hw&Hne) Hl]. cbn [fst snd fmap list_fmap concat install_all] in *.
  assert (Hb := written_nonempty _ _ Hw). destruct fuel as [|fuel]; [lia|]. cbn [install_loop].
  rewrite <-app_assoc, (read_written _ _ _ Hc Hw). rewrite <-app_assoc, length_app in Hfuel.
  assert (length (concat l.*2 ++ rest) < fuel)%nat as Hfuel' by lia.
  assert (∀ k, (next ← lift (Ok (Some (record, concat l.*2 ++ rest))); match next with
    | None => mret (h, false)
    | Some (SEnd, _) => mret (h, true)
    | Some (record, r) => h ← install_record (now (length r)) record h; k r h
    end) d = (h ← install_record (now (length (concat l.*2 ++ rest))) record h; k (concat l.*2 ++ rest) h) d) as Hstep.
  { intros k. rewrite (txn_bind_ok (lift _) _ _ _ _ eq_refl). by destruct record. }
  destruct (install_record (now (length (concat l.*2 ++ rest))) record h d) as [[h1|e] d1] eqn:Hr.
  - destruct (IH h1 d1 fuel Hl Hfuel') as (fuel'&Hf'&Heq). exists fuel'. split; [done|].
    rewrite Hstep, txn_bind_assoc, !(txn_bind_ok _ _ _ _ _ Hr). done.
  - exists (S (length rest)). split; [lia|]. by rewrite Hstep, txn_bind_assoc, !(txn_bind_err _ _ _ _ _ Hr).
Qed.
End reading.

(** ** What the records of a store rebuild *)

(** What every row is beyond the store invariant: sessions that were checked
    when they were opened, extent trees that are trees, and ledger rows with
    the times they were written with. *)
Record rows_ok (d : Db) : Prop := {
  ro_sessions id s : (id, s) ∈ open_presences d → validate_session_id s = Ok tt;
  ro_manifests id m : manifests d !! id = Some m → et_wf (m_extents m);
  ro_ledger k e : client_requests d !! k = Some e → created_at_unix_ms e ≠ 0 ∧ expires_at_unix_ms e ≠ 0
}.

(** The effect of a record that is installed whatever the clock says. *)
Definition step (record : SnapshotRecord) (d : Db) : Db :=
  match record with
  | SHeader ni nm sm lease membership =>
      upd_worker_membership (λ _, Some membership) (upd_sm_meta (λ _, Some sm) (upd_gc_lease (λ _, lease)
        (upd_next_manifest (λ _, Some nm) (upd_next_inode (λ _, Some ni) d))))
  | SInode i => upd_inodes <[i_id i := i]> d
  | SDentry p n c => upd_dentries <[(p, n) := c]> d
  | SManifest id m => upd_manifests <[id := m]> d
  | SXattr i n v => upd_xattrs <[(i, n) := v]> d
  | SOpenPresence i s => upd_open_presences (λ x, {[(i, s)]} ∪ x) d
  | SClientRequest id resp e c => upd_client_requests <[id := mkLedgerEntry c e resp]> d
  | SReservation r => upd_reservations <[cr_ticket r := r]> d
  | SDeleteTombstone t => upd_tombstones <[gt_chunk t := t]> d
  | SEnd => d
  end.
Definition plain (record : SnapshotRecord) : Prop :=
  match record with
  | SHeader _ _ _ _ _ | SEnd => False
  | SOpenPresence _ s => validate_session_id s = Ok tt
  | SClientRequest _ _ e c => e ≠ 0 ∧ c ≠ 0
  | _ => True
  end.

Lemma install_plain t record h d : plain record → install_record t record h d = (Ok h, step record d).
Proof.
  destruct record; cbn [plain]; try done.
  - intros Hs. unfold install_record. by rewrite Hs.
  - intros [He%N.eqb_neq Hc%N.eqb_neq]. unfold install_record. by rewrite He, Hc.
Qed.

Lemma install_all_plain now rest l h d :
  Forall (λ x, plain x.1) l → install_all now rest l h d = (Ok h, foldl (λ d x, step x.1 d) d l).
Proof.
  intros Hl. revert d. induction Hl as [|[r b] l Hr Hl IH]; intros d; [done|]. cbn [install_all].
  by rewrite (txn_bind_ok _ _ _ _ _ (install_plain _ _ _ _ Hr)), IH.
Qed.

(** Inserting the rows of a map one after the other rebuilds it. *)
Lemma rebuild {K A} `{Countable K} (m : gmap K A) l (f : K * A → SnapshotRecord)
    (upd : (gmap K A → gmap K A) → Db → Db) d :
  l ≡ₚ map_to_list m →
  (∀ kv d, kv ∈ l → step (f kv) d = upd <[kv.1 := kv.2]> d) →
  (∀ g g' d, upd g (upd g' d) = upd (λ x, g (g' x)) d) → (∀ g d, (∀ x, g x = x) → upd g d = d) →
  (∀ g g' d, (∀ x, g x = g' x) → upd g d = upd g' d) →
  foldl (λ d x, step x d) d (f <$> l) = upd (λ x, m ∪ x) d.
Proof.
  intros Hl Hstep Hcomp Hid Hext.
  assert (list_to_map l = m) as <-.
  { rewrite <-(list_to_map_to_list m). apply list_to_map_proper; [|done].
    rewrite Hl. apply NoDup_fst_map_to_list. }
  assert (NoDup l.*1) as Hnd by (rewrite Hl; apply NoDup_fst_map_to_list). clear Hl.
  revert d. induction l as [|[k v] l IH]; intros d; cbn [fmap list_fmap foldl list_to_map].
  { symmetry. apply Hid. intros x. apply (left_id_L ∅ _). }
  apply NoDup_cons in Hnd as [Hk Hnd]. rewrite Hstep by set_solver. cbn [fst snd] in *.
  rewrite IH; [|intros; apply Hstep; set_solver|done]. rewrite Hcomp. apply Hext. intros x.
  change (list_to_map ((k, v) :: l)) with (<[k := v]> (list_to_map l : gmap K A)).
  rewrite <-insert_union_r; [by rewrite insert_union_l|]. by apply not_elem_of_list_to_map_1.
Qed.

Lemma rebuild_presences l d :
  foldl (λ d x, step x d) d ((λ k, SOpenPresence k.1 k.2) <$> l) = upd_open_presences (λ x, list_to_set l ∪ x) d.
Proof.
  revert d. induction l as [|[i s] l IH]; intros d; cbn [fmap list_fmap foldl].
  { unfold upd_open_presences. replace (list_to_set [] ∪ open_presences d) with (open_presences d) by set_solver.
    by destruct d. }
  rewrite IH. unfold step, upd_open_presences. cbn. f_equal. set_solver.
Qed.

(** The records between the header and the end. *)
Definition body (d : Db) : list SnapshotRecord :=
  ((λ kv, SInode kv.2) <$> kv_sorted (inodes d))
  ++ ((λ kv, SDentry kv.1.1 kv.1.2 kv.2) <$> rows (dentries d))
  ++ ((λ kv, SManifest kv.1 kv.2) <$> kv_sorted (manifests d))
  ++ ((λ kv, SXattr kv.1.1 kv.1.2 kv.2) <$> rows (xattrs d))
  ++ ((λ k, SOpenPresence k.1 k.2) <$> presence_rows d)
  ++ ((λ kv, SClientRequest kv.1 (response kv.2) (expires_at_unix_ms kv.2) (created_at_unix_ms kv.2))
        <$> ledger_rows d)
  ++ (SReservation <$> list_reservations d)
  ++ (SDeleteTombstone <$> list_tombstones d).

Lemma rows_perm {A} (m : gmap (N * string) A) : rows m ≡ₚ map_to_list m.
Proof. apply merge_sort_Permutation. Qed.
Lemma ledger_rows_perm d : ledger_rows d ≡ₚ map_to_list (client_requests d).
Proof. apply sort_by_name_perm. Qed.
Lemma presence_rows_perm d : presence_rows d ≡ₚ elements (open_presences d).
Proof. apply merge_sort_Permutation. Qed.

Lemma body_plain d : rows_ok d → Forall (λ r, plain r ∧ carried r) (body d).
Proof.
  intros Hok. unfold body. rewrite !Forall_app. split_and!; apply Forall_fmap, Forall_forall; try done.
  - intros [id m] Hm%elem_of_kv_sorted. split; [done|]. by eapply Hok.
  - intros [i s] Hin. rewrite presence_rows_perm, elem_of_elements in Hin. split; [by eapply Hok|done].
  - intros [k e] Hin. rewrite ledger_rows_perm in Hin. apply elem_of_map_to_list in Hin.
    split; [|done]. cbn. by apply and_comm, (ro_ledger _ Hok k).
Qed.

Lemma presences_run d :
  rows_ok d → mapM presence_record (presence_rows d) = Ok ((λ k, SOpenPresence k.1 k.2) <$> presence_rows d).
Proof.
  intros Hok. assert (Forall (λ k, validate_session_id k.2 = Ok tt) (presence_rows d)) as Hv.
  { apply Forall_forall. intros [i s] Hin. rewrite presence_rows_perm, elem_of_elements in Hin. by eapply Hok. }
  induction Hv as [|[i s] l Hs Hl IH]; [done|]. cbn [snd] in Hs.
  assert (presence_record (i, s) = Ok (SOpenPresence i s)) as Hp by (unfold presence_record; cbn [snd fst]; by rewrite Hs).
  cbn [mapM]. rewrite Hp. cbn. by rewrite IH.
Qed.

(** The tables of [d], with the header's values, over anything else. *)
Definition rebuilt (sm : SmAppliedMeta) (d d0 : Db) : Db :=
  mkDb (inodes d) (dentries d) (manifests d) (xattrs d) (client_requests d) (next_inode d) (next_manifest d)
    (gc_lease d) (schema_version d0) (Some (membership_of d)) (Some sm) (reservations d) (tombstones d)
    (open_presences d).

Section blocks.
Context (d : Db) (Hst : store_inv d).
Abbreviation replay := (foldl (λ d x, step x d)).

Lemma replay_inodes d1 : replay d1 ((λ kv, SInode kv.2) <$> kv_sorted (inodes d)) = upd_inodes (λ x, inodes d ∪ x) d1.
Proof using Hst.
  apply rebuild; [apply kv_sorted_perm|
    intros [id i] d' Hin%elem_of_kv_sorted; cbn; by rewrite (ns_id _ _ (st_ns _ Hst) _ _ Hin)|done|by intros g [] Hg; unfold upd_inodes; cbn; rewrite Hg|].
  by intros g g' [] Hg; unfold upd_inodes; cbn; rewrite Hg.
Qed.
Lemma replay_dentries d1 : replay d1 ((λ kv, SDentry kv.1.1 kv.1.2 kv.2) <$> rows (dentries d)) = upd_dentries (λ x, dentries d ∪ x) d1.
Proof.
  apply rebuild; [apply rows_perm|by intros [[] ?]|done|by intros g [] Hg; unfold upd_dentries; cbn; rewrite Hg|].
  by intros g g' [] Hg; unfold upd_dentries; cbn; rewrite Hg.
Qed.
Lemma replay_manifests d1 : replay d1 ((λ kv, SManifest kv.1 kv.2) <$> kv_sorted (manifests d)) = upd_manifests (λ x, manifests d ∪ x) d1.
Proof.
  apply rebuild; [apply kv_sorted_perm|by intros []|done|by intros g [] Hg; unfold upd_manifests; cbn; rewrite Hg|].
  by intros g g' [] Hg; unfold upd_manifests; cbn; rewrite Hg.
Qed.
Lemma replay_xattrs d1 : replay d1 ((λ kv, SXattr kv.1.1 kv.1.2 kv.2) <$> rows (xattrs d)) = upd_xattrs (λ x, xattrs d ∪ x) d1.
Proof.
  apply rebuild; [apply rows_perm|by intros [[] ?]|done|by intros g [] Hg; unfold upd_xattrs; cbn; rewrite Hg|].
  by intros g g' [] Hg; unfold upd_xattrs; cbn; rewrite Hg.
Qed.
Lemma replay_ledger d1 : replay d1 (
    (λ kv, SClientRequest kv.1 (response kv.2) (expires_at_unix_ms kv.2) (created_at_unix_ms kv.2)) <$> ledger_rows d) = upd_client_requests (λ x, client_requests d ∪ x) d1.
Proof.
  apply rebuild; [apply ledger_rows_perm|by intros [? []]|done|by intros g [] Hg; unfold upd_client_requests; cbn; rewrite Hg|].
  by intros g g' [] Hg; unfold upd_client_requests; cbn; rewrite Hg.
Qed.

(** Rows under a key that they carry. *)
Lemma keyed_perm {A} (key : A → N) (m : gmap N A) l :
  (∀ k v, m !! k = Some v → key v = k) → l ≡ₚ (kv_sorted m).*2 → (λ v, (key v, v)) <$> l ≡ₚ map_to_list m.
Proof.
  intros Hk ->. etrans; [|apply kv_sorted_perm]. 
  rewrite <-(list_fmap_id (kv_sorted m)) at 2. rewrite <-list_fmap_compose.
  apply Permutation_refl', list_fmap_ext. intros i [k v] Hi. cbn.
  apply list_elem_of_lookup_2, elem_of_kv_sorted in Hi. by rewrite (Hk _ _ Hi).
Qed.
Lemma replay_reservations d1 : replay d1 (SReservation <$> list_reservations d) = upd_reservations (λ x, reservations d ∪ x) d1.
Proof using Hst.
  transitivity (replay d1 ((λ kv, SReservation kv.2) <$> ((λ r, (cr_ticket r, r)) <$> list_reservations d))).
  { by rewrite <-list_fmap_compose. }
  apply rebuild; [|by intros [] ? (?&[= -> ->]&_)%list_elem_of_fmap|done|by intros g [] Hg; unfold upd_reservations; cbn; rewrite Hg|].
  - apply keyed_perm; [|apply sort_by_key_perm]. intros t r Hr. by apply (ns_reservations _ _ (st_ns _ Hst)).
  - by intros g g' [] Hg; unfold upd_reservations; cbn; rewrite Hg.
Qed.
Lemma replay_tombstones d1 : replay d1 (SDeleteTombstone <$> list_tombstones d) = upd_tombstones (λ x, tombstones d ∪ x) d1.
Proof using Hst.
  transitivity (replay d1 ((λ kv, SDeleteTombstone kv.2) <$> ((λ t, (gt_chunk t, t)) <$> list_tombstones d))).
  { by rewrite <-list_fmap_compose. }
  apply rebuild; [|by intros [] ? (?&[= -> ->]&_)%list_elem_of_fmap|done|by intros g [] Hg; unfold upd_tombstones; cbn; rewrite Hg|].
  - apply keyed_perm; [|apply sort_by_key_perm]. intros c t Ht. by apply (st_tombstones _ Hst).
  - by intros g g' [] Hg; unfold upd_tombstones; cbn; rewrite Hg.
Qed.
End blocks.

Lemma body_rebuilds d d1 :
  store_inv d → rows_ok d → inodes d1 = ∅ → dentries d1 = ∅ → manifests d1 = ∅ → xattrs d1 = ∅ →
  client_requests d1 = ∅ → reservations d1 = ∅ → tombstones d1 = ∅ → open_presences d1 = ∅ →
  foldl (λ d x, step x d) d1 (body d) =
  mkDb (inodes d) (dentries d) (manifests d) (xattrs d) (client_requests d) (next_inode d1) (next_manifest d1)
    (gc_lease d1) (schema_version d1) (worker_membership d1) (sm_meta d1) (reservations d) (tombstones d)
    (open_presences d).
Proof.
  intros Hst Hok H1 H2 H3 H4 H5 H6 H7 H8. destruct d1. cbn in *. subst. unfold body. rewrite !foldl_app.
  rewrite replay_inodes by done. unfold upd_inodes. cbn -[foldl union].
  rewrite replay_dentries. unfold upd_dentries. cbn -[foldl union].
  rewrite replay_manifests. unfold upd_manifests. cbn -[foldl union].
  rewrite replay_xattrs. unfold upd_xattrs. cbn -[foldl union].
  rewrite rebuild_presences. unfold upd_open_presences. cbn -[foldl union].
  rewrite replay_ledger. unfold upd_client_requests. cbn -[foldl union].
  rewrite replay_reservations by done. unfold upd_reservations. cbn -[foldl union].
  rewrite replay_tombstones by done. unfold upd_tombstones. cbn -[foldl union].
  rewrite !(right_id_L ∅ (∪)).
  f_equal. apply set_eq. intros k. rewrite elem_of_list_to_set, presence_rows_perm. by rewrite elem_of_elements.
Qed.

Lemma mapM_ok {E A B} (f : A → result E B) l k : mapM f l = Ok k → Forall2 (λ x y, f x = Ok y) l k.
Proof.
  revert k. induction l as [|x l IH]; intros k; cbn [mapM]; [by intros [= <-]|].
  destruct (f x) as [y|] eqn:Hx; [|done]. cbn. destruct (mapM f l) as [k'|]; [|done]. cbn. intros [= <-]. auto.
Qed.

Section snapshots.
Context `{!Serde SnapshotRecord, !Serde MetaSnapshotData, !SerdeLaws SnapshotRecord}.

Definition header (sm : SmAppliedMeta) (d : Db) (ni nm : N) : SnapshotRecord :=
  SHeader ni nm sm (gc_lease d) (membership_of d).

(** The file of a store: the header, the rows and the end, as written. *)
Lemma export_shape sm d file :
  rows_ok d → export_snapshot_to_path sm d = Ok file →
  ∃ ni nm l e, next_inode d = Some ni ∧ next_manifest d = Some nm ∧
    l.*1 = header sm d ni nm :: body d ∧
    Forall (λ x, carried x.1 ∧ write_record x.1 = Ok x.2 ∧ x.1 ≠ SEnd) l ∧
    write_record SEnd = Ok e ∧ file = write_magic_and_version ++ concat l.*2 ++ e.
Proof using.
  intros Hok. unfold export_snapshot_to_path, snapshot_records. rewrite presences_run by done.
  destruct (next_inode d) as [ni|]; [|done]. destruct (next_manifest d) as [nm|]; [|done]. cbn -[mapM write_record concat].
  match goal with |- context [mapM write_record ?r] => replace r with ((header sm d ni nm :: body d) ++ [SEnd]) end.
  2: { unfold body, header. rewrite <-app_comm_cons, <-!app_assoc. done. }
  destruct (mapM write_record _) as [bs|] eqn:Hbs; [|done]. cbn. intros [= <-].
  apply mapM_ok, Forall2_app_inv_l in Hbs as (bs1&bs2&H1&H2&->).
  apply Forall2_cons_inv_l in H2 as (e&?&He&Hnil&->). apply Forall2_nil_inv_l in Hnil as ->.
  exists ni, nm, (zip (header sm d ni nm :: body d) bs1), e.
  assert (length (header sm d ni nm :: body d) = length bs1) as Hlen by (by eapply Forall2_length).
  rewrite fst_zip, snd_zip by lia. split_and!; try done; [|by rewrite concat_app; cbn; rewrite app_nil_r].
  apply Forall_forall. intros [r b] Hin. cbn.
  assert (r ∈ header sm d ni nm :: body d) as Hr by (by eapply elem_of_zip_l).
  assert (write_record r = Ok b) as Hw.
  { apply list_elem_of_lookup in Hin as [i Hi]. apply lookup_zip_Some in Hi as [Hi1 Hi2]. by apply (Forall2_lookup_lr _ _ _ i r b H1). }
  assert (r = header sm d ni nm ∨ plain r ∧ carried r) as [->|[Hp Hc]].
  { apply elem_of_cons in Hr as [->|Hr]; [by left|right]. by eapply Forall_forall in Hr; [|apply body_plain]. }
  - done.
  - split_and!; [done..|]. by intros ->.
Qed.

Lemma detect_streaming r : detect_format (write_magic_and_version ++ r) = Ok (StreamingV1, r).
Proof using.
  unfold detect_format, write_magic_and_version. rewrite <-app_assoc, snapshot_read_exact_app by done.
  rewrite bool_decide_true by done. cbn [negb]. by rewrite snapshot_read_exact_app by done.
Qed.

Lemma loop_end fuel now e h d : write_record SEnd = Ok e → (0 < fuel)%nat → install_loop fuel now e h d = (Ok (h, true), d).
Proof using SerdeLaws0.
  intros He Hf. destruct fuel as [|fuel]; [lia|]. cbn [install_loop]. rewrite <-(app_nil_r e) at 1.
  by rewrite (read_written SEnd e []).
Qed.

(** The rows of a store, installed over empty tables. *)
Lemma install_rows now rest l ni nm sm d d1 :
  store_inv d → rows_ok d → l.*1 = header sm d ni nm :: body d → next_inode d = Some ni → next_manifest d = Some nm →
  install_all now rest l None (upd_worker_membership (λ _, None) (clear_tables d1)) = (Ok (Some sm), rebuilt sm d d1).
Proof using.
  intros Hst Hok Hl Hni Hnm. destruct l as [|[r b] l]; [done|]. injection Hl as -> Hl. change (l.*1 = body d) in Hl.
  cbn [install_all].
  set (d2 := step (header sm d ni nm) (upd_worker_membership (λ _, None) (clear_tables d1))).
  assert (Forall (λ x, plain x.1) l) as Hp.
  { apply (Forall_fmap fst plain). rewrite Hl. eapply Forall_impl; [by apply body_plain|]. by intros r []. }
  change ((install_all now rest l (Some sm)) d2 = (Ok (Some sm), rebuilt sm d d1)).
  rewrite install_all_plain by done. f_equal.
  transitivity (foldl (λ d x, step x d) d2 l.*1); [by rewrite foldl_fmap|]. rewrite Hl, body_rebuilds by done.
  unfold rebuilt. by rewrite Hni, Hnm.
Qed.

Lemma export_installs now sm d file d0 :
  store_inv d → rows_ok d → export_snapshot_to_path sm d = Ok file →
  install_snapshot_from_reader now file d0 = (Ok sm, rebuilt sm d d0).
Proof using SerdeLaws0.
  intros Hst Hok (ni&nm&l&e&Hni&Hnm&Hl&Hall&He&->)%export_shape; [|done].
  unfold install_snapshot_from_reader. rewrite detect_streaming, (txn_bind_ok (lift _) _ _ _ _ eq_refl).
  unfold install_streaming_snapshot, in_write_txn.
  rewrite (txn_bind_ok (modify _) _ _ _ _ eq_refl), (txn_bind_ok (modify _) _ _ _ _ eq_refl).
  set (d1 := upd_worker_membership _ _).
  destruct (loop_all now l e None d1 (S (length (concat l.*2 ++ e))) Hall) as (fuel&Hf&Hloop); [lia|].
  rewrite (txn_bind_ok _ _ d1 (Some sm, true) (rebuilt sm d d0)); [done|].
  rewrite Hloop, (txn_bind_ok _ _ _ _ _ (install_rows now e l ni nm sm d d0 Hst Hok Hl Hni Hnm)).
  apply loop_end; [done|lia].
Qed.


(** ** Snapshots that were cut off *)

Lemma cut_split (l : list (SnapshotRecord * bytes)) n :
  (n < length (concat l.*2))%nat →
  ∃ l1 r b l2 m, l = l1 ++ (r, b) :: l2 ∧ (m < length b)%nat ∧ take n (concat l.*2) = concat l1.*2 ++ take m b.
Proof using.
  revert n. induction l as [|[r b] l IH]; intros n; cbn [fmap list_fmap concat snd]; [cbn; lia|].
  rewrite length_app. intros Hn. destruct (decide (n < length b)%nat) as [Hlt|Hge].
  - exists [], r, b, l, n. split_and!; [done..|]. by rewrite take_app_le by lia.
  - destruct (IH (n - length b)%nat) as (l1&r1&b1&l2&m&->&Hm&Ht); [lia|].
    exists ((r, b) :: l1), r1, b1, l2, m. split_and!; [done..|]. rewrite take_app_ge, Ht by lia.
    cbn [fmap list_fmap concat snd]. by rewrite app_assoc.
Qed.

Lemma loop_cut fuel now r b m h d :
  write_record r = Ok b → (m < length b)%nat →
  ∃ x d', install_loop fuel now (take m b) h d = (x, d') ∧ (x = Ok (h, false) ∨ ∃ e, x = Err e).
Proof using.
  intros Hw Hm. destruct fuel as [|fuel]; [eauto|]. cbn [install_loop].
  destruct (read_cut r b m Hw Hm) as [-> | ->]; [|exists (Err UNEXPECTED_EOF), d; eauto].
  exists (Ok (h, false)), d. eauto.
Qed.

(** A write transaction that fails changes nothing. *)
Lemma in_write_txn_err {A} (m : M A) d e d' : m d = (Err e, d') → in_write_txn m d = (Err e, d).
Proof using. intros H. unfold in_write_txn. by rewrite H. Qed.

Lemma streaming_cut now l e n d0 :
  Forall (λ x, carried x.1 ∧ write_record x.1 = Ok x.2 ∧ x.1 ≠ SEnd) l → write_record SEnd = Ok e →
  (n < length (concat l.*2 ++ e))%nat →
  ∃ err, install_streaming_snapshot now (take n (concat l.*2 ++ e)) d0 = (Err err, d0).
Proof using SerdeLaws0.
  intros Hall He Hn.
  assert (concat (l ++ [(SEnd, e)]).*2 = concat l.*2 ++ e) as Hcat.
  { rewrite fmap_app, concat_app. cbn. by rewrite app_nil_r. }
  rewrite <-Hcat in *. destruct (cut_split _ _ Hn) as (l1&r&b&l2&m&Hsplit&Hm&->).
  assert (Forall (λ x, carried x.1 ∧ write_record x.1 = Ok x.2 ∧ x.1 ≠ SEnd) l1) as Hl1.
  { assert (l1 = take (length l1) (l ++ [(SEnd, e)])) as -> by (by rewrite Hsplit, take_app_length).
    rewrite take_app_le; [by apply Forall_take|]. apply (f_equal length) in Hsplit.
    rewrite !length_app in Hsplit. cbn in Hsplit. lia. }
  assert (write_record r = Ok b) as Hw.
  { assert ((r, b) ∈ l ++ [(SEnd, e)]) as [Hin|Hin]%elem_of_app by (rewrite Hsplit; set_solver).
    - by destruct (proj1 (Forall_forall _ _) Hall _ Hin) as (_&?&_).
    - by apply list_elem_of_singleton in Hin as [= -> ->]. }
  set (d1 := upd_worker_membership (λ _, None) (clear_tables d0)).
  destruct (loop_all now l1 (take m b) None d1 (S (length (concat l1.*2 ++ take m b))) Hl1) as (fuel&_&Hloop); [lia|].
  assert ((∃ h d2, install_loop (S (length (concat l1.*2 ++ take m b))) now (concat l1.*2 ++ take m b) None d1 =
             (Ok (h, false), d2)) ∨
          (∃ err d2, install_loop (S (length (concat l1.*2 ++ take m b))) now (concat l1.*2 ++ take m b) None d1 =
             (Err err, d2))) as Hout.
  { rewrite Hloop. destruct (install_all now (take m b) l1 None d1) as [[h|err] d2] eqn:Ha.
    - rewrite (txn_bind_ok _ _ _ _ _ Ha). destruct (loop_cut fuel now r b m h d2 Hw Hm) as (x&d3&->&[->|[err ->]]); eauto.
    - rewrite (txn_bind_err _ _ _ _ _ Ha). eauto. }
  unfold install_streaming_snapshot.
  destruct Hout as [(h&d2&Hrun)|(err&d2&Hrun)].
  - exists (Meta "snapshot missing End record"). apply (in_write_txn_err _ _ _ d2).
    rewrite !(txn_bind_ok (modify _) _ _ _ _ eq_refl). by rewrite (txn_bind_ok _ _ _ _ _ Hrun).
  - exists err. apply (in_write_txn_err _ _ _ d2).
    rewrite !(txn_bind_ok (modify _) _ _ _ _ eq_refl). by rewrite (txn_bind_err _ _ _ _ _ Hrun).
Qed.

(** C17: snapshots that were cut off.  No proper prefix of the file of a store
    is installed: the attempt fails and leaves the receiver's store as it
    was, wherever the file ends (in the magic, where the reader takes it for
    JSON, in the version, or within or between records). *)
Theorem snapshot_cut_refused now sm d file d0 n :
  rows_ok d → export_snapshot_to_path sm d = Ok file → (n < length file)%nat →
  (∀ k, (k < length SNAPSHOT_MAGIC)%nat → ∃ e, from_slice (T := MetaSnapshotData) (take k SNAPSHOT_MAGIC) = Err e) →
  ∃ e, install_snapshot_from_reader now (take n file) d0 = (Err e, d0).
Proof using SerdeLaws0.
  intros Hok (ni&nm&l&e&_&_&_&Hall&He&->)%export_shape Hn Hjson; [|done].
  unfold install_snapshot_from_reader. destruct (decide (n < length SNAPSHOT_MAGIC)%nat) as [Hm|Hm].
  { destruct (Hjson n Hm) as [err Herr]. exists (Meta err). unfold write_magic_and_version.
    rewrite <-!app_assoc. rewrite (take_app_le SNAPSHOT_MAGIC) by lia. unfold detect_format.
    rewrite read_exact_short by (rewrite length_take; lia). rewrite (txn_bind_ok (lift _) _ _ _ _ eq_refl). by rewrite Herr. }
  destruct (decide (n < length write_magic_and_version)%nat) as [Hv|Hv].
  { exists UNEXPECTED_EOF. rewrite take_app_le by lia. unfold write_magic_and_version in *. rewrite length_app, le_bytes_length in Hv.
    unfold detect_format. rewrite take_app_ge, snapshot_read_exact_app by (done || lia). rewrite bool_decide_true by done. cbn [negb].
    rewrite read_exact_short; [done|]. rewrite length_take. lia. }
  rewrite take_app_ge, detect_streaming, (txn_bind_ok (lift _) _ _ _ _ eq_refl) by lia.
  apply streaming_cut; [done..|]. rewrite length_app in Hn. lia.
Qed.
End snapshots.
