(* ===== verification/Calm.v ===== *)
(** * Requests that neither collect nor publish chunks

    [calm d d'] relates the databases before and after any request other than
    a reservation, a reserved commit or a step of a collector: a generation
    identifies an inode row, manifest ids are not reused, tombstones stay,
    reservations are only released and no chunk becomes referenced.  These
    are the requests that run beside writers and a collector in
    [GcRace]. *)

From S2P Require Import MetaDb Namespace NamespaceInv Evolve Rename InodeData Gc GcInv.
From S2P Require Import Membership Ledger Apply Frame ApplyInv.

Local Open Scope N_scope.

(** Generations identify rows and ids are not reused. *)
Record versioned (d d' : Db) : Prop := {
  vs_inodes : ∀ id i', inodes d' !! id = Some i' →
    (∃ i, inodes d !! id = Some i ∧ (i' = i ∨ i_generation i < i_generation i')) ∨
    (∃ n, next_inode d = Some n ∧ n ≤ id);
  vs_next_inode : option_Forall2 N.le (next_inode d) (next_inode d');
  vs_manifests : ∀ mid m, manifests d' !! mid = Some m →
    manifests d !! mid = Some m ∨ ∃ n, next_manifest d = Some n ∧ n ≤ mid;
  vs_next_manifest : option_Forall2 N.le (next_manifest d) (next_manifest d')
}.

#[export] Instance versioned_refl : Reflexive versioned.
Proof. intros d. split; eauto; reflexivity. Qed.

#[export] Instance versioned_trans : Transitive versioned.
Proof.
  intros d1 d2 d3 [A1 A2 A3 A4] [B1 B2 B3 B4]. split; [| | |by etrans].
  - intros id i3 [(i2&H2&Hv)|(n2&Hn2&Hle)]%B1.
    + destruct (A1 _ _ H2) as [(i1&H1&Hv')|?]; [|by right].
      left. exists i1. split; [done|]. destruct Hv as [->|]; [done|].
      right. destruct Hv' as [->|]; [done|lia].
    + right. rewrite Hn2 in A2. inversion A2; subst. eexists. split; [done|lia].
  - by etrans.
  - intros mid m [H2|(n2&Hn2&Hle)]%B3; [by apply A3|].
    right. rewrite Hn2 in A4. inversion A4; subst. eexists. split; [done|lia].
Qed.

Record calm (d d' : Db) : Prop := {
  cm_versioned : versioned d d';
  cm_tombstones : tombstones d' = tombstones d;
  cm_reservations : reservations d' ⊆ reservations d;
  cm_live : ∀ c, manifest_live d' c → manifest_live d c
}.

#[export] Instance calm_refl : Reflexive calm.
Proof. intros d. by split. Qed.

#[export] Instance calm_trans : Transitive calm.
Proof. intros d1 d2 d3 [] []. split; [by etrans|congruence|by etrans|auto]. Qed.

(** ** The updates that requests are made of *)

Lemma calm_evolves d d' : evolves d d' → calm d d'.
Proof.
  intros Hev. split; [|apply Hev..|].
  - split; [|apply Hev|rewrite (ev_manifests _ _ Hev); auto|by rewrite (ev_next_manifest _ _ Hev)].
    intros id i' [(i&Hi&_&Hg)|(n&?&?&_)]%(ev_inodes _ _ Hev); [left|right]; eauto.
  - intros c (id&i&mid&m&Hi&Hmid&Hm&Hc).
    destruct (ev_inodes _ _ Hev _ _ Hi) as [(j&Hj&[Hd _])|(n&_&_&Hfr&_)]; [|congruence].
    exists id, j, mid, m. rewrite <-(ev_manifests _ _ Hev).
    apply (f_equal i_manifest_id) in Hd. simpl in Hd. split_and!; congruence.
Qed.

(** Nothing but reservations, and they only go. *)
Lemma calm_release d d' :
  inodes d' = inodes d → next_inode d' = next_inode d → manifests d' = manifests d →
  next_manifest d' = next_manifest d → tombstones d' = tombstones d →
  reservations d' ⊆ reservations d → calm d d'.
Proof.
  intros Hi Hn Hm Hnm Ht Hr. split; try done.
  - split; rewrite ?Hi, ?Hn, ?Hm, ?Hnm; eauto; reflexivity.
  - intros c. unfold manifest_live. by rewrite Hi, Hm.
Qed.

Lemma calm_put_manifest d mid m :
  store_inv d → next_manifest d = Some mid → mid < U64_MAX →
  calm d (upd_manifests <[mid := m]> (upd_next_manifest (λ _, Some (wrap_add mid 1)) d)).
Proof.
  intros Hst Hn Hmax. destruct (store_put_manifest d mid m Hst Hn Hmax) as [_ Hno]. split; try done.
  - split; simpl; eauto; [done| |].
    + intros mid' m' [[<- <-]|[_ ?]]%lookup_insert_Some; [right|left; done]. eauto.
    + rewrite Hn, wrap_add_small by lia. constructor. lia.
  - intros c (id&i&mid'&m'&Hi&Hmid&Hm&Hc). simpl in *. exists id, i, mid', m'.
    rewrite lookup_insert_ne in Hm; [done|]. intros <-. by eapply Hno.
Qed.

Lemma put_manifest_calm m d r d' :
  store_inv d → store_room d → put_manifest_in_txn m d = (r, d') → calm d d'.
Proof.
  intros Hst [_ Hroom] [(?&?&->)|(mid&?&Hn&_&->)]%put_manifest_cases; [done|].
  apply calm_put_manifest; auto.
Qed.

Lemma calm_put_inode d id i i' :
  inodes d !! id = Some i → i_generation i < i_generation i' →
  (i_manifest_id i' = i_manifest_id i ∨
   ∀ mid m, i_manifest_id i' = Some mid → manifests d !! mid = Some m → local_chunks m = []) →
  calm d (upd_inodes <[id := i']> d).
Proof.
  intros Hi Hg Hm. split; try done.
  - split; simpl; eauto; [|reflexivity..].
    intros x j [[<- <-]|[_ Hx]]%lookup_insert_Some; left; eauto.
  - intros c (x&j&mid&m&Hx&Hmid&Hman&Hc). simpl in *.
    apply lookup_insert_Some in Hx as [[<- <-]|[_ Hx]].
    + destruct Hm as [Hm|Hm]; [|rewrite (Hm _ _ Hmid Hman) in Hc; by apply elem_of_nil in Hc].
      exists id, i, mid, m. split_and!; congruence.
    + by exists x, j, mid, m.
Qed.

Lemma calm_add_inode d n i :
  next_inode d = Some n → n < U64_MAX →
  (∀ mid m, i_manifest_id i = Some mid → manifests d !! mid = Some m → local_chunks m = []) →
  calm d (upd_inodes <[n := i]> (upd_next_inode (λ _, Some (wrap_add n 1)) d)).
Proof.
  intros Hn Hmax Hm. split; try done.
  - split; simpl; eauto; [| |reflexivity].
    + intros x j [[<- <-]|[_ Hx]]%lookup_insert_Some; [right|left]; eauto.
    + rewrite Hn, wrap_add_small by lia. constructor. lia.
  - intros c (x&j&mid&m&Hx&Hmid&Hman&Hc). simpl in *.
    apply lookup_insert_Some in Hx as [[<- <-]|[_ Hx]]; [|by exists x, j, mid, m].
    rewrite (Hm _ _ Hmid Hman) in Hc. by apply elem_of_nil in Hc.
Qed.

Lemma sat_next i d id : store_room d → inodes d !! id = Some i → i_generation i < sat_add (i_generation i) 1.
Proof. intros [[_ Hroom] _] Hi. rewrite sat_add_small; [lia|]. specialize (Hroom _ _ Hi). lia. Qed.

(** ** Requests *)

Lemma put_inode_cas_calm g inode d r d' : put_inode_cas_in_txn g inode d = (r, d') → calm d d'.
Proof.
  intros H. unfold put_inode_cas_in_txn in H. db_inv H; try done.
  unfold data_or_lifecycle_changed in *. bools. apply check_generation_ok in Hm.
  apply ok_or_Ok, checked_add_Some in Hm0 as [-> _].
  eapply calm_put_inode; [done| |by left]. lia.
Qed.

Lemma commit_manifest_calm g inode m d r d' :
  store_inv d → store_room d → g < i_generation inode → local_chunks m = [] →
  commit_inode_manifest_in_txn g inode m d = (r, d') → calm d d'.
Proof.
  intros Hst Hroom Hg Hloc H. unfold commit_inode_manifest_in_txn in H.
  db_inv H; bools; try done; try (by eapply put_manifest_calm).
  etrans; [by eapply put_manifest_calm|].
  destruct (put_manifest_cases _ _ _ _ Hm) as [(?&?&->)|(mid&?&Hn&_&->)]; simplify_eq.
  eapply calm_put_inode; [done|simpl; lia|]. right. simpl. intros ? m' [= <-].
  rewrite lookup_insert_eq. by intros [= <-].
Qed.

Lemma begin_flush_calm g id it d r d' :
  store_inv d → store_room d → begin_flush_in_txn g id it d = (r, d') → calm d d'.
Proof.
  intros Hst Hroom H. unfold begin_flush_in_txn in H. db_inv H; try done.
  assert (Hid := ns_id _ _ (st_ns _ Hst) _ _ Hi). subst id.
  eapply calm_put_inode; [done|exact (sat_next _ _ _ Hroom Hi)|by left].
Qed.

Lemma fail_flush_calm g id fid err d r d' :
  store_inv d → store_room d → fail_flush_conflict_in_txn g id fid err d = (r, d') → calm d d'.
Proof.
  intros Hst Hroom H. unfold fail_flush_conflict_in_txn in H. db_inv H; try done.
  assert (Hid := ns_id _ _ (st_ns _ Hst) _ _ Hi). subst id.
  eapply calm_put_inode; [done|exact (sat_next _ _ _ Hroom Hi)|by left].
Qed.

Lemma commit_flush_calm g id fid pub d r d' :
  store_inv d → store_room d → commit_flush_in_txn g id fid pub d = (r, d') → calm d d'.
Proof.
  intros Hst Hroom H. unfold commit_flush_in_txn in H.
  db_step H Hm1; db_inv Hm1; [|done]. db_step H Hm2; db_inv Hm2; [|done].
  db_step H Hm3; db_inv Hm3; [|done]. db_step H Hm4; db_inv Hm4; [|done].
  assert (Hid := ns_id _ _ (st_ns _ Hst) _ _ Hi). subst id. pose proof (sat_next _ _ _ Hroom Hi) as Hg.
  db_step H Hc; cbv zeta in Hc; simpl in Hc;
    (destruct (N.eqb_spec (i_head_gen x) (fi_snapshot_gen x1));
      [destruct (install_clean_cases _ _ _ _ _ _ _ Hc)
         as [[-> (?&?)]|(mid&ver&?&Hs&Hcase)] | db_inv Hc]); simplify_eq/=; try done; db_inv H.
  2: { eapply calm_put_inode; [done|done|by left]. }
  destruct Hcase as [(_&->&->)|(n&_&->&Hn&->)].
  - eapply calm_put_inode; [done|done|by right].
  - etrans; [eapply calm_put_manifest; [done..|by apply Hroom]|].
    eapply calm_put_inode; [done|done|]. right. simpl. intros ? m' [= <-].
    rewrite lookup_insert_eq. by intros [= <-].
Qed.

Lemma import_calm now e p name template manifest d r d' :
  store_inv d → store_room d → (∀ m, manifest = Some m → local_chunks m = []) →
  import_external_in_txn now e p name template manifest d = (r, d') → calm d d'.
Proof.
  intros Hst [Hroom Hroom'] Hloc H. unfold import_external_in_txn in H.
  db_step H Hm1; db_inv Hm1; [|done]. db_step H Hm2; db_inv Hm2; [|done].
  db_step H Hm3; db_inv Hm3. db_step H Hm4; db_inv Hm4; [|done].
  db_step H Hbump; destruct (evolves_bump _ _ _ _ _ _ (st_ns _ Hst) Hroom Hbump) as [Hev _];
    destruct (bump_cases _ _ _ _ _ _ _ (st_ns _ Hst) Hbump)
      as [(?&?&->)|(i&Hi&Hd&_&_&->&Hnsb)]; try done; [|by eapply calm_evolves].
  etrans; [by eapply calm_evolves|].
  assert (store_inv (upd_inodes <[p := bumped (now 0%nat) i]> d)) as Hstb by (by eapply store_evolves).
  set (db := upd_inodes _ d) in *.
  db_step H Halloc; destruct (alloc_inode_cases _ _ _ _ Hnsb Halloc) as (n&Hn&Hr&->); [|done].
  injection Hr as ->. assert (n < U64_MAX) as Hmax by (by apply Hroom).
  set (inode := match i_locality_fields _ with Some _ => _ | None => _ end) in H.
  assert (i_id inode = n) as Hid by (unfold inode; by destruct (i_locality_fields _)).
  clearbody inode. set (d2 := upd_next_inode _ _) in *.
  assert (calm db d2) as Hc2.
  { split; try done. split; simpl; eauto; [|reflexivity].
    simpl in Hn. rewrite Hn, wrap_add_small by lia. constructor. lia. }
  subst n. destruct manifest as [m|]; simpl in H.
  - db_step H Hman; db_inv Hman; try done;
      destruct (put_manifest_cases _ _ _ _ Hm0) as [(?&?&->)|(mid&?&Hnm&_&->)]; simplify_eq; try done.
    db_inv H. etrans; [eapply (calm_put_manifest db mid (set_m_inode (i_id inode) m)); auto|].
    etrans; [eapply (calm_add_inode (upd_manifests _ (upd_next_manifest _ db)) (i_id inode)); [done|done|]
            |by apply calm_release].
    simpl. intros ? m' [= <-]. rewrite lookup_insert_eq. intros [= <-]. exact (Hloc m eq_refl).
  - db_step H Hman; db_inv Hman. db_inv H.
    etrans; [eapply (calm_add_inode db (i_id inode) (set_manifest_id None inode)); try done|by apply calm_release].
Qed.

Lemma expire_calm cutoff max d r d' :
  expire_reservations_in_txn cutoff max d = (r, d') → calm d d'.
Proof.
  intros H. unfold expire_reservations_in_txn, abort_reservation_in_txn in H.
  destruct (max =? 0); [by db_inv H|]. rewrite txn_bind_gets in H. cbv zeta in H.
  erewrite txn_bind_ok in H by apply for_each_modify. db_inv H.
  rewrite fold_upd_reservations. apply calm_release; try done. simpl.
  rewrite foldl_delete. apply map_filter_subseteq.
Qed.

(** The requests other than reservations, reserved commits, steps of a
    collector and the raw [PutInode], which no client sends. *)
Definition calm_op (o : MetaRaftOp) : bool :=
  match o with
  | PutInode _ | ReserveChunks _ _ _ _ _ | CommitInodeManifestReserved _ _ _ _
  | TombstoneGcBatch _ | FinalizeGcTombstones _ | InitializeGcDeleteTargets _ _
  | AcknowledgeGcDeletes _ | BeginGc _ | FinishGc _ => false
  | CommitInodeManifest g inode _ => g <? i_generation inode
  | _ => true
  end.

Lemma dispatch_calm now o d r d' :
  store_inv d → store_room d → membership_ok (membership_of d) → admissible d o → calm_op o = true →
  dispatch now o d = (r, d') → calm d d'.
Proof.
  intros Hst Hroom Hmem Hadm Ho H.
  assert (ns_inv d) as Hns by apply Hst. assert (room d) as Hrm by apply Hroom.
  destruct o; try discriminate Ho; cbn [dispatch calm_op] in *; simpl in Hadm;
    try (destruct (manifest_has_local _) eqn:Hloc; [by injection H as <- <-|]);
    apply respond_inv in H as (r0&H&->).
  - apply register_worker_cases in H; [|done]. destruct r0; [|by rewrite (H : d' = d)].
    destruct H as [-> _]. by apply calm_release.
  - by eapply calm_evolves, create_evolves.
  - by eapply calm_evolves, symlink_evolves.
  - by eapply put_inode_cas_calm.
  - by eapply put_manifest_calm.
  - bools. eapply commit_manifest_calm; try done. by apply no_local_chunks.
  - unfold abort_reservation_in_txn in H. db_inv H. apply calm_release; try done. apply delete_subseteq.
  - apply txn_bind_inv in H as [(n&d1&H1&H2)|(e&H1&_)]; [|by eapply expire_calm].
    etrans; [by eapply expire_calm|]. apply prune_same in H2 as (f&->&_). by apply calm_release.
  - apply prune_same in H as (f&->&_). by apply calm_release.
  - by eapply begin_flush_calm.
  - by eapply commit_flush_calm.
  - by eapply fail_flush_calm.
  - destruct Hadm as (?&?&?). by eapply import_calm.
  - by eapply calm_evolves, unlink_evolves.
  - by eapply calm_evolves, open_evolves.
  - by eapply calm_evolves, close_evolves.
  - by eapply calm_evolves, recover_evolves.
  - by eapply calm_evolves, link_evolves.
  - by eapply calm_evolves, set_xattr_evolves.
  - by eapply calm_evolves, remove_xattr_evolves.
  - by eapply calm_evolves, rmdir_evolves.
  - destruct (rename_cases _ _ _ _ _ _ _ _ _ _ _ Hns Hrm H) as (?&?&_). by eapply calm_evolves.
Qed.
