(* ===== verification/Programs.v ===== *)
(** * The client as a sequence of calls ([crates/client/src/lib.rs])

    Several clients share the stores, so what one of them does between two
    calls on a store is visible to it only through the next answer.  [prog]
    is a client operation cut at these calls; [exec] runs it alone, and for
    each operation that is exactly the function of [ClientIo] or
    [ClientFlush].  [GcRace] runs them interleaved. *)

From S2P Require Import Prelude Types Bytes Extents Keys ChunkStore Ufs MetaDb Namespace InodeData Gc.
From S2P Require Import Ledger MetaStore Client ClientIo ClientFlush.

Local Open Scope N_scope.

(** [need] is what a call needs of the state to be covered by the laws of the
    store: the room for an upload. *)
Inductive prog (S A : Type) : Type :=
  | Done (a : A)
  | Call {B : Type} (need : S → Prop) (m : S → B * S) (k : B → prog S A).
Arguments Done {S A}. Arguments Call {S A B}.

Fixpoint exec {S A} (p : prog S A) (s : S) : A * S :=
  match p with
  | Done a => (a, s)
  | Call _ m k => let '(b, s) := m s in exec (k b) s
  end.

Fixpoint seq_prog {S A B} (p : prog S A) (f : A → prog S B) : prog S B :=
  match p with
  | Done a => f a
  | Call need m k => Call need m (λ b, seq_prog (k b) f)
  end.

(** A program that may fail. *)
Definition calls (S A : Type) : Type := prog S (Result A).
#[export] Instance calls_ret {S} : MRet (calls S) := λ A a, Done (Ok a).
#[export] Instance calls_bind {S} : MBind (calls S) := λ A B f p,
  seq_prog p (λ r, match r with Ok a => f a | Err e => Done (Err e) end).

Definition raise {S A} (e : FluxError) : calls S A := Done (Err e).
Definition from {S A} (r : Result A) : calls S A := Done r.
Definition call {S A} (m : txn S FluxError A) : calls S A := Call (λ _, True) m Done.
Definition refuse {S} (b : bool) (e : FluxError) : calls S unit := if b then raise e else mret tt.

(** [p] and then [f] on its outcome. *)
Definition settle {S A B} (p : calls S A) (f : Result A → calls S B) : calls S B := seq_prog p f.

Fixpoint each {S A} (f : A → calls S unit) (l : list A) : calls S unit :=
  match l with
  | [] => mret tt
  | a :: l => _ ← f a; each f l
  end.

(** ** Running alone *)

Lemma exec_seq {S A B} (p : prog S A) (f : A → prog S B) s :
  exec (seq_prog p f) s = let '(a, s) := exec p s in exec (f a) s.
Proof.
  revert s. induction p as [a|B' need m k IH]; intros s; cbn [seq_prog exec]; [done|].
  destruct (m s) as [b s']. apply IH.
Qed.

Lemma exec_bind {S A B} (p : calls S A) (f : A → calls S B) s :
  exec (p ≫= f) s = ((exec p : txn S FluxError A) ≫= λ a, exec (f a)) s.
Proof.
  unfold mbind at 1, calls_bind. rewrite exec_seq. unfold mbind, txn_bind.
  destruct (exec p s) as [[a|e] s']; done.
Qed.

(** Two transactions that agree everywhere. *)
Lemma bind_ext {S A B} (m m' : txn S FluxError A) (f f' : A → txn S FluxError B) s :
  (∀ s, m s = m' s) → (∀ a s, f a s = f' a s) → (m ≫= f) s = (m' ≫= f') s.
Proof. intros Hm Hf. unfold mbind, txn_bind. rewrite Hm. destruct (m' s) as [[a|e] s']; auto. Qed.

Lemma exec_each {S A} (f : A → calls S unit) (g : A → txn S FluxError unit) l s :
  (∀ a s, exec (f a) s = g a s) → exec (each f l) s = for_each g l s.
Proof.
  intros Hf. revert s. induction l as [|a l IH]; intros s; cbn [each for_each]; [done|].
  rewrite exec_bind. apply bind_ext; auto.
Qed.

Lemma exec_call {S A} (m : txn S FluxError A) s : exec (call m) s = m s.
Proof. unfold call. cbn. by destruct (m s). Qed.

Lemma exec_refuse {S} b e (s : S) : exec (refuse b e) s = fail_if b e s.
Proof. unfold refuse, fail_if. by destruct b. Qed.

(** ** The operations *)

Section programs.
Context {hash : bytes → ChunkId} {Mt Ct U : Type}.
Context `{!MetaStore Mt, !ChunkStore hash Ct}.
Context (ufs : option (Ufs U)).

Abbreviation Cl := (FluxClient Mt Ct U).
Abbreviation P := (calls Cl).
Abbreviation rd c := (reader ufs (fc_ufs_state c)).

(** One call per extent. *)
Fixpoint read_extents_calls (inode : Inode) (offset end_ : N) (l : list Extent) (output : bytes) : P bytes :=
  match l with
  | [] => mret output
  | e :: l =>
      output ← call (view (λ c, read_extent (rd c) (fc_chunks c) inode offset end_ e output));
      read_extents_calls inode offset end_ l output
  end.

Definition read_inode_range_calls (inode : Inode) (offset len : N) : P bytes :=
  if bool_decide (i_file_type inode ≠ Regular) then raise IsDirectory else
  match i_manifest_id inode with
  | None => mret []
  | Some mid =>
      if (len =? 0) || (i_size inode <=? offset) then mret [] else
      let end_ := N.min (sat_add offset len) (i_size inode) in
      manifest ← call (read_meta (ms_get_manifest mid));
      read_extents_calls inode offset end_ (iter (m_extents manifest))
        (replicate (N.to_nat (end_ - offset)) zero)
  end.

Definition current_manifest_calls (inode : Inode) : P Manifest :=
  match i_manifest_id inode with
  | Some id => call (read_meta (ms_get_manifest id))
  | None => mret (Manifest_empty (i_id inode) (i_head_gen inode))
  end.

Definition window_bytes_calls (inode : Inode) (offset : N) (data : bytes)
    (end_ window_start window_end : N) : P bytes :=
  let old_window_end := N.min window_end (i_size inode) in
  old ← (if window_start <? old_window_end
         then read_inode_range_calls inode window_start (old_window_end - window_start)
         else mret []);
  let bytes := resize (N.to_nat (window_end - window_start)) old in
  let overlay_start := N.max offset window_start in
  let overlay_end := N.min end_ window_end in
  let src := take (N.to_nat (overlay_end - overlay_start))
                  (drop (N.to_nat (overlay_start - offset)) data) in
  mret (splice (N.to_nat (overlay_start - window_start)) src bytes).

Fixpoint stage_windows_calls (inode : Inode) (offset : N) (data : bytes) (end_ new_size gen : N)
    (windows : list N) (manifest : Manifest) : P (Manifest * list (ChunkId * bytes)) :=
  match windows with
  | [] => mret (manifest, [])
  | w :: windows =>
      window_start ← from (ok_or (InvalidArg "chunk offset overflow")
        (if w * CHUNK_SIZE <=? U64_MAX then Some (w * CHUNK_SIZE) else None));
      window_limit ← from (ok_or (InvalidArg "chunk end overflow") (checked_add window_start CHUNK_SIZE));
      let window_end := N.min window_limit new_size in
      bytes ← window_bytes_calls inode offset data end_ window_start window_end;
      let chunk := hash bytes in
      manifest ← from (replace_range manifest (Local window_start (window_end - window_start) chunk) gen);
      '(manifest, staged) ← stage_windows_calls inode offset data end_ new_size gen windows manifest;
      mret (manifest, (chunk, bytes) :: staged)
  end.

Definition put_staged_calls (staged : list (ChunkId * bytes)) : P unit :=
  each (λ eb,
    actual ← (Call (λ c, cs_room (fc_chunks c) eb.2) (on_chunks (cs_put eb.2)) Done : P ChunkId);
    refuse (negb (actual =? eb.1)) (Io "ChunkStore returned wrong content id")) staged.

Definition or_abort_calls {A} (ticket : WriteTicketId) (p : P A) : P A :=
  settle p (λ r,
    match r with
    | Ok a => mret a
    | Err e => settle (call (on_meta (ms_abort_chunk_reservation ticket))) (λ _, raise e)
    end).

Definition commit_staged_calls (ticket : WriteTicketId) (op_id : RequestOpId)
    (expected_generation : N) (inode : Inode) (manifest : Manifest)
    (staged : list (ChunkId * bytes)) : P Inode :=
  _ ← call (on_meta (ms_reserve_chunks ticket (i_id inode) expected_generation (local_chunks manifest)));
  or_abort_calls ticket (
    _ ← put_staged_calls staged;
    call (on_meta (ms_commit_reserved op_id ticket expected_generation inode manifest))).

Definition write_chunked_calls (now : Z) (ticket : WriteTicketId) (op_id : RequestOpId) (inode : Inode)
    (offset : N) (data : bytes) (end_ : N) : P N :=
  let new_size := N.max (i_size inode) end_ in
  let gen := sat_add (i_head_gen inode) 1 in
  manifest ← current_manifest_calls inode;
  '(manifest, staged) ← stage_windows_calls inode offset data end_ new_size gen
                          (windows_of offset end_) manifest;
  _ ← commit_staged_calls ticket op_id (i_generation inode) (mutated_head now inode new_size gen)
        (set_m_size new_size manifest) staged;
  mret (N.of_nat (length data) mod (U32_MAX + 1)).

Definition write_at_calls (now : Z) (ticket : WriteTicketId) (op_id : RequestOpId) (ino : InodeId)
    (offset : N) (data : bytes) : P N :=
  if bool_decide (data = []) then mret 0 else
  inode ← call (read_meta (ms_get_inode ino));
  _ ← refuse (bool_decide (i_file_type inode ≠ Regular)) IsDirectory;
  _ ← refuse (dirty_conflict inode) EDirtyConflict;
  end_ ← from (ok_or (InvalidArg "offset overflow") (checked_add offset (N.of_nat (length data))));
  write_chunked_calls now ticket op_id inode offset data end_.

Fixpoint truncate_extents_calls (size : N) (l : list Extent) :
    P (list Extent * list (ChunkId * bytes)) :=
  match l with
  | [] => mret ([], [])
  | extent :: l =>
      let start := ext_offset extent in
      if size <=? start then mret ([], []) else
      end_ ← from (ok_or (InvalidArg "extent end overflow") (checked_add start (ext_len extent)));
      if end_ <=? size then
        '(extents, staged) ← truncate_extents_calls size l;
        mret (extent :: extents, staged)
      else
      let keep := size - start in
      match extent with
      | Local _ _ chunk =>
          bytes ← call (read_chunks (λ k, cs_get k chunk));
          if N.of_nat (length bytes) <? keep then raise (Io "chunk shorter than manifest extent") else
          let bytes := take (N.to_nat keep) bytes in
          '(extents, staged) ← truncate_extents_calls size l;
          mret (Local start keep (hash bytes) :: extents, (hash bytes, bytes) :: staged)
      | UfsRange _ _ ufs_key ufs_version offset_in_object =>
          '(extents, staged) ← truncate_extents_calls size l;
          mret (UfsRange start keep ufs_key ufs_version offset_in_object :: extents, staged)
      end
  end.

Definition truncate_locked_calls (now : Z) (ticket : WriteTicketId) (op_id : RequestOpId) (inode : Inode)
    (size : N) (attrs : InodeSetAttr) : P Inode :=
  _ ← refuse (dirty_conflict inode) EDirtyConflict;
  let gen := sat_add (i_head_gen inode) 1 in
  current ← current_manifest_calls inode;
  '(extents, staged) ← truncate_extents_calls size (iter (m_extents current));
  tree ← from (try_from extents);
  commit_staged_calls ticket op_id (i_generation inode)
    (apply_inode_attrs (mutated_head now inode size gen) attrs).1
    (mkManifest (i_id inode) gen size tree) staged.

Definition setattr_calls (now : Z) (ticket : WriteTicketId) (op_id : RequestOpId) (ino : InodeId)
    (attrs : InodeSetAttr) : P Inode :=
  inode ← call (read_meta (ms_get_inode ino));
  let rest : P Inode :=
    let '(inode', touched) := apply_inode_attrs inode attrs in
    if negb touched then mret inode' else
    let inode' := set_generation (sat_add (i_generation inode') 1) inode' in
    let inode' := set_ctime_ms now inode' in
    call (on_meta (ms_put_inode_cas (i_generation inode) inode')) in
  match sa_size attrs with
  | Some size =>
      if bool_decide (i_file_type inode ≠ Regular) then raise IsDirectory
      else if negb (size =? i_size inode) then truncate_locked_calls now ticket op_id inode size attrs
      else rest
  | None => rest
  end.

(** ** The collector *)

Context (targets : GcTargets Ct).

Fixpoint delete_targets_calls (chunk : ChunkId) (pending : list WorkerTargetId) :
    P (list (ChunkId * WorkerTargetId) * bool) :=
  match pending with
  | [] => mret ([], false)
  | target :: pending =>
      settle (call (on_chunks (delete_from_target targets chunk target))) (λ r,
        match r with
        | Ok _ => '(acks, failed) ← delete_targets_calls chunk pending; mret ((chunk, target) :: acks, failed)
        | Err _ => '(acks, _) ← delete_targets_calls chunk pending; mret (acks, true)
        end)
  end.

Fixpoint delete_tombstones_calls (all : list WorkerTargetId) (tombstones : list GcTombstone) :
    P (list (ChunkId * WorkerTargetId) * list ChunkId) :=
  match tombstones with
  | [] => mret ([], [])
  | t :: tombstones =>
      let pending := if gt_targets_initialized t then gt_pending_targets t else all in
      '(acks, failed) ← delete_targets_calls (gt_chunk t) pending;
      '(acks', completed) ← delete_tombstones_calls all tombstones;
      mret (acks ++ acks', if failed : bool then completed else gt_chunk t :: completed)
  end.

Definition unless_empty {A} (l : list A) (p : P unit) : P unit :=
  if bool_decide (length l = 0)%nat then mret tt else p.

Definition reclaim_tombstones_calls (tombstones : list GcTombstone) : P N :=
  all ← call (read_chunks (gc_delete_targets targets));
  let uninitialized := gt_chunk <$> filter (λ t, gt_targets_initialized t = false) tombstones in
  _ ← unless_empty uninitialized (call (on_meta (ms_initialize_gc_delete_targets uninitialized all)));
  '(acknowledged, completed) ← delete_tombstones_calls all tombstones;
  _ ← unless_empty acknowledged (call (on_meta (ms_acknowledge_gc_deletes acknowledged)));
  _ ← unless_empty completed (call (on_meta (ms_finalize_gc_tombstones completed)));
  mret (N.of_nat (length completed)).

Definition gc_pass_calls (batch_size : N) : P OrphanGcReport :=
  if batch_size =? 0 then raise (InvalidArg "GC batch size must be non-zero") else
  _ ← call (on_meta (ms_expire_chunk_reservations batch_size));
  pending ← call (read_meta ms_list_gc_tombstones);
  if negb (bool_decide (pending = [])) then
    removed ← reclaim_tombstones_calls (take (N.to_nat batch_size) pending);
    mret (mkOrphanGcReport 0 removed)
  else
    cursor ← call (gets fc_gc_cursor);
    page ← call (read_chunks (λ k, list_chunks_page (cs_list k) cursor batch_size));
    _ ← call (modify (set_gc_cursor (cp_next_cursor page)));
    batch ← call (on_meta (ms_tombstone_gc_batch (cp_chunks page)));
    listed ← call (read_meta ms_list_gc_tombstones);
    removed ← reclaim_tombstones_calls (filter (λ t, gt_chunk t ∈ gb_tombstoned_chunks batch) listed);
    mret (mkOrphanGcReport (gb_removed_manifests batch) removed).

(** ** Run alone, these are the functions of the client *)

Lemma exec_settle {A B} (p : P A) (f : Result A → P B) (c : Cl) :
  exec (settle p f) c = let '(r, c) := exec p c in exec (f r) c.
Proof. apply exec_seq. Qed.

(** A program that only reads. *)
Lemma bind_view {A B} (p : P A) (f : Cl → Result A) (k : A → P B) (c : Cl) :
  exec p c = (f c, c) → exec (p ≫= k) c = match f c with Ok a => exec (k a) c | Err e => (Err e, c) end.
Proof. intros Hp. rewrite exec_bind. unfold mbind, txn_bind. rewrite Hp. by destruct (f c). Qed.

Lemma view_bind {A B} (f : Cl → Result A) (k : A → txn Cl FluxError B) (c : Cl) :
  (view f ≫= k) c = match f c with Ok a => k a c | Err e => (Err e, c) end.
Proof. unfold mbind, txn_bind, view. by destruct (f c). Qed.

Lemma exec_read_extents inode offset end_ l output (c : Cl) :
  exec (read_extents_calls inode offset end_ l output) c =
  (read_extents (rd c) (fc_chunks c) inode offset end_ l output, c).
Proof.
  revert output. induction l as [|e l IH]; intros output; cbn [read_extents_calls read_extents]; [done|].
  rewrite (bind_view _ (λ c, read_extent (rd c) (fc_chunks c) inode offset end_ e output)) by reflexivity.
  cbn beta. destruct (read_extent _ _ _ _ _ e output); [apply IH|done].
Qed.

Lemma exec_read_inode_range inode offset len (c : Cl) :
  exec (read_inode_range_calls inode offset len) c =
  (read_inode_range (rd c) (fc_meta c) (fc_chunks c) inode offset len, c).
Proof.
  unfold read_inode_range_calls, read_inode_range. case_bool_decide; [done|].
  destruct (i_manifest_id inode) as [mid|]; [|done]. destruct (_ || _); [done|].
  rewrite (bind_view _ (λ c, ms_get_manifest mid (fc_meta c))) by reflexivity. cbn beta.
  destruct (ms_get_manifest mid (fc_meta c)); [apply exec_read_extents|done].
Qed.

Lemma exec_current_manifest inode (c : Cl) :
  exec (current_manifest_calls inode) c = (current_manifest (fc_meta c) inode, c).
Proof. unfold current_manifest_calls, current_manifest. by destruct (i_manifest_id inode). Qed.

Lemma exec_window_bytes inode offset data end_ ws we (c : Cl) :
  exec (window_bytes_calls inode offset data end_ ws we) c =
  (window_bytes (rd c) (fc_meta c) (fc_chunks c) inode offset data end_ ws we, c).
Proof.
  unfold window_bytes_calls, window_bytes.
  rewrite (bind_view _ (λ c, if ws <? N.min we (i_size inode)
    then read_inode_range (rd c) (fc_meta c) (fc_chunks c) inode ws (N.min we (i_size inode) - ws) else Ok [])).
  2: { destruct (_ <? _); [apply exec_read_inode_range|done]. }
  cbn beta. by destruct (if _ <? _ then _ else _).
Qed.

Lemma exec_from {A B} (r : Result A) (k : A → P B) (c : Cl) :
  exec (from r ≫= k) c = match r with Ok a => exec (k a) c | Err e => (Err e, c) end.
Proof. by rewrite (bind_view _ (λ _, r)). Qed.

Lemma exec_stage_windows inode offset data end_ n gen windows man (c : Cl) :
  exec (stage_windows_calls inode offset data end_ n gen windows man) c =
  (stage_windows (rd c) (fc_meta c) (fc_chunks c) inode offset data end_ n gen windows man, c).
Proof.
  revert man. induction windows as [|w windows IH]; intros man; cbn [stage_windows_calls stage_windows]; [done|].
  rewrite exec_from. destruct (ok_or _ _) as [ws|]; [|done]. cbn [mbind result_bind].
  rewrite exec_from. destruct (ok_or _ _) as [wl|]; [|done]. cbn [mbind result_bind].
  rewrite (bind_view _ (λ c, window_bytes (rd c) (fc_meta c) (fc_chunks c) inode offset data end_ ws (N.min wl n)))
    by apply exec_window_bytes.
  cbn beta. destruct (window_bytes _ _ _ _ _ _ _ _ _) as [b|]; [|done]. cbn [mbind result_bind].
  rewrite exec_from. destruct (replace_range _ _ _) as [man'|]; [|done]. cbn [mbind result_bind].
  rewrite exec_bind. unfold mbind, txn_bind. rewrite IH. unfold result_bind.
  by destruct (stage_windows _ _ _ _ _ _ _ _ _ _ _) as [[]|].
Qed.

Lemma exec_put_staged staged (c : Cl) : exec (put_staged_calls staged) c = put_staged staged c.
Proof.
  apply exec_each. intros eb s. rewrite exec_bind. apply bind_ext.
  - intros s'. cbn [exec]. by destruct (on_chunks (cs_put eb.2) s').
  - intros a s'. apply exec_refuse.
Qed.

Lemma exec_or_abort {A} ticket (p : P A) (m : txn Cl FluxError A) (c : Cl) :
  (∀ c, exec p c = m c) → exec (or_abort_calls ticket p) c = or_abort ticket m c.
Proof.
  intros Hp. unfold or_abort_calls, or_abort. rewrite exec_settle, Hp. destruct (m c) as [[a|e] c']; [done|].
  rewrite exec_settle, exec_call. by destruct (on_meta _ c').
Qed.

Lemma exec_commit_staged ticket op_id g inode man staged (c : Cl) :
  exec (commit_staged_calls ticket op_id g inode man staged) c =
  commit_staged_manifest ticket op_id g inode man staged c.
Proof.
  unfold commit_staged_calls, commit_staged_manifest. rewrite exec_bind. apply bind_ext; [apply exec_call|].
  intros _ c1. apply exec_or_abort. intros c2. rewrite exec_bind. apply bind_ext; [apply exec_put_staged|].
  intros _ c3. apply exec_call.
Qed.

(** A write is its calls. *)
Lemma exec_write_at now ticket op_id ino offset data (c : Cl) :
  exec (write_at_calls now ticket op_id ino offset data) c = write_at ufs now ticket op_id ino offset data c.
Proof.
  unfold write_at_calls, write_at. case_bool_decide; [done|].
  rewrite exec_bind. apply bind_ext; [apply exec_call|]. intros inode c1.
  rewrite exec_bind. apply bind_ext; [intros; apply exec_refuse|]. intros _ c2.
  rewrite exec_bind. apply bind_ext; [intros; apply exec_refuse|]. intros _ c3.
  rewrite exec_bind. apply bind_ext; [done|]. intros end_ c4.
  unfold write_chunked_calls, write_chunked.
  rewrite (bind_view _ (λ c, current_manifest (fc_meta c) inode)) by apply exec_current_manifest.
  rewrite view_bind. destruct (current_manifest _ _) as [man|]; [|done]. cbn [mbind result_bind].
  rewrite (bind_view _ (λ c, stage_windows (rd c) (fc_meta c) (fc_chunks c) inode offset data end_
    (N.max (i_size inode) end_) (sat_add (i_head_gen inode) 1) (windows_of offset end_) man)) by apply exec_stage_windows.
  cbn beta. destruct (stage_windows _ _ _ _ _ _ _ _ _ _ _) as [[man' staged]|]; [|done].
  rewrite exec_bind. apply bind_ext; [intros; apply exec_commit_staged|done].
Qed.

Lemma exec_truncate_extents size l (c : Cl) :
  exec (truncate_extents_calls size l) c = (truncate_extents (fc_chunks c) size l, c).
Proof.
  induction l as [|e l IH]; cbn [truncate_extents_calls truncate_extents]; [done|].
  destruct (_ <=? _); [done|]. rewrite exec_from. destruct (ok_or _ _) as [end_|]; [|done]. cbn [mbind result_bind].
  destruct (_ <=? _).
  { rewrite (bind_view _ (λ c, truncate_extents (fc_chunks c) size l)) by done. cbn beta.
    by destruct (truncate_extents _ _ _) as [[]|]. }
  destruct e as [o n chunk|].
  - rewrite (bind_view _ (λ c, cs_get (fc_chunks c) chunk)) by done. cbn beta.
    destruct (cs_get _ _) as [b|]; [|done]. cbn [mbind result_bind]. destruct (_ <? _); [done|].
    rewrite (bind_view _ (λ c, truncate_extents (fc_chunks c) size l)) by done. cbn beta.
    by destruct (truncate_extents _ _ _) as [[]|].
  - rewrite (bind_view _ (λ c, truncate_extents (fc_chunks c) size l)) by done. cbn beta.
    by destruct (truncate_extents _ _ _) as [[]|].
Qed.

Lemma exec_truncate_locked now ticket op_id inode size attrs (c : Cl) :
  exec (truncate_locked_calls now ticket op_id inode size attrs) c =
  truncate_locked now ticket op_id inode size attrs c.
Proof.
  unfold truncate_locked_calls, truncate_locked.
  rewrite exec_bind. apply bind_ext; [intros; apply exec_refuse|]. intros _ c1.
  rewrite (bind_view _ (λ c, current_manifest (fc_meta c) inode)) by apply exec_current_manifest.
  rewrite view_bind. destruct (current_manifest _ _) as [man|]; [|done]. cbn [mbind result_bind].
  rewrite (bind_view _ (λ c, truncate_extents (fc_chunks c) size (iter (m_extents man)))) by apply exec_truncate_extents.
  destruct (truncate_extents _ _ _) as [[extents staged]|]; [|done]. cbn [mbind result_bind].
  rewrite exec_from. destruct (try_from extents) as [tree|]; [|done]. cbn [mbind result_bind].
  apply exec_commit_staged.
Qed.

Lemma exec_setattr now ticket op_id ino attrs (c : Cl) :
  exec (setattr_calls now ticket op_id ino attrs) c = setattr now ticket op_id ino attrs c.
Proof.
  unfold setattr_calls, setattr. rewrite exec_bind. apply bind_ext; [apply exec_call|]. intros inode c1. cbv zeta.
  destruct (apply_inode_attrs inode attrs) as [inode' touched].
  destruct (sa_size attrs) as [size|]; [case_bool_decide; [done|]; destruct (negb (size =? _)); [apply exec_truncate_locked|]|];
    (destruct (negb touched); [done|apply exec_call]).
Qed.

Lemma exec_delete_targets chunk pending (c : Cl) :
  exec (delete_targets_calls chunk pending) c = delete_targets targets chunk pending c.
Proof.
  revert c. induction pending as [|t pending IH]; intros c; cbn [delete_targets_calls delete_targets]; [done|].
  rewrite exec_settle, exec_call. unfold match_with. destruct (on_chunks _ c) as [[|] c1];
    rewrite exec_bind; (apply bind_ext; [apply IH|by intros []]).
Qed.

Lemma exec_delete_tombstones all ts (c : Cl) :
  exec (delete_tombstones_calls all ts) c = delete_tombstones targets all ts c.
Proof.
  revert c. induction ts as [|t ts IH]; intros c; cbn [delete_tombstones_calls delete_tombstones]; [done|].
  rewrite exec_bind. apply bind_ext; [intros; apply exec_delete_targets|]. intros [acks failed] c1.
  rewrite exec_bind. apply bind_ext; [apply IH|by intros []].
Qed.

Lemma exec_unless_empty {A} (l : list A) `{!Decision (l = [])} (p : P unit) m (c : Cl) :
  (∀ c, exec p c = m c) → exec (unless_empty l p) c = when (negb (bool_decide (l = []))) m c.
Proof.
  intros Hp. unfold unless_empty, when. destruct l; [by rewrite (bool_decide_true (_ = []))|]. by rewrite !bool_decide_false.
Qed.

Lemma exec_reclaim_tombstones ts (c : Cl) :
  exec (reclaim_tombstones_calls ts) c = reclaim_tombstones targets ts c.
Proof.
  unfold reclaim_tombstones_calls, reclaim_tombstones.
  rewrite exec_bind. apply bind_ext; [apply exec_call|]. intros all c1.
  rewrite exec_bind. apply bind_ext; [intros; apply exec_unless_empty; intros; apply exec_call|]. intros _ c2.
  rewrite exec_bind. apply bind_ext; [intros; apply exec_delete_tombstones|]. intros [acks completed] c3.
  rewrite exec_bind. apply bind_ext; [intros; apply exec_unless_empty; intros; apply exec_call|]. intros _ c4.
  rewrite exec_bind. apply bind_ext; [intros; apply exec_unless_empty; intros; apply exec_call|]. done.
Qed.

Lemma exec_gc_pass batch_size (c : Cl) :
  exec (gc_pass_calls batch_size) c = run_concurrent_gc_pass targets batch_size c.
Proof.
  unfold gc_pass_calls, run_concurrent_gc_pass. destruct (_ =? _); [done|].
  rewrite exec_bind. apply bind_ext; [apply exec_call|]. intros _ c1.
  rewrite exec_bind. apply bind_ext; [apply exec_call|]. intros pending c2.
  destruct (negb _).
  - rewrite exec_bind. apply bind_ext; [intros; apply exec_reclaim_tombstones|done].
  - rewrite exec_bind. apply bind_ext; [apply exec_call|]. intros cursor c3.
    rewrite exec_bind. apply bind_ext; [apply exec_call|]. intros page c4.
    rewrite exec_bind. apply bind_ext; [apply exec_call|]. intros _ c5.
    rewrite exec_bind. apply bind_ext; [apply exec_call|]. intros batch c6.
    rewrite exec_bind. apply bind_ext; [apply exec_call|]. intros listed c7.
    rewrite exec_bind. apply bind_ext; [intros; apply exec_reclaim_tombstones|done].
Qed.
End programs.
