(* ===== verification/GcRace.v ===== *)
(** * Writers and a collector, interleaved

    Clients share one metadata store, one chunk store and one underlying file
    system, and their calls interleave.  [step] is such a system: any number
    of writers ([write_at], [setattr]), one collector
    ([run_concurrent_gc_pass]), metadata requests of anybody else and changes
    of the underlying file system; operations begin, and stop half-way, at
    any time.  [safe] is a rely-guarantee judgement on the calls of one
    operation.  The result is that a chunk which some file refers to is never
    deleted. *)

From S2P Require Import Prelude Types Bytes Extents Keys ChunkStore Ufs MetaDb Namespace NamespaceInv.
From S2P Require Import Evolve InodeData Gc GcInv Membership Ledger Apply HeedStore MetaStore Client.
From S2P Require Import ClientIo ClientFlush ApplyInv Calm Programs.

Local Open Scope N_scope.

(** ** The chunks of an edited manifest *)

Definition has_chunk (t : ExtentTree) (c : ChunkId) : Prop := ∃ o n, Local o n c ∈ iter t.

Lemma elem_of_local_chunks m c : c ∈ local_chunks m ↔ has_chunk (m_extents m) c.
Proof.
  unfold local_chunks, has_chunk. rewrite list_elem_of_omap. split.
  - intros (e&He&Hc). destruct e as [o n ch|]; simplify_eq. eauto.
  - intros (o&n&He). by exists (Local o n c).
Qed.

Lemma elem_of_bt_insert {V} k (v : V) m x :
  x ∈ (bt_insert k v m).2.*2 → x = v ∨ x ∈ m.*2.
Proof.
  induction m as [|[k' v'] m IH]; cbn [bt_insert]; [cbn; set_solver|].
  destruct (k ?= k'); cbn; rewrite ?elem_of_cons; naive_solver.
Qed.

Lemma elem_of_bt_remove {V} k (m : list (N * V)) x : x ∈ (bt_remove k m).*2 → x ∈ m.*2.
Proof.
  induction m as [|[k' v'] m IH]; cbn [bt_remove]; [done|].
  destruct (k =? k'); cbn; rewrite ?elem_of_cons; naive_solver.
Qed.

Lemma elem_of_et_insert e t t' x : et_insert e t = Ok t' → x ∈ iter t' → x = e ∨ x ∈ iter t.
Proof.
  unfold et_insert. pose proof (elem_of_bt_insert (ext_offset e) e t x) as Hx.
  destruct (bt_insert (ext_offset e) e t) as [[]]; [done|]. intros [= <-]. exact Hx.
Qed.

Lemma elem_of_try_from l t x : try_from l = Ok t → x ∈ iter t → x ∈ l.
Proof.
  intros H Hx. unfold try_from in H. apply bind_Ok in H as (t'&H&H'). apply bind_Ok in H' as (_&_&[= ->]).
  enough (x ∈ iter [] ∨ x ∈ l) as [Hn%elem_of_nil|]; [done..|]. revert H. generalize (@nil (N * Extent)).
  induction l as [|e l IH]; intros t0 H; cbn in H; [injection H as ->; by left|].
  apply bind_Ok in H as (t1&Hi&H). apply IH in H as [H|]; [|right; by right].
  apply (elem_of_et_insert _ _ _ _ Hi) in H as [->|]; [right; left|by left].
Qed.

(** A replacement keeps chunks and adds its own. *)
Lemma replace_range_chunks m e g m' c :
  replace_range m e g = Ok m' → c ∈ local_chunks m' →
  c ∈ local_chunks m ∨ ∃ o n, e = Local o n c.
Proof.
  rewrite !elem_of_local_chunks. intros H Hc. unfold replace_range in H. destruct (ext_is_empty e); [done|].
  apply bind_Ok in H as (end_&_&H). apply bind_Ok in H as (t1&Hl&H). apply bind_Ok in H as (t2&Hi&H).
  apply bind_Ok in H as (_&_&[= <-]). destruct Hc as (o&n&Hc). cbn in Hc.
  apply (elem_of_et_insert _ _ _ _ Hi) in Hc as [<-|Hc]; [right; eauto|left]. exists o, n. clear Hi.
  revert Hl Hc. generalize (overlapping (m_extents m) (ext_offset e) (ext_len e)).
  generalize (m_extents m). intros t l. revert t. induction l as [|x l IH]; intros t H Hc; cbn in H.
  { by injection H as ->. }
  apply bind_Ok in H as (t'&Hs&H). specialize (IH _ H Hc). clear H Hc. unfold replace_step in Hs.
  apply bind_Ok in Hs as (ex&_&Hs). destruct x as [xo xn xc|xo xn xk xv xb].
  - destruct (_ && _); [|done]. injection Hs as <-. by eapply elem_of_bt_remove.
  - apply bind_Ok in Hs as (t2'&H1&H2). eapply elem_of_bt_remove.
    assert (Local o n c ∈ iter t2') as Hin.
    { destruct (_ <? _) in H2; [|by injection H2 as ->].
      by apply (elem_of_et_insert _ _ _ _ H2) in IH as [[=]|]. }
    destruct (_ <? _) in H1; [|by injection H1 as ->].
    by apply (elem_of_et_insert _ _ _ _ H1) in Hin as [[=]|].
Qed.

Section race.
Context {hash : bytes → ChunkId} {Ct U : Type} `{!ChunkStore hash Ct}.

Abbreviation Cl := (FluxClient Db Ct U).

(** What the clients share. *)
Record Shared := mkShared { sh_meta : Db; sh_chunks : Ct; sh_ufs : U }.

(** The client record of one operation, over the shared state. *)
Definition enter (s : Shared) (l : Cl) : Cl :=
  set_ufs_state (sh_ufs s) (set_chunks (sh_chunks s) (set_meta (sh_meta s) l)).
Definition shared (c : Cl) : Shared := mkShared (fc_meta c) (fc_chunks c) (fc_ufs_state c).

Lemma shared_enter s l : shared (enter s l) = s.
Proof. by destruct s. Qed.

Definition present (k : Ct) (c : ChunkId) : Prop := ∃ data, cs_get k c = Ok data.

(** The metadata invariant, and every chunk of a file is in the store. *)
Record sound (s : Shared) : Prop := {
  so_store : store_inv (sh_meta s);
  so_workers : membership_ok (membership_of (sh_meta s));
  so_chunks : cs_wf (sh_chunks s);
  so_live : ∀ c, manifest_live (sh_meta s) c → present (sh_chunks s) c
}.

(** ** Rely and guarantee *)

Section safe.
Context (R G : Shared → Shared → Prop).
Context `{!PreOrder R}.

(** Every call that [p] makes, whatever happened in between within [R], keeps
    to [G], and [p] ends in [Q]. *)
Fixpoint safe {A} (p : prog Cl A) (Q : A → Shared → Prop) (l : Cl) (s : Shared) : Prop :=
  match p with
  | Done a => ∀ s', R s s' → Q a s'
  | Call need m k =>
      ∀ s', R s s' → sound s' → store_room (sh_meta s') → need (enter s' l) →
      let '(b, c) := m (enter s' l) in
      G s' (shared c) ∧ safe (k b) Q c (shared c)
  end.

Definition stable (P : Shared → Prop) : Prop := ∀ s s', R s s' → P s → P s'.

Lemma stable_and P Q : stable P → stable Q → stable (λ s, P s ∧ Q s).
Proof. intros HP HQ s s' HR []. split; eauto. Qed.

Lemma stable_if (P : Prop) Q : stable Q → stable (λ s, P → Q s).
Proof. intros HQ s s' HR H HP. eauto. Qed.

Lemma stable_pure (P : Prop) : stable (λ _, P).
Proof. by intros s s'. Qed.

Lemma safe_rely {A} (p : prog Cl A) Q l s s' : R s s' → safe p Q l s → safe p Q l s'.
Proof. intros HR Hs. destruct p; cbn in *; intros s1 H1; apply Hs; by etrans. Qed.

Lemma safe_done {A} (a : A) (Q : A → Shared → Prop) l s : stable (Q a) → Q a s → safe (Done a) Q l s.
Proof. intros HQ H s' HR. by eapply HQ. Qed.

Lemma safe_seq {A B} (p : prog Cl A) (f : A → prog Cl B) (P : A → Shared → Prop) Q l s :
  safe p P l s → (∀ a l s, P a s → safe (f a) Q l s) → safe (seq_prog p f) Q l s.
Proof.
  intros Hp Hf. revert l s Hp. induction p as [a|B' need m k IH]; intros l s Hp; cbn [seq_prog].
  - apply Hf, Hp. done.
  - cbn. intros s' HR Hso Hroom Hn. specialize (Hp s' HR Hso Hroom Hn).
    destruct (m (enter s' l)) as [b c]. destruct Hp as [HG Hk]. split; [done|]. by apply IH.
Qed.

Lemma safe_bind {A B} (p : calls Cl A) (f : A → calls Cl B) (P : A → Shared → Prop) Q l s :
  safe p (λ r s, match r with Ok a => P a s | Err e => Q (Err e) s end) l s →
  (∀ e, stable (Q (Err e))) → (∀ a l s, P a s → safe (f a) Q l s) → safe (p ≫= f) Q l s.
Proof.
  intros Hp HQ Hf. unfold mbind, calls_bind. eapply safe_seq; [exact Hp|].
  intros [a|e] l' s' H; [by apply Hf|by apply safe_done].
Qed.

Lemma safe_weaken {A} (p : prog Cl A) (P Q : A → Shared → Prop) l s :
  safe p P l s → (∀ a s, P a s → Q a s) → safe p Q l s.
Proof.
  intros Hp HPQ. revert l s Hp. induction p as [a|B need m k IH]; intros l s Hp; cbn in *; [by auto|].
  intros s' HR Hso Hroom Hn. specialize (Hp s' HR Hso Hroom Hn).
  destruct (m (enter s' l)) as [b c]. destruct Hp as [HG Hk]. auto.
Qed.

(** A call by itself. *)
Lemma safe_call {A} need (m : Cl → A * Cl) (P : Shared → Prop) (Q : A → Shared → Prop) l s :
  stable P → (∀ a, stable (Q a)) → P s →
  (∀ s l, P s → sound s → store_room (sh_meta s) → need (enter s l) →
     ∀ a c, m (enter s l) = (a, c) → G s (shared c) ∧ Q a (shared c)) →
  safe (Call need m Done) Q l s.
Proof.
  intros HP HQ H Hm s' HR Hso Hroom Hn. destruct (m (enter s' l)) as [a c] eqn:Hc.
  destruct (Hm s' l) with a c as [HG Hq]; try done; [by eapply HP|]. split; [done|]. by apply safe_done.
Qed.

(** A call that only reads. *)
Lemma safe_read {A} (f : Cl → A) m (P : Shared → Prop) (Q : A → Shared → Prop) l s :
  (∀ s, sound s → G s s) → (∀ c, m c = (f c, c)) →
  stable P → (∀ a, stable (Q a)) → P s →
  (∀ s l, P s → sound s → Q (f (enter s l)) s) →
  safe (Call (λ _, True) m Done) Q l s.
Proof.
  intros HG Hf HP HQ H Hm. eapply safe_call; try done. intros s1 l1 H1 Hso _ _ a c Hc.
  rewrite Hf in Hc. injection Hc as <- <-. rewrite shared_enter. auto.
Qed.
End safe.

(** What a writer with ticket [t] relies on: generations identify rows, nobody
    else takes its ticket, and chunks that its reservation names stay. *)
Record writer_rely (t : WriteTicketId) (s s' : Shared) : Prop := {
  wr_versioned : versioned (sh_meta s) (sh_meta s');
  wr_ticket : ∀ r, reservations (sh_meta s') !! t = Some r → reservations (sh_meta s) !! t = Some r;
  wr_kept : ∀ r c, reservations (sh_meta s') !! t = Some r → c ∈ cr_chunks r →
    present (sh_chunks s) c → present (sh_chunks s') c
}.

(** What it guarantees: it creates no other reservation, touches no
    tombstone and deletes nothing. *)
Record writer_does (t : WriteTicketId) (s s' : Shared) : Prop := {
  wd_sound : sound s';
  wd_versioned : versioned (sh_meta s) (sh_meta s');
  wd_tombstones : tombstones (sh_meta s') = tombstones (sh_meta s);
  wd_tickets : ∀ t' r, t' ≠ t → reservations (sh_meta s') !! t' = Some r →
    reservations (sh_meta s) !! t' = Some r;
  wd_kept : ∀ c, present (sh_chunks s) c → present (sh_chunks s') c
}.

(** A collector relies on its tombstones and deletes only chunks that have
    one. *)
Definition collector_rely (s s' : Shared) : Prop :=
  ∀ c, is_Some (tombstones (sh_meta s) !! c) → is_Some (tombstones (sh_meta s') !! c).

Record collector_does (s s' : Shared) : Prop := {
  cd_sound : sound s';
  cd_versioned : versioned (sh_meta s) (sh_meta s');
  cd_reservations : reservations (sh_meta s') ⊆ reservations (sh_meta s);
  cd_kept : ∀ c, present (sh_chunks s) c →
    present (sh_chunks s') c ∨ sh_meta s' = sh_meta s ∧ is_Some (tombstones (sh_meta s) !! c)
}.

#[export] Instance writer_rely_preorder t : PreOrder (writer_rely t).
Proof.
  split.
  - intros s. by split.
  - intros s1 s2 s3 [A1 A2 A3] [B1 B2 B3]. split; [by etrans|auto|]. intros r c Hr Hc H. eapply B3; eauto.
Qed.

#[export] Instance collector_rely_preorder : PreOrder collector_rely.
Proof. split; [by intros s c|]. intros s1 s2 s3 H1 H2 c Hc. auto. Qed.

Lemma writer_idle t s : sound s → writer_does t s s.
Proof. by split. Qed.

Lemma collector_idle s : sound s → collector_does s s.
Proof. split; auto; reflexivity. Qed.

(** A request of somebody else. *)
Lemma calm_sound s d' :
  sound s → calm (sh_meta s) d' → store_inv d' → membership_ok (membership_of d') →
  sound (mkShared d' (sh_chunks s) (sh_ufs s)).
Proof. intros [A1 A2 A3 A4] [B1 B2 B3 B4] Hst Hm. split; cbn; auto. Qed.

Lemma calm_writer t s d' :
  sound s → calm (sh_meta s) d' → store_inv d' → membership_ok (membership_of d') →
  writer_does t s (mkShared d' (sh_chunks s) (sh_ufs s)).
Proof.
  intros Hso Hc Hst Hm. split; cbn; try apply Hc; [by apply calm_sound|..|done].
  intros t' r _ Hr. eapply lookup_weaken; [done|apply Hc].
Qed.

(** ** Interference *)

Lemma writer_writer t t' s s' : t' ≠ t → writer_does t s s' → writer_rely t' s s'.
Proof. intros Hne []. split; eauto. Qed.

Lemma writer_collector t s s' : writer_does t s s' → collector_rely s s'.
Proof. intros [] c. congruence. Qed.

(** A chunk that is reserved has no tombstone, so it is not deleted. *)
Lemma collector_writer t s s' : sound s → collector_does s s' → writer_rely t s s'.
Proof.
  intros Hso [A1 A2 A3 A4]. split; [done|..].
  - intros r Hr. by eapply lookup_weaken.
  - intros r c Hr Hc Hp. destruct (A4 c Hp) as [?|[Hd [x Hx]]]; [done|]. exfalso.
    destruct (st_tombstones _ (so_store _ Hso) _ _ Hx) as [_ Hl]. apply Hl. right. exists t, r.
    by rewrite <-Hd.
Qed.

(** ** What a writer knows *)

(** Its ticket is unused. *)
Definition unused (t : WriteTicketId) (s : Shared) : Prop := reservations (sh_meta s) !! t = None.

(** It has read [inode]: as long as the generation is the same, so is the
    row. *)
Definition seen (inode : Inode) (s : Shared) : Prop :=
  (∀ i, inodes (sh_meta s) !! i_id inode = Some i → i = inode ∨ i_generation inode < i_generation i) ∧
  ∀ n, next_inode (sh_meta s) = Some n → i_id inode < n.

(** It has read the manifest of [inode]. *)
Definition seen_manifest (inode : Inode) (man : Manifest) (s : Shared) : Prop :=
  match i_manifest_id inode with
  | Some mid => (∀ m, manifests (sh_meta s) !! mid = Some m → m = man) ∧
                ∀ n, next_manifest (sh_meta s) = Some n → mid < n
  | None => local_chunks man = []
  end.

(** It holds a reservation of [chunks], all of which are in the store but for
    those in [missing]; or it has lost the reservation. *)
Definition holds_chunks (t : WriteTicketId) (chunks missing : list ChunkId) (s : Shared) : Prop :=
  ∀ r, reservations (sh_meta s) !! t = Some r →
    cr_chunks r = sort_dedup chunks ∧ ∀ c, c ∈ chunks → present (sh_chunks s) c ∨ c ∈ missing.

Lemma unused_stable t : stable (writer_rely t) (unused t).
Proof.
  intros s s' [_ Ht _] Hu. unfold unused in *. apply eq_None_not_Some. intros [r Hr%Ht]. congruence.
Qed.

Lemma seen_stable t inode : stable (writer_rely t) (seen inode).
Proof.
  intros s s' [[Hi Hn _ _] _ _] [Hs Hlt]. split.
  - intros i' [(i&Hx&Hv)|(n&Hx&Hle)]%Hi.
    + destruct (Hs _ Hx) as [->|]; [naive_solver|]. right. destruct Hv as [->|]; [done|lia].
    + apply Hlt in Hx. lia.
  - intros n Hx. rewrite Hx in Hn. inversion Hn as [x y Hle Hx' Hy|]; subst. specialize (Hlt x). naive_solver lia.
Qed.

Lemma seen_manifest_stable t inode man : stable (writer_rely t) (seen_manifest inode man).
Proof.
  intros s s' [[_ _ Hm Hn] _ _]. unfold seen_manifest. destruct (i_manifest_id inode) as [mid|]; [|done].
  intros [Hs Hlt]. split.
  - intros m [?|(n&Hx&Hle)]%Hm; [by apply Hs|]. apply Hlt in Hx. lia.
  - intros n Hx. rewrite Hx in Hn. inversion Hn as [x y Hle Hx' Hy|]; subst. specialize (Hlt x). naive_solver lia.
Qed.

Lemma holds_stable t chunks missing : stable (writer_rely t) (holds_chunks t chunks missing).
Proof.
  intros s s' [_ Ht Hk] Hh r Hr. destruct (Hh r (Ht r Hr)) as [Hc Hp]. split; [done|].
  intros c Hin. destruct (Hp c Hin) as [?|?]; [left|by right]. eapply Hk; [done| |done].
  rewrite Hc. by apply elem_of_sort_dedup.
Qed.

(** Reading a row and its manifest. *)
Lemma get_inode_seen s ino inode :
  sound s → heed_get_inode ino (sh_meta s) = Ok inode → seen inode s.
Proof.
  intros Hso Hg%ok_or_Ok. pose proof (st_ns _ (so_store _ Hso)) as Hns.
  rewrite <-(ns_id _ _ Hns _ _ Hg) in Hg. split; [intros i Hi; left; congruence|].
  destruct (ns_next _ _ Hns) as (n&Hn&Hlt). intros n' Hn'. simplify_eq. apply Hlt. eauto.
Qed.

Lemma get_manifest_seen s inode mid man :
  sound s → i_manifest_id inode = Some mid → heed_get_manifest mid (sh_meta s) = Ok man →
  seen_manifest inode man s.
Proof.
  intros Hso Hmid Hg%ok_or_Ok. unfold seen_manifest. rewrite Hmid. split; [intros; congruence|].
  destruct (st_next _ (so_store _ Hso)) as (n&Hn&Hlt). intros n' Hn'. simplify_eq. apply Hlt. eauto.
Qed.

(** While the generation is the one it has read, the chunks of the manifest
    it has read are in the store. *)
Lemma seen_live s inode man c :
  sound s → seen inode s → seen_manifest inode man s →
  (∃ i, inodes (sh_meta s) !! i_id inode = Some i ∧ i_generation i = i_generation inode) →
  c ∈ local_chunks man → present (sh_chunks s) c.
Proof.
  intros Hso [Hs _] Hm (i&Hi&Hg) Hc. destruct (Hs _ Hi) as [->|]; [|lia].
  unfold seen_manifest in Hm. destruct (i_manifest_id inode) as [mid|] eqn:Hmid.
  - destruct (st_manifest _ (so_store _ Hso) _ _ _ Hi Hmid) as [m Hx]. destruct Hm as [Hm _].
    rewrite (Hm _ Hx) in Hx. apply (so_live _ Hso). by exists (i_id inode), inode, mid, man.
  - rewrite Hm in Hc. by apply elem_of_nil in Hc.
Qed.

(** ** The calls of a writer *)

Lemma reserve_effect t ino g chunks exp d r d' :
  reservations d !! t = None → reserve_chunks_in_txn t ino g chunks exp d = (Ok r, d') →
  (∃ i, inodes d !! ino = Some i ∧ i_generation i = g) ∧
  d' = upd_reservations <[t := mkChunkReservation t ino g (sort_dedup chunks) exp]> d.
Proof.
  intros Hu H. unfold reserve_chunks_in_txn, reservation_in_txn, put_reservation_in_txn in H.
  db_step H Hm1; db_inv Hm1. db_step H Hm2; db_inv Hm2. apply check_generation_ok in Hm2.
  db_step H Hl; destruct (not_tombstoned_loop _ _ _ _ Hl) as (->&_&_).
  rewrite txn_bind_gets, Hu in H. db_inv H. eauto.
Qed.

Lemma commit_effect t g inode man d i' d' :
  store_inv d → commit_reserved_in_txn t g inode man d = (Ok i', d') →
  ∃ r cur mid, reservations d !! t = Some r ∧ cr_chunks r = sort_dedup (local_chunks man) ∧
    inodes d !! i_id inode = Some cur ∧ i_generation cur = g ∧ i_flush_intent cur = None ∧
    next_manifest d = Some mid ∧
    d' = upd_reservations (delete t) (upd_inodes <[i_id inode := set_manifest_id (Some mid) inode]>
           (upd_manifests <[mid := man]> (upd_next_manifest (λ _, Some (wrap_add mid 1)) d))).
Proof.
  intros Hst H. unfold commit_reserved_in_txn, reservation_in_txn, abort_reservation_in_txn in H.
  rewrite txn_bind_gets in H. db_step H Hres; db_inv Hres.
  db_step H Hm1; db_inv Hm1. db_step H Hm2; db_inv Hm2.
  db_step H Hc. db_inv H. unfold commit_inode_manifest_in_txn in Hc. db_inv Hc.
  apply put_manifest_cases in Hm as [(?&[=]&_)|(mid&[= <-]&Hn&_&->)]. bools.
  apply ok_or_Ok in Hres. exists x, x0, x2. by split_and!.
Qed.

(** A call on the metadata store, in one write transaction. *)
Lemma on_meta_inv {A} (f : txn Db FluxError A) s (l : Cl) r c :
  on_meta f (enter s l) = (r, c) →
  ∃ d', f (sh_meta s) = (r, d') ∧ shared c = mkShared d' (sh_chunks s) (sh_ufs s).
Proof. unfold on_meta. cbn. destruct (f (sh_meta s)) as [r' d'] eqn:Hf. intros [= <- <-]. eauto. Qed.

Lemma meta_same s : mkShared (sh_meta s) (sh_chunks s) (sh_ufs s) = s.
Proof. by destruct s. Qed.

Lemma reserve_sound t ino g chunks exp s d' :
  sound s → unused t s → reserve_chunks_in_txn t ino g chunks exp (sh_meta s) = (Ok tt, d') →
  let s' := mkShared d' (sh_chunks s) (sh_ufs s) in
  writer_does t s s' ∧ inodes d' = inodes (sh_meta s) ∧ next_inode d' = next_inode (sh_meta s) ∧
  (∃ i, inodes (sh_meta s) !! ino = Some i ∧ i_generation i = g) ∧
  ∃ r, reservations d' !! t = Some r ∧ cr_chunks r = sort_dedup chunks.
Proof.
  intros Hso Hu H. pose proof (reserve_store _ _ _ _ _ _ _ _ (so_store _ Hso) H) as Hst.
  apply reserve_effect in H as [Hi ->]; [|done]. cbn. split_and!; try done.
  - destruct Hso as [A1 A2 A3 A4]. split; cbn; try done; [split; eauto; reflexivity|].
    intros t' r Hne. by rewrite lookup_insert_ne.
  - exists (mkChunkReservation t ino g (sort_dedup chunks) exp). by rewrite lookup_insert_eq.
Qed.

(** [head] is a new head for [inode]. *)
Record next_head (inode head : Inode) : Prop := {
  nh_derived : derived_from inode head;
  nh_intent : i_flush_intent head = i_flush_intent inode;
  nh_idle : ∃ f, i_locality_fields head = Some f ∧ lf_op_state f = OpNone;
  nh_generation : i_generation head = sat_add (i_generation inode) 1
}.

Lemma commit_sound t inode head man s i' d' :
  sound s → store_room (sh_meta s) → seen inode s → next_head inode head →
  holds_chunks t (local_chunks man) [] s →
  commit_reserved_in_txn t (i_generation inode) head man (sh_meta s) = (Ok i', d') →
  writer_does t s (mkShared d' (sh_chunks s) (sh_ufs s)).
Proof.
  intros Hso Hroom [Hseen _] [Hder Hint (f&Hf&Hop) Hgen] Hh H.
  pose proof (so_store _ Hso) as Hst. destruct (commit_effect _ _ _ _ _ _ _ Hst H)
    as (r&cur&mid&Hr&Hcr&Hcur&Hg&Hnone&Hn&Hd'). assert (Hder' := Hder). destruct Hder' as (Hid&_&_).
  assert (cur = inode) as ->.
  { rewrite Hid in Hcur. destruct (Hseen _ Hcur) as [?|]; [done|lia]. }
  assert (store_inv d') as Hst'.
  { eapply commit_reserved_store; [done..| |exact H]. intros cur' Hcur' _. rewrite Hcur in Hcur'. injection Hcur' as <-.
    split; [done|]. eapply flush_ok_idle; [congruence|done..]. }
  assert (i_generation inode < i_generation head) as Hlt by (rewrite Hgen; by eapply sat_next).
  destruct (Hh r Hr) as [_ Hall]. assert (mid < U64_MAX) as Hmax by (by apply Hroom).
  subst d'. destruct (store_put_manifest _ mid man Hst Hn Hmax) as [_ Hno]. split; cbn; try done.
  - split; cbn; [done|apply Hso|apply Hso|]. intros c (id&i&mid'&m&Hi&Hmid&Hm&Hc). cbn in Hi, Hm.
    apply lookup_insert_Some in Hi as [[<- <-]|[_ Hi]].
    + injection Hmid as <-. rewrite lookup_insert_eq in Hm. injection Hm as <-.
      destruct (Hall c Hc) as [?|Hx%elem_of_nil]; done.
    + rewrite lookup_insert_ne in Hm by (intros <-; by eapply Hno).
      apply (so_live _ Hso). by exists id, i, mid', m.
  - split; cbn; [|reflexivity|..].
    + intros id i [[<- <-]|[_ Hi]]%lookup_insert_Some; left; [|by eauto]. exists inode. auto.
    + intros mid' m [[<- <-]|[_ Hm]]%lookup_insert_Some; [right|by left]. exists mid. split; [done|lia].
    + rewrite Hn, wrap_add_small by lia. constructor. lia.
  - intros t' r' Hne. by rewrite lookup_delete_ne.
Qed.

(** An upload. *)
Lemma put_sound t data s k' r :
  sound s → cs_room (sh_chunks s) data → cs_put data (sh_chunks s) = (r, k') →
  r = Ok (hash data) ∧ present k' (hash data) ∧ writer_does t s (mkShared (sh_meta s) k' (sh_ufs s)).
Proof.
  intros Hso Hroom H. destruct (cs_put_law _ _ (so_chunks _ Hso) Hroom) as (k&Hk&Hwf&Hget&Hold).
  rewrite Hk in H. injection H as <- <-.
  assert (∀ c, present (sh_chunks s) c → present k c) as Hkeep.
  { intros c [d Hc]. destruct (decide (c = hash data)) as [->|Hne]; [by exists data|].
    exists d. by rewrite Hold. }
  split_and!; [done|by exists data|]. split; cbn; auto.
  - destruct Hso as [A1 A2 A3 A4]. split; cbn; auto.
  - reflexivity.
Qed.

(** ** A writer is safe *)

Section writer.
Context (clock : nat → Z) (ms : N) (debug : MetaRaftResponse → string).
Context (ufs : option (Ufs U)) (t : WriteTicketId).

#[local] Instance meta : MetaStore Db := heed_meta clock ms debug.

Abbreviation wsafe := (safe (writer_rely t) (writer_does t)).
Abbreviation wbind := (safe_bind (writer_rely t) (writer_does t)).
Abbreviation wcall := (safe_call (writer_rely t) (writer_does t)).
Abbreviation wseq := (safe_seq (writer_rely t) (writer_does t)).
Definition anything {A} (_ : A) (_ : Shared) : Prop := True.

Lemma anything_stable {A} R (a : A) : stable R (anything a).
Proof. by intros s s'. Qed.

Lemma on_chunks_inv {A} (f : txn Ct FluxError A) s (l : Cl) r c :
  on_chunks f (enter s l) = (r, c) →
  ∃ k', f (sh_chunks s) = (r, k') ∧ shared c = mkShared (sh_meta s) k' (sh_ufs s).
Proof. unfold on_chunks. cbn. destruct (f (sh_chunks s)) as [r' k'] eqn:Hf. intros [= <- <-]. eauto. Qed.

Lemma safe_put_staged inode chunks staged l s :
  (∀ eb, eb ∈ staged → eb.1 = hash eb.2) → seen inode s → holds_chunks t chunks (staged.*1) s →
  wsafe (put_staged_calls staged)
    (λ r s, match r with Ok _ => seen inode s ∧ holds_chunks t chunks [] s | Err _ => True end) l s.
Proof.
  revert l s. induction staged as [|[e b] staged IH]; intros l s Hst Hs Hh; cbn [put_staged_calls each].
  { apply safe_done; [apply stable_and; [apply seen_stable|apply holds_stable]|done]. }
  assert (e = hash b) as -> by (apply (Hst (e, b)); left).
  eapply (wbind _ _ (λ _ s, seen inode s ∧ holds_chunks t chunks (staged.*1) s)); [|by intros ? ? ?|].
  2: { intros [] l' s' [Hs' Hh']. apply IH; [|exact Hs'|exact Hh']. intros eb ?. apply Hst. by right. }
  eapply (wbind _ _ (λ a s, a = hash b → seen inode s ∧ holds_chunks t chunks (staged.*1) s)); [|by intros ? ? ?|].
  2: { intros a l' s' H. unfold refuse. destruct (negb _) eqn:Hne; [by apply safe_done|]. bools.
       apply safe_done; [apply stable_and; [apply seen_stable|apply holds_stable]|]. exact (H Hne). }
  eapply (wcall _ _ (λ s, seen inode s ∧ holds_chunks t chunks (hash b :: staged.*1) s));
    [apply stable_and; [apply seen_stable|apply holds_stable]| |by split|].
  { intros [a|e]; [apply stable_if, stable_and; [apply seen_stable|apply holds_stable]|by intros ? ?]. }
  intros s1 l1 [Hs1 Hh1] Hso Hroom Hn a c (k'&Hput&->)%on_chunks_inv.
  apply (put_sound t) in Hput as (->&Hp&Hd); [|done|exact Hn]. split; [done|]. intros _. split; [exact Hs1|].
  intros r Hr. destruct (Hh1 r Hr) as [Hc Hall]. split; [done|]. intros x Hx. cbn.
  destruct (Hall x Hx) as [?|[->|?]%elem_of_cons]; [left|by left|by right]. by apply (wd_kept _ _ _ Hd).
Qed.

Lemma safe_commit_staged op_id inode head man0 man staged l s :
  next_head inode head → (∀ eb, eb ∈ staged → eb.1 = hash eb.2) →
  (∀ c, c ∈ local_chunks man → c ∈ local_chunks man0 ∨ c ∈ staged.*1) →
  unused t s → seen inode s → seen_manifest inode man0 s →
  wsafe (commit_staged_calls t op_id (i_generation inode) head man staged) anything l s.
Proof.
  intros Hh Hst Hcov Hu Hs Hm. unfold commit_staged_calls. assert (i_id head = i_id inode) as Hid by apply Hh.
  eapply (wbind _ _ (λ _ s, seen inode s ∧ holds_chunks t (local_chunks man) (staged.*1) s)).
  { eapply (wcall _ _ (λ s, unused t s ∧ seen inode s ∧ seen_manifest inode man0 s));
      [apply stable_and; [apply unused_stable|apply stable_and; [apply seen_stable|apply seen_manifest_stable]]
      | |done|].
    { intros [a|e]; [apply stable_and; [apply seen_stable|apply holds_stable]|by intros ? ? ?]. }
    intros s1 l1 (Hu1&Hs1&Hm1) Hso Hroom _ a c (d'&H&->)%on_meta_inv.
    apply write_txn_inv in H as [[-> [e ->]]|([]&->&H)].
    { rewrite meta_same. split; [by apply writer_idle|done]. }
    destruct (reserve_sound _ _ _ _ _ _ _ Hso Hu1 H) as (Hd&Hi&Hnx&Hg&r&Hr&Hcr).
    split; [done|]. split; [unfold seen; cbn; rewrite Hi, Hnx; exact Hs1|].
    intros r' Hr'. cbn in Hr'. simplify_eq. split; [done|]. cbn. intros x Hx.
    destruct (Hcov x Hx) as [Hx'|]; [left|by right]. rewrite Hid in Hg. by eapply seen_live. }
  { intros e. apply anything_stable. }
  intros _ l1 s1 [Hs1 Hh1]. unfold or_abort_calls, settle.
  apply (wseq _ _ anything).
  - eapply wbind; [by apply (safe_put_staged inode)|intros; apply anything_stable|].
    intros _ l2 s2 [Hs2 Hh2].
    eapply (wcall _ _ (λ s, seen inode s ∧ holds_chunks t (local_chunks man) [] s));
      [apply stable_and; [apply seen_stable|apply holds_stable]|intros; apply anything_stable|done|].
    intros s3 l3 [Hs3 Hh3] Hso Hroom _ a c (d'&H&->)%on_meta_inv. split; [|done].
    apply write_txn_inv in H as [[-> [e ->]]|(i'&->&H)]; [rewrite meta_same; by apply writer_idle|].
    by eapply commit_sound.
  - intros [a|e] l2 s2 _; [by apply safe_done|].
    apply (wseq _ _ anything); [|intros; by apply safe_done].
    eapply (wcall _ _ (λ _, True)); [by intros ? ?|intros; apply anything_stable|done|].
    intros s3 l3 _ Hso Hroom _ a c (d'&H&->)%on_meta_inv. split; [|done].
    apply write_txn_inv in H as [[-> [e' ->]]|(i'&->&H)]; [rewrite meta_same; by apply writer_idle|].
    apply calm_writer; [done|..].
    + unfold abort_reservation_in_txn in H. db_inv H. apply calm_release; try done. apply delete_subseteq.
    + eapply abort_store; [apply Hso|done].
    + unfold abort_reservation_in_txn in H. db_inv H. apply Hso.
Qed.

(** *** Staging only reads *)

Section staging.
Context (P : Shared → Prop) (HP : stable (writer_rely t) P).

(** [p] keeps [P] and its answer, if any, satisfies [φ]. *)
Definition yields {A} (p : calls Cl A) (φ : A → Prop) : Prop :=
  ∀ l s, P s → wsafe p (λ r s, P s ∧ ∀ a, r = Ok a → φ a) l s.

Lemma yields_stable {A} (φ : A → Prop) (r : Result A) :
  stable (writer_rely t) (λ s, P s ∧ ∀ a, r = Ok a → φ a).
Proof. apply stable_and; [done|by intros ? ?]. Qed.

Lemma yields_ret {A} (a : A) (φ : A → Prop) : φ a → yields (mret a) φ.
Proof. intros Ha l s Hs. apply safe_done; [apply yields_stable|]. split; [done|]. by intros ? [= <-]. Qed.

Lemma yields_raise {A} e (φ : A → Prop) : yields (raise e) φ.
Proof. intros l s Hs. apply safe_done; [apply yields_stable|done]. Qed.

Lemma yields_from {A} (r : Result A) : yields (from r) (λ a, r = Ok a).
Proof. intros l s Hs. apply safe_done; [apply yields_stable|done]. Qed.

Lemma yields_bind {A B} (p : calls Cl A) (f : A → calls Cl B) φ (ψ : B → Prop) :
  yields p φ → (∀ a, φ a → yields (f a) ψ) → yields (p ≫= f) ψ.
Proof.
  intros Hp Hf l s Hs. apply (wbind _ _ (λ a s, P s ∧ φ a)).
  - eapply safe_weaken; [by apply Hp|]. intros [a|e] s' [? Hφ]; [by auto|done].
  - intros e. apply yields_stable.
  - intros a l' s' [? ?]. by apply Hf.
Qed.

Lemma yields_call {A} (m : txn Cl FluxError A) f : (∀ c, m c = (f c, c)) → yields (call m) (λ _, True).
Proof.
  intros Hm l s Hs. apply (safe_read (writer_rely t) (writer_does t) f m P); auto.
  - apply writer_idle.
  - intros r. apply yields_stable.
Qed.

Lemma yields_weaken {A} (p : calls Cl A) φ (ψ : A → Prop) : yields p φ → (∀ a, φ a → ψ a) → yields p ψ.
Proof. intros Hp H l s Hs. eapply safe_weaken; [by apply Hp|]. cbn. naive_solver. Qed.

Lemma yields_read_extents inode offset end_ l output :
  yields (read_extents_calls ufs inode offset end_ l output) (λ _, True).
Proof.
  revert output. induction l as [|e l IH]; intros output; [by apply yields_ret|].
  eapply yields_bind; [by eapply yields_call|]. intros output' _. apply IH.
Qed.

Lemma yields_window inode offset data end_ ws we :
  yields (window_bytes_calls ufs inode offset data end_ ws we) (λ _, True).
Proof.
  apply (yields_bind _ _ (λ _, True)); [|intros old _; by apply yields_ret].
  destruct (_ <? _); [|by apply yields_ret]. unfold read_inode_range_calls.
  case_bool_decide; [apply yields_raise|]. destruct (i_manifest_id inode) as [mid|]; [|by apply yields_ret].
  destruct (_ || _); [by apply yields_ret|]. eapply yields_bind; [by eapply yields_call|].
  intros man _. apply yields_read_extents.
Qed.

(** What staging hands to the commit: every chunk of the new manifest is one
    of the old or is to be uploaded. *)
Definition covered (man0 man : Manifest) (staged : list (ChunkId * bytes)) : Prop :=
  (∀ eb, eb ∈ staged → eb.1 = hash eb.2) ∧
  ∀ c, c ∈ local_chunks man → c ∈ local_chunks man0 ∨ c ∈ staged.*1.

Lemma yields_stage inode offset data end_ n gen windows man0 :
  yields (stage_windows_calls ufs inode offset data end_ n gen windows man0)
    (λ '(man, staged), covered man0 man staged).
Proof.
  revert man0. induction windows as [|w windows IH]; intros man0; cbn [stage_windows_calls].
  { apply yields_ret. split; [|by left]. intros eb H. by apply elem_of_nil in H. }
  eapply yields_bind; [apply yields_from|]. intros ws _.
  eapply yields_bind; [apply yields_from|]. intros wl _.
  eapply yields_bind; [apply yields_window|]. intros b _.
  eapply yields_bind; [apply yields_from|]. intros man1 Hr.
  eapply yields_bind; [apply IH|]. intros [man staged] [Hst Hc]. apply yields_ret. split.
  - intros eb [->|?]%elem_of_cons; auto.
  - intros c Hin. cbn. rewrite elem_of_cons. destruct (Hc c Hin) as [Hin1|]; [|by auto].
    destruct (replace_range_chunks _ _ _ _ _ Hr Hin1) as [|(o&l&[= _ _ ->])]; auto.
Qed.

Lemma yields_truncate size l :
  yields (truncate_extents_calls size l)
    (λ '(extents, staged), (∀ eb, eb ∈ staged → eb.1 = hash eb.2) ∧
       ∀ o n c, Local o n c ∈ extents → (∃ o' n', Local o' n' c ∈ l) ∨ c ∈ staged.*1).
Proof.
  induction l as [|e l IH]; cbn [truncate_extents_calls].
  { apply yields_ret. split; [intros eb|intros o n c]; rewrite elem_of_nil; done. }
  destruct (_ <=? _).
  { apply yields_ret. split; [intros eb|intros o n c]; rewrite elem_of_nil; done. }
  eapply yields_bind; [apply yields_from|]. intros end_ _. destruct (_ <=? _); [|destruct e as [o n ch|]].
  - eapply yields_bind; [apply IH|]. intros [es st] [Hst Hl]. apply yields_ret. split; [done|].
    intros o n c [<-|Hin]%elem_of_cons; [left; do 2 eexists; left|].
    destruct (Hl _ _ _ Hin) as [(o'&n'&?)|]; [left; exists o', n'; by right|by right].
  - eapply yields_bind; [by eapply yields_call|]. intros b _. destruct (_ <? _); [apply yields_raise|].
    eapply yields_bind; [apply IH|]. intros [es st] [Hst Hl]. apply yields_ret. split.
    + intros eb [->|?]%elem_of_cons; auto.
    + intros o' n' c [[= -> -> ->]|Hin]%elem_of_cons; [right; left|].
      destruct (Hl _ _ _ Hin) as [(o2&n2&?)|]; [left; exists o2, n2; by right|right; by right].
  - eapply yields_bind; [apply IH|]. intros [es st] [Hst Hl]. apply yields_ret. split; [done|].
    intros o n c [[=]|Hin]%elem_of_cons.
    destruct (Hl _ _ _ Hin) as [(o'&n'&?)|]; [left; exists o', n'; by right|by right].
Qed.
End staging.

Lemma mutated_next now inode size gen : next_head inode (mutated_head now inode size gen).
Proof.
  split; try done. cbn. destruct (lf_backing_mode _); by eexists.
Qed.

Lemma attrs_next inode head attrs : next_head inode head → next_head inode (apply_inode_attrs head attrs).1.
Proof.
  intros [(H1&H2&H3) H4 H5 H6]. unfold apply_inode_attrs, derived_from.
  destruct attrs as [[] [] [] ? [] []]; by split.
Qed.

(** What is known once the row and its manifest have been read. *)
Definition prepared (inode : Inode) (man : Manifest) (s : Shared) : Prop :=
  unused t s ∧ seen inode s ∧ seen_manifest inode man s.

Lemma prepared_stable inode man : stable (writer_rely t) (prepared inode man).
Proof. apply stable_and; [apply unused_stable|apply stable_and; [apply seen_stable|apply seen_manifest_stable]]. Qed.

Lemma safe_get_inode ino l s :
  unused t s →
  wsafe (call (read_meta (ms_get_inode ino)))
    (λ r s, match r with Ok inode => unused t s ∧ seen inode s | Err _ => True end) l s.
Proof.
  intros Hu. apply (safe_read (writer_rely t) (writer_does t) (λ c, heed_get_inode ino (fc_meta c)) _ (unused t)); try done.
  - apply unused_stable.
  - intros [inode|e]; [apply stable_and; [apply unused_stable|apply seen_stable]|by intros ? ?].
  - intros s1 l1 Hu1 Hso. cbn. destruct (heed_get_inode ino (sh_meta s1)) as [inode|] eqn:Hg; [|done].
    split; [done|by eapply get_inode_seen].
Qed.

Lemma safe_current_manifest inode l s :
  unused t s → seen inode s →
  wsafe (current_manifest_calls inode)
    (λ r s, match r with Ok man => prepared inode man s | Err _ => True end) l s.
Proof.
  intros Hu Hs. unfold current_manifest_calls. destruct (i_manifest_id inode) as [mid|] eqn:Hmid.
  - apply (safe_read (writer_rely t) (writer_does t) (λ c, heed_get_manifest mid (fc_meta c)) _
      (λ s, unused t s ∧ seen inode s)); try done.
    + apply stable_and; [apply unused_stable|apply seen_stable].
    + intros [man|e]; [apply prepared_stable|by intros ? ?].
    + intros s1 l1 [Hu1 Hs1] Hso. cbn. destruct (heed_get_manifest mid (sh_meta s1)) as [man|] eqn:Hg; [|done].
      split_and!; [done..|]. by eapply get_manifest_seen.
  - apply safe_done; [apply prepared_stable|]. split_and!; [done..|]. unfold seen_manifest. by rewrite Hmid.
Qed.

Lemma safe_from {A B} (r : Result A) (f : A → calls Cl B) l s :
  (∀ a, wsafe (f a) anything l s) → wsafe (from r ≫= f) anything l s.
Proof. intros Hf. destruct r as [a|e]; [apply Hf|by apply safe_done]. Qed.

Lemma safe_refuse {B} b e (f : unit → calls Cl B) l s :
  wsafe (f tt) anything l s → wsafe (refuse b e ≫= f) anything l s.
Proof. intros Hf. destruct b; [by apply safe_done|done]. Qed.

Lemma safe_write_at now op_id ino offset data l s :
  unused t s → wsafe (write_at_calls ufs now t op_id ino offset data) anything l s.
Proof.
  intros Hu. unfold write_at_calls. case_bool_decide; [by apply safe_done|].
  eapply wbind; [by apply safe_get_inode|intros; apply anything_stable|]. intros inode l1 s1 [Hu1 Hs1].
  apply safe_refuse, safe_refuse, safe_from. intros end_. unfold write_chunked_calls.
  eapply wbind; [by apply safe_current_manifest|intros; apply anything_stable|]. intros man0 l2 s2 Hp.
  eapply (wbind _ _ (λ '(man, staged) s, prepared inode man0 s ∧ covered man0 man staged)).
  { eapply safe_weaken; [apply (yields_stage (prepared inode man0)); [apply prepared_stable|done]|].
    intros [[man staged]|e] s3 [? Hc]; [|done]. split; [done|]. by apply (Hc (man, staged)). }
  { intros; apply anything_stable. }
  intros [man staged] l3 s3 [(Hu3&Hs3&Hm3) [Hst Hc]].
  eapply (wbind _ _ anything); [|intros; apply anything_stable|intros; by apply safe_done].
  eapply safe_weaken; [eapply safe_commit_staged; eauto using mutated_next|by intros []].
Qed.

Lemma safe_truncate now op_id inode size attrs l s :
  unused t s → seen inode s → wsafe (truncate_locked_calls now t op_id inode size attrs) anything l s.
Proof.
  intros Hu Hs. unfold truncate_locked_calls. apply safe_refuse.
  eapply wbind; [by apply safe_current_manifest|intros; apply anything_stable|]. intros man0 l2 s2 Hp.
  eapply (wbind _ _ (λ '(extents, staged) s, prepared inode man0 s ∧ (∀ eb, eb ∈ staged → eb.1 = hash eb.2) ∧
    ∀ o n c, Local o n c ∈ extents → (∃ o' n', Local o' n' c ∈ iter (m_extents man0)) ∨ c ∈ staged.*1)).
  { eapply safe_weaken; [apply (yields_truncate (prepared inode man0)); [apply prepared_stable|done]|].
    intros [[man staged]|e] s3 [? Hc]; [|done]. split; [done|]. by apply (Hc (man, staged)). }
  { intros; apply anything_stable. }
  intros [extents staged] l3 s3 [(Hu3&Hs3&Hm3) [Hst Hc]].
  destruct (try_from extents) as [tree|] eqn:Ht; [|by apply safe_done].
  change (from (Ok tree) ≫= ?f) with (f tree). cbv beta.
  apply (safe_commit_staged _ _ _ man0); [apply attrs_next, mutated_next|done| |done..].
  intros c (o&n&Hin)%elem_of_local_chunks. cbn in Hin. apply (elem_of_try_from _ _ _ Ht) in Hin.
  destruct (Hc _ _ _ Hin) as [?|]; [left|by right]. by apply elem_of_local_chunks.
Qed.

Lemma safe_setattr now op_id ino attrs l s :
  unused t s → wsafe (setattr_calls now t op_id ino attrs) anything l s.
Proof.
  intros Hu. unfold setattr_calls.
  eapply wbind; [by apply safe_get_inode|intros; apply anything_stable|]. intros inode l1 s1 [Hu1 Hs1]. cbv zeta.
  destruct (apply_inode_attrs inode attrs) as [inode' touched].
  assert (∀ g i, wsafe (call (on_meta (ms_put_inode_cas g i))) anything l1 s1) as Hput.
  { intros g i. eapply (wcall _ _ (λ _, True)); [by intros ? ?|intros; apply anything_stable|done|].
    intros s3 l3 _ Hso Hroom _ a c (d'&H&->)%on_meta_inv. split; [|done].
    apply write_txn_inv in H as [[-> [e' ->]]|(x&->&H)]; [rewrite meta_same; by apply writer_idle|].
    apply calm_writer; [done|by eapply put_inode_cas_calm|eapply put_inode_cas_store; [apply Hso|done]|].
    unfold put_inode_cas_in_txn in H. db_inv H. apply Hso. }
  destruct (sa_size attrs); [case_bool_decide; [by apply safe_done|];
    destruct (negb (_ =? i_size inode)); [by apply safe_truncate|]|];
    (destruct (negb touched); [by apply safe_done|apply Hput]).
Qed.
End writer.

(** ** The collector is safe *)

(** A collector's change of the metadata: manifests that no inode points to
    and reservations go, tombstones may change. *)
Record sweeps (d d' : Db) : Prop := {
  sw_inodes : inodes d' = inodes d;
  sw_next_inode : next_inode d' = next_inode d;
  sw_next_manifest : next_manifest d' = next_manifest d;
  sw_workers : worker_membership d' = worker_membership d;
  sw_reservations : reservations d' ⊆ reservations d;
  sw_manifests : ∀ mid m, manifests d' !! mid = Some m → manifests d !! mid = Some m
}.

Lemma sweeps_collector s d' :
  sound s → sweeps (sh_meta s) d' → store_inv d' → collector_does s (mkShared d' (sh_chunks s) (sh_ufs s)).
Proof.
  intros Hso [H1 H2 H3 H4 H5 H6] Hst. split; cbn; auto.
  - split; cbn; [done| |apply Hso|]; unfold membership_of; rewrite ?H4; [apply Hso|].
    intros c (id&i&mid&m&Hi&Hmid&Hm&Hc). apply (so_live _ Hso). exists id, i, mid, m.
    rewrite <-H1. split_and!; try done. by apply H6.
  - split; rewrite ?H1, ?H2, ?H3; eauto; reflexivity.
Qed.

Lemma sweeps_tombstones f d : sweeps d (upd_tombstones f d).
Proof. by split. Qed.

(** The loops over tombstones write nothing else, and but for the last one
    keep every tombstone. *)
Definition retombed (d d' : Db) : Prop :=
  (∃ f, d' = upd_tombstones f d) ∧ ∀ c, is_Some (tombstones d !! c) → is_Some (tombstones d' !! c).

Lemma retombed_refl d : retombed d d.
Proof. split; [|done]. exists (λ m, m). by destruct d. Qed.

Lemma retombed_trans d1 d2 d3 : retombed d1 d2 → retombed d2 d3 → retombed d1 d3.
Proof. intros [[f ->] H1] [[g ->] H2]. split; [by exists (λ m, g (f m))|auto]. Qed.

Lemma retombed_put t d : retombed d (upd_tombstones <[gt_chunk t := t]> d).
Proof.
  split; [by eexists|]. intros c Hc. cbn. destruct (decide (gt_chunk t = c)) as [->|Hne].
  - rewrite lookup_insert_eq. eauto.
  - by rewrite lookup_insert_ne.
Qed.

Lemma find_tombstone_reads c d r d' : find_tombstone c d = (r, d') → d' = d.
Proof. unfold find_tombstone, reads. by intros [= _ <-]. Qed.

Lemma initialize_retombed chunks targets d r d' :
  initialize_gc_targets_in_txn chunks targets d = (r, d') → retombed d d'.
Proof.
  apply (keeps_for_each (retombed d)); [|apply retombed_refl].
  intros c _ d1 r1 d2 Hd1 H. unfold put_tombstone_in_txn in H.
  db_step H Hf; apply find_tombstone_reads in Hf as ->; [|done].
  db_inv H; [|done]. eapply retombed_trans; [done|]. apply (retombed_put (mkGcTombstone _ _ _)).
Qed.

Lemma acknowledge_retombed deleted d r d' :
  acknowledge_gc_deletes_in_txn deleted d = (r, d') → retombed d d'.
Proof.
  apply (keeps_for_each (retombed d)); [|apply retombed_refl].
  intros c _ d1 r1 d2 Hd1 H. unfold put_tombstone_in_txn in H.
  db_step H Hf; apply find_tombstone_reads in Hf as ->; [|done].
  db_inv H; [|done]. eapply retombed_trans; [done|]. apply (retombed_put (mkGcTombstone _ _ _)).
Qed.

Lemma finalize_frame chunks d r d' :
  finalize_tombstones_in_txn chunks d = (r, d') → ∃ f, d' = upd_tombstones f d.
Proof.
  apply (keeps_for_each (λ x, ∃ f, x = upd_tombstones f d)); [|exists (λ m, m); by destruct d].
  intros c _ d1 r1 d2 [f ->] H.
  db_step H Hf; apply find_tombstone_reads in Hf as ->; [|by eauto].
  db_inv H; [|by eauto]. by exists (λ m, delete c (f m)).
Qed.

Lemma batch_sweeps cands d r d' :
  store_inv d → tombstone_gc_batch_in_txn cands d = (Ok r, d') →
  sweeps d d' ∧ (∀ c, is_Some (tombstones d !! c) → is_Some (tombstones d' !! c)) ∧
  ∀ c, c ∈ gb_tombstoned_chunks r → is_Some (tombstones d' !! c).
Proof.
  intros Hst H. destruct (tombstone_batch_run cands d Hst) as (l&rm&d1&Hrun&_&_&_&_&Ht).
  rewrite Hrun in H. injection H as <- <-. split_and!.
  - unfold tombstone_gc_batch_in_txn in Hrun. rewrite !txn_bind_gets in Hrun.
    destruct (sweep_manifests_run (active_manifests d) (kv_sorted (manifests d)) ∅ 0 d) as (lv&rm'&Hs&_).
    erewrite txn_bind_ok in Hrun by exact Hs. cbv beta iota in Hrun. rewrite txn_bind_gets in Hrun. cbv zeta in Hrun.
    unfold put_tombstone_in_txn in Hrun. erewrite txn_bind_ok in Hrun by apply for_each_modify.
    rewrite (fold_upd_tombstones _ (λ c, mkGcTombstone c false [])) in Hrun. injection Hrun as _ _ <-.
    split; try done. intros mid m Hm. by apply sweep_filter_sub in Hm.
  - intros c Hc. rewrite Ht. case_decide; eauto.
  - intros c Hc. rewrite Ht, decide_True by done. eauto.
Qed.

(** A target deletes the named chunk at most. *)
Definition deletes_only (targets : GcTargets Ct) : Prop :=
  ∀ c target k r k', cs_wf k → delete_from_target targets c target k = (r, k') →
    cs_wf k' ∧ ∀ c', c' ≠ c → present k c' → present k' c'.

Lemma one_target_deletes_only : deletes_only one_target.
Proof.
  intros c target k r k' Hwf H. cbn in H. destruct (negb _); [by injection H as <- <-|].
  destruct (cs_delete_law k c Hwf) as (k1&Hk&Hwf1&_&Hold). rewrite Hk in H. injection H as <- <-.
  split; [done|]. intros c' Hne [d Hd]. exists d. by rewrite Hold.
Qed.

(** Every chunk of a list is tombstoned. *)
Definition buried (cs : list ChunkId) (s : Shared) : Prop :=
  ∀ c, c ∈ cs → is_Some (tombstones (sh_meta s) !! c).

Lemma buried_stable cs : stable collector_rely (buried cs).
Proof. intros s s' HR Hb c Hc. by apply HR, Hb. Qed.

Lemma list_buried s ts :
  sound s → (∀ t, t ∈ ts → t ∈ list_tombstones (sh_meta s)) → buried (gt_chunk <$> ts) s.
Proof.
  intros Hso Hsub c (t&->&Hin%Hsub)%list_elem_of_fmap. unfold list_tombstones in Hin.
  rewrite sort_by_key_perm, list_elem_of_fmap in Hin. destruct Hin as ([k t']&->&Hk%elem_of_kv_sorted). cbn.
  destruct (st_tombstones _ (so_store _ Hso) _ _ Hk) as [-> _]. eauto.
Qed.

(** A write transaction of the collector. *)
Lemma collector_txn {A} (m : M A) (l : Cl) s r c :
  sound s → on_meta (with_write_txn m) (enter s l) = (r, c) →
  (∀ a d', m (sh_meta s) = (Ok a, d') → sweeps (sh_meta s) d' ∧ store_inv d') →
  collector_does s (shared c) ∧
  (shared c = s ∨ ∃ a d', m (sh_meta s) = (Ok a, d') ∧ r = Ok a ∧ sh_meta (shared c) = d').
Proof.
  intros Hso (d'&H&->)%on_meta_inv Hm. apply write_txn_inv in H as [[-> _]|(a&->&H)].
  - rewrite meta_same. split; [by apply collector_idle|by left].
  - destruct (Hm _ _ H) as [Hsw Hst]. split; [by apply sweeps_collector|]. right. by exists a, d'.
Qed.

Section collector.
Context (clock : nat → Z) (ms : N) (debug : MetaRaftResponse → string).
Context (targets : GcTargets Ct) (Hdel : deletes_only targets).

#[local] Instance gc_meta : MetaStore Db := heed_meta clock ms debug.

Abbreviation csafe := (safe collector_rely collector_does).
Abbreviation cbind := (safe_bind collector_rely collector_does).
Abbreviation ccall := (safe_call collector_rely collector_does).
Abbreviation cread := (safe_read collector_rely collector_does).

Lemma safe_delete_targets cs chunk pending l s :
  chunk ∈ cs → buried cs s →
  csafe (delete_targets_calls targets chunk pending) (λ _ s, buried cs s) l s.
Proof.
  intros Hc. revert l s. induction pending as [|target pending IH]; intros l s Hb; cbn [delete_targets_calls].
  { apply safe_done; [apply buried_stable|done]. }
  apply (safe_seq collector_rely collector_does _ _ (λ _ s, buried cs s)).
  - apply (ccall _ _ (buried cs)); [apply buried_stable|intros; apply buried_stable|done|].
    intros s1 l1 Hb1 Hso Hroom _ a c (k'&H&->)%on_chunks_inv.
    destruct (Hdel _ _ _ _ _ (so_chunks _ Hso) H) as [Hwf Hkeep]. split; [|done]. split; cbn; try done.
    + split; cbn; try apply Hso; [done|]. intros c' Hl. apply Hkeep; [|by apply (so_live _ Hso)].
      intros ->. destruct (Hb1 _ Hc) as [x Hx]. destruct (st_tombstones _ (so_store _ Hso) _ _ Hx) as [_ []]. by left.
    + intros c' Hp. destruct (decide (c' = chunk)) as [->|Hne]; [right; auto|left; auto].
  - intros [a|e] l1 s1 Hb1; (eapply (cbind _ _ (λ _ s, buried cs s));
      [eapply safe_weaken; [by apply IH|by intros []]|intros; apply buried_stable|
       intros [] ???; apply safe_done; [apply buried_stable|done]]).
Qed.

Lemma safe_delete_tombstones all cs ts l s :
  (∀ t, t ∈ ts → gt_chunk t ∈ cs) → buried cs s →
  csafe (delete_tombstones_calls targets all ts) (λ _ s, buried cs s) l s.
Proof.
  revert l s. induction ts as [|t ts IH]; intros l s Hin Hb; cbn [delete_tombstones_calls].
  { apply safe_done; [apply buried_stable|done]. }
  eapply (cbind _ _ (λ _ s, buried cs s)); [|intros; apply buried_stable|].
  { eapply safe_weaken; [apply (safe_delete_targets cs); [apply Hin; left|done]|by intros []]. }
  intros [acks failed] l1 s1 Hb1.
  eapply (cbind _ _ (λ _ s, buried cs s)); [|intros; apply buried_stable|].
  { eapply safe_weaken; [apply IH; [intros; apply Hin; by right|done]|by intros []]. }
  intros [acks' completed] l2 s2 Hb2. apply safe_done; [apply buried_stable|done].
Qed.

Lemma safe_unless_empty {A} (xs : list A) (p : calls Cl unit) Q l s :
  stable collector_rely Q → Q s → csafe p (λ _ s, Q s) l s →
  csafe (unless_empty xs p) (λ _ s, Q s) l s.
Proof. intros HQ Hs Hp. unfold unless_empty. case_bool_decide; [by apply safe_done|done]. Qed.

Lemma safe_reclaim ts l s :
  buried (gt_chunk <$> ts) s → csafe (reclaim_tombstones_calls targets ts) anything l s.
Proof.
  intros Hb. unfold reclaim_tombstones_calls. set (cs := gt_chunk <$> ts) in *.
  eapply (cbind _ _ (λ _ s, buried cs s)); [|intros; apply anything_stable|].
  { apply (cread (λ c, gc_delete_targets targets (fc_chunks c)) _ (buried cs)); try done.
    - apply collector_idle.
    - apply buried_stable.
    - intros [a|e]; [apply buried_stable|by intros ? ?].
    - intros s1 l1 Hb1 Hso. by destruct (gc_delete_targets _ _). }
  intros all l1 s1 Hb1. cbv zeta.
  eapply (cbind _ _ (λ _ s, buried cs s)); [|intros; apply anything_stable|].
  { eapply safe_weaken; [apply (safe_unless_empty _ _ (buried cs)); [apply buried_stable|done|]|by intros []].
    apply (ccall _ _ (buried cs)); [apply buried_stable|intros; apply buried_stable|done|].
    intros s2 l2 Hb2 Hso _ _ a c H. apply collector_txn in H as [Hd Hc]; [|done|].
    - split; [done|]. destruct Hc as [->|(x&d'&Hx&_&Hd')]; [done|].
      apply initialize_retombed in Hx as [_ Hk]. intros y Hy. rewrite Hd'. apply Hk. by apply Hb2.
    - intros x d' Hx. split; [|by eapply initialize_store; [apply Hso|]].
      apply initialize_retombed in Hx as [[f ->] _]. apply sweeps_tombstones. }
  intros _ l2 s2 Hb2.
  eapply (cbind _ _ (λ _ s, buried cs s)); [|intros; apply anything_stable|].
  { eapply safe_weaken; [apply (safe_delete_tombstones all cs); [|done]|by intros []].
    intros t Ht. by apply list_elem_of_fmap_2. }
  intros [acks completed] l3 s3 _.
  eapply (cbind _ _ (λ _ _, True)); [|intros; apply anything_stable|].
  { eapply safe_weaken; [apply (safe_unless_empty _ _ (λ _, True)); [by intros ? ?|done|]|by intros []].
    apply (ccall _ _ (λ _, True)); [by intros ? ?|by intros ? ? ?|done|].
    intros s4 l4 _ Hso _ _ a c H. split; [|done]. eapply collector_txn in H as [Hd _]; [done|done|].
    intros x d' Hx. split; [|by eapply acknowledge_store; [apply Hso|]].
    apply acknowledge_retombed in Hx as [[f ->] _]. apply sweeps_tombstones. }
  intros _ l4 s4 _.
  eapply (cbind _ _ (λ _ _, True)); [|intros; apply anything_stable|].
  { eapply safe_weaken; [apply (safe_unless_empty _ _ (λ _, True)); [by intros ? ?|done|]|by intros []].
    apply (ccall _ _ (λ _, True)); [by intros ? ?|by intros ? ? ?|done|].
    intros s5 l5 _ Hso _ _ a c H. split; [|done]. eapply collector_txn in H as [Hd _]; [done|done|].
    intros x d' Hx. split; [|by eapply finalize_store; [apply Hso|]].
    apply finalize_frame in Hx as [f ->]. apply sweeps_tombstones. }
  intros _ l5 s5 _. by apply safe_done.
Qed.

Lemma safe_list l s :
  csafe (call (read_meta ms_list_gc_tombstones))
    (λ r s, match r with Ok ts => buried (gt_chunk <$> ts) s | Err _ => True end) l s.
Proof.
  apply (cread (λ c, heed_list_gc_tombstones (fc_meta c)) _ (λ _, True)); try done.
  - apply collector_idle.
  - intros [a|e]; [apply buried_stable|by intros ? ?].
  - intros s1 l1 _ Hso. cbn. by apply list_buried.
Qed.

Lemma safe_gc_read {A} (m : txn Cl FluxError A) f l s :
  (∀ c, m c = (f c, c)) → csafe (call m) anything l s.
Proof.
  intros Hm. apply (cread f m (λ _, True)); try done. apply collector_idle.
Qed.

Lemma safe_gc_txn {A} (m : M A) l s :
  (∀ d a d', store_inv d → m d = (Ok a, d') → sweeps d d' ∧ store_inv d') →
  csafe (call (on_meta (with_write_txn m))) anything l s.
Proof.
  intros Hm. apply (ccall _ _ (λ _, True)); [by intros ? ?|intros; apply anything_stable|done|].
  intros s1 l1 _ Hso _ _ a c H. split; [|done]. eapply collector_txn in H as [Hd _]; [done|done|].
  intros x d' Hx. eapply Hm; [apply Hso|done].
Qed.

Lemma calm_sweeps d d' :
  inodes d' = inodes d → next_inode d' = next_inode d → manifests d' = manifests d →
  next_manifest d' = next_manifest d → worker_membership d' = worker_membership d →
  reservations d' ⊆ reservations d → sweeps d d'.
Proof. intros ??? ???. split; try done. congruence. Qed.

Lemma safe_gc_pass batch_size l s : csafe (gc_pass_calls targets batch_size) anything l s.
Proof.
  assert (∀ A (a : Result A), stable collector_rely (anything a)) as Hany by (intros; apply anything_stable).
  unfold gc_pass_calls. destruct (_ =? 0); [by apply safe_done|].
  eapply (cbind _ _ anything); [eapply safe_weaken; [apply safe_gc_txn|by intros []]|intros; apply Hany|].
  { intros d [] d' Hst H. apply txn_bind_inv in H as [(n&d1&H1&H)|(e&_&[=])]. unfold mret, txn_ret in H. injection H as <-.
    split; [|by eapply expire_store]. unfold expire_reservations_in_txn, abort_reservation_in_txn in H1.
    destruct (_ =? 0); [db_inv H1; by apply calm_sweeps|]. rewrite txn_bind_gets in H1. cbv zeta in H1.
    erewrite txn_bind_ok in H1 by apply for_each_modify. db_inv H1. rewrite fold_upd_reservations.
    apply calm_sweeps; try done. cbn. rewrite foldl_delete. apply map_filter_subseteq. }
  intros _ l1 s1 _. eapply cbind; [apply safe_list|intros; apply Hany|]. intros pending l2 s2 Hb.
  destruct (negb _).
  - eapply (cbind _ _ anything); [eapply safe_weaken; [apply safe_reclaim|by intros []]|intros; apply Hany|].
    + intros c (t&->&Hin)%list_elem_of_fmap. apply Hb, list_elem_of_fmap_2. by eapply (subseteq_take (N.to_nat batch_size)).
    + intros; by apply safe_done.
  - eapply (cbind _ _ anything); [eapply safe_weaken; [by eapply safe_gc_read|by intros []]|intros; apply Hany|].
    intros cursor l3 s3 _.
    eapply (cbind _ _ anything); [eapply safe_weaken; [by eapply safe_gc_read|by intros []]|intros; apply Hany|].
    intros page l4 s4 _.
    eapply (cbind _ _ anything); [|intros; apply Hany|].
    { apply (ccall _ _ (λ _, True)); [by intros ? ?|intros []; apply anything_stable|done|].
      intros s5 l5 _ Hso _ _ a c [= <- <-]. split; [|done]. apply collector_idle in Hso. by destruct s5. }
    intros _ l5 s5 _.
    eapply (cbind _ _ anything); [eapply safe_weaken; [apply safe_gc_txn|by intros []]|intros; apply Hany|].
    { intros d a d' Hst H. split; [by eapply batch_sweeps|].
      destruct (tombstone_batch_run (cp_chunks page) d Hst) as (?&?&?&Hrun&_&Hst'&_). rewrite Hrun in H. by injection H as _ <-. }
    intros batch l6 s6 _. eapply cbind; [apply safe_list|intros; apply Hany|]. intros listed l7 s7 Hl.
    eapply (cbind _ _ anything); [eapply safe_weaken; [apply safe_reclaim|by intros []]|intros; apply Hany|].
    + intros c (t&->&Hin)%list_elem_of_fmap. apply list_elem_of_filter in Hin as [_ Hin]. by apply Hl, list_elem_of_fmap_2.
    + intros; by apply safe_done.
Qed.
End collector.
End race.
