(* ===== verification/Replicated.v ===== *)
(** * Local replication ([crates/chunk/src/replicated.rs])

    [ReplicatedChunkStore] keeps every chunk on several disk stores.  A write
    is acknowledged when the required number of replicas hold it, a read
    takes the first replica that has the chunk, and a repair copies it to the
    replicas that do not.  A replica may fail. *)

From S2P Require Import Prelude Types Bytes Keys ChunkStore Pack ClientFlush GcRace.

Local Open Scope N_scope.

(** ** What a replica promises

    An operation on a replica may return an error.  A [put] that does leaves
    the chunk as it was or stored, and in no case touches another one. *)

Class Replica (hash : bytes → ChunkId) (St : Type) := {
  rp_put : bytes → txn St FluxError ChunkId;
  rp_get : St → ChunkId → Result bytes;
  rp_delete : ChunkId → txn St FluxError unit;
  rp_list : St → Result (list ChunkId);
  rp_wf : St → Prop;
  rp_room : St → bytes → Prop;
  rp_put_law s data r s' :
    rp_wf s → rp_room s data → rp_put data s = (r, s') →
    rp_wf s' ∧ (∀ id, id ≠ hash data → rp_get s' id = rp_get s id) ∧
    match r with
    | Ok id => id = hash data ∧ rp_get s' id = Ok data
    | Err _ => rp_get s' (hash data) = rp_get s (hash data) ∨ rp_get s' (hash data) = Ok data
    end;
  rp_get_law s id data : rp_wf s → rp_get s id = Ok data → hash data = id;
  rp_delete_law s id r s' :
    rp_wf s → rp_delete id s = (r, s') →
    rp_wf s' ∧ (∀ id', id' ≠ id → rp_get s' id' = rp_get s id') ∧
    (r = Ok tt → ∃ e, rp_get s' id = Err e);
  rp_list_law s l :
    rp_wf s → rp_list s = Ok l → ∀ id, id ∈ l ↔ ∃ data, rp_get s id = Ok data
}.

(** The positions of the elements that satisfy a predicate. *)
Lemma filter_positions {A} (P : A → Prop) `{∀ x, Decision (P x)} (l : list A) :
  ∃ ps : list nat, NoDup ps ∧ length ps = length (filter P l) ∧ ∀ i, i ∈ ps → ∃ x, l !! i = Some x ∧ P x.
Proof.
  induction l as [|x l (ps&Hnd&Hlen&Hps)].
  { exists []. split_and!; [constructor|done|by intros i ?%elem_of_nil]. }
  assert (∀ i, i ∈ S <$> ps → ∃ y, (x :: l) !! i = Some y ∧ P y) as HS.
  { intros i (j&->&Hj)%list_elem_of_fmap. by apply Hps. }
  rewrite filter_cons. case_decide as Hx.
  - exists (0%nat :: (S <$> ps)). split_and!.
    + apply NoDup_cons. split; [|by apply (NoDup_fmap_2 S)]. intros (j&?&_)%list_elem_of_fmap. done.
    + cbn. by rewrite length_fmap, Hlen.
    + intros i [->|?]%elem_of_cons; [by exists x|by apply HS].
  - exists (S <$> ps). split_and!; [by apply (NoDup_fmap_2 S)|by rewrite length_fmap|done].
Qed.

(** More elements than positions that may change: one of them is still there. *)
Lemma one_remains {A} (P : A → Prop) `{∀ x, Decision (P x)} (l l' : list A) (lost : gset nat) :
  (size lost < length (filter P l))%nat → (∀ i, i ∉ lost → l' !! i = l !! i) → ∃ x, x ∈ l' ∧ P x.
Proof.
  intros Hlt Hsame. destruct (filter_positions P l) as (ps&Hnd&Hlen&Hps).
  destruct (decide (Forall (λ i, i ∈ lost) ps)) as [Hall|Hsome].
  - assert (list_to_set ps ⊆ lost) as Hsub by (rewrite Forall_forall in Hall; set_solver).
    apply subseteq_size in Hsub. rewrite size_list_to_set in Hsub by done. lia.
  - apply not_Forall_Exists in Hsome; [|apply _]. apply Exists_exists in Hsome as (i&Hi&Hni).
    destruct (Hps i Hi) as (x&Hx&HP). exists x. split; [|done].
    apply list_elem_of_lookup_2 with (i := i). by rewrite Hsame.
Qed.

(** ** The store *)

Record ReplicaHealth := mkReplicaHealth { rh_healthy : nat; rh_required : nat; rh_total : nat }.
Definition writable (h : ReplicaHealth) : bool := (rh_required h <=? rh_healthy h)%nat.

Record PutReceipt := mkPutReceipt { pr_chunk : ChunkId; pr_durable_replicas : nat }.

Record ReplicatedChunkStore (St : Type) := mkReplicatedChunkStore {
  rs_replicas : list St;
  rs_required : nat
}.
Arguments mkReplicatedChunkStore {St}. Arguments rs_replicas {St}. Arguments rs_required {St}.

Section replicated.
Context {hash : bytes → ChunkId} {St : Type} `{!Replica hash St}.

Abbreviation Rs := (ReplicatedChunkStore St).
Abbreviation RT := (txn Rs FluxError).

(** [open], from the replicas' directories and the function that opens one. *)
Definition open (open_replica : St → Result St) (replica_paths : list St) (required : nat) : Result Rs :=
  if bool_decide (required = 0%nat) || bool_decide (length replica_paths < required)%nat then
    Err (InvalidArg ("replication requires " +:+ pretty (N.of_nat required) +:+ " durable replicas, but "
           +:+ pretty (N.of_nat (length replica_paths)) +:+ " paths were provided"))
  else
    replicas ← mapM open_replica replica_paths;
    Ok (mkReplicatedChunkStore replicas required).

Definition open_rf2 (open_replica : St → Result St) (primary secondary : St) : Result Rs :=
  open open_replica [primary; secondary] 2.

(** The loop of [put_replicated]: the replicas afterwards, how many are
    durable, and the errors. *)
Fixpoint put_loop (expected : ChunkId) (data : bytes) (index : N) (replicas : list St) :
    list St * nat * list string :=
  match replicas with
  | [] => ([], 0%nat, [])
  | replica :: replicas =>
      let '(r, replica) := rp_put data replica in
      let '(replicas, durable, errors) := put_loop expected data (index + 1) replicas in
      match r with
      | Ok actual =>
          if actual =? expected then (replica :: replicas, S durable, errors)
          else (replica :: replicas, durable,
                ("replica " +:+ pretty index +:+ " returned unexpected chunk " +:+ to_hex actual) :: errors)
      | Err error =>
          (replica :: replicas, durable,
           ("replica " +:+ pretty index +:+ ": " +:+ FluxError_to_string error) :: errors)
      end
  end.

Definition put_replicated (data : bytes) : RT PutReceipt := λ s,
  let expected := hash data in
  let '(replicas, durable, errors) := put_loop expected data 0 (rs_replicas s) in
  let s := mkReplicatedChunkStore replicas (rs_required s) in
  if (durable <? rs_required s)%nat then
    (Err (Io ("chunk " +:+ to_hex expected +:+ " reached " +:+ pretty (N.of_nat durable) +:+ "/"
              +:+ pretty (N.of_nat (rs_required s)) +:+ " required durable replicas: "
              +:+ String.concat "; " errors)), s)
  else (Ok (mkPutReceipt expected durable), s).

Definition health (s : Rs) (id : ChunkId) : ReplicaHealth :=
  mkReplicaHealth (length (filter (λ replica, is_ok (rp_get replica id) = true) (rs_replicas s)))
    (rs_required s) (length (rs_replicas s)).

Fixpoint get_loop (id : ChunkId) (index : N) (replicas : list St) (errors : list string) : Result bytes :=
  match replicas with
  | [] => Err (Io ("no readable replica for chunk " +:+ to_hex id +:+ ": " +:+ String.concat "; " errors))
  | replica :: replicas =>
      match rp_get replica id with
      | Ok data => Ok data
      | Err error =>
          get_loop id (index + 1) replicas
            (errors ++ ["replica " +:+ pretty index +:+ ": " +:+ FluxError_to_string error])
      end
  end.
Definition get (s : Rs) (id : ChunkId) : Result bytes := get_loop id 0 (rs_replicas s) [].

(** A loop over the replicas that stops at the first error. *)
Fixpoint for_replicas (body : txn St FluxError unit) (replicas : list St) : Result unit * list St :=
  match replicas with
  | [] => (Ok tt, [])
  | replica :: replicas =>
      match body replica with
      | (Err e, replica) => (Err e, replica :: replicas)
      | (Ok _, replica) =>
          let '(r, replicas) := for_replicas body replicas in (r, replica :: replicas)
      end
  end.
Definition on_replicas (body : txn St FluxError unit) : RT unit := λ s,
  let '(r, replicas) := for_replicas body (rs_replicas s) in
  (r, mkReplicatedChunkStore replicas (rs_required s)).

Definition repair_replica (id : ChunkId) (data : bytes) : txn St FluxError unit := λ replica,
  match rp_get replica id with
  | Ok _ => (Ok tt, replica)
  | Err _ =>
      (repaired ← rp_put data;
       if negb (repaired =? id) then throw (Io "replica repair changed chunk id") else mret tt) replica
  end.

Definition repair (id : ChunkId) : RT ReplicaHealth :=
  data ← (λ s, (get s id, s));
  _ ← on_replicas (repair_replica id data);
  health ← gets (λ s, health s id);
  if negb (writable health) then
    throw (Io ("repair left only " +:+ pretty (N.of_nat (rh_healthy health)) +:+ "/"
               +:+ pretty (N.of_nat (rh_required health)) +:+ " durable replicas"))
  else mret health.

Definition put (data : bytes) : RT ChunkId := receipt ← put_replicated data; mret (pr_chunk receipt).
Definition contains (s : Rs) (id : ChunkId) : Result bool := Ok (writable (health s id)).
Definition list_chunks (s : Rs) : Result (list ChunkId) :=
  chunks ← mapM rp_list (rs_replicas s);
  Ok (sort_dedup (concat chunks)).
Definition delete (id : ChunkId) : RT unit := on_replicas (rp_delete id).

Definition replicated_targets : GcTargets Rs := {|
  gc_delete_targets s := Ok (N.of_nat <$> seq 0 (length (rs_replicas s)));
  delete_from_target id target := λ s,
    match rs_replicas s !! N.to_nat target with
    | None => (Err (InvalidArg ("bad replica target " +:+ pretty target)), s)
    | Some replica =>
        let '(r, replica) := rp_delete id replica in
        (r, mkReplicatedChunkStore (<[N.to_nat target := replica]> (rs_replicas s)) (rs_required s))
    end
|}.

(** ** Properties *)

Abbreviation holds id := (λ replica, is_ok (rp_get replica id) = true).

Record rs_wf (s : Rs) : Prop := {
  rw_replicas : Forall rp_wf (rs_replicas s);
  rw_required : (0 < rs_required s ≤ length (rs_replicas s))%nat
}.

(** Only the chunk [id] may have changed. *)
Definition kept (id : ChunkId) (replica replica' : St) : Prop :=
  rp_wf replica' ∧ ∀ id', id' ≠ id → rp_get replica' id' = rp_get replica id'.

Lemma kept_refl id l : Forall rp_wf l → Forall2 (kept id) l l.
Proof. induction 1; constructor; [done|done]. Qed.

Lemma kept_wf id l l' : Forall2 (kept id) l l' → Forall rp_wf l'.
Proof. induction 1 as [|? ? ? ? [? _]]; by constructor. Qed.

Lemma kept_holders id l l' id' :
  Forall2 (kept id) l l' → id' ≠ id → length (filter (holds id') l') = length (filter (holds id') l).
Proof.
  intros H Hne. induction H as [|r r' l l' [_ Hr] _ IH]; [done|]. rewrite !filter_cons.
  rewrite (Hr _ Hne). case_decide; cbn; by rewrite IH.
Qed.

Lemma kept_get id l l' id' index errors :
  Forall2 (kept id) l l' → id' ≠ id → get_loop id' index l' errors = get_loop id' index l errors.
Proof.
  intros H Hne. revert index errors. induction H as [|r r' l l' [_ Hr] _ IH]; intros index errors; [done|].
  cbn. rewrite (Hr _ Hne). destruct (rp_get r id'); [done|apply IH].
Qed.

Lemma get_loop_Ok id index l errors data :
  get_loop id index l errors = Ok data → ∃ replica, replica ∈ l ∧ rp_get replica id = Ok data.
Proof.
  revert index errors. induction l as [|r l IH]; intros index errors; [done|]. cbn.
  destruct (rp_get r id) eqn:Hr.
  - intros [= <-]. exists r. split; [left|done].
  - intros (x&?&?)%IH. exists x. split; [by right|done].
Qed.

Lemma get_loop_holds id index l errors replica :
  replica ∈ l → is_ok (rp_get replica id) = true → ∃ data, get_loop id index l errors = Ok data.
Proof.
  revert index errors. induction l as [|r l IH]; intros index errors; [by intros ?%elem_of_nil|]. cbn.
  destruct (rp_get r id) eqn:Hr; [eauto|]. rewrite elem_of_cons. intros [->|?]; [by rewrite Hr|auto].
Qed.

Lemma put_loop_spec data index l l' durable errors :
  Forall rp_wf l → Forall (λ r, rp_room r data) l →
  put_loop (hash data) data index l = (l', durable, errors) →
  Forall2 (kept (hash data)) l l' ∧
  (durable ≤ length (filter (λ r, rp_get r (hash data) = Ok data) l'))%nat ∧
  (durable + length errors)%nat = length l.
Proof.
  intros Hwf. revert index l' durable errors. induction Hwf as [|r l Hr _ IH]; intros index l' durable errors Hroom H.
  { injection H as <- <- <-. by split_and!. }
  apply Forall_cons in Hroom as [Hrr Hroom]. cbn in H.
  destruct (rp_put data r) as [a r'] eqn:Hput. destruct (put_loop _ _ _ l) as [[l1 d1] e1] eqn:Hl.
  destruct (IH _ _ _ _ Hroom Hl) as (Hk&Hd&He). destruct (rp_put_law _ _ _ _ Hr Hrr Hput) as (Hwf'&Hold&Ha).
  destruct a as [actual|error].
  - destruct Ha as [-> Hg]. rewrite N.eqb_refl in H. injection H as <- <- <-.
    rewrite filter_cons_True by done. split_and!; [by constructor|cbn; lia|cbn; lia].
  - injection H as <- <- <-. rewrite filter_cons. split_and!; [by constructor| |cbn; lia].
    case_decide; cbn; lia.
Qed.

Lemma for_replicas_kept (Q : St → Prop) id body l r l' :
  (∀ s, Q s → rp_wf s) → (∀ s a s', Q s → body s = (a, s') → kept id s s') →
  Forall Q l → for_replicas body l = (r, l') → Forall2 (kept id) l l'.
Proof.
  intros HQ Hb Hwf. revert r l'. induction Hwf as [|s l Hs Hl IH]; intros r l' H; cbn in H.
  { by injection H as <- <-. }
  destruct (body s) as [[[]|e] s'] eqn:Hbs.
  - destruct (for_replicas body l) as [r1 l1]. injection H as <- <-. constructor; [by eapply Hb|by eapply IH].
  - injection H as <- <-. constructor; [by eapply Hb|]. by eapply kept_refl, Forall_impl.
Qed.

Lemma for_replicas_ok (Q P : St → Prop) body l l' :
  (∀ s s', Q s → body s = (Ok tt, s') → P s') →
  Forall Q l → for_replicas body l = (Ok tt, l') → Forall P l'.
Proof.
  intros Hb Hwf. revert l'. induction Hwf as [|s l Hs Hl IH]; intros l' H; cbn in H.
  { by injection H as <-. }
  destruct (body s) as [[[]|e] s'] eqn:Hbs; [|done].
  destruct (for_replicas body l) as [r1 l1]. injection H as -> <-. constructor; [by eapply Hb|by apply IH].
Qed.

Lemma kept_others id s l' :
  Forall2 (kept id) (rs_replicas s) l' →
  ∀ id', id' ≠ id →
    get (mkReplicatedChunkStore l' (rs_required s)) id' = get s id' ∧
    health (mkReplicatedChunkStore l' (rs_required s)) id' = health s id'.
Proof.
  intros Hk id' Hid. unfold get, health. cbn.
  by rewrite (kept_get _ _ _ _ _ _ Hk Hid), (kept_holders _ _ _ _ Hk Hid), (Forall2_length _ _ _ Hk).
Qed.

Lemma repair_replica_run data s a s' :
  rp_wf s → rp_room s data → repair_replica (hash data) data s = (a, s') →
  kept (hash data) s s' ∧ (a = Ok tt → is_ok (rp_get s' (hash data)) = true).
Proof.
  intros Hwf Hroom H. unfold repair_replica in H. destruct (rp_get s (hash data)) eqn:Hg.
  { injection H as <- <-. rewrite Hg. by repeat split. }
  destruct (rp_put data s) as [r s1] eqn:Hput.
  destruct (rp_put_law _ _ _ _ Hwf Hroom Hput) as (Hwf'&Hold&Hr).
  unfold mbind, txn_bind in H. rewrite Hput in H. destruct r as [x|e'].
  - destruct Hr as [-> Hr]. rewrite N.eqb_refl in H. injection H as <- <-. rewrite Hr. by repeat split.
  - injection H as <- <-. by repeat split.
Qed.


(** A repair brings a chunk back to every replica.  When [repair] succeeds
    all replicas return the chunk, the health it reports is the one of the
    new state, and no other chunk changes; when no replica has the chunk it
    is refused and nothing changes. *)
Theorem repair_restores s id r s' :
  rs_wf s → (∀ data, get s id = Ok data → Forall (λ r, rp_room r data) (rs_replicas s)) →
  repair id s = (r, s') →
  rs_wf s' ∧
  (∀ id', id' ≠ id → get s' id' = get s id' ∧ health s' id' = health s id') ∧
  match r with
  | Ok h => h = health s' id ∧ rh_healthy h = rh_total h ∧ (∃ data, get s' id = Ok data ∧ hash data = id)
  | Err _ => (∀ data, get s id ≠ Ok data) → s' = s
  end.
Proof.
  intros [Hwf Hreq] Hroom H. unfold repair in H.
  destruct (get s id) as [data|e] eqn:Hget.
  2: { unfold mbind, txn_bind in H. rewrite Hget in H. injection H as <- <-. by split_and!. }
  erewrite txn_bind_ok in H by (by rewrite Hget).
  assert (hash data = id) as Hid.
  { destruct (get_loop_Ok _ _ _ _ _ Hget) as (r0&Hr0&Hg0). eapply rp_get_law; [|exact Hg0]. by eapply Forall_forall. }
  assert (Forall (λ r, rp_wf r ∧ rp_room r data) (rs_replicas s)) as HQ by (apply Forall_and; split; auto).
  destruct (for_replicas (repair_replica id data) (rs_replicas s)) as [a l'] eqn:Hl.
  assert (Forall2 (kept id) (rs_replicas s) l') as Hk.
  { eapply (for_replicas_kept (λ r, rp_wf r ∧ rp_room r data)); [by intros ? [? _]| |exact HQ|exact Hl]. intros ? ? ? [??] ?. rewrite <-Hid in *. by eapply repair_replica_run. }
  set (s1 := mkReplicatedChunkStore l' (rs_required s)).
  assert (on_replicas (repair_replica id data) s = (a, s1)) as Hon by (unfold on_replicas; by rewrite Hl).
  assert (rs_wf s1) as Hwf1.
  { split; cbn; [by eapply kept_wf|]. by rewrite <-(Forall2_length _ _ _ Hk). }
  assert (∀ id', id' ≠ id → get s1 id' = get s id' ∧ health s1 id' = health s id') as Hothers.
  { by apply kept_others. }
  destruct a as [[]|e].
  2: { unfold mbind, txn_bind in H. rewrite Hon in H. injection H as <- <-. split_and!; [done..|]. naive_solver. }
  assert (Forall (holds id) l') as Hall.
  { eapply (for_replicas_ok (λ r, rp_wf r ∧ rp_room r data)); [|exact HQ|exact Hl]. intros ? ? [??] ?. rewrite <-Hid in *. by eapply repair_replica_run. }
  erewrite txn_bind_ok in H by exact Hon. erewrite txn_bind_ok in H by done.
  assert (rh_healthy (health s1 id) = length l') as Hh.
  { cbn. by rewrite filter_all by (by rewrite Forall_forall in Hall). }
  destruct (negb (writable _)) eqn:Hw; injection H as <- <-; (split; [done|split; [done|]]); [naive_solver|].
  split_and!; [done|done|]. destruct l' as [|r0 l'].
  - cbn in Hwf1. destruct Hwf1 as [_ Hz]. cbn in Hz. lia.
  - apply Forall_cons in Hall as [H0 _]. cbn. unfold get. cbn. destruct (rp_get r0 id) eqn:Hr0; [|done].
    eexists. split; [done|]. eapply rp_get_law; [|done]. destruct Hwf1 as [Hwf1 _].
    by apply Forall_cons in Hwf1 as [? _].
Qed.
End replicated.

(** ** Replicas that do not fail

    Any chunk store is a replica.  Over such replicas a replicated store is a
    chunk store again, so that everything proved of the clients of a chunk
    store holds with replication; and deleting target by target, as the
    garbage collector does, removes no other chunk. *)

#[export] Instance store_replica {hash St} `{!ChunkStore hash St} : Replica hash St.
Proof.
  refine {|
    rp_put := cs_put; rp_get := cs_get; rp_delete := cs_delete; rp_list := cs_list;
    rp_wf := cs_wf; rp_room := cs_room; rp_get_law := cs_get_law
  |}.
  - intros s data r s' Hwf Hroom H. destruct (cs_put_law _ _ Hwf Hroom) as (s1&Hput&?&?&?).
    rewrite Hput in H. by injection H as <- <-.
  - intros s id r s' Hwf H. destruct (cs_delete_law _ id Hwf) as (s1&Hdel&?&?&?).
    rewrite Hdel in H. by injection H as <- <-.
  - intros s l Hwf H. destruct (cs_list_law _ Hwf) as (l1&Hl&?). rewrite Hl in H. by injection H as <-.
Defined.

Section stores.
Context {hash : bytes → ChunkId} {St : Type} `{!ChunkStore hash St}.
Abbreviation Rs := (ReplicatedChunkStore St).

Lemma put_loop_all data index l :
  Forall cs_wf l → Forall (λ r, cs_room r data) l →
  ∃ l', put_loop (hash data) data index l = (l', length l, []) ∧
    Forall (λ r, cs_get r (hash data) = Ok data) l'.
Proof.
  intros Hwf. revert index. induction Hwf as [|r l Hr _ IH]; intros index Hroom; [by exists []|].
  apply Forall_cons in Hroom as [Hrr Hroom]. destruct (cs_put_law _ _ Hr Hrr) as (r'&Hput&_&Hg&_).
  destruct (IH (index + 1) Hroom) as (l'&Hl&Hall). exists (r' :: l'). cbn. rewrite Hput, Hl, N.eqb_refl.
  split; [done|by constructor].
Qed.

Lemma replicated_put_law (s : Rs) data :
  rs_wf s → Forall (λ r, cs_room r data) (rs_replicas s) →
  ∃ s', put data s = (Ok (hash data), s') ∧ rs_wf s' ∧ get s' (hash data) = Ok data ∧
        ∀ id, id ≠ hash data → get s' id = get s id.
Proof.
  intros [Hwf Hreq] Hroom. destruct (put_loop_all data 0 _ Hwf Hroom) as (l'&Hl&Hall).
  destruct (put_loop_spec data 0 _ _ _ _ Hwf Hroom Hl) as (Hk&_&_).
  exists (mkReplicatedChunkStore l' (rs_required s)).
  assert (length l' = length (rs_replicas s)) as Hlen by (symmetry; by eapply Forall2_length).
  split_and!.
  - unfold put, put_replicated, mbind, txn_bind. rewrite Hl. cbv beta iota zeta. cbn [rs_required].
    destruct (Nat.ltb_spec (length (rs_replicas s)) (rs_required s)); [lia|done].
  - split; [by apply (kept_wf _ _ _ Hk)|]. cbn. by rewrite Hlen.
  - destruct l' as [|r l']; cbn in Hlen; [lia|]. apply Forall_cons in Hall as [Hr _].
    unfold get. cbn. by rewrite Hr.
  - intros id Hid. by apply (kept_others _ s l' Hk).
Qed.

Lemma for_replicas_delete id l :
  Forall cs_wf l → ∃ l', for_replicas (cs_delete id) l = (Ok tt, l') ∧ Forall (λ r, ∃ e, cs_get r id = Err e) l'.
Proof.
  induction 1 as [|r l Hr _ (l'&Hl&Hall)]; [by exists []|].
  destruct (cs_delete_law _ id Hr) as (r'&Hdel&_&Hg&_). exists (r' :: l'). cbn. rewrite Hdel, Hl.
  split; [done|by constructor].
Qed.

Lemma get_loop_none id index l errors :
  Forall (λ r : St, ∃ e, cs_get r id = Err e) l → ∃ e, get_loop id index l errors = Err e.
Proof.
  intros H. revert index errors. induction H as [|r l [e Hr] _ IH]; intros index errors; [by eexists|].
  cbn. rewrite Hr. apply IH.
Qed.

Lemma delete_kept id l r l' :
  Forall cs_wf l → for_replicas (cs_delete id) l = (r, l') → Forall2 (kept id) l l'.
Proof.
  intros Hwf H. eapply (for_replicas_kept cs_wf); [done| |done|done].
  intros s a s' Hs Hd. destruct (rp_delete_law (Replica := store_replica) s id a s' Hs Hd) as (?&?&_). by split.
Qed.

Lemma replicated_delete_law (s : Rs) id :
  rs_wf s → ∃ s', delete id s = (Ok tt, s') ∧ rs_wf s' ∧ (∃ e, get s' id = Err e) ∧
                  ∀ id', id' ≠ id → get s' id' = get s id'.
Proof.
  intros [Hwf Hreq]. destruct (for_replicas_delete id _ Hwf) as (l'&Hl&Hall).
  assert (Hk := delete_kept _ _ _ _ Hwf Hl).
  exists (mkReplicatedChunkStore l' (rs_required s)). split_and!.
  - unfold delete, on_replicas. cbn [rp_delete store_replica]. by rewrite Hl.
  - split; [by apply (kept_wf _ _ _ Hk)|]. cbn. by rewrite <-(Forall2_length _ _ _ Hk).
  - by apply get_loop_none.
  - intros id' Hid. by apply (kept_others _ s l' Hk).
Qed.

Lemma list_replicas (l : list St) :
  Forall cs_wf l → ∃ ls, mapM cs_list l = Ok ls ∧
    ∀ id, id ∈ concat ls ↔ ∃ r, r ∈ l ∧ is_ok (cs_get r id) = true.
Proof.
  induction 1 as [|r l Hr _ (ls&Hls&Hin)].
  { exists []. split; [done|]. intros id. cbn. rewrite elem_of_nil. split; [done|]. intros (?&?%elem_of_nil&_). done. }
  destruct (cs_list_law _ Hr) as (l0&Hl0&Hin0). exists (l0 :: ls). cbn. rewrite Hl0. cbn. rewrite Hls.
  split; [done|]. intros id. rewrite elem_of_app, Hin, Hin0. setoid_rewrite elem_of_cons.
  assert ((∃ data, cs_get r id = Ok data) ↔ is_ok (cs_get r id) = true) as ->.
  { destruct (cs_get r id); cbn; naive_solver. }
  naive_solver.
Qed.

Lemma replicated_list_law (s : Rs) :
  rs_wf s → ∃ l, list_chunks s = Ok l ∧ ∀ id, id ∈ l ↔ ∃ data, get s id = Ok data.
Proof.
  intros [Hwf _]. destruct (list_replicas _ Hwf) as (ls&Hls&Hin). eexists. split.
  { unfold list_chunks. cbn [rp_list store_replica]. by rewrite Hls. }
  intros id. rewrite elem_of_sort_dedup, Hin. split.
  - intros (r&Hr&Hh). by eapply (get_loop_holds id 0 _ []).
  - intros (data&(r&Hr&Hg)%get_loop_Ok). exists r. cbn in Hg. by rewrite Hg.
Qed.

Lemma replicated_get_law (s : Rs) id data : rs_wf s → get s id = Ok data → hash data = id.
Proof.
  intros [Hwf _] (r&Hr&Hg)%get_loop_Ok. eapply cs_get_law; [|exact Hg]. by eapply Forall_forall.
Qed.

#[export] Instance replicated_chunk_store : ChunkStore hash Rs := {
  cs_put := put; cs_get := get; cs_delete := delete; cs_list := list_chunks;
  cs_wf := rs_wf;
  cs_room s data := Forall (λ r, cs_room r data) (rs_replicas s);
  cs_put_law := replicated_put_law;
  cs_get_law := replicated_get_law;
  cs_delete_law := replicated_delete_law;
  cs_list_law := replicated_list_law
}.

Lemma kept_insert id (s : Rs) i r r' :
  rs_wf s → rs_replicas s !! i = Some r → kept id r r' →
  Forall2 (kept id) (rs_replicas s) (<[i := r']> (rs_replicas s)).
Proof.
  intros [Hwf _] Hr Hk. assert (i < length (rs_replicas s))%nat as Hi by by eapply lookup_lt_Some.
  rewrite <-(list_insert_id (rs_replicas s) i r) at 1 by done.
  apply Forall2_insert; [by apply kept_refl|done].
Qed.

(** Deleting a chunk from one replica leaves every other chunk readable. *)
Lemma replicated_deletes_only : deletes_only (Ct := Rs) replicated_targets.
Proof.
  intros c target k r k' Hwf H. cbn in H. destruct (rs_replicas k !! N.to_nat target) as [replica|] eqn:Hr.
  2: { by injection H as <- <-. }
  assert (cs_wf replica) as Hrw by (by eapply Forall_lookup_1; [apply Hwf|]).
  destruct (cs_delete_law _ c Hrw) as (replica'&Hd&Hw'&_&Hold). rewrite Hd in H. injection H as <- <-.
  assert (Forall2 (kept c) (rs_replicas k) (<[N.to_nat target := replica']> (rs_replicas k))) as Hk.
  { by eapply kept_insert. }
  split.
  - destruct Hwf as [_ Hreq]. split; [by apply (kept_wf _ _ _ Hk)|]. cbn. by rewrite length_insert.
  - intros c' Hne [d Hd']. exists d. rewrite <-Hd'. by apply (kept_others _ k _ Hk).
Qed.
End stores.

(** ** Replicas that fail

    A device is a chunk store with the error it currently answers, if any. *)

Record Device (St : Type) := mkDevice { dv_store : St; dv_fault : option FluxError }.
Arguments mkDevice {St}. Arguments dv_store {St}. Arguments dv_fault {St}.

#[export] Instance device_replica {hash St} `{!ChunkStore hash St} : Replica hash (Device St).
Proof.
  refine {|
    rp_put data d :=
      match dv_fault d with
      | Some e => (Err e, d)
      | None => let '(r, s) := cs_put data (dv_store d) in (r, mkDevice s None)
      end;
    rp_get d id := match dv_fault d with Some e => Err e | None => cs_get (dv_store d) id end;
    rp_delete id d :=
      match dv_fault d with
      | Some e => (Err e, d)
      | None => let '(r, s) := cs_delete id (dv_store d) in (r, mkDevice s None)
      end;
    rp_list d := match dv_fault d with Some e => Err e | None => cs_list (dv_store d) end;
    rp_wf d := cs_wf (dv_store d);
    rp_room d data := dv_fault d = None → cs_room (dv_store d) data
  |}.
  - intros [s [e|]] data r s' Hwf Hroom H; cbn in *; [injection H as <- <-; by eauto|].
    destruct (cs_put_law _ _ Hwf (Hroom eq_refl)) as (s1&Hput&?&?&?). rewrite Hput in H. by injection H as <- <-.
  - intros [s [e|]] id data Hwf H; [done|]. by eapply cs_get_law.
  - intros [s [e|]] id r s' Hwf H; cbn in *; [by injection H as <- <-|].
    destruct (cs_delete_law _ id Hwf) as (s1&Hdel&?&?&?). rewrite Hdel in H. by injection H as <- <-.
  - intros [s [e|]] l Hwf H; [done|]. cbn in *. destruct (cs_list_law _ Hwf) as (l1&Hl&?).
    rewrite Hl in H. by injection H as <-.
Defined.

(** ** Witnesses: three devices, one of them broken *)

#[local] Instance demo_packs : ChunkStore toy_hash PackStore := pack_chunk_store toy_hash toy_hash_width.

Definition demo_devices : ReplicatedChunkStore (Device PackStore) :=
  mkReplicatedChunkStore [mkDevice new_store None; mkDevice new_store (Some ENOENT); mkDevice new_store None] 2.
Definition demo_written : ReplicatedChunkStore (Device PackStore) := (put_replicated chunk_a demo_devices).2.

(** Afterwards the first device is emptied, and then the broken one comes back. *)
Definition demo_wiped : ReplicatedChunkStore (Device PackStore) :=
  mkReplicatedChunkStore (<[0%nat := mkDevice new_store None]> (rs_replicas demo_written)) 2.
Definition demo_back : ReplicatedChunkStore (Device PackStore) :=
  mkReplicatedChunkStore [mkDevice new_store None; mkDevice new_store None; mkDevice after_put None] 2.

Lemma demo_store_wf : pack_wf toy_hash after_put.
Proof.
  destruct (put_law toy_hash toy_hash_width new_store chunk_a new_store_wf) as (s'&Hp&Hwf&_).
  - by apply (small_room _ _ 1).
  - unfold after_put. by rewrite Hp.
Qed.

Ltac demo_wf := split; [repeat constructor; (apply new_store_wf || apply demo_store_wf)|cbn; lia].


Lemma repair_restores_witness :
  ∃ h s', repair (toy_hash chunk_a) demo_back = (Ok h, s') ∧ rh_healthy h = 3%nat ∧
    ∃ data, get s' (toy_hash chunk_a) = Ok data.
Proof.
  destruct (repair (toy_hash chunk_a) demo_back) as [r s'] eqn:Hrep.
  destruct (repair_restores demo_back (toy_hash chunk_a) r s') as (_&_&Hr); [demo_wf| |done|].
  - intros data Hg. assert (data = chunk_a) as -> by (vm_compute in Hg; by injection Hg as <-).
    cbn [demo_back rs_replicas]. rewrite !Forall_cons.
    split_and!; [intros _; apply (small_room _ _ 1); vm_compute; done..|constructor].
  - destruct r as [h|]; [|by vm_compute in Hrep]. destruct Hr as (_&Hh&data&Hd&_).
    exists h, s'. split_and!; [done| |eauto]. rewrite Hh. vm_compute in Hrep. by injection Hrep as <- _.
Defined.
