(* ===== verification/RaftStore.v ===== *)
(** * The replicated store ([RaftMetaStore], [raft_meta.rs])

    The methods of the [MetaStore] trait as the production store implements
    them: reads go to the local database, every write becomes a
    [MetaRaftRequest] that is committed through OpenRaft and answered by the
    state machine.  OpenRaft is a library: [client_write] is a parameter, and
    its documented behaviour (a proposal that is acknowledged has been applied
    to the state machine, whose response is returned) the hypothesis
    [client_write_applies].  [rid] is [RequestOpId::random()], [ms] is
    [unix_time_millis()] at the call. *)

From S2P Require Import MetaDb Namespace InodeData Gc Membership Ledger Apply HeedStore ApplyInv.

Local Open Scope N_scope.

(** ** Decoding responses *)

Section responses.
Context (debug : MetaRaftResponse → string).

Definition UNEXPECTED (other : MetaRaftResponse) : FluxError :=
  Meta ("unexpected raft response: " +:+ debug other).

Definition map_inode (resp : MetaRaftResponse) : Result Inode :=
  match resp with RInode x => Ok x | RErr err => Err err | other => Err (UNEXPECTED other) end.

Definition map_empty (resp : MetaRaftResponse) : Result unit :=
  match resp with REmpty => Ok tt | RErr err => Err err | other => Err (UNEXPECTED other) end.

Definition map_manifest_id (resp : MetaRaftResponse) : Result N :=
  match resp with RManifestId x => Ok x | RErr err => Err err | other => Err (UNEXPECTED other) end.

Definition map_gc_plan (resp : MetaRaftResponse) : Result GcPlan :=
  match resp with RGcPlan x => Ok x | RErr err => Err err | other => Err (UNEXPECTED other) end.

Definition map_gc_batch (resp : MetaRaftResponse) : Result GcBatch :=
  match resp with RGcBatch x => Ok x | RErr err => Err err | other => Err (UNEXPECTED other) end.

Definition map_worker_membership (resp : MetaRaftResponse) : Result WorkerMembership :=
  match resp with RWorkerMembership x => Ok x | RErr err => Err err | other => Err (UNEXPECTED other) end.

End responses.

(** [req.with_ledger_now(now)]. *)
Definition with_ledger_now (req : MetaRaftRequest) (now : N) : MetaRaftRequest :=
  mkRequest (request_id req) now (op req).

(** ** Methods *)

Section methods.
Context {S : Type} (client_write : MetaRaftRequest → S → result string MetaRaftResponse * S).
Context (debug : MetaRaftResponse → string) (ms : N) (rid : RequestOpId).

Definition raft_write (req : MetaRaftRequest) : txn S FluxError MetaRaftResponse := λ s,
  match client_write (with_ledger_now req ms) s with
  | (Ok resp, s') => (Ok resp, s')
  | (Err e, s') => (Err (Meta ("raft write: " +:+ e)), s')
  end.

(** [Self::map(self.write(req)?)]. *)
Definition raft_method {A} (map : (MetaRaftResponse → string) → MetaRaftResponse → Result A)
    (id : option RequestOpId) (o : MetaRaftOp) : txn S FluxError A :=
  resp ← raft_write (mkRequest id 0 o);
  lift (map debug resp).

Definition raft_register_worker (registration : WorkerRegistration) : txn S FluxError WorkerMembership :=
  raft_method map_worker_membership (Some rid)
    (RegisterWorker registration).

Definition raft_create_cas (expected_parent_generation : option N) (parent : InodeId)
    (name : string) (file_type : FileType) (mode uid gid : N) : txn S FluxError Inode :=
  raft_method map_inode (Some rid)
    (CreateOp parent name file_type mode uid gid expected_parent_generation).

Definition raft_symlink_cas (expected_parent_generation : option N) (parent : InodeId)
    (name target : string) (uid gid : N) : txn S FluxError Inode :=
  raft_method map_inode (Some rid)
    (SymlinkOp parent name target uid gid expected_parent_generation).

Definition raft_put_inode (inode : Inode) : txn S FluxError unit :=
  raft_method map_empty (Some rid)
    (PutInode inode).

Definition raft_put_inode_cas (expected_generation : N) (inode : Inode) : txn S FluxError Inode :=
  raft_method map_inode (Some rid)
    (PutInodeCas expected_generation inode).

Definition raft_put_manifest (manifest : Manifest) : txn S FluxError N :=
  raft_method map_manifest_id (Some rid)
    (PutManifest manifest).

Definition raft_commit_inode_manifest_with_id (op_id : RequestOpId) (expected_generation : N)
    (inode : Inode) (manifest : Manifest) : txn S FluxError Inode :=
  raft_method map_inode (Some op_id)
    (CommitInodeManifest expected_generation inode manifest).

Definition raft_reserve_chunks (ticket : WriteTicketId) (inode : InodeId) (expected_generation : N)
    (chunks : list ChunkId) : txn S FluxError unit :=
  raft_method map_empty (Some rid)
    (ReserveChunks ticket inode expected_generation chunks (write_reservation_deadline ms)).

Definition raft_abort_chunk_reservation (ticket : WriteTicketId) : txn S FluxError unit :=
  raft_method map_empty (Some rid)
    (AbortChunkReservation ticket).

Definition raft_expire_chunk_reservations (max_to_expire : N) : txn S FluxError unit :=
  raft_method map_empty None
    (ExpireChunkReservations ms max_to_expire).

Definition raft_prune_client_requests (max_to_prune : N) : txn S FluxError unit :=
  raft_method map_empty None
    (PruneClientRequests ms max_to_prune).

Definition raft_commit_inode_manifest_reserved_with_id (op_id : RequestOpId) (ticket : WriteTicketId)
    (expected_generation : N) (inode : Inode) (manifest : Manifest) : txn S FluxError Inode :=
  raft_method map_inode (Some op_id)
    (CommitInodeManifestReserved ticket expected_generation inode manifest).

Definition raft_tombstone_gc_batch (candidates : list ChunkId) : txn S FluxError GcBatch :=
  raft_method map_gc_batch (Some rid)
    (TombstoneGcBatch candidates).

Definition raft_initialize_gc_delete_targets (chunks : list ChunkId)
    (targets : list WorkerTargetId) : txn S FluxError unit :=
  raft_method map_empty None
    (InitializeGcDeleteTargets chunks targets).

Definition raft_acknowledge_gc_deletes (deleted : list (ChunkId * WorkerTargetId)) : txn S FluxError unit :=
  raft_method map_empty None
    (AcknowledgeGcDeletes deleted).

Definition raft_finalize_gc_tombstones (chunks : list ChunkId) : txn S FluxError unit :=
  raft_method map_empty (Some rid)
    (FinalizeGcTombstones chunks).

Definition raft_begin_flush_with_id (op_id : RequestOpId) (expected_generation : N) (inode : InodeId)
    (intent : FlushIntent) : txn S FluxError Inode :=
  raft_method map_inode (Some op_id)
    (BeginFlush expected_generation inode intent).

Definition raft_commit_flush_with_id (op_id : RequestOpId) (expected_generation : N) (inode : InodeId)
    (flush_id : FlushId) (published_ufs : UfsObject) : txn S FluxError Inode :=
  raft_method map_inode (Some op_id)
    (CommitFlush expected_generation inode flush_id published_ufs).

Definition raft_fail_flush_conflict (expected_generation : N) (inode : InodeId) (flush_id : FlushId)
    (error : string) : txn S FluxError Inode :=
  raft_method map_inode (Some rid)
    (FailFlushConflict expected_generation inode flush_id error).

Definition raft_begin_gc (lease_id : GcLeaseId) : txn S FluxError GcPlan :=
  raft_method map_gc_plan (Some rid)
    (BeginGc lease_id).

Definition raft_finish_gc (lease_id : GcLeaseId) : txn S FluxError unit :=
  raft_method map_empty (Some rid)
    (FinishGc lease_id).

Definition raft_import_external_with_id (op_id : RequestOpId) (expected_parent_generation : option N)
    (parent : InodeId) (name : string) (inode : Inode) (manifest : option Manifest) : txn S FluxError Inode :=
  raft_method map_inode (Some op_id)
    (ImportExternal parent name inode manifest expected_parent_generation).

Definition raft_unlink_cas (expected_parent_generation : option N) (parent : InodeId) (name : string) : txn S FluxError unit :=
  raft_method map_empty (Some rid)
    (Unlink parent name expected_parent_generation).

Definition raft_open_inode (session_id : string) (inode : InodeId) : txn S FluxError unit :=
  raft_method map_empty (Some rid)
    (OpenInode session_id inode).

Definition raft_close_inode (session_id : string) (inode : InodeId) : txn S FluxError unit :=
  raft_method map_empty (Some rid)
    (CloseInode session_id inode).

Definition raft_recover_session (session_id : string) : txn S FluxError unit :=
  raft_method map_empty (Some rid)
    (RecoverSession session_id).

Definition raft_rmdir_cas (expected_parent_generation : option N) (parent : InodeId) (name : string) : txn S FluxError unit :=
  raft_method map_empty (Some rid)
    (Rmdir parent name expected_parent_generation).

Definition raft_link_cas (expected_new_parent_generation : option N) (inode new_parent : InodeId)
    (new_name : string) : txn S FluxError Inode :=
  raft_method map_inode (Some rid)
    (Link inode new_parent new_name expected_new_parent_generation).

Definition raft_set_xattr_cas (expected_generation : N) (inode : InodeId) (name : string)
    (value : bytes) (mode : XattrSetMode) : txn S FluxError Inode :=
  raft_method map_inode (Some rid)
    (SetXattr expected_generation inode name value mode).

Definition raft_remove_xattr_cas (expected_generation : N) (inode : InodeId) (name : string) : txn S FluxError Inode :=
  raft_method map_inode (Some rid)
    (RemoveXattr expected_generation inode name).

Definition raft_rename_cas (expected_old_parent_generation : option N) (old_parent : InodeId)
    (old_name : string) (expected_new_parent_generation : option N) (new_parent : InodeId)
    (new_name : string) (no_replace : bool) : txn S FluxError Inode :=
  raft_method map_inode (Some rid)
    (Rename old_parent old_name expected_old_parent_generation new_parent new_name
       expected_new_parent_generation no_replace).

End methods.

(** ** Databases with the same data

    The ledger of answered requests and the applied markers are bookkeeping
    of the replicated path.  Two databases that differ only there are [≡d],
    and every operation of the store is blind to the difference. *)

Definition erase (d : Db) : Db := upd_client_requests (λ _, ∅) (upd_sm_meta (λ _, None) d).
Definition same_data : relation Db := λ d d', erase d = erase d'.
Infix "≡d" := same_data (at level 70).

#[export] Instance same_data_equiv : Equivalence same_data.
Proof.
  unfold same_data. split.
  - by intros d.
  - by intros d d' ->.
  - by intros d1 d2 d3 -> ->.
Qed.

#[export] Instance ledger_same f : Proper (same_data ==> same_data) (upd_client_requests f).
Proof. intros d d' H. exact H. Qed.

Lemma upd_ledger_same f d : upd_client_requests f d ≡d d.
Proof. done. Qed.
Lemma upd_sm_same f d : upd_sm_meta f d ≡d d.
Proof. done. Qed.

Definition blind {A} (m : M A) : Prop := ∀ d, m (erase d) = ((m d).1, erase (m d).2).

Lemma blind_same {A} (m : M A) d d' :
  blind m → d ≡d d' → (m d).1 = (m d').1 ∧ (m d).2 ≡d (m d').2.
Proof.
  intros Hm Hd. unfold same_data in *.
  assert (H := Hm d). rewrite Hd, Hm in H. apply pair_equal_spec in H as [H1 H2]. auto.
Qed.

Lemma blind_bind {A B} (m : M A) (k : A → M B) :
  blind m → (∀ a, blind (k a)) → blind (m ≫= k).
Proof.
  intros Hm Hk d. unfold mbind, txn_bind. rewrite Hm.
  destruct (m d) as [[a|e] d']; cbn -[erase]; [apply Hk|done].
Qed.

Lemma blind_for_each {A} (f : A → M unit) l : (∀ x, blind (f x)) → blind (for_each f l).
Proof. intros Hf. induction l as [|x l IH]; [done|]. cbn. by apply blind_bind. Qed.

Lemma blind_when b m : blind m → blind (when b m).
Proof. by destruct b. Qed.

Lemma blind_gets {A} (f : Db → A) : (∀ d, f (erase d) = f d) → blind (gets f).
Proof. intros Hf d. unfold gets. by rewrite Hf. Qed.

Lemma blind_reads {A} (f : Db → Result A) : (∀ d, f (erase d) = f d) → blind (reads f).
Proof. intros Hf d. unfold reads. by rewrite Hf. Qed.

Lemma blind_modify f : (∀ d, f (erase d) = erase (f d)) → blind (modify f).
Proof. intros Hf d. unfold modify. by rewrite Hf. Qed.

Lemma blind_respond {A} (m : M A) ok : blind m → blind (respond m ok).
Proof. intros Hm d. unfold respond, try_catch. rewrite Hm. by destruct (m d) as [[a|e] d']. Qed.

Create HintDb blind.
#[export] Hint Resolve blind_for_each blind_when : blind.
#[export] Hint Extern 1 (blind (gets _)) => apply blind_gets; reflexivity : blind.
#[export] Hint Extern 1 (blind (reads _)) => apply blind_reads; reflexivity : blind.
#[export] Hint Extern 1 (blind (modify _)) => apply blind_modify; reflexivity : blind.
#[export] Hint Extern 1 (blind (mret _)) => intros ?; reflexivity : blind.
#[export] Hint Extern 1 (blind (throw _)) => intros ?; reflexivity : blind.
#[export] Hint Extern 1 (blind (lift _)) => intros ?; reflexivity : blind.
#[export] Hint Extern 1 (blind (fail_if _ _)) => intros ?; reflexivity : blind.

(** One pass over the structure of an operation. *)
Ltac blinded :=
  repeat first
    [ progress intros
    | solve [auto with blind nocore]
    | apply blind_bind
    | apply blind_for_each
    | apply blind_when
    | match goal with
      | |- blind (match ?x with _ => _ end) => destruct x
      | |- blind (let '(_, _) := ?x in _) => destruct x
      end ].

Lemma rows_blind :
  (∀ id, blind (get_inode_raw id)) ∧ (∀ i, blind (put_inode_raw i)) ∧
  (∀ k, blind (get_dentry k)) ∧ blind alloc_inode ∧ blind alloc_manifest_id ∧
  (∀ m, blind (put_manifest_in_txn m)) ∧
  (∀ i, blind (next_generation i)) ∧ (∀ t, blind (reservation_in_txn t)) ∧
  (∀ r, blind (put_reservation_in_txn r)) ∧ (∀ t, blind (abort_reservation_in_txn t)) ∧
  (∀ t, blind (put_tombstone_in_txn t)) ∧ (∀ k c, blind (put_dentry k c)) ∧
  (∀ k, blind (delete_dentry k)) ∧ (∀ c, blind (find_tombstone c)).
Proof.
  unfold get_inode_raw, put_inode_raw, get_dentry, alloc_inode, put_manifest_in_txn,
    alloc_manifest_id, next_generation, reservation_in_txn, put_reservation_in_txn,
    abort_reservation_in_txn, put_tombstone_in_txn, put_dentry, delete_dentry, find_tombstone.
  split_and!; blinded.
Qed.

Ltac blind_op :=
  pose proof rows_blind as (?&?&?&?&?&?&?&?&?&?&?&?&?&?); blinded; eauto with blind nocore.

Lemma plan_chunks_blind d l live : plan_chunks (erase d) l live = plan_chunks d l live.
Proof.
  revert live. induction l as [|m l IH]; intros live; [done|]. cbn [plan_chunks].
  change (manifests (erase d)) with (manifests d).
  destruct (manifests d !! m); cbn; [apply IH|done].
Qed.

Lemma gc_plan_blind d lease : gc_plan (erase d) lease = gc_plan d lease.
Proof.
  unfold gc_plan. change (active_manifests (erase d)) with (active_manifests d).
  by rewrite plan_chunks_blind.
Qed.

Lemma scan_children_blind d cand children pending :
  scan_children (erase d) cand children pending = scan_children d cand children pending.
Proof.
  revert pending. induction children as [|c children IH]; intros pending; [done|].
  cbn [scan_children]. destruct (c =? cand); [done|].
  change (inodes (erase d)) with (inodes d). destruct (inodes d !! c); cbn -[erase]; [apply IH|done].
Qed.

Lemma descend_blind fuel d cand pending visited :
  descend fuel (erase d) cand pending visited = descend fuel d cand pending visited.
Proof.
  revert pending visited. induction fuel as [|fuel IH]; intros [|dir pending] visited; [done..|].
  cbn [descend]. change (dir_entries (erase d) dir) with (dir_entries d dir).
  rewrite scan_children_blind, IH. case_bool_decide; [done|].
  destruct (scan_children _ _ _ _) as [[p|]|]; [apply IH|done..].
Qed.

Lemma descendant_blind d a c : inode_is_descendant (erase d) a c = inode_is_descendant d a c.
Proof.
  unfold inode_is_descendant. change (descend_fuel (erase d)) with (descend_fuel d).
  by rewrite descend_blind.
Qed.
#[export] Hint Extern 1 (blind (reads _)) => apply blind_reads; intros; apply gc_plan_blind : blind.
#[export] Hint Extern 1 (blind (reads _)) => apply blind_reads; intros; apply descendant_blind : blind.

Lemma bump_blind t p e : blind (load_and_bump_parent_dir t p e).
Proof. unfold load_and_bump_parent_dir. blind_op. Qed.
Lemma delete_inode_blind id : blind (delete_inode_in_txn id).
Proof. unfold delete_inode_in_txn. blind_op. Qed.
Lemma install_clean_blind i fl it pub : blind (install_clean i fl it pub).
Proof. unfold install_clean. blind_op. Qed.
Lemma sweep_blind active l lv rm : blind (sweep_manifests active l lv rm).
Proof. revert lv rm. induction l as [|[id m] l IH]; simpl; blind_op. Qed.
#[export] Hint Resolve bump_blind delete_inode_blind install_clean_blind sweep_blind : blind.

Lemma reap_blind id : blind (reap_unlinked_inode_if_unopened_in_txn id).
Proof. unfold reap_unlinked_inode_if_unopened_in_txn. blind_op. Qed.
Lemma remove_link_blind t i : blind (remove_inode_link_in_txn t i).
Proof. unfold remove_inode_link_in_txn. blind_op. Qed.
Lemma commit_manifest_blind g i m : blind (commit_inode_manifest_in_txn g i m).
Proof. unfold commit_inode_manifest_in_txn. blind_op. Qed.
Lemma expire_blind cutoff limit : blind (expire_reservations_in_txn cutoff limit).
Proof. unfold expire_reservations_in_txn. blind_op. Qed.
Lemma import_blind now e p n i m : blind (import_external_in_txn now e p n i m).
Proof. unfold import_external_in_txn. blind_op. Qed.
#[export] Hint Resolve import_blind reap_blind remove_link_blind commit_manifest_blind expire_blind : blind.

(** The requests that write the ledger themselves. *)
Definition ledger_op (o : MetaRaftOp) : bool :=
  match o with ExpireChunkReservations _ _ | PruneClientRequests _ _ => true | _ => false end.

Lemma dispatch_blind now o : ledger_op o = false → blind (dispatch now o).
Proof.
  destruct o; intros Ho; try discriminate Ho; cbn [dispatch];
    try (destruct (manifest_has_local _); [by intros d|]); apply blind_respond;
    unfold register_worker_in_txn, begin_gc_in_txn, finish_gc_in_txn,
      put_inode_cas_in_txn, reserve_chunks_in_txn, commit_reserved_in_txn,
      tombstone_gc_batch_in_txn, finalize_tombstones_in_txn, initialize_gc_targets_in_txn,
      acknowledge_gc_deletes_in_txn, begin_flush_in_txn, commit_flush_in_txn,
      fail_flush_conflict_in_txn, open_inode_in_txn, close_inode_in_txn,
      recover_session_in_txn, set_xattr_in_txn, remove_xattr_in_txn,
      create_in_txn, symlink_in_txn, create_node_in_txn, import_external_in_txn,
      unlink_in_txn, link_in_txn, rmdir_in_txn, rename_in_txn, rename_commit,
      rename_check_destination, rename_remove_destination;
    blind_op.
Qed.

(** ** The two stores agree *)

(** A call of a trait method, named by the request it corresponds to, and
    its answer as a response. *)
Definition answer {A S} (m : S → Result A * S) (ok : A → MetaRaftResponse) (s : S) :
    Result MetaRaftResponse * S :=
  let '(r, s') := m s in (ok <$> r, s').

Definition heed_call (now : nat → Z) (ms : N) (debug : MetaRaftResponse → string)
    (id : RequestOpId) (o : MetaRaftOp) : Db → Result MetaRaftResponse * Db :=
  let empty {A} (_ : A) := REmpty in
  match o with
  | RegisterWorker reg => answer (heed_register_worker reg) RWorkerMembership
  | CreateOp p n t m u g e => answer (heed_create_cas now e p n t m u g) RInode
  | SymlinkOp p n t u g e => answer (heed_symlink_cas now e p n t u g) RInode
  | PutInode i => answer (heed_put_inode i) empty
  | PutInodeCas g i => answer (heed_put_inode_cas g i) RInode
  | PutManifest m => answer (heed_put_manifest m) RManifestId
  | CommitInodeManifest g i m =>
      answer (heed_commit_inode_manifest_with_id ms debug id g i m) RInode
  | ReserveChunks t i g c _ => answer (heed_reserve_chunks ms t i g c) empty
  | AbortChunkReservation t => answer (heed_abort_chunk_reservation t) empty
  | ExpireChunkReservations _ n => answer (heed_expire_chunk_reservations ms n) empty
  | PruneClientRequests _ n => answer (heed_prune_client_requests ms n) empty
  | CommitInodeManifestReserved t g i m =>
      answer (heed_commit_inode_manifest_reserved_with_id t g i m) RInode
  | TombstoneGcBatch c => answer (heed_tombstone_gc_batch c) RGcBatch
  | FinalizeGcTombstones c => answer (heed_finalize_gc_tombstones c) empty
  | InitializeGcDeleteTargets c t => answer (heed_initialize_gc_delete_targets c t) empty
  | AcknowledgeGcDeletes l => answer (heed_acknowledge_gc_deletes l) empty
  | BeginFlush g i it => answer (heed_begin_flush_with_id g i it) RInode
  | CommitFlush g i f p => answer (heed_commit_flush_with_id g i f p) RInode
  | FailFlushConflict g i f e => answer (heed_fail_flush_conflict g i f e) RInode
  | BeginGc l => answer (heed_begin_gc l) RGcPlan
  | FinishGc l => answer (heed_finish_gc l) empty
  | ImportExternal p n i m e =>
      answer (heed_import_external_with_id now ms debug id e p n i m) RInode
  | Unlink p n e => answer (heed_unlink_cas now e p n) empty
  | OpenInode s i => answer (heed_open_inode s i) empty
  | CloseInode s i => answer (heed_close_inode s i) empty
  | RecoverSession s => answer (heed_recover_session s) empty
  | Link i p n e => answer (heed_link_cas now e i p n) RInode
  | SetXattr g i n v m => answer (heed_set_xattr_cas now g i n v m) RInode
  | RemoveXattr g i n => answer (heed_remove_xattr_cas now g i n) RInode
  | Rmdir p n e => answer (heed_rmdir_cas now e p n) empty
  | Rename op on eo np nn en nr => answer (heed_rename_cas now eo op on en np nn nr) RInode
  end.

Definition raft_call {S} (client_write : MetaRaftRequest → S → result string MetaRaftResponse * S)
    (ms : N) (debug : MetaRaftResponse → string) (id : RequestOpId) (o : MetaRaftOp) :
    S → Result MetaRaftResponse * S :=
  let empty {A} (_ : A) := REmpty in
  let w := client_write in
  match o with
  | RegisterWorker reg => answer (raft_register_worker w debug ms id reg) RWorkerMembership
  | CreateOp p n t m u g e => answer (raft_create_cas w debug ms id e p n t m u g) RInode
  | SymlinkOp p n t u g e => answer (raft_symlink_cas w debug ms id e p n t u g) RInode
  | PutInode i => answer (raft_put_inode w debug ms id i) empty
  | PutInodeCas g i => answer (raft_put_inode_cas w debug ms id g i) RInode
  | PutManifest m => answer (raft_put_manifest w debug ms id m) RManifestId
  | CommitInodeManifest g i m =>
      answer (raft_commit_inode_manifest_with_id w debug ms id g i m) RInode
  | ReserveChunks t i g c _ => answer (raft_reserve_chunks w debug ms id t i g c) empty
  | AbortChunkReservation t => answer (raft_abort_chunk_reservation w debug ms id t) empty
  | ExpireChunkReservations _ n => answer (raft_expire_chunk_reservations w debug ms n) empty
  | PruneClientRequests _ n => answer (raft_prune_client_requests w debug ms n) empty
  | CommitInodeManifestReserved t g i m =>
      answer (raft_commit_inode_manifest_reserved_with_id w debug ms id t g i m) RInode
  | TombstoneGcBatch c => answer (raft_tombstone_gc_batch w debug ms id c) RGcBatch
  | FinalizeGcTombstones c => answer (raft_finalize_gc_tombstones w debug ms id c) empty
  | InitializeGcDeleteTargets c t => answer (raft_initialize_gc_delete_targets w debug ms c t) empty
  | AcknowledgeGcDeletes l => answer (raft_acknowledge_gc_deletes w debug ms l) empty
  | BeginFlush g i it => answer (raft_begin_flush_with_id w debug ms id g i it) RInode
  | CommitFlush g i f p => answer (raft_commit_flush_with_id w debug ms id g i f p) RInode
  | FailFlushConflict g i f e => answer (raft_fail_flush_conflict w debug ms id g i f e) RInode
  | BeginGc l => answer (raft_begin_gc w debug ms id l) RGcPlan
  | FinishGc l => answer (raft_finish_gc w debug ms id l) empty
  | ImportExternal p n i m e =>
      answer (raft_import_external_with_id w debug ms id e p n i m) RInode
  | Unlink p n e => answer (raft_unlink_cas w debug ms id e p n) empty
  | OpenInode s i => answer (raft_open_inode w debug ms id s i) empty
  | CloseInode s i => answer (raft_close_inode w debug ms id s i) empty
  | RecoverSession s => answer (raft_recover_session w debug ms id s) empty
  | Link i p n e => answer (raft_link_cas w debug ms id e i p n) RInode
  | SetXattr g i n v m => answer (raft_set_xattr_cas w debug ms id g i n v m) RInode
  | RemoveXattr g i n => answer (raft_remove_xattr_cas w debug ms id g i n) RInode
  | Rmdir p n e => answer (raft_rmdir_cas w debug ms id e p n) empty
  | Rename op on eo np nn en nr => answer (raft_rename_cas w debug ms id eo op on en np nn nr) RInode
  end.

(** The request that a call at time [ms] sends: the time-dependent arguments
    are fixed by the trait methods, and some requests carry no id. *)
Definition call_request (ms : N) (id : RequestOpId) (o : MetaRaftOp) : MetaRaftRequest :=
  match o with
  | ReserveChunks t i g c _ =>
      mkRequest (Some id) ms (ReserveChunks t i g c (write_reservation_deadline ms))
  | ExpireChunkReservations _ n => mkRequest None ms (ExpireChunkReservations ms n)
  | PruneClientRequests _ n => mkRequest None ms (PruneClientRequests ms n)
  | InitializeGcDeleteTargets _ _ | AcknowledgeGcDeletes _ => mkRequest None ms o
  | _ => mkRequest (Some id) ms o
  end.

Definition decode (resp : MetaRaftResponse) : Result MetaRaftResponse :=
  match resp with RErr e => Err e | _ => Ok resp end.

Lemma raft_method_run {S A} (w : MetaRaftRequest → S → result string MetaRaftResponse * S)
    debug ms (map : (MetaRaftResponse → string) → MetaRaftResponse → Result A) id o s resp s' :
  w (mkRequest id ms o) s = (Ok resp, s') →
  raft_method w debug ms map id o s = (map debug resp, s').
Proof.
  intros Hw. unfold raft_method, raft_write, with_ledger_now, mbind, txn_bind. cbn [request_id op].
  by rewrite Hw.
Qed.

Lemma respond_shape {A} (m : M A) ok d resp d' :
  respond m ok d = (Ok resp, d') →
  (∃ e d1, m d = (Err e, d1) ∧ resp = RErr e) ∨ (∃ a, m d = (Ok a, d') ∧ resp = ok a).
Proof.
  unfold respond, try_catch. destruct (m d) as [[a|e] d1]; intros; simplify_eq; eauto.
Qed.

(** Every façade method decodes what the state machine answers to its
    request: "unexpected raft response" is never reported for it. *)
Lemma raft_call_decodes {S} (w : MetaRaftRequest → S → result string MetaRaftResponse * S)
    ms debug id o s resp s' now d d' :
  w (call_request ms id o) s = (Ok resp, s') →
  dispatch now (op (call_request ms id o)) d = (Ok resp, d') →
  raft_call w ms debug id o s = (decode resp, s').
Proof.
  intros Hw Hd.
  destruct o; cbn [call_request op dispatch] in *;
    try (destruct (manifest_has_local _); [injection Hd as <- <-|]);
    try (apply respond_shape in Hd as [(e&?&_&->)|(a&_&->)]);
    cbn [raft_call]; unfold answer,
    raft_register_worker, raft_create_cas, raft_symlink_cas, raft_put_inode,
    raft_put_inode_cas, raft_put_manifest, raft_commit_inode_manifest_with_id,
    raft_reserve_chunks, raft_abort_chunk_reservation, raft_expire_chunk_reservations,
    raft_prune_client_requests, raft_commit_inode_manifest_reserved_with_id,
    raft_tombstone_gc_batch, raft_initialize_gc_delete_targets,
    raft_acknowledge_gc_deletes, raft_finalize_gc_tombstones, raft_begin_flush_with_id,
    raft_commit_flush_with_id, raft_fail_flush_conflict, raft_begin_gc, raft_finish_gc,
    raft_import_external_with_id, raft_unlink_cas, raft_open_inode, raft_close_inode,
    raft_recover_session, raft_rmdir_cas, raft_link_cas, raft_set_xattr_cas,
    raft_remove_xattr_cas, raft_rename_cas;
    erewrite raft_method_run by exact Hw; reflexivity.
Qed.

Lemma with_write_txn_run {A} (m : M A) d r d1 :
  gc_lease d = None → m d = (r, d1) →
  with_write_txn m d = (r, if is_ok r then d1 else d).
Proof. intros Hg Hm. unfold with_write_txn. rewrite Hg, Hm. by destruct r. Qed.

Lemma ledgered_run ms debug id what (m : M Inode) d r d1 :
  blind m → gc_lease d = None → live_row d id ms = None → ¬ ledger_full (after_prune ms d) →
  m d = (r, d1) → ∃ d', ledgered ms debug id what m d = (r, d') ∧ d1 ≡d d'.
Proof.
  intros Hb Hg Hrow Hfull Hm. unfold ledgered. rewrite Hg. cbn [is_some].
  destruct (RequestOpId_is_none id) eqn:Hid.
  { rewrite Hm. destruct r; eexists; (split; [done|reflexivity]). }
  rewrite get_client_request_run, Hrow. cbn [fst fmap option_fmap option_map].
  destruct (after_prune_run ms d) as [n ->].
  unfold ledger_full in Hfull. rewrite (proj2 (N.leb_gt _ _)) by lia.
  destruct (after_prune_same ms d) as [f Hf].
  destruct (blind_same m d (after_prune ms d) Hb) as [Hr Hd]; [by rewrite Hf|].
  rewrite Hm in Hr, Hd. cbn [fst snd] in Hr, Hd.
  destruct (m (after_prune ms d)) as [r2 d2]. cbn in Hr, Hd. subst r2.
  destruct r; eexists; (split; [done|]); by etrans; [exact Hd|].
Qed.

(** The calls that a collection lease does not block on the direct path. *)
Definition gc_call (o : MetaRaftOp) : bool :=
  match o with BeginGc _ | FinishGc _ => true | _ => false end.

Lemma commit_or_drop_run {A} (m : M A) d r d1 :
  m d = (r, d1) → commit_or_drop m d = (r, if is_ok r then d1 else d).
Proof. intros Hm. unfold commit_or_drop. rewrite Hm. by destruct r. Qed.

(** One committed-or-dropped transaction against the answer of the state
    machine. *)
Lemma txn_agrees {A} (m : M A) (run : Db → Result A * Db) ok d resp d1 :
  (∀ r d1, m d = (r, d1) → run d = (r, if is_ok r then d1 else d)) →
  (∀ a, decode (ok a) = Ok (ok a)) → respond m ok d = (Ok resp, d1) →
  ∃ d', answer run ok d = (decode resp, d') ∧ (is_ok (decode resp) = true → d1 ≡d d').
Proof.
  intros Hrun Hok [(e&d2&Hm&->)|(a&Hm&->)]%respond_shape; unfold answer; rewrite (Hrun _ _ Hm).
  - eexists. by split.
  - eexists. rewrite Hok. by split.
Qed.

Lemma ledgered_agrees ms debug id what (m : M Inode) d resp d1 :
  blind m → gc_lease d = None → live_row d id ms = None → ¬ ledger_full (after_prune ms d) →
  respond m RInode d = (Ok resp, d1) →
  ∃ d', answer (ledgered ms debug id what m) RInode d = (decode resp, d') ∧
        (is_ok (decode resp) = true → d1 ≡d d').
Proof.
  intros Hb Hg Hrow Hfull [(e&d2&Hm&->)|(a&Hm&->)]%respond_shape; unfold answer;
    destruct (ledgered_run ms debug id what m d _ _ Hb Hg Hrow Hfull Hm) as (d'&->&?);
    eexists; by split.
Qed.

Lemma heed_call_agrees now ms debug id o d resp d1 :
  gc_lease d = None ∨ gc_call o = true →
  live_row d id ms = None → ¬ ledger_full (after_prune ms d) →
  dispatch now (op (call_request ms id o)) d = (Ok resp, d1) →
  ∃ d', heed_call now ms debug id o d = (decode resp, d') ∧
        (is_ok (decode resp) = true → d1 ≡d d').
Proof.
  intros Hg Hrow Hfull Hd.
  assert (gc_call o = false → gc_lease d = None) as Hlease by (destruct Hg; [done|congruence]).
  destruct o; cbn [call_request op dispatch gc_call heed_call] in *;
    try specialize (Hlease eq_refl);
    try (eapply txn_agrees; [|intros a; reflexivity|exact Hd]; intros r d2 Hm;
         first [by apply with_write_txn_run|by apply commit_or_drop_run]).
  - (* put_manifest *) eapply txn_agrees; [|done|exact Hd]. intros r d2 Hm. unfold heed_put_manifest.
    rewrite Hlease. destruct (Manifest_validate manifest) as [[]|e] eqn:Hv.
    + by apply commit_or_drop_run.
    + unfold put_manifest_in_txn, mbind, txn_bind, lift in Hm. rewrite Hv in Hm. by simplify_eq.
  - (* commit_inode_manifest *) unfold heed_commit_inode_manifest_with_id.
    destruct (manifest_has_local manifest).
    { injection Hd as <- <-. by eexists. }
    by apply ledgered_agrees; [apply commit_manifest_blind|..].
  - (* expire *) unfold heed_expire_chunk_reservations, answer, with_write_txn. rewrite Hlease.
    unfold respond, try_catch, mbind, txn_bind in Hd |- *. cbn [is_some].
    destruct (expire_reservations_in_txn ms max_to_expire d) as [[n|e] d2].
    + rewrite prune_run in Hd. injection Hd as <- <-. by eexists.
    + injection Hd as <- <-. by eexists.
  - (* prune *) unfold heed_prune_client_requests, answer, with_write_txn. rewrite Hlease.
    unfold respond, try_catch, mbind, txn_bind in Hd |- *. cbn [is_some].
    rewrite prune_run in Hd |- *. injection Hd as <- <-. by eexists.
  - by apply ledgered_agrees; [apply import_blind|..].
Qed.

Lemma call_execute now ms id o d resp d1 :
  gc_lease d = None ∨ gc_call o = true →
  execute now (op (call_request ms id o)) d = (Ok resp, d1) →
  dispatch now (op (call_request ms id o)) d = (Ok resp, d1).
Proof.
  intros Hg. unfold execute. rewrite txn_bind_gets. destruct Hg as [->|Hg]; [done|].
  destruct o; try discriminate Hg; cbn [call_request op gc_exempt negb]; by rewrite andb_false_r.
Qed.

Lemma call_dedup ms id o id' :
  dedup_id (call_request ms id o) = Some id' → id' = id ∧ ledger_op (op (call_request ms id o)) = false.
Proof.
  destruct o; cbn; unfold dedup_id; cbn; try discriminate;
    destruct (RequestOpId_is_none id); by intros [= ->].
Qed.

(** What the state machine did to a new call, as a run of its operation on
    the database before it. *)
Lemma applied_dispatch now ms id o d resp d0 :
  gc_lease d = None ∨ gc_call o = true →
  live_row d id ms = None → ¬ ledger_full (after_prune ms d) →
  applied now (call_request ms id o) d resp d0 →
  ∃ d1, dispatch now (op (call_request ms id o)) d = (Ok resp, d1) ∧ d0 ≡d d1.
Proof.
  intros Hg Hrow Hfull Ha.
  assert (ledger_now_unix_ms (call_request ms id o) = ms) as Hms by (by destruct o).
  destruct Ha as [resp d0 _ Hex|id' e Hid Hlive|id' Hid _ Hf|id' resp d0 Hid _ _ Hex];
    rewrite ?Hms in *.
  - exists d0. split; [by apply call_execute|done].
  - apply call_dedup in Hid as [-> _]. congruence.
  - done.
  - apply call_dedup in Hid as [-> Hl]. destruct (after_prune_same ms d) as [f Hf].
    apply call_execute in Hex; [|by rewrite Hf].
    destruct (blind_same (dispatch now (op (call_request ms id o))) d (after_prune ms d))
      as [Hr Hd]; [by apply dispatch_blind|by rewrite Hf|].
    rewrite Hex in Hr, Hd. cbn [fst snd] in Hr, Hd. eexists. rewrite <-Hr. split; [apply surjective_pairing|].
    etrans; [apply upd_ledger_same|]. by symmetry.
Qed.

Section agreement.
Context {S : Type} (client_write : MetaRaftRequest → S → result string MetaRaftResponse * S).
Context (store_of : S → Db).
Context (client_write_applies : ∀ req s resp s',
  client_write req s = (Ok resp, s') →
  ∃ now sm, apply_raft_request now req sm (store_of s) = (Ok resp, store_of s')).

(** C22: the embedded store and the replicated store implement the same
    [MetaStore].  Whenever OpenRaft acknowledges the proposal of a method
    call that is new to a ledger with room, and no collection lease is held,
    the replicated store returns exactly the result that the embedded store
    returns on the same database, and, when that is a success, the two
    databases afterwards differ at most in the ledger and the applied
    markers. *)
Theorem stores_agree ms debug id o s resp s' :
  gc_lease (store_of s) = None ∨ gc_call o = true →
  live_row (store_of s) id ms = None → ¬ ledger_full (after_prune ms (store_of s)) →
  client_write (call_request ms id o) s = (Ok resp, s') →
  ∃ now r d', raft_call client_write ms debug id o s = (r, s') ∧
    heed_call now ms debug id o (store_of s) = (r, d') ∧
    (is_ok r = true → store_of s' ≡d d').
Proof.
  intros Hg Hrow Hfull Hw. destruct (client_write_applies _ _ _ _ Hw) as (now&sm&Happ).
  apply apply_inv in Happ as (resp'&d0&[= <-]&Hs'&Ha). exists now, (decode resp).
  destruct (applied_dispatch _ _ _ _ _ _ _ Hg Hrow Hfull Ha) as (d1&Hd&Hsame).
  destruct (heed_call_agrees now ms debug id o _ _ _ Hg Hrow Hfull Hd) as (d'&Hheed&Hok).
  exists d'. split; [by eapply raft_call_decodes|]. split; [done|].
  intros H. rewrite Hs'. etrans; [apply upd_sm_same|]. etrans; [exact Hsame|]. auto.
Qed.
End agreement.

Definition example_sm : SmAppliedMeta := mkSmAppliedMeta None (mkStoredMembership None [] []).

(** A single-voter cluster: a proposal is applied where it is made. *)
Definition local_write (req : MetaRaftRequest) (d : Db) : result string MetaRaftResponse * Db :=
  match apply_raft_request (λ _, 7%Z) req example_sm d with
  | (Ok resp, d') => (Ok resp, d')
  | (Err _, d') => (Err "storage", d')
  end.

Lemma local_write_applies req s resp s' :
  local_write req s = (Ok resp, s') →
  ∃ now sm, apply_raft_request now req sm s = (Ok resp, s').
Proof.
  unfold local_write. intros H. exists (λ _, 7%Z), example_sm.
  destruct (apply_raft_request (λ _, 7%Z) req example_sm s) as [[r|e] d']; [|discriminate H].
  apply pair_equal_spec in H as [H ->]. injection H as ->. done.
Qed.

Definition registered : Db :=
  (local_write (call_request 1000 0 (RegisterWorker example_worker)) empty_db).2.

Lemma stores_agree_witness :
  ∃ now r d',
    raft_call local_write 1000 (λ _, "") 0 (RegisterWorker example_worker) empty_db
      = (r, registered) ∧
    heed_call now 1000 (λ _, "") 0 (RegisterWorker example_worker) empty_db = (r, d') ∧
    (is_ok r = true → registered ≡d d').
Proof.
  apply (stores_agree local_write (λ d, d) local_write_applies 1000 (λ _, "") 0
           (RegisterWorker example_worker) empty_db
           (RWorkerMembership (membership_of registered)) registered).
  - by left.
  - unfold live_row. change (client_requests empty_db) with (∅ : gmap string ClientRequestLedgerEntry).
    by rewrite lookup_empty.
  - unfold ledger_full. destruct (after_prune_pruned 1000 empty_db) as [Hsub _].
    apply map_subseteq_size in Hsub. change (size (client_requests empty_db)) with 0%nat in Hsub.
    unfold CLIENT_REQUEST_LEDGER_SOFT_CAP. lia.
  - reflexivity.
Defined.
