(* ===== verification/Typed.v ===== *)
(** * The type of a response

    [MetaRaftResponse] is one enum for every request; the methods of the
    replicated store and the handlers of the server each expect one variant
    and report anything else as "unexpected raft response".  Responses are
    also kept in the ledger and returned to later requests with the same id,
    so that the variant is right is a property of a whole log. *)

From S2P Require Import MetaDb Namespace InodeData Gc Membership Ledger Apply ApplyInv HeedStore RaftStore.

Local Open Scope N_scope.

Inductive Kind := KEmpty | KInode | KManifestId | KGcPlan | KGcBatch | KWorkerMembership.
#[export] Instance Kind_eq_dec : EqDecision Kind.
Proof. solve_decision. Defined.

(** The variant that the method sending a request decodes. *)
Definition expected_kind (o : MetaRaftOp) : Kind :=
  match o with
  | RegisterWorker _ => KWorkerMembership
  | PutManifest _ => KManifestId
  | TombstoneGcBatch _ => KGcBatch
  | BeginGc _ => KGcPlan
  | CreateOp _ _ _ _ _ _ _ | SymlinkOp _ _ _ _ _ _ | PutInodeCas _ _ | CommitInodeManifest _ _ _
  | CommitInodeManifestReserved _ _ _ _ | BeginFlush _ _ _ | CommitFlush _ _ _ _ | FailFlushConflict _ _ _ _
  | ImportExternal _ _ _ _ _ | Link _ _ _ _ | SetXattr _ _ _ _ _ | RemoveXattr _ _ _
  | Rename _ _ _ _ _ _ _ => KInode
  | _ => KEmpty
  end.

(** Errors have every type. *)
Definition has_kind (k : Kind) (resp : MetaRaftResponse) : Prop :=
  match resp with
  | RErr _ => True
  | REmpty => k = KEmpty
  | RInode _ => k = KInode
  | RManifestId _ => k = KManifestId
  | RGcPlan _ => k = KGcPlan
  | RGcBatch _ => k = KGcBatch
  | RWorkerMembership _ => k = KWorkerMembership
  end.

Lemma dispatch_kind now o d resp d' :
  dispatch now o d = (Ok resp, d') → has_kind (expected_kind o) resp.
Proof.
  intros Hd. destruct o; cbn [dispatch] in Hd; try (destruct (manifest_has_local _); [by injection Hd as <- <-|]);
    apply respond_shape in Hd as [(e&?&_&->)|(a&_&->)]; done.
Qed.

Lemma execute_kind now o d resp d' :
  execute now o d = (Ok resp, d') → has_kind (expected_kind o) resp ∧ client_requests d' ⊆ client_requests d.
Proof.
  unfold execute. rewrite txn_bind_gets. destruct (_ && _); [by intros [= <- <-]|]. intros H. split.
  - by eapply dispatch_kind.
  - by apply dispatch_ledger in H as [].
Qed.

Section typing.
(** What each request id stands for. *)
Context (stands_for : string → Kind).

Definition ledger_typed (d : Db) : Prop :=
  map_Forall (λ key e, has_kind (stands_for key) (response e)) (client_requests d).

(** A client uses an id for one call and its retries only. *)
Definition well_identified (req : MetaRaftRequest) : Prop :=
  ∀ id, dedup_id req = Some id → stands_for (ledger_key id) = expected_kind (op req).

Lemma ledger_typed_mono d d' : ledger_typed d → client_requests d' ⊆ client_requests d → ledger_typed d'.
Proof. intros Hd Hsub key e He. apply Hd. by eapply lookup_weaken. Qed.

Lemma applied_typed now req d resp d0 :
  ledger_typed d → well_identified req → applied now req d resp d0 →
  has_kind (expected_kind (op req)) resp ∧ ledger_typed d0.
Proof.
  intros Hd Hid. destruct (after_prune_pruned (ledger_now_unix_ms req) d) as [Hsub _].
  assert (Hp := ledger_typed_mono _ _ Hd Hsub).
  intros [resp0 d1 _ Hex|id e Hdid Hlive|id Hdid _ _|id resp0 d1 Hdid _ _ Hex].
  - apply execute_kind in Hex as [Hk Hl]. split; [done|]. by apply (ledger_typed_mono d).
  - split; [|done]. rewrite <-(Hid id Hdid). unfold live_row in Hlive.
    destruct (client_requests d !! ledger_key id) as [e0|] eqn:He; [|done].
    destruct (_ <=? _); [done|]. injection Hlive as ->. by apply Hd.
  - done.
  - apply execute_kind in Hex as [Hk Hl]. split; [done|]. apply map_Forall_insert_2.
    + cbn. by rewrite (Hid id Hdid).
    + by apply (ledger_typed_mono (after_prune (ledger_now_unix_ms req) d)).
Qed.

(** The state machine on a log: the responses and the database after it. *)
Fixpoint answers (log : list ((nat → Z) * MetaRaftRequest * SmAppliedMeta)) (d : Db) :
    list (Result MetaRaftResponse) * Db :=
  match log with
  | [] => ([], d)
  | (now, req, sm) :: log =>
      let '(r, d) := apply_raft_request now req sm d in
      let '(rs, d) := answers log d in (r :: rs, d)
  end.

(** C13: the answers of the state machine are well typed.  On any log in which
    an id stands for one kind of call, from a ledger that is typed so, every
    request is answered, be it from the ledger or by execution, with the
    variant that its method decodes or with an error, and the ledger stays
    typed: "unexpected raft response" is never reported. *)
Theorem answers_typed log d rs d' :
  ledger_typed d → Forall (λ x, well_identified x.1.2) log → answers log d = (rs, d') →
  Forall2 (λ x r, ∃ resp, r = Ok resp ∧ has_kind (expected_kind (op x.1.2)) resp) log rs ∧ ledger_typed d'.
Proof.
  intros Hd Hlog. revert d Hd rs d'. induction Hlog as [|[[now req] sm] log Hreq Hlog IH]; intros d Hd rs d' Hrun.
  - by injection Hrun as <- <-.
  - cbn in Hrun. destruct (apply_raft_request now req sm d) as [r d1] eqn:Happ.
    destruct (answers log d1) as [rs1 d2] eqn:Hrest. injection Hrun as <- <-.
    apply apply_inv in Happ as (resp&d0&->&->&Ha).
    destruct (applied_typed _ _ _ _ _ Hd Hreq Ha) as [Hk Hd0].
    destruct (IH (save_sm_meta_only sm d0) Hd0 _ _ Hrest) as [HF Hd'].
    split; [|done]. constructor; [by exists resp|done].
Qed.
End typing.

(** A registration, its retry, and a session recovery under another id. *)
Definition typed_log : list ((nat → Z) * MetaRaftRequest * SmAppliedMeta) :=
  let register := mkRequest (Some 7) 1000 (RegisterWorker example_worker) in
  [(λ _, 7%Z, register, example_sm); (λ _, 8%Z, register, example_sm);
   (λ _, 9%Z, mkRequest (Some 8) 1001 (RecoverSession "s"), example_sm)].

Lemma answers_typed_witness :
  Forall2 (λ x r, ∃ resp, r = Ok resp ∧ has_kind (expected_kind (op x.1.2)) resp)
    typed_log (answers typed_log empty_db).1.
Proof.
  apply (answers_typed (λ key, if bool_decide (key = ledger_key 7) then KWorkerMembership else KEmpty)
    typed_log empty_db _ (answers typed_log empty_db).2).
  - apply map_Forall_empty.
  - unfold typed_log. rewrite !Forall_cons. split_and!; [| | |constructor];
      intros id [= <-]; vm_compute; reflexivity.
  - apply surjective_pairing.
Defined.
