(* ===== verification/MetaMaster.v ===== *)
(** * The metadata server ([crates/metamaster/src/main.rs])

    One definition per RPC of [MetaService]: the handler checks the caller's
    capability, decodes the message, reads the local database or proposes a
    request to Raft, and encodes the answer.  OpenRaft is the parameter
    [client_write], as in [RaftStore]; [db] is the database the state machine
    writes.  [ms] is [unix_time_millis()] at the call and [rid] is
    [RequestOpId::random()] on the server. *)

From S2P Require Import MetaDb Namespace InodeData Gc Membership Ledger Apply HeedStore RaftStore Keys Wire Auth Authz.

Local Open Scope N_scope.

(** ** The codec of every message *)

Class Codec (T : Type) `{!Carried T} := {
  codec_bare :: Serde T;
  codec_envelope :: Serde (VersionedEnvelope T);
  codec_laws :: SerdeLaws T
}.

(** Lists of chunk ids and lists of worker ids have one type here. *)
Class MetaCodecs := {
  c_error :: Serde FluxError;
  c_error_laws :: SerdeLaws FluxError;
  c_registration :: Codec WorkerRegistration;
  c_membership :: Codec WorkerMembership;
  c_inode :: Codec Inode;
  c_manifest :: Codec Manifest;
  c_flush_intent :: Codec FlushIntent;
  c_ufs_object :: Codec UfsObject;
  c_flush_intents :: Codec (list (InodeId * FlushIntent));
  c_gc_plan :: Codec GcPlan;
  c_ids :: Codec (list N);
  c_gc_batch :: Codec GcBatch;
  c_gc_tombstones :: Codec (list GcTombstone);
  c_gc_delete_acks :: Codec (list (ChunkId * WorkerTargetId));
  c_dentries :: Codec (list Dentry)
}.

Section codecs.
Context {codecs : MetaCodecs}.

Definition encode_worker_registration : WorkerRegistration → Result bytes := encode_legacy.
Definition decode_worker_registration : bytes → Result WorkerRegistration := decode_legacy_or_envelope.
Definition encode_worker_membership : WorkerMembership → Result bytes := encode_legacy.
Definition decode_worker_membership : bytes → Result WorkerMembership := decode_legacy_or_envelope.
Definition encode_inode : Inode → Result bytes := encode_legacy.
Definition decode_inode : bytes → Result Inode := decode_legacy_or_envelope.
Definition encode_manifest : Manifest → Result bytes := encode_legacy.
Definition decode_manifest : bytes → Result Manifest := decode_legacy_or_envelope.
Definition encode_flush_intent : FlushIntent → Result bytes := encode_legacy.
Definition decode_flush_intent : bytes → Result FlushIntent := decode_legacy_or_envelope.
Definition encode_ufs_object : UfsObject → Result bytes := encode_legacy.
Definition decode_ufs_object : bytes → Result UfsObject := decode_legacy_or_envelope.
Definition encode_flush_intents : list (InodeId * FlushIntent) → Result bytes := encode_legacy.
Definition decode_flush_intents : bytes → Result (list (InodeId * FlushIntent)) := decode_legacy_or_envelope.
Definition encode_gc_plan : GcPlan → Result bytes := encode_legacy.
Definition decode_gc_plan : bytes → Result GcPlan := decode_legacy_or_envelope.
Definition encode_chunk_ids : list ChunkId → Result bytes := encode_legacy.
Definition decode_chunk_ids : bytes → Result (list ChunkId) := decode_legacy_or_envelope.
Definition encode_gc_batch : GcBatch → Result bytes := encode_legacy.
Definition decode_gc_batch : bytes → Result GcBatch := decode_legacy_or_envelope.
Definition encode_gc_tombstones : list GcTombstone → Result bytes := encode_legacy.
Definition decode_gc_tombstones : bytes → Result (list GcTombstone) := decode_legacy_or_envelope.
Definition encode_worker_targets : list WorkerTargetId → Result bytes := encode_legacy.
Definition decode_worker_targets : bytes → Result (list WorkerTargetId) := decode_legacy_or_envelope.
Definition encode_gc_delete_acks : list (ChunkId * WorkerTargetId) → Result bytes := encode_legacy.
Definition decode_gc_delete_acks : bytes → Result (list (ChunkId * WorkerTargetId)) := decode_legacy_or_envelope.
Definition encode_dentries : list Dentry → Result bytes := encode_legacy.
Definition decode_dentries : bytes → Result (list Dentry) := decode_legacy_or_envelope.
End codecs.

(** ** Messages *)

Inductive MetaRpc :=
  | RegisterWorkerRequest (registration_json : bytes) (request_id : string)
  | GetWorkerMembershipRequest
  | PingRequest
  | GetInodeRequest (id : N)
  | LookupRequest (parent : N) (name : string)
  | CreateRequest (parent : N) (name : string) (file_type mode uid gid : N) (request_id : string)
      (expected_parent_generation : N)
  | SymlinkRequest (parent : N) (name target : string) (uid gid expected_parent_generation : N)
      (request_id : string)
  | GetXattrRequest (inode : N) (name : string)
  | ListXattrsRequest (inode : N)
  | SetXattrRequest (inode : N) (name : string) (value : bytes) (mode expected_generation : N)
      (request_id : string)
  | RemoveXattrRequest (inode : N) (name : string) (expected_generation : N) (request_id : string)
  | ReaddirRequest (dir : N)
  | PutInodeRequest (inode_json : bytes)
  | PutInodeCasRequest (expected_generation : N) (inode_json : bytes) (request_id : string)
  | PutManifestRequest (manifest_json : bytes)
  | CommitInodeManifestRequest (expected_generation : N) (inode_json manifest_json : bytes)
      (request_id : string)
  | ReserveChunksRequest (ticket inode expected_generation : N) (chunks_json : bytes)
      (request_id : string)
  | AbortChunkReservationRequest (ticket : N) (request_id : string)
  | ExpireChunkReservationsRequest (max_to_expire : N)
  | CommitInodeManifestReservedRequest (ticket expected_generation : N)
      (inode_json manifest_json : bytes) (request_id : string)
  | TombstoneGcBatchRequest (chunks_json : bytes) (request_id : string)
  | ListGcTombstonesRequest
  | InitializeGcDeleteTargetsRequest (chunks_json targets_json : bytes)
  | AcknowledgeGcDeletesRequest (deleted_json : bytes)
  | FinalizeGcTombstonesRequest (chunks_json : bytes) (request_id : string)
  | GetManifestRequest (id : N)
  | BeginFlushRequest (inode expected_generation : N) (intent_json : bytes) (request_id : string)
  | CommitFlushRequest (inode expected_generation flush_id : N) (published_ufs_json : bytes)
      (request_id : string)
  | FailFlushConflictRequest (inode expected_generation flush_id : N) (error request_id : string)
  | ListFlushIntentsRequest
  | BeginGcRequest (lease_id : N) (request_id : string)
  | CurrentGcPlanRequest
  | FinishGcRequest (lease_id : N) (request_id : string)
  | ImportExternalRequest (parent : N) (name : string) (inode_json manifest_json : bytes)
      (request_id : string) (expected_parent_generation : N)
  | UnlinkRequest (parent : N) (name : string) (expected_parent_generation : N) (request_id : string)
  | OpenInodeRequest (session_id : string) (inode : N) (request_id : string)
  | CloseInodeRequest (session_id : string) (inode : N) (request_id : string)
  | RecoverSessionRequest (session_id request_id : string)
  | LinkRequest (inode new_parent : N) (new_name : string) (expected_new_parent_generation : N)
      (request_id : string)
  | RmdirRequest (parent : N) (name : string) (expected_parent_generation : N) (request_id : string)
  | RenameRequest (old_parent : N) (old_name : string) (expected_old_parent_generation new_parent : N)
      (new_name : string) (expected_new_parent_generation : N) (no_replace : bool) (request_id : string).

(** The responses, those with the same fields under one constructor. *)
Inductive MetaReply :=
  | InodeJson (inode_json : bytes)
  | EmptyReply
  | MembershipJson (membership_json : bytes)
  | PingReply (version : string)
  | DentriesJson (dentries_json : bytes)
  | ManifestIdReply (manifest_id : N)
  | CommitReply (inode_json : bytes) (manifest_id : N)
  | BatchJson (batch_json : bytes)
  | TombstonesJson (tombstones_json : bytes)
  | ManifestJson (manifest_json : bytes)
  | IntentsJson (intents_json : bytes)
  | PlanJson (plan_json : bytes)
  | CurrentPlanJson (present : bool) (plan_json : bytes)
  | XattrValue (value : bytes)
  | XattrNames (names : list string).

(** ** Request ids *)

(** [hex::decode] of the server. *)
Fixpoint hex_decode (s : string) : option bytes :=
  match s with
  | EmptyString => Some []
  | String a (String b s') =>
      hi ← hex_value a;
      lo ← hex_value b;
      rest ← hex_decode s';
      Some (byte_of (16 * hi + lo) :: rest)
  | String _ EmptyString => None
  end.

Definition parse_request_op_id (rid : RequestOpId) (s : string) : option RequestOpId :=
  if bool_decide (s = "") then Some rid else
  b ← hex_decode s;
  if bool_decide (length b = 16%nat) then Some (of_be_bytes b) else None.

Definition parent_gen_cas (wire : N) : option N := if wire =? 0 then None else Some wire.

(** ** Handlers *)

Section service.
Context {codecs : MetaCodecs} {S : Type}.
Context (client_write : MetaRaftRequest → S → result string MetaRaftResponse * S) (db : S → Db).
Context (debug : MetaRaftResponse → string) (ms : N) (rid : RequestOpId) (req : Request).

Abbreviation Svc := (txn S Status).

(** [?] on the capability check and on codec results. *)
Definition auth (cap : Capability) : Svc unit := λ s, (require_in_extensions req cap, s).
Definition flux {A} (r : Result A) : Svc A := λ s,
  (match r with Ok a => Ok a | Err e => Err (status_from_flux e) end, s).

(** [self.store.<read>().map_err(status_from_flux)?]. *)
Definition store_read {A} (f : Db → Result A) : Svc A := λ s, flux (f (db s)) s.

Definition write (r : MetaRaftRequest) : Svc MetaRaftResponse := λ s,
  match client_write (with_ledger_now r ms) s with
  | (Ok resp, s') => (Ok resp, s')
  | (Err e, s') => (Err (status_new Unavailable ("raft write: " +:+ e)), s')
  end.

Definition UNEXPECTED_RESPONSE (other : MetaRaftResponse) : Status :=
  status_new Internal ("unexpected raft response: " +:+ debug other).

Definition map_resp_inode (resp : MetaRaftResponse) : Svc Inode := λ s,
  (match resp with RInode x => Ok x | RErr e => Err (status_from_flux e) | other => Err (UNEXPECTED_RESPONSE other) end, s).
Definition map_resp_empty (resp : MetaRaftResponse) : Svc unit := λ s,
  (match resp with REmpty => Ok tt | RErr e => Err (status_from_flux e) | other => Err (UNEXPECTED_RESPONSE other) end, s).
Definition map_resp_manifest_id (resp : MetaRaftResponse) : Svc N := λ s,
  (match resp with RManifestId x => Ok x | RErr e => Err (status_from_flux e) | other => Err (UNEXPECTED_RESPONSE other) end, s).
Definition map_resp_gc_plan (resp : MetaRaftResponse) : Svc GcPlan := λ s,
  (match resp with RGcPlan x => Ok x | RErr e => Err (status_from_flux e) | other => Err (UNEXPECTED_RESPONSE other) end, s).
Definition map_resp_gc_batch (resp : MetaRaftResponse) : Svc GcBatch := λ s,
  (match resp with RGcBatch x => Ok x | RErr e => Err (status_from_flux e) | other => Err (UNEXPECTED_RESPONSE other) end, s).
Definition map_resp_worker_membership (resp : MetaRaftResponse) : Svc WorkerMembership := λ s,
  (match resp with RWorkerMembership x => Ok x | RErr e => Err (status_from_flux e) | other => Err (UNEXPECTED_RESPONSE other) end, s).

(** The proposal of a handler: [request_id] as parsed, the time filled in by [write]. *)
Definition propose (id : option RequestOpId) (o : MetaRaftOp) : Svc MetaRaftResponse := write (mkRequest id 0 o).

(** [Ok(Response::new(... { inode_json: encode_inode(&inode)? }))]. *)
Definition reply_inode (inode : Inode) : Svc MetaReply :=
  inode_json ← flux (encode_inode inode); mret (InodeJson inode_json).

Definition svc_register_worker (registration_json : bytes) (request_id : string) : Svc MetaReply :=
  _ ← auth MutateMeta;
  registration ← flux (decode_worker_registration registration_json);
  response ← propose (parse_request_op_id rid request_id) (RegisterWorker registration);
  membership ← map_resp_worker_membership response;
  membership_json ← flux (encode_worker_membership membership);
  mret (MembershipJson membership_json).

Definition svc_get_worker_membership : Svc MetaReply :=
  _ ← auth ReadMeta;
  membership ← store_read (λ d, heed_worker_membership d);
  membership_json ← flux (encode_worker_membership membership);
  mret (MembershipJson membership_json).

Definition svc_ping (version : string) : Svc MetaReply :=
  _ ← auth ReadMeta;
  mret (PingReply version).

Definition svc_get_inode (id : N) : Svc MetaReply :=
  _ ← auth ReadMeta;
  inode ← store_read (λ d, heed_get_inode id d);
  reply_inode inode.

Definition svc_lookup (parent : N) (name : string) : Svc MetaReply :=
  _ ← auth ReadMeta;
  inode ← store_read (λ d, lookup_name d parent name);
  reply_inode inode.

Definition svc_create (parent : N) (name : string) (file_type mode uid gid : N) (request_id : string)
    (expected_parent_generation : N) : Svc MetaReply :=
  _ ← auth MutateMeta;
  ft ← flux (file_type_from_wire file_type);
  resp ← propose (parse_request_op_id rid request_id)
           (CreateOp parent name ft mode uid gid (parent_gen_cas expected_parent_generation));
  inode ← map_resp_inode resp;
  reply_inode inode.

Definition svc_symlink (parent : N) (name target : string) (uid gid expected_parent_generation : N)
    (request_id : string) : Svc MetaReply :=
  _ ← auth MutateMeta;
  resp ← propose (parse_request_op_id rid request_id)
           (SymlinkOp parent name target uid gid (parent_gen_cas expected_parent_generation));
  inode ← map_resp_inode resp;
  reply_inode inode.

Definition svc_readdir (dir : N) : Svc MetaReply :=
  _ ← auth ReadMeta;
  dentries ← store_read (λ d, readdir d dir);
  dentries_json ← flux (encode_dentries dentries);
  mret (DentriesJson dentries_json).

Definition svc_put_inode (inode_json : bytes) : Svc MetaReply :=
  _ ← auth MutateMeta;
  inode ← flux (decode_inode inode_json);
  resp ← propose (Some rid) (PutInode inode);
  _ ← map_resp_empty resp;
  mret EmptyReply.

Definition svc_put_inode_cas (expected_generation : N) (inode_json : bytes) (request_id : string) : Svc MetaReply :=
  _ ← auth MutateMeta;
  inode ← flux (decode_inode inode_json);
  resp ← propose (parse_request_op_id rid request_id) (PutInodeCas expected_generation inode);
  inode ← map_resp_inode resp;
  reply_inode inode.

Definition svc_put_manifest (manifest_json : bytes) : Svc MetaReply :=
  _ ← auth MutateMeta;
  manifest ← flux (decode_manifest manifest_json);
  resp ← propose (Some rid) (PutManifest manifest);
  id ← map_resp_manifest_id resp;
  mret (ManifestIdReply id).

(** The answer of the two commits. *)
Definition reply_commit (missing : string) (inode : Inode) : Svc MetaReply :=
  manifest_id ← lift (ok_or (status_new Internal missing) (i_manifest_id inode));
  inode_json ← flux (encode_inode inode);
  mret (CommitReply inode_json manifest_id).

Definition svc_commit_inode_manifest (expected_generation : N) (inode_json manifest_json : bytes)
    (request_id : string) : Svc MetaReply :=
  _ ← auth MutateMeta;
  inode ← flux (decode_inode inode_json);
  manifest ← flux (decode_manifest manifest_json);
  resp ← propose (parse_request_op_id rid request_id) (CommitInodeManifest expected_generation inode manifest);
  inode ← map_resp_inode resp;
  reply_commit "commit missing manifest_id" inode.

Definition svc_reserve_chunks (ticket inode expected_generation : N) (chunks_json : bytes)
    (request_id : string) : Svc MetaReply :=
  _ ← auth MutateMeta;
  chunks ← flux (decode_chunk_ids chunks_json);
  resp ← propose (parse_request_op_id rid request_id)
           (ReserveChunks ticket inode expected_generation chunks (write_reservation_deadline ms));
  _ ← map_resp_empty resp;
  mret EmptyReply.

Definition svc_abort_chunk_reservation (ticket : N) (request_id : string) : Svc MetaReply :=
  _ ← auth MutateMeta;
  resp ← propose (parse_request_op_id rid request_id) (AbortChunkReservation ticket);
  _ ← map_resp_empty resp;
  mret EmptyReply.

Definition svc_expire_chunk_reservations (max_to_expire : N) : Svc MetaReply :=
  _ ← auth GcControl;
  resp ← propose None (ExpireChunkReservations ms max_to_expire);
  _ ← map_resp_empty resp;
  mret EmptyReply.

Definition svc_commit_inode_manifest_reserved (ticket expected_generation : N)
    (inode_json manifest_json : bytes) (request_id : string) : Svc MetaReply :=
  _ ← auth MutateMeta;
  inode ← flux (decode_inode inode_json);
  manifest ← flux (decode_manifest manifest_json);
  resp ← propose (parse_request_op_id rid request_id)
           (CommitInodeManifestReserved ticket expected_generation inode manifest);
  inode ← map_resp_inode resp;
  reply_commit "reserved commit missing manifest id" inode.

Definition svc_tombstone_gc_batch (chunks_json : bytes) (request_id : string) : Svc MetaReply :=
  _ ← auth GcControl;
  candidates ← flux (decode_chunk_ids chunks_json);
  resp ← propose (parse_request_op_id rid request_id) (TombstoneGcBatch candidates);
  batch ← map_resp_gc_batch resp;
  batch_json ← flux (encode_gc_batch batch);
  mret (BatchJson batch_json).

Definition svc_list_gc_tombstones : Svc MetaReply :=
  _ ← auth ReadMeta;
  tombstones ← store_read (λ d, heed_list_gc_tombstones d);
  tombstones_json ← flux (encode_gc_tombstones tombstones);
  mret (TombstonesJson tombstones_json).

Definition svc_initialize_gc_delete_targets (chunks_json targets_json : bytes) : Svc MetaReply :=
  _ ← auth GcControl;
  chunks ← flux (decode_chunk_ids chunks_json);
  targets ← flux (decode_worker_targets targets_json);
  resp ← propose None (InitializeGcDeleteTargets chunks targets);
  _ ← map_resp_empty resp;
  mret EmptyReply.

Definition svc_acknowledge_gc_deletes (deleted_json : bytes) : Svc MetaReply :=
  _ ← auth GcControl;
  deleted ← flux (decode_gc_delete_acks deleted_json);
  resp ← propose None (AcknowledgeGcDeletes deleted);
  _ ← map_resp_empty resp;
  mret EmptyReply.

Definition svc_finalize_gc_tombstones (chunks_json : bytes) (request_id : string) : Svc MetaReply :=
  _ ← auth GcControl;
  chunks ← flux (decode_chunk_ids chunks_json);
  resp ← propose (parse_request_op_id rid request_id) (FinalizeGcTombstones chunks);
  _ ← map_resp_empty resp;
  mret EmptyReply.

Definition svc_get_manifest (id : N) : Svc MetaReply :=
  _ ← auth ReadMeta;
  manifest ← store_read (λ d, heed_get_manifest id d);
  manifest_json ← flux (encode_manifest manifest);
  mret (ManifestJson manifest_json).

Definition svc_begin_flush (inode expected_generation : N) (intent_json : bytes) (request_id : string) : Svc MetaReply :=
  _ ← auth MutateMeta;
  intent ← flux (decode_flush_intent intent_json);
  resp ← propose (parse_request_op_id rid request_id) (BeginFlush expected_generation inode intent);
  inode ← map_resp_inode resp;
  reply_inode inode.

Definition svc_commit_flush (inode expected_generation flush_id : N) (published_ufs_json : bytes)
    (request_id : string) : Svc MetaReply :=
  _ ← auth MutateMeta;
  published_ufs ← flux (decode_ufs_object published_ufs_json);
  resp ← propose (parse_request_op_id rid request_id)
           (CommitFlush expected_generation inode flush_id published_ufs);
  inode ← map_resp_inode resp;
  reply_inode inode.

Definition svc_fail_flush_conflict (inode expected_generation flush_id : N) (error request_id : string) :
    Svc MetaReply :=
  _ ← auth MutateMeta;
  resp ← propose (parse_request_op_id rid request_id)
           (FailFlushConflict expected_generation inode flush_id error);
  inode ← map_resp_inode resp;
  reply_inode inode.

Definition svc_list_flush_intents : Svc MetaReply :=
  _ ← auth ReadMeta;
  intents ← store_read (λ d, Ok (list_flush_intents d));
  intents_json ← flux (encode_flush_intents intents);
  mret (IntentsJson intents_json).

Definition svc_begin_gc (lease_id : N) (request_id : string) : Svc MetaReply :=
  _ ← auth GcControl;
  resp ← propose (parse_request_op_id rid request_id) (BeginGc lease_id);
  plan ← map_resp_gc_plan resp;
  plan_json ← flux (encode_gc_plan plan);
  mret (PlanJson plan_json).

Definition svc_current_gc_plan : Svc MetaReply :=
  _ ← auth ReadMeta;
  plan ← store_read (λ d, heed_current_gc_plan d);
  match plan with
  | Some plan => plan_json ← flux (encode_gc_plan plan); mret (CurrentPlanJson true plan_json)
  | None => mret (CurrentPlanJson false [])
  end.

Definition svc_finish_gc (lease_id : N) (request_id : string) : Svc MetaReply :=
  _ ← auth GcControl;
  resp ← propose (parse_request_op_id rid request_id) (FinishGc lease_id);
  _ ← map_resp_empty resp;
  mret EmptyReply.

Definition svc_import_external (parent : N) (name : string) (inode_json manifest_json : bytes)
    (request_id : string) (expected_parent_generation : N) : Svc MetaReply :=
  _ ← auth MutateMeta;
  inode ← flux (decode_inode inode_json);
  manifest ← (if bool_decide (manifest_json = []) then mret None
              else m ← flux (decode_manifest manifest_json); mret (Some m));
  resp ← propose (parse_request_op_id rid request_id)
           (ImportExternal parent name inode manifest (parent_gen_cas expected_parent_generation));
  inode ← map_resp_inode resp;
  reply_inode inode.

Definition svc_unlink (parent : N) (name : string) (expected_parent_generation : N) (request_id : string) :
    Svc MetaReply :=
  _ ← auth MutateMeta;
  resp ← propose (parse_request_op_id rid request_id)
           (Unlink parent name (parent_gen_cas expected_parent_generation));
  _ ← map_resp_empty resp;
  mret EmptyReply.

Definition svc_open_inode (session_id : string) (inode : N) (request_id : string) : Svc MetaReply :=
  _ ← auth MutateMeta;
  resp ← propose (parse_request_op_id rid request_id) (OpenInode session_id inode);
  _ ← map_resp_empty resp;
  mret EmptyReply.

Definition svc_close_inode (session_id : string) (inode : N) (request_id : string) : Svc MetaReply :=
  _ ← auth MutateMeta;
  resp ← propose (parse_request_op_id rid request_id) (CloseInode session_id inode);
  _ ← map_resp_empty resp;
  mret EmptyReply.

Definition svc_recover_session (session_id request_id : string) : Svc MetaReply :=
  _ ← auth MutateMeta;
  resp ← propose (parse_request_op_id rid request_id) (RecoverSession session_id);
  _ ← map_resp_empty resp;
  mret EmptyReply.

Definition svc_rmdir (parent : N) (name : string) (expected_parent_generation : N) (request_id : string) :
    Svc MetaReply :=
  _ ← auth MutateMeta;
  resp ← propose (parse_request_op_id rid request_id)
           (Rmdir parent name (parent_gen_cas expected_parent_generation));
  _ ← map_resp_empty resp;
  mret EmptyReply.

Definition svc_link (inode new_parent : N) (new_name : string) (expected_new_parent_generation : N)
    (request_id : string) : Svc MetaReply :=
  _ ← auth MutateMeta;
  resp ← propose (parse_request_op_id rid request_id)
           (Link inode new_parent new_name (parent_gen_cas expected_new_parent_generation));
  inode ← map_resp_inode resp;
  reply_inode inode.

Definition svc_get_xattr (inode : N) (name : string) : Svc MetaReply :=
  _ ← auth ReadMeta;
  value ← store_read (λ d, get_xattr d inode name);
  mret (XattrValue value).

Definition svc_list_xattrs (inode : N) : Svc MetaReply :=
  _ ← auth ReadMeta;
  names ← store_read (λ d, list_xattrs d inode);
  mret (XattrNames names).

Definition svc_set_xattr (inode : N) (name : string) (value : bytes) (mode expected_generation : N)
    (request_id : string) : Svc MetaReply :=
  _ ← auth MutateMeta;
  mode ← flux (xattr_set_mode_from_wire mode);
  resp ← propose (parse_request_op_id rid request_id) (SetXattr expected_generation inode name value mode);
  inode ← map_resp_inode resp;
  reply_inode inode.

Definition svc_remove_xattr (inode : N) (name : string) (expected_generation : N) (request_id : string) :
    Svc MetaReply :=
  _ ← auth MutateMeta;
  resp ← propose (parse_request_op_id rid request_id) (RemoveXattr expected_generation inode name);
  inode ← map_resp_inode resp;
  reply_inode inode.

Definition svc_rename (old_parent : N) (old_name : string) (expected_old_parent_generation new_parent : N)
    (new_name : string) (expected_new_parent_generation : N) (no_replace : bool) (request_id : string) :
    Svc MetaReply :=
  _ ← auth MutateMeta;
  resp ← propose (parse_request_op_id rid request_id)
           (Rename old_parent old_name (parent_gen_cas expected_old_parent_generation)
              new_parent new_name (parent_gen_cas expected_new_parent_generation) no_replace);
  inode ← map_resp_inode resp;
  reply_inode inode.

(** The generated dispatch of [MetaServiceServer]. *)
Definition serve (version : string) (r : MetaRpc) : Svc MetaReply :=
  match r with
  | RegisterWorkerRequest j i => svc_register_worker j i
  | GetWorkerMembershipRequest => svc_get_worker_membership
  | PingRequest => svc_ping version
  | GetInodeRequest id => svc_get_inode id
  | LookupRequest p n => svc_lookup p n
  | CreateRequest p n t m u g i e => svc_create p n t m u g i e
  | SymlinkRequest p n t u g e i => svc_symlink p n t u g e i
  | GetXattrRequest i n => svc_get_xattr i n
  | ListXattrsRequest i => svc_list_xattrs i
  | SetXattrRequest i n v m e r => svc_set_xattr i n v m e r
  | RemoveXattrRequest i n e r => svc_remove_xattr i n e r
  | ReaddirRequest d => svc_readdir d
  | PutInodeRequest j => svc_put_inode j
  | PutInodeCasRequest e j i => svc_put_inode_cas e j i
  | PutManifestRequest j => svc_put_manifest j
  | CommitInodeManifestRequest e j m i => svc_commit_inode_manifest e j m i
  | ReserveChunksRequest t i e c r => svc_reserve_chunks t i e c r
  | AbortChunkReservationRequest t i => svc_abort_chunk_reservation t i
  | ExpireChunkReservationsRequest n => svc_expire_chunk_reservations n
  | CommitInodeManifestReservedRequest t e j m i => svc_commit_inode_manifest_reserved t e j m i
  | TombstoneGcBatchRequest c i => svc_tombstone_gc_batch c i
  | ListGcTombstonesRequest => svc_list_gc_tombstones
  | InitializeGcDeleteTargetsRequest c t => svc_initialize_gc_delete_targets c t
  | AcknowledgeGcDeletesRequest d => svc_acknowledge_gc_deletes d
  | FinalizeGcTombstonesRequest c i => svc_finalize_gc_tombstones c i
  | GetManifestRequest id => svc_get_manifest id
  | BeginFlushRequest i e j r => svc_begin_flush i e j r
  | CommitFlushRequest i e f j r => svc_commit_flush i e f j r
  | FailFlushConflictRequest i e f m r => svc_fail_flush_conflict i e f m r
  | ListFlushIntentsRequest => svc_list_flush_intents
  | BeginGcRequest l i => svc_begin_gc l i
  | CurrentGcPlanRequest => svc_current_gc_plan
  | FinishGcRequest l i => svc_finish_gc l i
  | ImportExternalRequest p n j m i e => svc_import_external p n j m i e
  | UnlinkRequest p n e i => svc_unlink p n e i
  | OpenInodeRequest s i r => svc_open_inode s i r
  | CloseInodeRequest s i r => svc_close_inode s i r
  | RecoverSessionRequest s r => svc_recover_session s r
  | LinkRequest i p n e r => svc_link i p n e r
  | RmdirRequest p n e i => svc_rmdir p n e i
  | RenameRequest op on eo np nn en nr i => svc_rename op on eo np nn en nr i
  end.

(** ** Properties *)

(** What a message needs: reading, changing metadata, or driving the
    garbage collector. *)
Definition needs (r : MetaRpc) : Capability :=
  match r with
  | GetWorkerMembershipRequest | PingRequest | GetInodeRequest _ | LookupRequest _ _
  | GetXattrRequest _ _ | ListXattrsRequest _ | ReaddirRequest _ | ListGcTombstonesRequest
  | GetManifestRequest _ | ListFlushIntentsRequest | CurrentGcPlanRequest => ReadMeta
  | ExpireChunkReservationsRequest _ | TombstoneGcBatchRequest _ _
  | InitializeGcDeleteTargetsRequest _ _ | AcknowledgeGcDeletesRequest _
  | FinalizeGcTombstonesRequest _ _ | BeginGcRequest _ _ | FinishGcRequest _ _ => GcControl
  | _ => MutateMeta
  end.

Lemma auth_first {A} cap (k : unit → Svc A) s st :
  require_in_extensions req cap = Err st → (auth cap ≫= k) s = (Err st, s).
Proof. intros Hr. unfold mbind, txn_bind, auth. by rewrite Hr. Qed.

Lemma auth_passes {A} cap (k : unit → Svc A) s :
  require_in_extensions req cap = Ok tt → (auth cap ≫= k) s = k tt s.
Proof. intros Hr. unfold mbind, txn_bind, auth. by rewrite Hr. Qed.

(** A computation that leaves the state alone. *)
Definition still {A} (m : Svc A) : Prop := ∀ s, (m s).2 = s.
Lemma still_bind {A B} (m : Svc A) (k : A → Svc B) : still m → (∀ a, still (k a)) → still (m ≫= k).
Proof.
  intros Hm Hk s. unfold mbind, txn_bind. specialize (Hm s). destruct (m s) as [[a|e] s']; cbn in *; [|done].
  subst. apply Hk.
Qed.
Lemma still_flux {A} (r : Result A) : still (flux r).
Proof. done. Qed.
Lemma still_store {A} (f : Db → Result A) : still (store_read f).
Proof. done. Qed.
Lemma still_ret {A} (a : A) : still (mret a).
Proof. done. Qed.
Lemma still_auth cap : still (auth cap).
Proof. done. Qed.

Lemma reads_are_still version r : needs r = ReadMeta → still (serve version r).
Proof.
  destruct r; try discriminate; intros _; cbn [serve];
    unfold svc_get_worker_membership, svc_ping, svc_get_inode, svc_lookup, svc_get_xattr,
    svc_list_xattrs, svc_readdir, svc_list_gc_tombstones, svc_get_manifest,
    svc_list_flush_intents, svc_current_gc_plan, reply_inode;
    repeat first [apply still_ret|apply still_auth|apply still_flux|apply still_store
                 |apply still_bind; [|intros ?]|case_match].
Qed.

(** C14: the metadata server changes nothing for a caller without the capability.
    If a message changes the state at all, it is not one of the reads, and
    the principal in the request's extensions holds the capability of the
    message: to drive the garbage collector for the seven GC messages, to
    mutate metadata for the others.  A caller without it gets the status of
    the failed check. *)
Theorem serve_authorised version r s res s' :
  serve version r s = (res, s') →
  (∀ st, require_in_extensions req (needs r) = Err st → res = Err st ∧ s' = s) ∧
  (s' ≠ s → needs r ≠ ReadMeta ∧
     ∃ p, rq_principal req = Some p ∧ needs r ∈ default_for (wi_role (p_identity p))).
Proof.
  intros Hrun.
  assert (∀ st, require_in_extensions req (needs r) = Err st → res = Err st ∧ s' = s) as Hdeny.
  { intros st Hst. assert (serve version r s = (Err st, s)) as H; [|rewrite H in Hrun; by injection Hrun].
    by destruct r; cbn [needs] in Hst; cbn [serve]; apply auth_first. }
  split; [exact Hdeny|]. intros Hne. split.
  - intros Hread. apply Hne. assert (Hs := reads_are_still version r Hread s). by rewrite Hrun in Hs.
  - destruct (require_in_extensions req (needs r)) as [[]|st] eqn:Hreq.
    2: { by destruct (Hdeny st eq_refl). }
    unfold require_in_extensions in Hreq. destruct (rq_principal req) as [p|]; [|done]. exists p. split; [done|].
    cbn in Hreq. unfold require, Principal_has in Hreq. by case_bool_decide.
Qed.
End service.
