(* ===== verification/RemoteMeta.v ===== *)
(** * The remote metadata store ([RemoteMetaStore], [crates/meta/src/remote.rs])

    The [MetaStore] a mounted client uses: every method encodes its arguments
    into a message, makes one RPC and decodes the answer.  [rpc] is the
    connection; [status_to_string] the [Display] of a status, which is the
    library's; [rid] is [RequestOpId::random()] on the client.  Over a
    connection to [MetaMaster.serve] a call is shown to do what the call of
    the replicated store does. *)

From S2P Require Import MetaDb Namespace InodeData Gc Membership Ledger Apply HeedStore ApplyInv RaftStore Keys Bytes Wire Auth Authz MetaMaster.

Local Open Scope N_scope.

Section remote.
Context {codecs : MetaCodecs} {S : Type}.
Context (rpc : MetaRpc → S → result Status MetaReply * S) (status_to_string : Status → string).
Context (rid : RequestOpId).

Abbreviation R := (txn S FluxError).

(** [self.block_on(c.method(request)).map_err(flux_from_status)?]. *)
Definition call (r : MetaRpc) : R MetaReply := λ s,
  match rpc r s with
  | (Ok reply, s') => (Ok reply, s')
  | (Err status, s') => (Err (flux_from_status status_to_string status), s')
  end.

(** The fields of a response; the generated client yields no other shape. *)
Definition WRONG_MESSAGE : FluxError := Meta "unexpected message".
Definition inode_json (reply : MetaReply) : Result bytes :=
  match reply with InodeJson b | CommitReply b _ => Ok b | _ => Err WRONG_MESSAGE end.
Definition expect_inode (reply : MetaReply) : R Inode := lift (b ← inode_json reply; decode_inode b).
Definition membership_json (reply : MetaReply) : Result bytes :=
  match reply with MembershipJson b => Ok b | _ => Err WRONG_MESSAGE end.

Definition remote_get_inode (id : InodeId) : R Inode :=
  resp ← call (GetInodeRequest id); expect_inode resp.

Definition remote_register_worker (registration : WorkerRegistration) : R WorkerMembership :=
  registration_json ← lift (encode_worker_registration registration);
  response ← call (RegisterWorkerRequest registration_json (RequestOpId_to_hex rid));
  lift (b ← membership_json response; decode_worker_membership b).

Definition remote_worker_membership : R WorkerMembership :=
  response ← call GetWorkerMembershipRequest;
  lift (b ← membership_json response; decode_worker_membership b).

Definition remote_lookup (parent : InodeId) (name : string) : R Inode :=
  resp ← call (LookupRequest parent name); expect_inode resp.

Definition remote_create_cas (expected_parent_generation : option N) (parent : InodeId) (name : string)
    (file_type : FileType) (mode uid gid : N) : R Inode :=
  resp ← call (CreateRequest parent name (file_type_to_wire file_type) mode uid gid
                 (RequestOpId_to_hex rid) (default 0 expected_parent_generation));
  expect_inode resp.

Definition remote_symlink_cas (expected_parent_generation : option N) (parent : InodeId)
    (name target : string) (uid gid : N) : R Inode :=
  resp ← call (SymlinkRequest parent name target uid gid (default 0 expected_parent_generation)
                 (RequestOpId_to_hex rid));
  expect_inode resp.

Definition remote_readdir (dir : InodeId) : R (list Dentry) :=
  resp ← call (ReaddirRequest dir);
  lift (b ← match resp with DentriesJson b => Ok b | _ => Err WRONG_MESSAGE end; decode_dentries b).

Definition remote_put_inode (inode : Inode) : R unit :=
  inode_json ← lift (encode_inode inode);
  _ ← call (PutInodeRequest inode_json);
  mret tt.

Definition remote_put_inode_cas (expected_generation : N) (inode : Inode) : R Inode :=
  inode_json ← lift (encode_inode inode);
  resp ← call (PutInodeCasRequest expected_generation inode_json (RequestOpId_to_hex rid));
  expect_inode resp.

Definition remote_put_manifest (manifest : Manifest) : R N :=
  manifest_json ← lift (encode_manifest manifest);
  resp ← call (PutManifestRequest manifest_json);
  lift (match resp with ManifestIdReply id => Ok id | _ => Err WRONG_MESSAGE end).

Definition remote_commit_inode_manifest_with_id (op_id : RequestOpId) (expected_generation : N)
    (inode : Inode) (manifest : Manifest) : R Inode :=
  inode_json ← lift (encode_inode inode);
  manifest_json ← lift (encode_manifest manifest);
  resp ← call (CommitInodeManifestRequest expected_generation inode_json manifest_json
                 (RequestOpId_to_hex op_id));
  expect_inode resp.

Definition remote_reserve_chunks (ticket : WriteTicketId) (inode : InodeId) (expected_generation : N)
    (chunks : list ChunkId) : R unit :=
  chunks_json ← lift (encode_chunk_ids chunks);
  _ ← call (ReserveChunksRequest ticket inode expected_generation chunks_json (RequestOpId_to_hex rid));
  mret tt.

Definition remote_abort_chunk_reservation (ticket : WriteTicketId) : R unit :=
  _ ← call (AbortChunkReservationRequest ticket (RequestOpId_to_hex rid));
  mret tt.

Definition remote_expire_chunk_reservations (max_to_expire : N) : R unit :=
  _ ← call (ExpireChunkReservationsRequest max_to_expire);
  mret tt.

Definition remote_prune_client_requests (max_to_prune : N) : R unit :=
  remote_expire_chunk_reservations max_to_prune.

Definition remote_commit_inode_manifest_reserved_with_id (op_id : RequestOpId) (ticket : WriteTicketId)
    (expected_generation : N) (inode : Inode) (manifest : Manifest) : R Inode :=
  inode_json ← lift (encode_inode inode);
  manifest_json ← lift (encode_manifest manifest);
  resp ← call (CommitInodeManifestReservedRequest ticket expected_generation inode_json manifest_json
                 (RequestOpId_to_hex op_id));
  expect_inode resp.

Definition remote_tombstone_gc_batch (candidates : list ChunkId) : R GcBatch :=
  chunks_json ← lift (encode_chunk_ids candidates);
  response ← call (TombstoneGcBatchRequest chunks_json (RequestOpId_to_hex rid));
  lift (b ← match response with BatchJson b => Ok b | _ => Err WRONG_MESSAGE end; decode_gc_batch b).

Definition remote_list_gc_tombstones : R (list GcTombstone) :=
  response ← call ListGcTombstonesRequest;
  lift (b ← match response with TombstonesJson b => Ok b | _ => Err WRONG_MESSAGE end; decode_gc_tombstones b).

Definition remote_initialize_gc_delete_targets (chunks : list ChunkId) (targets : list WorkerTargetId) : R unit :=
  chunks_json ← lift (encode_chunk_ids chunks);
  targets_json ← lift (encode_worker_targets targets);
  _ ← call (InitializeGcDeleteTargetsRequest chunks_json targets_json);
  mret tt.

Definition remote_acknowledge_gc_deletes (deleted : list (ChunkId * WorkerTargetId)) : R unit :=
  deleted_json ← lift (encode_gc_delete_acks deleted);
  _ ← call (AcknowledgeGcDeletesRequest deleted_json);
  mret tt.

Definition remote_finalize_gc_tombstones (chunks : list ChunkId) : R unit :=
  chunks_json ← lift (encode_chunk_ids chunks);
  _ ← call (FinalizeGcTombstonesRequest chunks_json (RequestOpId_to_hex rid));
  mret tt.

Definition remote_get_manifest (id : N) : R Manifest :=
  resp ← call (GetManifestRequest id);
  lift (b ← match resp with ManifestJson b => Ok b | _ => Err WRONG_MESSAGE end; decode_manifest b).

Definition remote_begin_flush_with_id (op_id : RequestOpId) (expected_generation : N) (inode : InodeId)
    (intent : FlushIntent) : R Inode :=
  intent_json ← lift (encode_flush_intent intent);
  response ← call (BeginFlushRequest inode expected_generation intent_json (RequestOpId_to_hex op_id));
  expect_inode response.

Definition remote_commit_flush_with_id (op_id : RequestOpId) (expected_generation : N) (inode : InodeId)
    (flush_id : FlushId) (published_ufs : UfsObject) : R Inode :=
  published_ufs_json ← lift (encode_ufs_object published_ufs);
  response ← call (CommitFlushRequest inode expected_generation flush_id published_ufs_json
                     (RequestOpId_to_hex op_id));
  expect_inode response.

Definition remote_fail_flush_conflict (expected_generation : N) (inode : InodeId) (flush_id : FlushId)
    (error : string) : R Inode :=
  response ← call (FailFlushConflictRequest inode expected_generation flush_id error (RequestOpId_to_hex rid));
  expect_inode response.

Definition remote_list_flush_intents : R (list (InodeId * FlushIntent)) :=
  response ← call ListFlushIntentsRequest;
  lift (b ← match response with IntentsJson b => Ok b | _ => Err WRONG_MESSAGE end; decode_flush_intents b).

Definition remote_begin_gc (lease_id : GcLeaseId) : R GcPlan :=
  response ← call (BeginGcRequest lease_id (RequestOpId_to_hex rid));
  lift (b ← match response with PlanJson b => Ok b | _ => Err WRONG_MESSAGE end; decode_gc_plan b).

Definition remote_current_gc_plan : R (option GcPlan) :=
  response ← call CurrentGcPlanRequest;
  match response with
  | CurrentPlanJson present plan_json =>
      if present : bool then plan ← lift (decode_gc_plan plan_json); mret (Some plan) else mret None
  | _ => throw WRONG_MESSAGE
  end.

Definition remote_finish_gc (lease_id : GcLeaseId) : R unit :=
  _ ← call (FinishGcRequest lease_id (RequestOpId_to_hex rid));
  mret tt.

Definition remote_import_external_with_id (op_id : RequestOpId) (expected_parent_generation : option N)
    (parent : InodeId) (name : string) (inode : Inode) (manifest : option Manifest) : R Inode :=
  inode_json ← lift (encode_inode inode);
  manifest_json ← lift (match manifest with Some m => encode_manifest m | None => Ok [] end);
  response ← call (ImportExternalRequest parent name inode_json manifest_json (RequestOpId_to_hex op_id)
                     (default 0 expected_parent_generation));
  expect_inode response.

Definition remote_unlink_cas (expected_parent_generation : option N) (parent : InodeId) (name : string) : R unit :=
  _ ← call (UnlinkRequest parent name (default 0 expected_parent_generation) (RequestOpId_to_hex rid));
  mret tt.

Definition remote_open_inode (session_id : string) (inode : InodeId) : R unit :=
  _ ← call (OpenInodeRequest session_id inode (RequestOpId_to_hex rid));
  mret tt.

Definition remote_close_inode (session_id : string) (inode : InodeId) : R unit :=
  _ ← call (CloseInodeRequest session_id inode (RequestOpId_to_hex rid));
  mret tt.

Definition remote_recover_session (session_id : string) : R unit :=
  _ ← call (RecoverSessionRequest session_id (RequestOpId_to_hex rid));
  mret tt.

Definition remote_rmdir_cas (expected_parent_generation : option N) (parent : InodeId) (name : string) : R unit :=
  _ ← call (RmdirRequest parent name (default 0 expected_parent_generation) (RequestOpId_to_hex rid));
  mret tt.

Definition remote_link_cas (expected_new_parent_generation : option N) (inode new_parent : InodeId)
    (new_name : string) : R Inode :=
  response ← call (LinkRequest inode new_parent new_name (default 0 expected_new_parent_generation)
                     (RequestOpId_to_hex rid));
  expect_inode response.

Definition remote_get_xattr (inode : InodeId) (name : string) : R bytes :=
  response ← call (GetXattrRequest inode name);
  lift (match response with XattrValue value => Ok value | _ => Err WRONG_MESSAGE end).

Definition remote_list_xattrs (inode : InodeId) : R (list string) :=
  response ← call (ListXattrsRequest inode);
  lift (match response with XattrNames names => Ok names | _ => Err WRONG_MESSAGE end).

Definition remote_set_xattr_cas (expected_generation : N) (inode : InodeId) (name : string) (value : bytes)
    (mode : XattrSetMode) : R Inode :=
  response ← call (SetXattrRequest inode name value (xattr_set_mode_to_wire mode) expected_generation
                     (RequestOpId_to_hex rid));
  expect_inode response.

Definition remote_remove_xattr_cas (expected_generation : N) (inode : InodeId) (name : string) : R Inode :=
  response ← call (RemoveXattrRequest inode name expected_generation (RequestOpId_to_hex rid));
  expect_inode response.

Definition remote_rename_cas (expected_old_parent_generation : option N) (old_parent : InodeId)
    (old_name : string) (expected_new_parent_generation : option N) (new_parent : InodeId)
    (new_name : string) (no_replace : bool) : R Inode :=
  response ← call (RenameRequest old_parent old_name (default 0 expected_old_parent_generation)
                     new_parent new_name (default 0 expected_new_parent_generation) no_replace
                     (RequestOpId_to_hex rid));
  expect_inode response.

(** A call of a method, named by the request it corresponds to. *)
Definition remote_call (o : MetaRaftOp) : S → Result MetaRaftResponse * S :=
  let empty {A} (_ : A) := REmpty in
  match o with
  | RegisterWorker reg => answer (remote_register_worker reg) RWorkerMembership
  | CreateOp p n t m u g e => answer (remote_create_cas e p n t m u g) RInode
  | SymlinkOp p n t u g e => answer (remote_symlink_cas e p n t u g) RInode
  | PutInode i => answer (remote_put_inode i) empty
  | PutInodeCas g i => answer (remote_put_inode_cas g i) RInode
  | PutManifest m => answer (remote_put_manifest m) RManifestId
  | CommitInodeManifest g i m => answer (remote_commit_inode_manifest_with_id rid g i m) RInode
  | ReserveChunks t i g c _ => answer (remote_reserve_chunks t i g c) empty
  | AbortChunkReservation t => answer (remote_abort_chunk_reservation t) empty
  | ExpireChunkReservations _ n => answer (remote_expire_chunk_reservations n) empty
  | PruneClientRequests _ n => answer (remote_prune_client_requests n) empty
  | CommitInodeManifestReserved t g i m =>
      answer (remote_commit_inode_manifest_reserved_with_id rid t g i m) RInode
  | TombstoneGcBatch c => answer (remote_tombstone_gc_batch c) RGcBatch
  | FinalizeGcTombstones c => answer (remote_finalize_gc_tombstones c) empty
  | InitializeGcDeleteTargets c t => answer (remote_initialize_gc_delete_targets c t) empty
  | AcknowledgeGcDeletes l => answer (remote_acknowledge_gc_deletes l) empty
  | BeginFlush g i it => answer (remote_begin_flush_with_id rid g i it) RInode
  | CommitFlush g i f p => answer (remote_commit_flush_with_id rid g i f p) RInode
  | FailFlushConflict g i f e => answer (remote_fail_flush_conflict g i f e) RInode
  | BeginGc l => answer (remote_begin_gc l) RGcPlan
  | FinishGc l => answer (remote_finish_gc l) empty
  | ImportExternal p n i m e => answer (remote_import_external_with_id rid e p n i m) RInode
  | Unlink p n e => answer (remote_unlink_cas e p n) empty
  | OpenInode s i => answer (remote_open_inode s i) empty
  | CloseInode s i => answer (remote_close_inode s i) empty
  | RecoverSession s => answer (remote_recover_session s) empty
  | Link i p n e => answer (remote_link_cas e i p n) RInode
  | SetXattr g i n v m => answer (remote_set_xattr_cas g i n v m) RInode
  | RemoveXattr g i n => answer (remote_remove_xattr_cas g i n) RInode
  | Rmdir p n e => answer (remote_rmdir_cas e p n) empty
  | Rename op on eo np nn en nr => answer (remote_rename_cas eo op on en np nn nr) RInode
  end.
End remote.

(** ** Over a connection to the server *)

Lemma hex_digit_values n : n < 16 → hex_value (hex_digit n) = Some n.
Proof. intros Hn. by destruct (hex_digit_facts n Hn). Qed.

Lemma hex_decode_encode l : hex_decode (hex_encode l) = Some l.
Proof.
  induction l as [|b l IH]; [done|]. cbn [hex_encode hex_decode].
  destruct (hex_digits_of_byte b) as [Hhi Hlo]. rewrite !hex_digit_values by done. cbn -[N.div N.modulo N.mul].
  rewrite IH. cbn -[N.div N.modulo N.mul]. rewrite <-N.div_mod', byte_of_to_N. done.
Qed.

Lemma parse_hex rid id : id < 256 ^ 16 → parse_request_op_id rid (RequestOpId_to_hex id) = Some id.
Proof.
  intros Hid. unfold parse_request_op_id, RequestOpId_to_hex. rewrite hex_decode_encode.
  rewrite bool_decide_false.
  - cbn [mbind option_bind]. rewrite bool_decide_true by apply be_bytes_length. by rewrite of_be_bytes_be.
  - destruct (be_bytes 16 id) as [|b l] eqn:Hb; [|done]. assert (Hl := be_bytes_length 16 id). by rewrite Hb in Hl.
Qed.

Lemma parent_gen_default e : e ≠ Some 0 → parent_gen_cas (default 0 e) = e.
Proof. unfold parent_gen_cas. destruct e as [n|]; [|done]. cbn. by destruct (N.eqb_spec n 0) as [->|]. Qed.

Section refine.
Context {codecs : MetaCodecs} {S : Type}.
Context (client_write : MetaRaftRequest → S → result string MetaRaftResponse * S) (db : S → Db).
Context (debug : MetaRaftResponse → string) (show : Status → string) (ms : N) (id : RequestOpId).
Context (rid : RequestOpId) (version : string) (req : Request).

Abbreviation srv := (serve client_write db debug ms rid req version).
Abbreviation Sv := (txn S Status).

(** The caller may do everything a mount does. *)
Definition mount_caps : Prop :=
  require_in_extensions req ReadMeta = Ok tt ∧ require_in_extensions req MutateMeta = Ok tt ∧
  require_in_extensions req GcControl = Ok tt.

Lemma enc {T} `{!Carried T, !Codec T} (t : T) :
  carried t → ∃ b, encode_legacy t = Ok b ∧ b ≠ [] ∧ decode_legacy_or_envelope b = Ok t.
Proof. apply encode_decode_legacy. Qed.

Lemma bind_flux {A B} (r : Result A) a (k : A → Sv B) s : r = Ok a → (flux r ≫= k) s = k a s.
Proof. by intros ->. Qed.
Lemma bind_flux_some {A B} (r : Result A) a (k : option A → Sv B) s :
  r = Ok a → ((x ← flux r; mret (Some x)) ≫= k) s = k (Some a) s.
Proof. by intros ->. Qed.
Lemma answer_lift {A B} (r : Result A) a (k : A → txn S FluxError B) ok s :
  r = Ok a → answer (lift r ≫= k) ok s = answer (k a) ok s.
Proof. by intros ->. Qed.
Lemma bind_propose {B} i o resp (k : MetaRaftResponse → Sv B) s s' :
  client_write (mkRequest i ms o) s = (Ok resp, s') → (propose client_write ms i o ≫= k) s = k resp s'.
Proof.
  intros Hw. unfold propose, write, with_ledger_now, mbind, txn_bind. cbn [request_id op]. by rewrite Hw.
Qed.

(** How the answer travels, by the kind of the response. *)
Lemma call_error {A} r s s' e (k : MetaReply → txn S FluxError A) :
  srv r s = (Err (status_from_flux e), s') → (call srv show r ≫= k) s = (Err e, s').
Proof. intros H. unfold call, mbind, txn_bind. rewrite H. by rewrite flux_status_roundtrip. Qed.

Lemma call_ok {A} r s s' reply (k : MetaReply → txn S FluxError A) :
  srv r s = (Ok reply, s') → (call srv show r ≫= k) s = k reply s'.
Proof. intros H. unfold call, mbind, txn_bind. by rewrite H. Qed.

Lemma call_inode r s s' resp :
  srv r s = (map_resp_inode debug resp ≫= reply_inode) s' →
  ((∃ i, resp = RInode i) ∨ ∃ e, resp = RErr e) →
  answer (call srv show r ≫= expect_inode) RInode s = (decode resp, s').
Proof.
  intros H [[i ->]|[e ->]]; unfold answer.
  - destruct (enc i) as (b&Hb&_&Hd); [done|]. erewrite call_ok; [|rewrite H].
    2: { unfold reply_inode, map_resp_inode, encode_inode, flux, mbind, txn_bind. rewrite Hb. reflexivity. }
    unfold expect_inode, lift, decode_inode. cbn -[decode_legacy_or_envelope]. by rewrite Hd.
  - by rewrite (call_error _ _ s' e) by (by rewrite H).
Qed.

Lemma call_commit missing r s s' resp :
  srv r s = (map_resp_inode debug resp ≫= reply_commit missing) s' →
  ((∃ i, resp = RInode i ∧ is_Some (i_manifest_id i)) ∨ ∃ e, resp = RErr e) →
  answer (call srv show r ≫= expect_inode) RInode s = (decode resp, s').
Proof.
  intros H [(i&->&mid&Hmid)|[e ->]]; unfold answer.
  - destruct (enc i) as (b&Hb&_&Hd); [done|]. erewrite call_ok; [|rewrite H].
    2: { unfold reply_commit, map_resp_inode, encode_inode, flux, lift, mbind, txn_bind. rewrite Hmid. cbn.
         rewrite Hb. reflexivity. }
    unfold expect_inode, lift, decode_inode. cbn -[decode_legacy_or_envelope]. by rewrite Hd.
  - by rewrite (call_error _ _ s' e) by (by rewrite H).
Qed.

Lemma call_empty r s s' resp :
  srv r s = (_ ← map_resp_empty debug resp; mret EmptyReply) s' →
  (resp = REmpty ∨ ∃ e, resp = RErr e) →
  answer (_ ← call srv show r; mret tt) (λ _, REmpty) s = (decode resp, s').
Proof.
  intros H [->|[e ->]]; unfold answer.
  - by erewrite call_ok by (by rewrite H).
  - by rewrite (call_error _ _ s' e) by (by rewrite H).
Qed.

Lemma call_manifest_id r s s' resp :
  srv r s = (id ← map_resp_manifest_id debug resp; mret (ManifestIdReply id)) s' →
  ((∃ x, resp = RManifestId x) ∨ ∃ e, resp = RErr e) →
  answer (resp ← call srv show r;
          lift (match resp with ManifestIdReply id => Ok id | _ => Err WRONG_MESSAGE end)) RManifestId s
  = (decode resp, s').
Proof.
  intros H [[x ->]|[e ->]]; unfold answer.
  - by erewrite call_ok by (by rewrite H).
  - by rewrite (call_error _ _ s' e) by (by rewrite H).
Qed.

Lemma call_membership r s s' resp :
  srv r s = (m ← map_resp_worker_membership debug resp;
             b ← flux (encode_worker_membership m); mret (MembershipJson b)) s' →
  ((∃ x, resp = RWorkerMembership x) ∨ ∃ e, resp = RErr e) →
  answer (response ← call srv show r; lift (b ← membership_json response; decode_worker_membership b))
    RWorkerMembership s = (decode resp, s').
Proof.
  intros H [[x ->]|[e ->]]; unfold answer.
  - destruct (enc x) as (b&Hb&_&Hd); [done|]. erewrite call_ok; [|rewrite H].
    2: { unfold map_resp_worker_membership, encode_worker_membership, flux, mbind, txn_bind. rewrite Hb. reflexivity. }
    unfold lift, decode_worker_membership. cbn -[decode_legacy_or_envelope]. by rewrite Hd.
  - by rewrite (call_error _ _ s' e) by (by rewrite H).
Qed.

Lemma call_batch r s s' resp :
  srv r s = (m ← map_resp_gc_batch debug resp; b ← flux (encode_gc_batch m); mret (BatchJson b)) s' →
  ((∃ x, resp = RGcBatch x) ∨ ∃ e, resp = RErr e) →
  answer (response ← call srv show r;
          lift (b ← match response with BatchJson b => Ok b | _ => Err WRONG_MESSAGE end; decode_gc_batch b))
    RGcBatch s = (decode resp, s').
Proof.
  intros H [[x ->]|[e ->]]; unfold answer.
  - destruct (enc x) as (b&Hb&_&Hd); [done|]. erewrite call_ok; [|rewrite H].
    2: { unfold map_resp_gc_batch, encode_gc_batch, flux, mbind, txn_bind. rewrite Hb. reflexivity. }
    unfold lift, decode_gc_batch. cbn -[decode_legacy_or_envelope]. by rewrite Hd.
  - by rewrite (call_error _ _ s' e) by (by rewrite H).
Qed.

Lemma call_plan r s s' resp :
  srv r s = (m ← map_resp_gc_plan debug resp; b ← flux (encode_gc_plan m); mret (PlanJson b)) s' →
  ((∃ x, resp = RGcPlan x) ∨ ∃ e, resp = RErr e) →
  answer (response ← call srv show r;
          lift (b ← match response with PlanJson b => Ok b | _ => Err WRONG_MESSAGE end; decode_gc_plan b))
    RGcPlan s = (decode resp, s').
Proof.
  intros H [[x ->]|[e ->]]; unfold answer.
  - destruct (enc x) as (b&Hb&_&Hd); [done|]. erewrite call_ok; [|rewrite H].
    2: { unfold map_resp_gc_plan, encode_gc_plan, flux, mbind, txn_bind. rewrite Hb. reflexivity. }
    unfold lift, decode_gc_plan. cbn -[decode_legacy_or_envelope]. by rewrite Hd.
  - by rewrite (call_error _ _ s' e) by (by rewrite H).
Qed.

(** Every result of an operation satisfies [P]. *)
Definition returns {A} (P : A → Prop) (m : M A) : Prop := ∀ d a d', m d = (Ok a, d') → P a.
Lemma returns_bind {A B} (P : B → Prop) (m : M A) (k : A → M B) : (∀ a, returns P (k a)) → returns P (m ≫= k).
Proof. intros Hk d b d' [(a&d1&_&H)|(e&_&?)]%txn_bind_inv; [by eapply Hk|done]. Qed.
Lemma returns_ret {A} (P : A → Prop) (a : A) : P a → returns P (mret a).
Proof. by intros Ha d b d' [= <- <-]. Qed.

Lemma commit_has_manifest g i m : returns (λ i', is_Some (i_manifest_id i')) (commit_inode_manifest_in_txn g i m).
Proof. unfold commit_inode_manifest_in_txn. repeat (apply returns_bind; intros ?). by apply returns_ret. Qed.

Lemma commit_reserved_has_manifest t g i m :
  returns (λ i', is_Some (i_manifest_id i')) (commit_reserved_in_txn t g i m).
Proof.
  unfold commit_reserved_in_txn. do 4 (apply returns_bind; intros ?).
  intros d i' d' [(c&d1&Hc&H)|(e&_&?)]%txn_bind_inv; [|done]. apply commit_has_manifest in Hc.
  apply txn_bind_inv in H as [(?&?&_&H)|(e&_&?)]; [|done]. by injection H as <- _.
Qed.

(** The calls whose request has a faithful message: an extent tree is well
    formed, as every value of the source type is; a parent generation of 0
    reads as "unset", and pruning alone has no message. *)
Definition wire_op (o : MetaRaftOp) : Prop :=
  match o with
  | ImportExternal _ _ _ (Some m) e => et_wf (m_extents m) ∧ e ≠ Some 0
  | CreateOp _ _ _ _ _ _ e | SymlinkOp _ _ _ _ _ e | ImportExternal _ _ _ None e | Unlink _ _ e
  | Link _ _ _ e | Rmdir _ _ e => e ≠ Some 0
  | Rename _ _ e _ _ e' _ => e ≠ Some 0 ∧ e' ≠ Some 0
  | PutManifest m | CommitInodeManifest _ _ m | CommitInodeManifestReserved _ _ _ m => et_wf (m_extents m)
  | PruneClientRequests _ _ => False
  | _ => True
  end.

(** Two messages carry no request id: the server draws it. *)
Definition drawn_id (o : MetaRaftOp) : RequestOpId :=
  match o with PutInode _ | PutManifest _ => rid | _ => id end.
End refine.

(** Steps of a call: encode an argument, pass the check, decode the argument
    on the server, propose the request. *)
Ltac send_json :=
  match goal with
  | |- answer (lift (?f ?t) ≫= _) _ _ = _ =>
      let b := fresh "b" in let Hb := fresh "Hb" in let Hd := fresh "Hd" in
      destruct (enc t) as (b&Hb&?&Hd); [done|rewrite (answer_lift _ b) by exact Hb]
  end.
Ltac receive_json :=
  match goal with
  | Hd : decode_legacy_or_envelope ?b = Ok ?t |- context [flux (_ ?b) ≫= _] =>
      rewrite (bind_flux _ t) by exact Hd
  end.
Ltac head t := match t with ?f _ => head f | _ => t end.
Ltac unfold_head :=
  match goal with |- ?l = _ => let h := head l in unfold h end.
Ltac serve_enter Hcaps :=
  cbn [serve]; unfold_head; rewrite auth_passes by (by destruct Hcaps as (?&?&?)); repeat receive_json.
Ltac serve_call Hcaps Hid Hw :=
  serve_enter Hcaps;
  rewrite ?(bind_flux _ _ _ _ (file_type_wire _)), ?(bind_flux _ _ _ _ (xattr_set_mode_wire _));
  rewrite ?parse_hex by exact Hid; rewrite ?parent_gen_default by done;
  exact (bind_propose _ _ _ _ _ _ _ _ Hw).


Ltac shape := match goal with
  | Hd : respond ?m ?ok ?d = (Ok ?resp, ?d') |- _ =>
      apply respond_shape in Hd as [(?&?&_&->)|(?&_&->)]; eauto
  end.

Section remote_decodes.
Context {codecs : MetaCodecs} {S : Type}.
Context (client_write : MetaRaftRequest → S → result string MetaRaftResponse * S) (db : S → Db).
Context (debug : MetaRaftResponse → string) (show : Status → string) (ms : N) (id rid : RequestOpId).
Context (version : string) (req : Request) (Hcaps : mount_caps req) (Hid : id < 256 ^ 16).

(** The client decodes what the state machine answers to its request. *)
Lemma remote_call_decodes o s resp s' now d d' :
  wire_op o →
  client_write (call_request ms (drawn_id id rid o) o) s = (Ok resp, s') →
  dispatch now (op (call_request ms (drawn_id id rid o) o)) d = (Ok resp, d') →
  remote_call (serve client_write db debug ms rid req version) show id o s = (decode resp, s').
Proof using Hcaps Hid.
  intros Hwire Hw Hd.
  destruct o; cbn [call_request drawn_id op dispatch wire_op] in *; cbn [remote_call];
    [unfold remote_register_worker|unfold remote_create_cas|unfold remote_symlink_cas|unfold remote_put_inode
    |unfold remote_put_inode_cas|unfold remote_put_manifest|unfold remote_commit_inode_manifest_with_id
    |unfold remote_reserve_chunks|unfold remote_abort_chunk_reservation|unfold remote_expire_chunk_reservations
    |done|unfold remote_commit_inode_manifest_reserved_with_id|unfold remote_tombstone_gc_batch
    |unfold remote_finalize_gc_tombstones|unfold remote_initialize_gc_delete_targets
    |unfold remote_acknowledge_gc_deletes|unfold remote_begin_flush_with_id|unfold remote_commit_flush_with_id
    |unfold remote_fail_flush_conflict|unfold remote_begin_gc|unfold remote_finish_gc
    |unfold remote_import_external_with_id|unfold remote_unlink_cas|unfold remote_open_inode
    |unfold remote_close_inode|unfold remote_recover_session|unfold remote_link_cas|unfold remote_set_xattr_cas
    |unfold remote_remove_xattr_cas|unfold remote_rmdir_cas|unfold remote_rename_cas];
    repeat send_json.
  all: try solve [first [eapply call_membership|eapply call_inode|eapply call_empty|eapply call_manifest_id
    |eapply call_batch|eapply call_plan]; [serve_call Hcaps Hid Hw|shape]].
  - (* commit_inode_manifest *) eapply call_commit; [serve_call Hcaps Hid Hw|].
    destruct (manifest_has_local manifest); [injection Hd as <- _; eauto|].
    apply respond_shape in Hd as [(e&?&_&->)|(i&Hm&->)]; [eauto|]. apply commit_has_manifest in Hm. eauto.
  - (* commit_inode_manifest_reserved *) eapply call_commit; [serve_call Hcaps Hid Hw|].
    apply respond_shape in Hd as [(e&?&_&->)|(i&Hm&->)]; [eauto|]. apply commit_reserved_has_manifest in Hm. eauto.
  - (* import_external *) destruct manifest as [m|]; [destruct Hwire|].
    + send_json. eapply call_inode; [serve_enter Hcaps|shape].
      rewrite bool_decide_false by done. rewrite (bind_flux_some _ m) by done.
      rewrite parse_hex, parent_gen_default by done. exact (bind_propose _ _ _ _ _ _ _ _ Hw).
    + rewrite (answer_lift _ []) by done. eapply call_inode; [serve_enter Hcaps|shape].
      rewrite bool_decide_true by done.
      rewrite parse_hex, parent_gen_default by done. exact (bind_propose _ _ _ _ _ _ _ _ Hw).
  - (* rename *) destruct Hwire. eapply call_inode; [serve_call Hcaps Hid Hw|shape].
Qed.
End remote_decodes.

Section remote_agreement.
Context {codecs : MetaCodecs} {S : Type}.
Context (client_write : MetaRaftRequest → S → result string MetaRaftResponse * S) (db : S → Db).
Context (client_write_applies : ∀ req s resp s',
  client_write req s = (Ok resp, s') → ∃ now sm, apply_raft_request now req sm (db s) = (Ok resp, db s')).

(** C12: a mount over the network has the store of the replica it talks to.
    For a caller with a mount's capabilities, whenever OpenRaft acknowledges
    the request of a method call that is new to a ledger with room, while no
    collection lease blocks it, the call through encoding, message, server,
    decoding returns the value or the error that the replicated store
    returns, which is what the embedded store returns on the same database;
    on success the databases agree up to the ledger and applied markers.
    Excepted are a CAS on parent generation 0, which the message cannot say,
    and pruning, which has no message of its own. *)
Theorem remote_refines debug show ms id rid version req o s resp s' :
  mount_caps req → id < 256 ^ 16 → wire_op o →
  gc_lease (db s) = None ∨ gc_call o = true →
  live_row (db s) (drawn_id id rid o) ms = None → ¬ ledger_full (after_prune ms (db s)) →
  client_write (call_request ms (drawn_id id rid o) o) s = (Ok resp, s') →
  ∃ now r d',
    remote_call (serve client_write db debug ms rid req version) show id o s = (r, s') ∧
    raft_call client_write ms debug (drawn_id id rid o) o s = (r, s') ∧
    heed_call now ms debug (drawn_id id rid o) o (db s) = (r, d') ∧
    (is_ok r = true → db s' ≡d d').
Proof using client_write_applies.
  intros Hcaps Hid Hwire Hg Hrow Hfull Hw.
  destruct (client_write_applies _ _ _ _ Hw) as (now&sm&Happ).
  apply apply_inv in Happ as (resp'&d0&[= <-]&Hs'&Ha).
  destruct (applied_dispatch _ _ _ _ _ _ _ Hg Hrow Hfull Ha) as (d1&Hd&Hsame).
  destruct (heed_call_agrees now ms debug _ o _ _ _ Hg Hrow Hfull Hd) as (d'&Hheed&Hok).
  exists now, (decode resp), d'. split; [by eapply remote_call_decodes|].
  split; [by eapply raft_call_decodes|]. split; [done|].
  intros H. rewrite Hs'. etrans; [apply upd_sm_same|]. etrans; [exact Hsame|]. auto.
Qed.
End remote_agreement.
