(* ===== verification/MetaText.v ===== *)
(** * A concrete codec for every message

    The message codecs of [MetaMaster] instantiated with the stand-in text
    format of [Wire], so that the theorems about the server and its client
    can be run on concrete requests. *)

From S2P Require Import MetaDb Namespace InodeData Gc Membership Ledger Apply HeedStore ApplyInv RaftStore Wire Auth Authz MetaMaster RemoteMeta.

Local Open Scope N_scope.

(** Countable by an injection into a type of tuples and sums. *)
Ltac count f g := apply (inj_countable' f g); by intros [].

#[export] Instance FileType_countable : Countable FileType.
Proof.
  count (λ t, match t with Directory => 0 | Regular => 1 | Symlink => 2 end)
        (λ n, match n with 0 => Directory | 1 => Regular | _ => Symlink end).
Defined.
#[export] Instance LocalityLabel_countable : Countable LocalityLabel.
Proof.
  count (λ t, match t with LDirty => 0 | LFlushing => 1 | LClean => 2 | LExternal => 3 | LEphemeral => 4 | LDirtyConflict => 5 end)
        (λ n, match n with 0 => LDirty | 1 => LFlushing | 2 => LClean | 3 => LExternal | 4 => LEphemeral | _ => LDirtyConflict end).
Defined.
#[export] Instance BackingMode_countable : Countable BackingMode.
Proof. count (λ t, match t with UfsBacked => true | BEphemeral => false end) (λ b : bool, if b then UfsBacked else BEphemeral). Defined.
#[export] Instance DataState_countable : Countable DataState.
Proof.
  count (λ t, match t with UfsClean => 0 | Dirty => 1 | DirtyConflict => 2 | DEphemeral => 3 end)
        (λ n, match n with 0 => UfsClean | 1 => Dirty | 2 => DirtyConflict | _ => DEphemeral end).
Defined.
#[export] Instance Origin_countable : Countable Origin.
Proof. count (λ t, match t with FluxCreated => true | Imported => false end) (λ b : bool, if b then FluxCreated else Imported). Defined.

#[export] Instance FlushIntent_countable : Countable FlushIntent.
Proof.
  count (λ i, (fi_flush_id i, fi_snapshot_gen i, fi_snapshot_manifest_root i, fi_expected_ufs_version i, fi_target_digest i))
        (λ p, let '(a, b, c, d, e) := p in mkFlushIntent a b c d e).
Defined.
#[export] Instance OpState_countable : Countable OpState.
Proof.
  count (λ o, match o with OpNone => None | Hydrating t => Some (inl t) | Flushing i => Some (inr i) end)
        (λ p, match p with None => OpNone | Some (inl t) => Hydrating t | Some (inr i) => Flushing i end).
Defined.
#[export] Instance LocalityFields_countable : Countable LocalityFields.
Proof.
  count (λ f, (lf_backing_mode f, lf_data_state f, lf_op_state f, lf_origin f))
        (λ p, let '(a, b, c, d) := p in mkLocalityFields a b c d).
Defined.
#[export] Instance UfsObject_countable : Countable UfsObject.
Proof.
  count (λ o, (uo_key o, uo_size o, uo_etag o, uo_mtime_ms o)) (λ p, let '(a, b, c, d) := p in mkUfsObject a b c d).
Defined.
#[export] Instance Inode_countable : Countable Inode.
Proof.
  count (λ i, ((i_id i, i_file_type i, i_mode i, i_uid i, i_gid i, i_size i, i_mtime_ms i, i_ctime_ms i),
               (i_atime_ms i, i_link_count i, i_symlink_target i, i_generation i, i_head_gen i, i_ufs_gen i),
               (i_ufs_base_version i, i_locality i, i_locality_fields i, i_ufs i, i_extent_root i, i_manifest_id i,
                i_flush_intent i, i_last_error i)))
        (λ p, let '((a, b, c, d, e, f, g, h), (j, k, l, m, n, o), (q, r, s, t, u, v, w, x)) := p in
              mkInode a b c d e f g h j k l m n o q r s t u v w x).
Defined.
#[export] Instance Extent_countable : Countable Extent.
Proof.
  count (λ e, match e with Local a b c => inl (a, b, c) | UfsRange a b c d f => inr (a, b, c, d, f) end)
        (λ p, match p with inl (a, b, c) => Local a b c | inr (a, b, c, d, f) => UfsRange a b c d f end).
Defined.
#[export] Instance Manifest_countable : Countable Manifest.
Proof.
  count (λ m, (m_inode m, m_gen m, m_size m, m_extents m)) (λ p, let '(a, b, c, d) := p in mkManifest a b c d).
Defined.
#[export] Instance WorkerRegistration_countable : Countable WorkerRegistration.
Proof.
  count (λ w, (wr_id w, wr_endpoint w, wr_failure_domain w, wr_capacity_bytes w, wr_available_bytes w, wr_lease_deadline_ms w))
        (λ p, let '(a, b, c, d, e, f) := p in mkWorkerRegistration a b c d e f).
Defined.
#[export] Instance WorkerMembership_countable : Countable WorkerMembership.
Proof. count (λ m, (wm_epoch m, wm_workers m)) (λ p, mkWorkerMembership p.1 p.2). Defined.
#[export] Instance GcPlan_countable : Countable GcPlan.
Proof.
  count (λ g, (gp_lease_id g, gp_live_chunks g, gp_removed_manifests g)) (λ p, let '(a, b, c) := p in mkGcPlan a b c).
Defined.
#[export] Instance GcBatch_countable : Countable GcBatch.
Proof. count (λ g, (gb_tombstoned_chunks g, gb_removed_manifests g)) (λ p, mkGcBatch p.1 p.2). Defined.
#[export] Instance GcTombstone_countable : Countable GcTombstone.
Proof.
  count (λ g, (gt_chunk g, gt_targets_initialized g, gt_pending_targets g)) (λ p, let '(a, b, c) := p in mkGcTombstone a b c).
Defined.
#[export] Instance Dentry_countable : Countable Dentry.
Proof. count (λ d, (d_parent d, d_name d, d_child d)) (λ p, let '(a, b, c) := p in mkDentry a b c). Defined.

(** The unit variants by number; the variants with a payload. *)
#[export] Instance FluxError_countable : Countable FluxError.
Proof.
  count (λ e, match e with
    | NotFound => inl 0 | AlreadyExists => inl 1 | NotDirectory => inl 2 | IsDirectory => inl 3 | NotEmpty => inl 4
    | NoData => inl 5 | NoSpace => inl 6 | NotPermitted => inl 7 | EDirtyConflict => inl 8 | Busy => inl 9
    | ReadOnly => inl 10
    | InvalidArg m => inr (inl (0, m)) | Types.Capability m => inr (inl (1, m)) | Io m => inr (inl (2, m))
    | Meta m => inr (inl (3, m)) | UfsErr m => inr (inl (4, m)) | Types.Unauthenticated m => inr (inl (5, m))
    | Unauthorized m => inr (inl (6, m))
    | CasFailed a b => inr (inr (a, b))
    end)
   (λ p, match p with
    | inl 0 => NotFound | inl 1 => AlreadyExists | inl 2 => NotDirectory | inl 3 => IsDirectory | inl 4 => NotEmpty
    | inl 5 => NoData | inl 6 => NoSpace | inl 7 => NotPermitted | inl 8 => EDirtyConflict | inl 9 => Busy
    | inl _ => ReadOnly
    | inr (inl (0, m)) => InvalidArg m | inr (inl (1, m)) => Types.Capability m | inr (inl (2, m)) => Io m
    | inr (inl (3, m)) => Meta m | inr (inl (4, m)) => UfsErr m | inr (inl (5, m)) => Types.Unauthenticated m
    | inr (inl (_, m)) => Unauthorized m
    | inr (inr (a, b)) => CasFailed a b
    end).
Defined.

Definition text_codec T `{Countable T, !Carried T} : Codec T.
Proof. by refine (Build_Codec T _ (bare_text T) (envelope_text T) (text_serde_laws "002" T _ _)). Defined.

Definition text_codecs : MetaCodecs.
Proof.
  by refine {| c_error := bare_text FluxError; c_error_laws := text_serde_laws "002" FluxError _ _;
    c_registration := text_codec _; c_membership := text_codec _; c_inode := text_codec _;
    c_manifest := text_codec _; c_flush_intent := text_codec _; c_ufs_object := text_codec _;
    c_flush_intents := text_codec _; c_gc_plan := text_codec _; c_ids := text_codec _;
    c_gc_batch := text_codec _; c_gc_tombstones := text_codec _; c_gc_delete_acks := text_codec _;
    c_dentries := text_codec _ |}.
Defined.

Definition admin_request : Request :=
  mkRequestInfo None (Some (mkPrincipal (identity_client_admin "ops") "")).

(** A registration of a worker through the server of a single-voter cluster. *)
Definition text_server : MetaRpc → Db → result Status MetaReply * Db :=
  serve (codecs := text_codecs) local_write (λ d, d) (λ _, "") 1000 9 admin_request "1".

Lemma serve_authorised_witness :
  let r := AbortChunkReservationRequest 4 "" in
  text_server r empty_db = (Ok EmptyReply, (text_server r empty_db).2) ∧
  (text_server r empty_db).2 ≠ empty_db ∧
  ∃ p, rq_principal admin_request = Some p ∧ MutateMeta ∈ default_for (wi_role (p_identity p)).
Proof.
  intros r. assert (text_server r empty_db = (Ok EmptyReply, (text_server r empty_db).2)) as Hr by reflexivity.
  assert ((text_server r empty_db).2 ≠ empty_db) as Hne.
  { intros H. apply (f_equal sm_meta) in H. discriminate H. }
  split_and!; [done|done|].
  destruct (serve_authorised (codecs := text_codecs) local_write (λ d, d) (λ _, "") 1000 9 admin_request
    "1" r empty_db _ _ Hr) as [_ H]. by apply H.
Defined.

Lemma remote_refines_witness :
  ∃ now r d',
    remote_call (codecs := text_codecs) text_server (λ _, "") 0 (RegisterWorker example_worker) empty_db
      = (r, registered) ∧
    raft_call local_write 1000 (λ _, "") 0 (RegisterWorker example_worker) empty_db = (r, registered) ∧
    heed_call now 1000 (λ _, "") 0 (RegisterWorker example_worker) empty_db = (r, d') ∧
    (is_ok r = true → registered ≡d d').
Proof.
  apply (remote_refines (codecs := text_codecs) local_write (λ d, d) local_write_applies (λ _, "") (λ _, "")
    1000 0 9 "1" admin_request (RegisterWorker example_worker) empty_db
    (RWorkerMembership (membership_of registered)) registered).
  - done.
  - done.
  - done.
  - by left.
  - unfold live_row. change (client_requests empty_db) with (∅ : gmap string ClientRequestLedgerEntry).
    by rewrite lookup_empty.
  - unfold ledger_full. destruct (after_prune_pruned 1000 empty_db) as [Hsub _].
    apply map_subseteq_size in Hsub. change (size (client_requests empty_db)) with 0%nat in Hsub.
    unfold CLIENT_REQUEST_LEDGER_SOFT_CAP. lia.
  - reflexivity.
Defined.
