(* ===== verification/Open.v ===== *)
(** * Opening a store ([crates/meta/src/schema.rs], [heed_store.rs])

    [migration_path] lists the schema steps from the version found on disk to
    the one this build understands; [open_with_options] runs them and creates
    the root directory and the id counters of a new store. *)

From S2P Require Import MetaDb Namespace NamespaceInv Evolve InodeData Gc GcInv Membership.
From S2P Require Import Ledger Apply ApplyInv.

Local Open Scope N_scope.

(** ** Migrations *)

Definition CURRENT_META_SCHEMA_VERSION : N := 4.
Definition LEGACY_UNMARKED_SCHEMA_VERSION : N := 0.

Record MetaMigration := mkMigration { mig_from : N; mig_to : N; mig_name : string }.

Definition MIGRATIONS : list MetaMigration := [
  mkMigration LEGACY_UNMARKED_SCHEMA_VERSION 1 "mark legacy heed layout as schema v1";
  mkMigration 1 2 "enable versioned ordered extent-tree manifests";
  mkMigration 2 3 "add durable xattr side table";
  mkMigration 3 4 "add durable open-inode session presence" ].

Definition NO_PATH (current to : N) : FluxError :=
  Meta ("no metadata migration path from schema " +:+ pretty current
        +:+ " to " +:+ pretty to).
Definition NEWER_SCHEMA (from to : N) : FluxError :=
  Meta ("metadata schema " +:+ pretty from +:+ " is newer than supported schema "
        +:+ pretty to +:+ "; refusing downgrade").

(** The [while current < to] loop.  Every migration raises the version, so it
    visits each entry of the table at most once. *)
Fixpoint migrate (fuel : nat) (current to : N) (path : list MetaMigration) :
    Result (list MetaMigration) :=
  if current <? to then
    match fuel with
    | O => Err (NO_PATH current to)
    | S fuel =>
        '(_, step) ← ok_or (NO_PATH current to)
                       (list_find (λ m, mig_from m = current) MIGRATIONS);
        migrate fuel (mig_to step) to (path ++ [step])
    end
  else Ok path.

Definition migration_fuel : nat := S (length MIGRATIONS).

Definition migration_path (from to : N) : Result (list MetaMigration) :=
  if to <? from then Err (NEWER_SCHEMA from to)
  else migrate migration_fuel from to [].

(** ** Open *)

Definition root_inode (now : Z) : Inode :=
  mkInode ROOT_INODE Directory 493 0 0 0 now now now 2 None 1 1 0 None LEphemeral
    (Some (mkLocalityFields BEphemeral DEphemeral OpNone FluxCreated))
    None None None None None.

Definition open_with_options (map_size_bytes : N) (now : Z) (d : Db) : Result unit * Db :=
  let open : M unit :=
    _ ← fail_if (map_size_bytes =? 0) (InvalidArg "heed map size must be non-zero");
    stored_schema ← gets (λ d, default 0 (schema_version d));
    migrations ← lift (migration_path stored_schema CURRENT_META_SCHEMA_VERSION);
    _ ← for_each (λ m, modify (upd_schema_version (λ _, Some (mig_to m)))) migrations;
    root ← gets (λ d, inodes d !! ROOT_INODE);
    if is_none root then
      _ ← put_inode_raw (root_inode now);
      _ ← modify (upd_next_inode (λ _, Some (ROOT_INODE + 1)));
      modify (upd_next_manifest (λ _, Some 1))
    else
      next ← gets next_manifest;
      when (is_none next) (modify (upd_next_manifest (λ _, Some 1))) in
  match open d with
  | (Ok _, d') => (Ok tt, d')
  | (Err e, _) => (Err e, d)
  end.

(** ** Migration paths *)

(** [path] leads from version [from] to [to], one registered step at a time. *)
Fixpoint chain (from : N) (path : list MetaMigration) (to : N) : Prop :=
  match path with
  | [] => from = to
  | m :: path => m ∈ MIGRATIONS ∧ mig_from m = from ∧ from < mig_to m ∧ chain (mig_to m) path to
  end.

Lemma find_migration current :
  match list_find (λ m, mig_from m = current) MIGRATIONS with
  | Some (_, m) => m ∈ MIGRATIONS ∧ mig_from m = current ∧ mig_to m = current + 1 ∧ current < 4
  | None => 4 ≤ current
  end.
Proof.
  destruct (list_find _ _) as [[i m]|] eqn:Hf.
  - apply list_find_Some in Hf as (Hi&Hm&_). assert (m ∈ MIGRATIONS) as Hin
      by (by eapply list_elem_of_lookup_2). split; [done|]. split; [done|].
    unfold MIGRATIONS in Hin. rewrite !elem_of_cons in Hin.
    destruct Hin as [->|[->|[->|[->|?%not_elem_of_nil]]]]; simpl in *; subst; done.
  - apply list_find_None in Hf. unfold MIGRATIONS in Hf. rewrite !Forall_cons in Hf.
    simpl in Hf. unfold LEGACY_UNMARKED_SCHEMA_VERSION in Hf. lia.
Qed.

Lemma migrate_cases fuel current to path :
  4 < N.of_nat fuel + current → current ≤ to →
  match migrate fuel current to path with
  | Ok p => ∃ q, p = path ++ q ∧ chain current q to ∧ (current = to ∨ to ≤ 4)
  | Err _ => current < to ∧ 4 < to
  end.
Proof.
  revert current path. induction fuel as [|fuel IH]; intros current path Hfuel Hle; cbn [migrate];
    destruct (current <? to) eqn:Hlt; bools.
  - lia.
  - exists []. rewrite app_nil_r. simpl. split_and!; [done|lia..].
  - assert (Hf := find_migration current).
    destruct (list_find _ _) as [[i m]|]; cbn [ok_or mbind result_bind]; [|lia].
    destruct Hf as (Hin&Hfrom&Hto&Hc).
    specialize (IH (mig_to m) (path ++ [m])). destruct (migrate _ _ _ _) as [p|e].
    + destruct IH as (q&->&Hch&Hor); [lia..|]. exists (m :: q). rewrite <-app_assoc.
      simpl. split_and!; try done; lia.
    + destruct IH; lia.
  - exists []. rewrite app_nil_r. simpl. split_and!; [done|lia..].
Qed.

(** [migration_path] succeeds exactly when the target is not older than
    the stored schema and is reachable through the registered steps, and then
    returns an unbroken ascending chain of them from the stored version to
    the target; it never loops. *)
Theorem migration_path_spec from to :
  match migration_path from to with
  | Ok path => chain from path to ∧ (from = to ∨ from < to ≤ CURRENT_META_SCHEMA_VERSION)
  | Err _ => to < from ∨ (from < to ∧ CURRENT_META_SCHEMA_VERSION < to)
  end.
Proof.
  unfold migration_path. destruct (to <? from) eqn:Hlt; bools; [by left|].
  assert (H := migrate_cases migration_fuel from to []).
  destruct (migrate _ _ _ _) as [p|e].
  - destruct H as (q&->&Hq&Hor); [unfold migration_fuel; simpl; lia|done|].
    split; [done|]. unfold CURRENT_META_SCHEMA_VERSION. lia.
  - destruct H as [? ?]; [unfold migration_fuel; simpl; lia|done|].
    right. unfold CURRENT_META_SCHEMA_VERSION. lia.
Qed.

(** ** Opened stores *)

Lemma nlinks_empty c : nlinks ∅ c = 0%nat.
Proof. done. Qed.

Lemma root_only_ns d now :
  inodes d = {[ ROOT_INODE := root_inode now ]} → dentries d = ∅ → xattrs d = ∅ →
  reservations d = ∅ → open_presences d = ∅ → next_inode d = Some (ROOT_INODE + 1) → ns_inv d.
Proof.
  intros Hi Hd Hx Hr Ho Hn.
  assert (is_dir d ROOT_INODE) as Hroot.
  { exists (root_inode now). by rewrite Hi, lookup_singleton_eq. }
  assert (∀ id i, inodes d !! id = Some i → id = ROOT_INODE ∧ i = root_inode now) as Hid.
  { intros id i. rewrite Hi, lookup_singleton_Some. naive_solver. }
  split; rewrite ?Hd, ?Hx, ?Hr, ?Ho; try done.
  - exists (ROOT_INODE + 1). split; [done|]. intros id [i [-> _]%Hid]. unfold ROOT_INODE. lia.
  - by intros id i [-> ->]%Hid.
  - by intros id i [-> ->]%Hid.
  - intros id (i&[-> _]%Hid&_). by rewrite decide_True.
  - by intros id i [-> ->]%Hid.
  - intros id (i&[-> _]%Hid&_). constructor.
  - by intros id i [-> ->]%Hid.
  - intros id n [v Hv]. by rewrite lookup_empty in Hv.
Qed.

Lemma run_migrations from path to d :
  chain from path to → from ≤ to →
  for_each (λ m, modify (E := FluxError) (upd_schema_version (λ _, Some (mig_to m)))) path d =
  (Ok tt, if from <? to then upd_schema_version (λ _, Some to) d else d).
Proof.
  rewrite for_each_modify. revert from d.
  induction path as [|m path IH]; intros from d Hch Hle; simpl in *.
  - subst. by rewrite N.ltb_irrefl.
  - destruct Hch as (Hin&Hf&Hlt&Hch). assert (mig_to m ≤ to) as Hm.
    { clear -Hch. revert Hch. generalize (mig_to m). induction path as [|m' path IH]; simpl.
      - intros n ->. done.
      - intros n (_&_&?&H%IH). lia. }
    rewrite (IH _ _ Hch Hm), (proj2 (N.ltb_lt from to)) by lia.
    destruct (mig_to m <? to) eqn:Ht; [done|]. bools. assert (mig_to m = to) as -> by lia. done.
Qed.

Lemma migrations_run d :
  default 0 (schema_version d) ≤ CURRENT_META_SCHEMA_VERSION →
  ∃ path, migration_path (default 0 (schema_version d)) CURRENT_META_SCHEMA_VERSION = Ok path ∧
    for_each (λ m, modify (E := FluxError) (upd_schema_version (λ _, Some (mig_to m)))) path d =
    (Ok tt, upd_schema_version (λ _, Some CURRENT_META_SCHEMA_VERSION) d).
Proof.
  intros Hle. set (from := default 0 (schema_version d)) in *.
  assert (H := migrate_cases migration_fuel from CURRENT_META_SCHEMA_VERSION []).
  unfold migration_path. rewrite (proj2 (N.ltb_ge _ _)) by done.
  destruct (migrate _ _ _ _) as [p|e].
  - destruct H as (q&->&Hq&_); [unfold migration_fuel; simpl; lia|done|].
    eexists. split; [done|]. simpl. erewrite run_migrations by done. f_equal.
    destruct (from <? CURRENT_META_SCHEMA_VERSION) eqn:Hlt; [done|]. bools.
    destruct d as [????????[s|]?????]; unfold from, CURRENT_META_SCHEMA_VERSION in *;
      unfold upd_schema_version; simpl in *; [|lia]. do 2 f_equal. lia.
  - destruct H as [_ ?]; [unfold migration_fuel; simpl; lia|done|].
    unfold CURRENT_META_SCHEMA_VERSION in *. lia.
Qed.

Definition fresh_store (now : Z) : Db :=
  mkDb {[ ROOT_INODE := root_inode now ]} ∅ ∅ ∅ ∅ (Some (ROOT_INODE + 1)) (Some 1) None
    (Some CURRENT_META_SCHEMA_VERSION) None None ∅ ∅ ∅.

Lemma fresh_store_sm now : sm_inv (fresh_store now).
Proof.
  split; [|split; simpl; constructor|done]. split.
  - by eapply (root_only_ns _ now).
  - exists 1. split; [done|]. simpl. intros mid [m Hm]. by rewrite lookup_empty in Hm.
  - simpl. intros id i mid. by intros [<- <-]%lookup_singleton_Some.
  - simpl. intros c t Hc. by rewrite lookup_empty in Hc.
  - simpl. intros id i [<- <-]%lookup_singleton_Some. intros f it [= <-]. done.
Qed.

Lemma fresh_store_room now : store_room (fresh_store now).
Proof.
  split; [split|]; simpl.
  - by intros n [= <-].
  - by intros id i [<- <-]%lookup_singleton_Some.
  - by intros n [= <-].
Qed.

(** Opening an empty environment creates exactly the root directory and
    the id counters, at the current schema, and the result satisfies the
    state-machine invariant. *)
Theorem open_fresh map_size now :
  map_size ≠ 0 →
  open_with_options map_size now empty_db = (Ok tt, fresh_store now) ∧ sm_inv (fresh_store now).
Proof.
  intros Hsz. split; [|apply fresh_store_sm].
  unfold open_with_options. by rewrite (proj2 (N.eqb_neq map_size 0) Hsz).
Qed.

Lemma open_fresh_witness :
  512 * 1024 * 1024 ≠ 0 ∧
  open_with_options (512 * 1024 * 1024) 17 empty_db = (Ok tt, fresh_store 17).
Proof.
  assert (512 * 1024 * 1024 ≠ 0) as Hne by discriminate.
  split; [exact Hne|]. exact (proj1 (open_fresh (512 * 1024 * 1024) 17 Hne)).
Defined.

(** Opening an existing store refuses a newer schema and leaves it
    untouched; otherwise it only raises the schema marker, so that opening
    twice is opening once, and the invariant is kept. *)
Theorem open_existing map_size now d :
  map_size ≠ 0 → sm_inv d →
  open_with_options map_size now d =
    (if CURRENT_META_SCHEMA_VERSION <? default 0 (schema_version d)
     then (Err (NEWER_SCHEMA (default 0 (schema_version d)) CURRENT_META_SCHEMA_VERSION), d)
     else (Ok tt, upd_schema_version (λ _, Some CURRENT_META_SCHEMA_VERSION) d)) ∧
  sm_inv (upd_schema_version (λ _, Some CURRENT_META_SCHEMA_VERSION) d).
Proof.
  intros Hsz [Hst Hm Hl]. split; [|split; [by apply same_store_inv with d|done..]].
  unfold open_with_options. rewrite (proj2 (N.eqb_neq map_size 0) Hsz).
  destruct (CURRENT_META_SCHEMA_VERSION <? default 0 (schema_version d)) eqn:Hlt.
  - erewrite txn_bind_ok by done. rewrite txn_bind_gets. unfold migration_path.
    by rewrite Hlt.
  - bools. destruct (migrations_run d Hlt) as (path&Hp&Hrun).
    erewrite txn_bind_ok by done. rewrite txn_bind_gets, Hp.
    erewrite txn_bind_ok by done. erewrite txn_bind_ok by exact Hrun.
    rewrite txn_bind_gets. simpl.
    destruct (ns_root _ _ (st_ns _ Hst)) as (i&Hi&_). rewrite Hi.
    destruct (st_next _ Hst) as (n&Hn&_). simpl. rewrite txn_bind_gets. simpl. by rewrite Hn.
Qed.

Lemma open_existing_witness :
  512 ≠ 0 ∧ sm_inv (fresh_store 3) ∧
  open_with_options 512 9 (fresh_store 3) = (Ok tt, fresh_store 3).
Proof.
  assert (512 ≠ 0) as Hne by discriminate.
  split; [exact Hne|]. split; [exact (fresh_store_sm 3)|].
  exact (proj1 (open_existing 512 9 (fresh_store 3) Hne (fresh_store_sm 3))).
Defined.
