(* ===== verification/Machine.v ===== *)
(** * The replicated state machine ([crates/meta/src/raft_sm.rs])

    [MetaStateMachine] pairs the durable store with an in-memory copy of the
    applied markers.  [apply] runs committed log entries in order; [load]
    is the restart path, which reads the markers back from the store. *)

From S2P Require Import MetaDb Namespace NamespaceInv Evolve InodeData Gc GcInv Membership.
From S2P Require Import Ledger Apply ApplyInv Open.

Local Open Scope N_scope.

(** ** Entries and the machine *)

(** The membership of an [EntryPayload::Membership]: voter configs and nodes. *)
Record Membership := mkMembership { mem_configs : list (list N); mem_nodes : list (N * string) }.

Inductive EntryPayload :=
  | Blank
  | Normal (req : MetaRaftRequest)
  | MembershipChange (mem : Membership).

Record Entry := mkEntry { log_id : LogId; payload : EntryPayload }.

Record MetaStateMachine := mkMachine { msm_meta : SmAppliedMeta; msm_store : Db }.

Definition StoredMembership_default : StoredMembership := mkStoredMembership None [] [].
Definition SmAppliedMeta_default : SmAppliedMeta :=
  mkSmAppliedMeta None StoredMembership_default.

(** [HeedMetaStore::load_sm_meta].  [last_applied_log: None] is written as
    JSON [null], which does not parse as a [LogId]. *)
Definition load_sm_meta (d : Db) : Result SmAppliedMeta :=
  match sm_meta d with
  | None => Ok SmAppliedMeta_default
  | Some sm =>
      match last_applied_log sm with
      | Some _ => Ok sm
      | None => Err (Meta "invalid type: null, expected struct LogId")
      end
  end.

(** One iteration of the loop of [apply]; [now] is the wall clock during it.
    The failure arm stands for [apply]'s early return on a storage error;
    [apply_run] shows that it is never taken without one. *)
Definition apply_entry (now : nat → Z) (entry : Entry) (m : MetaStateMachine) :
    MetaRaftResponse * MetaStateMachine :=
  let sm := mkSmAppliedMeta (Some (log_id entry)) (last_membership (msm_meta m)) in
  match payload entry with
  | Blank => (REmpty, mkMachine sm (save_sm_meta_only sm (msm_store m)))
  | Normal req =>
      match apply_raft_request now req sm (msm_store m) with
      | (Ok resp, d') => (resp, mkMachine sm d')
      | (Err e, _) => (RErr e, m)
      end
  | MembershipChange mem =>
      let sm := mkSmAppliedMeta (last_applied_log sm)
                  (mkStoredMembership (Some (log_id entry)) (mem_configs mem) (mem_nodes mem)) in
      (REmpty, mkMachine sm (save_sm_meta_only sm (msm_store m)))
  end.

(** [apply], with the clock readings of each entry. *)
Fixpoint apply (clock : nat → nat → Z) (entries : list Entry) (m : MetaStateMachine) :
    list MetaRaftResponse * MetaStateMachine :=
  match entries with
  | [] => ([], m)
  | e :: entries' =>
      let '(resp, m1) := apply_entry (clock O) e m in
      let '(resps, m2) := apply (λ i, clock (S i)) entries' m1 in
      (resp :: resps, m2)
  end.

(** ** Reachable machines *)

Definition entry_admissible (m : MetaStateMachine) (e : Entry) : Prop :=
  match payload e with
  | Normal req => admissible (msm_store m) (op req)
  | _ => True
  end.

Inductive reachable : MetaStateMachine → Prop :=
  | reachable_open t : reachable (mkMachine SmAppliedMeta_default (fresh_store t))
  | reachable_entry m now e :
      reachable m → store_room (msm_store m) → entry_admissible m e →
      reachable (apply_entry now e m).2.

Lemma apply_entry_store now e m :
  ∃ d0, msm_store (apply_entry now e m).2 =
          save_sm_meta_only (msm_meta (apply_entry now e m).2) d0 ∧
        last_applied_log (msm_meta (apply_entry now e m).2) = Some (log_id e) ∧
        match payload e with
        | Normal req => applied now req (msm_store m) (apply_entry now e m).1 d0
        | _ => d0 = msm_store m
        end.
Proof.
  unfold apply_entry. destruct (payload e) as [|req|mem].
  - by exists (msm_store m).
  - destruct (apply_run now req (mkSmAppliedMeta (Some (log_id e)) (last_membership (msm_meta m)))
      (msm_store m)) as (resp&d0&->&Ha). by exists d0.
  - by exists (msm_store m).
Qed.

Lemma sm_inv_markers sm d : sm_inv d → sm_inv (save_sm_meta_only sm d).
Proof. intros [H1 H2 H3]. split; [by apply same_store_inv with d|done..]. Qed.

Lemma apply_entry_sm now e m :
  sm_inv (msm_store m) → store_room (msm_store m) → entry_admissible m e →
  sm_inv (msm_store (apply_entry now e m).2).
Proof.
  intros Hsm Hroom Hadm. unfold apply_entry, entry_admissible in *.
  destruct (payload e) as [|req|mem]; [by apply sm_inv_markers| |by apply sm_inv_markers].
  set (sm := mkSmAppliedMeta _ _).
  destruct (apply_raft_request now req sm (msm_store m)) as [r d'] eqn:Hrun.
  assert (sm_inv d') by (by eapply apply_sm). by destruct r.
Qed.

Lemma reachable_sm m :
  reachable m → sm_inv (msm_store m) ∧ load_sm_meta (msm_store m) = Ok (msm_meta m).
Proof.
  induction 1 as [t|m now e Hm [IH _] Hroom Hadm].
  - split; [apply fresh_store_sm|done].
  - split; [by apply apply_entry_sm|].
    destruct (apply_entry_store now e m) as (d0&->&Hlast&_). unfold load_sm_meta. simpl.
    by rewrite Hlast.
Qed.


(** A restart resumes where the machine stopped: the markers read back
    from the store of any reachable machine are the ones it held in memory. *)
Theorem restart_resumes m : reachable m → load_sm_meta (msm_store m) = Ok (msm_meta m).
Proof. intros H. apply (reachable_sm m H). Qed.

(** ** Retries *)

(** A log entry leaves the ledger rows that expire after [t]. *)
Definition entry_outlives (t : N) (e : Entry) : Prop :=
  match payload e with
  | Normal req => ledger_now_unix_ms req < t ∧ op_cutoff (op req) < t
  | _ => True
  end.

Lemma applied_row now req d resp d0 k e :
  applied now req d resp d0 → client_requests d !! k = Some e →
  ledger_now_unix_ms req < expires_at_unix_ms e → op_cutoff (op req) < expires_at_unix_ms e →
  client_requests d0 !! k = Some e.
Proof.
  intros Ha Hk Hnow Hcut.
  assert (∀ d1 r d2, client_requests d1 !! k = Some e → execute now (op req) d1 = (r, d2) →
                     client_requests d2 !! k = Some e) as Hexec.
  { intros d1 r d2 H1 [[_ ->]|H]%execute_cases; [done|].
    by apply (dispatch_ledger _ _ _ _ _ H). }
  assert (client_requests (after_prune (ledger_now_unix_ms req) d) !! k = Some e) as Hp
    by (by apply after_prune_pruned).
  destruct Ha as [resp d0 _ Hex|id e'|id|id resp d0 _ Hrow _ Hex]; [exact (Hexec _ _ _ Hk Hex)|done|done|].
  simpl. destruct (decide (k = ledger_key id)) as [->|Hne].
  - unfold live_row in Hrow. rewrite Hk, (proj2 (N.leb_gt _ _)) in Hrow by done. done.
  - rewrite lookup_insert_ne by done. exact (Hexec _ _ _ Hp Hex).
Qed.

Lemma apply_row clock entries m k e :
  client_requests (msm_store m) !! k = Some e →
  Forall (entry_outlives (expires_at_unix_ms e)) entries →
  client_requests (msm_store (apply clock entries m).2) !! k = Some e.
Proof.
  intros Hk Hall. revert clock m Hk. induction Hall as [|en entries Hen _ IH]; [done|].
  intros clock m Hk. cbn [apply]. destruct (apply_entry (clock O) en m) as [resp m1] eqn:Hrun.
  specialize (IH (λ i, clock (S i)) m1).
  destruct (apply (λ i, clock (S i)) entries m1) as [resps m2]. apply IH. clear IH.
  destruct (apply_entry_store (clock O) en m) as (d0&Hst&_&Hcase). rewrite Hrun in Hst, Hcase.
  simpl in *. rewrite Hst. simpl. unfold entry_outlives in Hen.
  destruct (payload en); [by subst| |by subst]. destruct Hen. by eapply applied_row.
Qed.

(** C2: Exactly-once execution.  Once a request with an id has run and its
    response [resp] was recorded, any retry with that id that is stamped
    within the retention window returns [resp] and changes nothing but the
    applied markers, whatever entries were applied in between within that
    window. *)
Theorem exactly_once now req sm d resp d1 id clock entries now' req' sm' :
  let t := sat_add (ledger_now_unix_ms req) CLIENT_REQUEST_RETENTION_MS in
  dedup_id req = Some id → live_row d id (ledger_now_unix_ms req) = None →
  ¬ ledger_full (after_prune (ledger_now_unix_ms req) d) →
  apply_raft_request now req sm d = (Ok resp, d1) →
  Forall (entry_outlives t) entries → dedup_id req' = Some id → ledger_now_unix_ms req' < t →
  let d2 := msm_store (apply clock entries (mkMachine sm d1)).2 in
  apply_raft_request now' req' sm' d2 = (Ok resp, save_sm_meta_only sm' d2).
Proof.
  intros t Hid Hrow Hfull Hrun Hall Hid' Ht d2.
  apply apply_inv in Hrun as (resp0&d0&[= <-]&->&Ha).
  destruct Ha as [? ? Hnone|id' e Hid1 Hrow1|id' Hid1 ? Hfull1|id' resp d0 Hid1 _ _ Hex];
    try congruence; assert (id' = id) as -> by congruence; [done|].
  assert (client_requests d2 !! ledger_key id =
    Some (mkLedgerEntry (ledger_now_unix_ms req) t resp)) as Hd2
    by (apply apply_row; [apply lookup_insert_eq|done]).
  destruct (apply_run now' req' sm' d2) as (resp2&d3&->&Ha).
  assert (live_row d2 id (ledger_now_unix_ms req') =
    Some (mkLedgerEntry (ledger_now_unix_ms req) t resp)) as Hlive.
  { unfold live_row. rewrite Hd2. simpl. by rewrite (proj2 (N.leb_gt _ _)). }
  destruct Ha as [? ? ?|id' e Hid2 Hrow2|id' Hid2 Hrow2|id' ? ? Hid2 Hrow2];
    try congruence; assert (id' = id) as -> by congruence.
  rewrite Hlive in Hrow2. by injection Hrow2 as <-.
Qed.

(** ** Concrete runs *)

(** [store_room], decided. *)
Definition room_check (d : Db) : bool :=
  bool_decide (map_Forall (λ _ i, i_generation i < U64_MAX) (inodes d))
  && bool_decide (default 0 (next_inode d) < U64_MAX)
  && bool_decide (default 0 (next_manifest d) < U64_MAX).

Lemma room_check_ok d : room_check d = true → store_room d.
Proof.
  unfold room_check. intros H. bools. split; [split|]; [|done|];
    intros n Hn; rewrite Hn in *; done.
Qed.

Definition example_now : nat → Z := λ i, (5000 + Z.of_nat i)%Z.
Definition example_create (stamp : N) : MetaRaftRequest :=
  mkRequest (Some 5) stamp (CreateOp ROOT_INODE "a" Regular 420 0 0 None).
Definition example_unlink : MetaRaftRequest :=
  mkRequest (Some 6) 1001 (Unlink ROOT_INODE "a" None).
Definition example_entry (i : N) (req : MetaRaftRequest) : Entry :=
  mkEntry (mkLogId 1 1 i) (Normal req).
Definition example_machine : MetaStateMachine :=
  (apply_entry example_now (example_entry 1 (example_create 1000))
     (mkMachine SmAppliedMeta_default (fresh_store 0))).2.

Lemma example_reachable : reachable example_machine.
Proof. apply reachable_entry; [apply reachable_open|apply fresh_store_room|exact I]. Qed.


Lemma restart_resumes_witness :
  reachable example_machine ∧
  load_sm_meta (msm_store example_machine) = Ok (msm_meta example_machine).
Proof. split; [exact example_reachable|]. exact (restart_resumes _ example_reachable). Defined.

Lemma exactly_once_witness :
  ∃ resp d1,
    apply_raft_request example_now (example_create 1000) SmAppliedMeta_default (fresh_store 0)
      = (Ok resp, d1) ∧
    let d2 := msm_store (apply (λ _, example_now) [example_entry 2 example_unlink]
                           (mkMachine SmAppliedMeta_default d1)).2 in
    apply_raft_request example_now (example_create 1002) SmAppliedMeta_default d2
      = (Ok resp, save_sm_meta_only SmAppliedMeta_default d2).
Proof.
  destruct (apply_raft_request example_now (example_create 1000) SmAppliedMeta_default
    (fresh_store 0)) as [[resp|e] d1] eqn:Hrun.
  - exists resp, d1. split; [reflexivity|].
    refine (exactly_once example_now (example_create 1000) SmAppliedMeta_default (fresh_store 0)
      resp d1 5 (λ _, example_now) [example_entry 2 example_unlink] example_now
      (example_create 1002) SmAppliedMeta_default _ _ _ Hrun _ _ _).
    + reflexivity.
    + reflexivity.
    + vm_compute. intros H. apply H. reflexivity.
    + constructor; [split; reflexivity|constructor].
    + reflexivity.
    + reflexivity.
  - exfalso. vm_compute in Hrun. discriminate Hrun.
Defined.
