(* ===== verification/RaftSnap.v ===== *)
(** * Snapshots of the state machine

    The snapshot operations of [MetaStateMachine] in
    [crates/meta/src/raft_sm.rs] (build, receive, install, serve, and the
    directory they keep) around the store's own [Snapshot], with file system
    calls that may fail anywhere, and the machines that can be reached when
    snapshots are installed between log entries. *)

From S2P Require Import MetaDb Extents Namespace NamespaceInv Rename InodeData Gc GcInv Membership Ledger Apply Frame.
From S2P Require Import Keys ApplyInv Snapshot Wire Open Machine MetaText.

Local Open Scope N_scope.

(** ** The rows of a store that requests write *)

(** The manifests of a request come off the wire sorted and disjoint. *)
Definition manifests_carried (o : MetaRaftOp) : Prop :=
  match o with
  | PutManifest m | CommitInodeManifest _ _ m | CommitInodeManifestReserved _ _ _ m
  | ImportExternal _ _ _ (Some m) _ => et_wf (m_extents m)
  | _ => True
  end.

(** [rows_ok] without the ledger. *)
Definition tables_ok (d : Db) : Prop :=
  (∀ id s, (id, s) ∈ open_presences d → validate_session_id s = Ok tt) ∧
  (∀ id m, manifests d !! id = Some m → et_wf (m_extents m)).

Lemma tables_ok_put id m d : et_wf (m_extents m) → tables_ok d → tables_ok (upd_manifests <[id := m]> d).
Proof.
  intros Hm [H1 H2]. split; [done|]. intros id' m' H. cbn in H.
  apply lookup_insert_Some in H as [[_ <-]|[_ ?]]; [done|by eapply H2].
Qed.
Lemma tables_ok_delete id d : tables_ok d → tables_ok (upd_manifests (delete id) d).
Proof.
  intros [H1 H2]. split; [done|]. intros id' m' H. cbn in H. apply lookup_delete_Some in H as [_ ?]. by eapply H2.
Qed.
Lemma tables_ok_open id s d :
  validate_session_id s = Ok tt → tables_ok d → tables_ok (upd_open_presences (λ x, {[ (id, s) ]} ∪ x) d).
Proof.
  intros Hs [H1 H2]. split; [|done]. intros id' s' H. cbn in H.
  apply elem_of_union in H as [[= -> ->]%elem_of_singleton|?]; [done|by eapply H1].
Qed.
Lemma tables_ok_close k d : tables_ok d → tables_ok (upd_open_presences (λ x, x ∖ {[ k ]}) d).
Proof.
  intros [H1 H2]. split; [|done]. intros id' s' H. cbn in H. apply elem_of_difference in H as [? _]. by eapply H1.
Qed.

Lemma keeps_reads {A} I (f : Db → Result A) : keeps I (reads f).
Proof. by intros d r d' Hd [= <- <-]. Qed.

(** A step whose success the rest may rely on. *)
Lemma keeps_lift_bind {A B} I (r0 : Result A) (k : A → M B) :
  (∀ a, r0 = Ok a → keeps I (k a)) → keeps I (lift r0 ≫= k).
Proof.
  intros Hk d r d' Hd H. apply txn_bind_inv in H as [(a&d1&[= -> <-]&H2)|(e&[= _ <-]&_)]; [|done].
  by eapply Hk.
Qed.

Create HintDb rows.
#[export] Hint Resolve tables_ok_put tables_ok_delete tables_ok_open tables_ok_close keeps_reads : rows.

Ltac rows_head m := lazymatch m with ?f _ => rows_head f | _ => m end.
Ltac rows_step :=
  first [ apply keeps_ret | apply keeps_throw | apply keeps_gets | apply keeps_lift | apply keeps_fail_if
        | solve [auto with rows nocore]
        | apply keeps_lift_bind; intros [] ?
        | apply keeps_bind; [|intros ?] | apply keeps_when | apply keeps_for_each; intros ? _
        | apply keeps_try_catch
        | apply keeps_modify; intros ? ?; solve [assumption | auto with rows | by split]
        | match goal with
          | |- keeps _ (match ?x with _ => _ end) => destruct x
          | |- keeps _ ?m => let h := rows_head m in progress unfold h
          end ].

Lemma rows_put_manifest m : et_wf (m_extents m) → keeps tables_ok (put_manifest_in_txn m).
Proof. intros Hm. repeat rows_step. Qed.
Lemma rows_sweep active l : ∀ live removed, keeps tables_ok (sweep_manifests active l live removed).
Proof. induction l as [|[id m] l IH]; intros live removed; simpl; repeat first [apply IH|rows_step]. Qed.
Lemma rows_install_clean i f it u : keeps tables_ok (install_clean i f it u).
Proof.
  unfold install_clean. apply keeps_lift_bind. intros t Ht.
  assert (et_wf t).
  { unfold clean_extents in Ht. destruct (_ =? 0); [by injection Ht as <-|]. by apply try_from_correct in Ht as []. }
  apply keeps_bind; [|intros ?; apply keeps_ret]. destruct (_ =? _); [apply keeps_ret|].
  apply keeps_bind; [|intros ?; apply keeps_ret]. by apply rows_put_manifest.
Qed.
#[export] Hint Resolve rows_put_manifest rows_sweep rows_install_clean : rows.

Lemma dispatch_rows now o : manifests_carried o → keeps tables_ok (dispatch now o).
Proof. intros Ho. destruct o; cbn [dispatch manifests_carried] in *; repeat rows_step. Qed.

(** What a log entry must carry for the rows to stay well formed: manifests
    off the wire, and the time of the request for its ledger row. *)
Definition entry_carried (e : Entry) : Prop :=
  match payload e with
  | Normal req => manifests_carried (op req) ∧ (dedup_id req ≠ None → ledger_now_unix_ms req ≠ 0)
  | _ => True
  end.

Lemma execute_rows now o d r d' :
  manifests_carried o → execute now o d = (r, d') → rows_ok d → rows_ok d'.
Proof.
  intros Ho H [H1 H2 H3]. unfold execute in H. rewrite txn_bind_gets in H.
  destruct (_ && _); [by injection H as <- <-|].
  destruct (dispatch_rows now o Ho d r d') as [H1' H2']; [done|done|]. split; [done|done|].
  apply dispatch_ledger in H as [Hl _]. intros k e Hk. by eapply H3, lookup_weaken.
Qed.

Lemma rows_ok_sub d d' :
  open_presences d' = open_presences d → manifests d' = manifests d → client_requests d' ⊆ client_requests d →
  rows_ok d → rows_ok d'.
Proof.
  intros Hp Hm Hc [H1 H2 H3]. split; rewrite ?Hp, ?Hm; [done|done|].
  intros k e Hk. by eapply H3, lookup_weaken.
Qed.

Lemma rows_after_prune t d : rows_ok d → rows_ok (after_prune t d).
Proof.
  destruct (after_prune_pruned t d) as [Hsub _]. destruct (after_prune_same t d) as [f Hf].
  apply rows_ok_sub; [by rewrite Hf|by rewrite Hf|done].
Qed.

Lemma apply_entry_rows now e m :
  entry_carried e → rows_ok (msm_store m) → rows_ok (msm_store (apply_entry now e m).2).
Proof.
  intros He Hok. destruct (apply_entry_store now e m) as (d0&->&_&Ha).
  apply (rows_ok_sub d0); [done|done|reflexivity|]. unfold entry_carried in He. destruct (payload e) as [|req|]; [by subst| |by subst].
  destruct He as [Hm Hnow]. assert (Hp := rows_after_prune (ledger_now_unix_ms req) _ Hok).
  destruct Ha as [resp d0 _ Hx|id row _ _|id _ _ _|id resp d0 Hid _ _ Hx]; [by eapply execute_rows|done|done|].
  assert (ledger_now_unix_ms req ≠ 0) by (apply Hnow; by rewrite Hid).
  apply execute_rows in Hx as [H1 H2 H3]; [|done|done]. split; [done|done|]. intros k row Hk. cbn in Hk.
  apply lookup_insert_Some in Hk as [[_ <-]|[_ Hk]]; [|by eapply H3]. cbn. split; [done|].
  unfold sat_add, U64_MAX, CLIENT_REQUEST_RETENTION_MS. lia.
Qed.

(** ** The snapshot directory *)

(** The file system calls, by the file they are made on. *)
Inductive FsCall := FsWrite (f : string) | FsCreate (f : string) | FsSync (f : string) | FsRename (f : string)
  | FsSyncDir | FsRemove (f : string) | FsOpen (f : string) | FsReadDir.

(** Files by name in [snapshot_dir]. *)
Abbreviation Dir := (gmap string bytes).
Abbreviation Fs := (txn Dir string).

(** [str::ends_with]. *)
Fixpoint ends_in (suffix s : string) : bool :=
  bool_decide (s = suffix) || match s with String _ s' => ends_in suffix s' | EmptyString => false end.

Inductive SnapshotKind := Incoming | Installed | Built | Building | Installing | Legacy.

Definition managed_snapshot_kind (name : string) : option SnapshotKind :=
  if starts_with "incoming-" name && ends_in ".snap" name then Some Incoming
  else if starts_with "installed-" name && ends_in ".snap" name then Some Installed
  else if starts_with "built-" name && ends_in ".snap" name then Some Built
  else if starts_with ".building-" name && ends_in ".tmp" name then Some Building
  else if starts_with ".installing-" name && ends_in ".tmp" name then Some Installing
  else if ends_in ".snap" name then Some Legacy
  else None.

Definition received (k : SnapshotKind) : bool :=
  match k with Incoming | Installed | Installing => true | _ => false end.

Section fs.
(** The error each call would report, and what a write that fails leaves. *)
Context (fails : FsCall → option string) (leftover : bytes).

Definition call (c : FsCall) : Fs unit :=
  match fails c with Some e => throw e | None => mret tt end.

Definition remove_file (name : string) : Fs unit :=
  _ ← call (FsRemove name);
  modify (delete name).

Definition sync_snapshot_dir : Fs unit := call FsSyncDir.

Definition publish_snapshot_file (temp final_path : string) : Fs unit :=
  _ ← call (FsOpen temp);
  _ ← call (FsSync temp);
  _ ← call (FsRename temp);
  _ ← modify (λ dir : Dir, match dir !! temp with Some b => <[final_path := b]> (delete temp dir) | None => dir end);
  sync_snapshot_dir.

(** [remove_file] of a file that is not there is no error. *)
Definition remove_snapshot_file (path : string) : Fs unit :=
  present ← gets (λ dir : Dir, is_some (dir !! path));
  if present : bool then _ ← remove_file path; sync_snapshot_dir else mret tt.

(** The files that are removed; an error to remove one is logged. *)
Definition prune_snapshot_dir (preserve : option string) (should_remove : SnapshotKind → bool) : Fs unit :=
  _ ← call FsReadDir;
  names ← gets (λ dir : Dir, elements (dom dir));
  let stale := filter (λ n, preserve ≠ Some n ∧ Is_true (match managed_snapshot_kind n with
                 Some k => should_remove k | None => false end)) names in
  let gone := filter (λ n, fails (FsRemove n) = None) stale in
  _ ← for_each (λ n, modify (delete n)) gone;
  if bool_decide (gone = []) then mret tt else sync_snapshot_dir.

Definition prune_snapshot_dir_on_startup : Fs unit := prune_snapshot_dir None (λ _, true).
Definition prune_received_snapshot_files (preserve : string) : Fs unit :=
  prune_snapshot_dir (Some preserve) received.

(** A new file: an error if it exists. *)
Definition create_new (name : string) : Fs unit :=
  present ← gets (λ dir : Dir, is_some (dir !! name));
  if present : bool then throw "file exists" else
  _ ← call (FsCreate name);
  modify <[name := []]>.

(** The bytes of a file opened at its start. *)
Definition open_snapshot_file (path : string) : Fs bytes :=
  _ ← call (FsOpen path);
  b ← gets (λ dir : Dir, dir !! path);
  match b with Some b => mret b | None => throw "no such file" end.

(** The copy of a received snapshot to its durable name, in one go. *)
Definition copy_received (content : bytes) (temp durable : string) : Fs unit :=
  _ ← create_new temp;
  _ ← (match fails (FsWrite temp) with
       | Some e => _ ← modify <[temp := leftover]>; throw e
       | None => modify <[temp := content]> end);
  _ ← call (FsSync temp);
  _ ← call (FsRename temp);
  _ ← modify (λ dir : Dir, match dir !! temp with Some b => <[durable := b]> (delete temp dir) | None => dir end);
  sync_snapshot_dir.
End fs.

(** ** The machine with its snapshots *)

Record SnapshotMeta := mkSnapshotMeta {
  sme_last_log_id : option LogId;
  sme_last_membership : StoredMembership;
  sme_snapshot_id : string
}.

Record StoredSnapshot := mkStoredSnapshot { ss_meta : SnapshotMeta; ss_path : string }.

(** [MetaStateMachine] with its directory. *)
Record SnapMachine := mkSnapMachine {
  sn_machine : MetaStateMachine;
  sn_idx : N;
  sn_current : option StoredSnapshot;
  sn_dir : Dir
}.

(** [StorageError], by the operation it names. *)
Inductive StorageError := ReadStateMachine (e : string) | WriteStateMachine (e : string)
  | ReadSnapshot (e : string) | WriteSnapshot (e : string).

Abbreviation SM := (txn SnapMachine StorageError).

Definition set_dir (dir : Dir) (s : SnapMachine) : SnapMachine :=
  mkSnapMachine (sn_machine s) (sn_idx s) (sn_current s) dir.
Definition set_machine (m : MetaStateMachine) (s : SnapMachine) : SnapMachine :=
  mkSnapMachine m (sn_idx s) (sn_current s) (sn_dir s).
Definition set_current (c : option StoredSnapshot) (s : SnapMachine) : SnapMachine :=
  mkSnapMachine (sn_machine s) (sn_idx s) c (sn_dir s).

(** File system operations: one whose error is returned, one whose error is
    handled, and one whose error is only logged. *)
Definition in_dir {A} (error : string → StorageError) (m : Fs A) : SM A := λ s,
  (match (m (sn_dir s)).1 with Ok a => Ok a | Err e => Err (error e) end, set_dir (m (sn_dir s)).2 s).
Definition attempt {A} (m : Fs A) : SM (result string A) := λ s, (Ok (m (sn_dir s)).1, set_dir (m (sn_dir s)).2 s).
Definition logged {A} (m : Fs A) : SM unit := λ s, (Ok tt, set_dir (m (sn_dir s)).2 s).
(** A transaction of the store. *)
Definition on_store {A} (error : string → StorageError) (m : M A) : SM A := λ s,
  (match (m (msm_store (sn_machine s))).1 with Ok a => Ok a | Err e => Err (error (FluxError_to_string e)) end,
   set_machine (mkMachine (msm_meta (sn_machine s)) (m (msm_store (sn_machine s))).2) s).

(** [self.snapshot_idx.fetch_add(1) + 1]. *)
Definition next_idx : SM N := λ s,
  (Ok (wrap_add (sn_idx s) 1), mkSnapMachine (sn_machine s) (wrap_add (sn_idx s) 1) (sn_current s) (sn_dir s)).

Definition snap_name (kind : string) (idx : N) : string := kind +:+ pretty idx +:+ ".snap".
Definition temp_name (kind : string) (idx : N) : string := kind +:+ pretty idx +:+ ".tmp".

Section machine.
Context `{!Serde SnapshotRecord, !Serde MetaSnapshotData}.
(** The display form of a leader id, which openraft defines. *)
Context (leader_text : LogId → string).
Context (fails : FsCall → option string) (leftover : bytes).

(** [new]. *)
Definition new (store : Db) (dir : Dir) : result StorageError SnapMachine * Dir :=
  match load_sm_meta store with
  | Err e => (Err (ReadStateMachine (FluxError_to_string e)), dir)
  | Ok sm =>
      match prune_snapshot_dir_on_startup fails dir with
      | (Err e, dir') => (Err (WriteSnapshot ("prune stale snapshots: " +:+ e)), dir')
      | (Ok _, dir') => (Ok (mkSnapMachine (mkMachine sm store) 0 None dir'), dir')
      end
  end.

(** The part of [build_snapshot] that holds the lock on the markers: the file
    is written to a temporary name and published. *)
Definition build_file : SM (SnapshotMeta * string) :=
  m ← gets sn_machine;
  idx ← next_idx;
  let sm := msm_meta m in
  let snapshot_id := match last_applied_log sm with
    | Some last => leader_text last +:+ "-" +:+ pretty (lid_index last) +:+ "-" +:+ pretty idx
    | None => "--" +:+ pretty idx
    end in
  let path := snap_name "built-" idx in
  let temp := temp_name ".building-" idx in
  _ ← (match export_snapshot_to_path sm (msm_store m), fails (FsWrite temp) with
       | Ok file, None => modify (λ s, set_dir (<[temp := file]> (sn_dir s)) s)
       | exported, io =>
           let text := match exported with Err e => FluxError_to_string e | Ok _ => default "" io end in
           _ ← modify (λ s, set_dir (<[temp := leftover]> (sn_dir s)) s);
           _ ← logged (remove_file fails temp);
           throw (ReadStateMachine text)
       end);
  published ← attempt (publish_snapshot_file fails temp path);
  match published with
  | Ok _ => mret (mkSnapshotMeta (last_applied_log sm) (last_membership sm) snapshot_id, path)
  | Err e => _ ← logged (remove_file fails temp); throw (WriteSnapshot e)
  end.

(** The rest: the file becomes the current snapshot and replaces the
    previous one. *)
Definition build_commit (meta : SnapshotMeta) (path : string) : SM (SnapshotMeta * bytes) :=
  previous ← gets sn_current;
  _ ← modify (set_current (Some (mkStoredSnapshot meta path)));
  _ ← (match previous with
       | Some p => logged (remove_snapshot_file fails (ss_path p))
       | None => mret tt
       end);
  file ← in_dir ReadSnapshot (open_snapshot_file fails path);
  mret (meta, file).

Definition build_snapshot : SM (SnapshotMeta * bytes) :=
  '(meta, path) ← build_file;
  build_commit meta path.

Definition applied_state (s : SnapMachine) : option LogId * StoredMembership :=
  (last_applied_log (msm_meta (sn_machine s)), last_membership (msm_meta (sn_machine s))).

(** The name of the file that receives a snapshot. *)
Definition begin_receiving_snapshot : SM string :=
  idx ← next_idx;
  let path := snap_name "incoming-" idx in
  _ ← in_dir WriteSnapshot (create_new fails path);
  mret path.

(** [install_snapshot] up to the store's transaction; the received file is
    its bytes. *)
Definition install_tables (now : nat → N) (snapshot : bytes) : SM (SmAppliedMeta * string) :=
  idx ← next_idx;
  let temp := temp_name ".installing-" idx in
  let durable := snap_name "installed-" idx in
  copied ← attempt (copy_received fails leftover snapshot temp durable);
  match copied with
  | Err e => _ ← logged (remove_file fails temp); throw (WriteSnapshot e)
  | Ok _ =>
      file ← in_dir ReadSnapshot (open_snapshot_file fails durable);
      snap_sm ← on_store WriteSnapshot (install_snapshot_from_reader now file);
      mret (snap_sm, durable)
  end.

(** The markers, under their lock, and the new current snapshot. *)
Definition install_markers (meta : SnapshotMeta) (snap_sm : SmAppliedMeta) (durable : string) : SM unit :=
  let last := match sme_last_log_id meta with Some l => Some l | None => last_applied_log snap_sm end in
  let sm := mkSmAppliedMeta last (sme_last_membership meta) in
  _ ← modify (λ s, set_machine (mkMachine sm (save_sm_meta_only sm (msm_store (sn_machine s)))) s);
  _ ← modify (set_current (Some (mkStoredSnapshot meta durable)));
  logged (prune_received_snapshot_files fails durable).

Definition install_snapshot (now : nat → N) (meta : SnapshotMeta) (snapshot : bytes) : SM unit :=
  '(snap_sm, durable) ← install_tables now snapshot;
  install_markers meta snap_sm durable.

Definition get_current_snapshot : SM (option (SnapshotMeta * bytes)) :=
  current ← gets sn_current;
  match current with
  | Some snapshot =>
      file ← in_dir ReadSnapshot (open_snapshot_file fails (ss_path snapshot));
      mret (Some (ss_meta snapshot, file))
  | None => mret None
  end.
End machine.

(** ** Names and directories *)

Lemma str_app_inj_r a b s : a +:+ s = b +:+ s → a = b.
Proof.
  revert b. induction a as [|c a IH]; intros [|c' b] H; [done| | |].
  1,2: apply (f_equal String.length) in H; rewrite !str_length_app in H; cbn in H; lia.
  - injection H as -> H. f_equal. by apply IH.
Qed.

Lemma snap_name_inj kind a b : snap_name kind a = snap_name kind b → a = b.
Proof. unfold snap_name. intros H%(inj (String.append kind))%str_app_inj_r. by apply (inj pretty) in H. Qed.

Lemma ends_in_app s suffix t : ends_in suffix t = true → ends_in suffix (s +:+ t) = true.
Proof.
  intros Ht. induction s as [|c s IH]; [done|].
  change (String c s +:+ t) with (String c (s +:+ t)). cbn [ends_in]. rewrite IH. apply orb_true_r.
Qed.

Lemma snap_kind kind k : ends_in ".snap" (snap_name kind k) = true.
Proof. by apply ends_in_app, ends_in_app. Qed.

Lemma built_kind k : managed_snapshot_kind (snap_name "built-" k) = Some Built.
Proof. unfold managed_snapshot_kind. by rewrite snap_kind. Qed.
Lemma installed_kind k : managed_snapshot_kind (snap_name "installed-" k) = Some Installed.
Proof. unfold managed_snapshot_kind. by rewrite snap_kind. Qed.

(** The names that snapshots are kept under, up to an index. *)
Definition kept_name (idx : N) (p : string) : Prop :=
  ∃ k, k ≤ idx ∧ (p = snap_name "built-" k ∨ p = snap_name "installed-" k).

Section fs_lemmas.
Context (fails : FsCall → option string) (leftover : bytes) (p : string) (b : bytes).
(** The file [p] holds [b]. *)
Abbreviation holds := (λ dir : Dir, dir !! p = Some b).

Lemma keeps_call c : keeps holds (call fails c).
Proof. unfold call. destruct (fails c); [apply keeps_throw|apply keeps_ret]. Qed.
Lemma keeps_delete n : n ≠ p → keeps holds (modify (delete n) : Fs unit).
Proof. intros Hn. apply keeps_modify. intros dir H. by rewrite lookup_delete_ne. Qed.
Lemma keeps_insert n x : n ≠ p → keeps holds (modify <[n := x]> : Fs unit).
Proof. intros Hn. apply keeps_modify. intros dir H. by rewrite lookup_insert_ne. Qed.
Lemma keeps_move n n' : n ≠ p → n' ≠ p → keeps holds
  (modify (λ dir : Dir, match dir !! n with Some b => <[n' := b]> (delete n dir) | None => dir end) : Fs unit).
Proof.
  intros Hn Hn'. apply keeps_modify. intros dir H. destruct (dir !! n); [|done].
  by rewrite lookup_insert_ne, lookup_delete_ne.
Qed.

Lemma keeps_remove n : n ≠ p → keeps holds (remove_file fails n).
Proof. intros Hn. apply keeps_bind; [apply keeps_call|]. intros _. by apply keeps_delete. Qed.

Lemma keeps_remove_snapshot n : n ≠ p → keeps holds (remove_snapshot_file fails n).
Proof.
  intros Hn. apply keeps_bind; [apply keeps_gets|]. intros []; [|apply keeps_ret].
  apply keeps_bind; [by apply keeps_remove|]. intros _. apply keeps_call.
Qed.

Lemma keeps_publish n n' : n ≠ p → n' ≠ p → keeps holds (publish_snapshot_file fails n n').
Proof.
  intros Hn Hn'. do 3 (apply keeps_bind; [apply keeps_call|]; intros _).
  apply keeps_bind; [by apply keeps_move|]. intros _. apply keeps_call.
Qed.

Lemma keeps_create n : keeps holds (create_new fails n).
Proof.
  intros dir r dir' H Hr. unfold create_new in Hr.
  apply txn_bind_inv in Hr as [(x&d1&[= <- <-]&Hr)|(e&[=]&_)].
  destruct (is_some _) eqn:Hn; [by injection Hr as <- <-|].
  assert (n ≠ p) by (intros ->; by rewrite H in Hn).
  assert (keeps holds (_ ← call fails (FsCreate n); modify <[n := []]>)) as Hk.
  { apply keeps_bind; [apply keeps_call|intros ?; by apply keeps_insert]. }
  by eapply Hk.
Qed.

Lemma keeps_copy content n n' : n ≠ p → n' ≠ p → keeps holds (copy_received fails leftover content n n').
Proof.
  intros Hn Hn'. apply keeps_bind; [apply keeps_create|]. intros _. apply keeps_bind.
  { destruct (fails _); [|by apply keeps_insert].
    apply keeps_bind; [by apply keeps_insert|]. intros _. apply keeps_throw. }
  intros _. do 2 (apply keeps_bind; [apply keeps_call|]; intros _).
  apply keeps_bind; [by apply keeps_move|]. intros _. apply keeps_call.
Qed.

Lemma keeps_prune preserve should_remove :
  preserve = Some p ∨ (∀ k, managed_snapshot_kind p = Some k → should_remove k = false) →
  keeps holds (prune_snapshot_dir fails preserve should_remove).
Proof.
  intros Hp. apply keeps_bind; [apply keeps_call|]. intros _. apply keeps_bind; [apply keeps_gets|]. intros names.
  apply keeps_bind; [|intros _; case_bool_decide; [apply keeps_ret|apply keeps_call]].
  apply keeps_for_each. intros n [_ [[Hne Hk] _]%list_elem_of_filter]%list_elem_of_filter. apply keeps_delete. intros ->.
  destruct Hp as [->|Hp]; [done|]. destruct (managed_snapshot_kind p) as [k|]; [|done]. by rewrite Hp in Hk.
Qed.
End fs_lemmas.

(** ** One operation *)

Lemma snapshot_err_keeps `{!Serde SnapshotRecord, !Serde MetaSnapshotData} now file d e d' :
  install_snapshot_from_reader now file d = (Err e, d') → d' = d.
Proof.
  assert (∀ {A} (m : M A) d e d', in_write_txn m d = (Err e, d') → d' = d) as Ht.
  { intros A m d1 e1 d1'. unfold in_write_txn. by destruct (m d1) as [[]]; intros [= _ <-]. }
  intros H. unfold install_snapshot_from_reader in H.
  apply txn_bind_inv in H as [([[|] r]&d1&[= Hf <-]&H)|(e1&[= _ <-]&_)]; [by eapply Ht| |done].
  apply txn_bind_inv in H as [(x&d1&[= _ <-]&H)|(e1&[= _ <-]&_)]; [|done].
  apply txn_bind_inv in H as [(y&d1&_&[=])|(e1&H&_)]. by eapply Ht.
Qed.

(** A machine that differs from [s0] only in the named files. *)
Record frozen (s0 : SnapMachine) (names : list string) (s : SnapMachine) : Prop := {
  fz_machine : sn_machine s = sn_machine s0;
  fz_idx : sn_idx s = sn_idx s0;
  fz_current : sn_current s = sn_current s0;
  fz_dir p b : p ∉ names → sn_dir s0 !! p = Some b → sn_dir s !! p = Some b
}.

Section frozen.
Context {s0 : SnapMachine} {names : list string}.
Abbreviation safe m := (∀ p b, p ∉ names → keeps (λ dir : Dir, dir !! p = Some b) m).

Lemma frozen_refl : frozen s0 names s0.
Proof. by split. Qed.
Lemma frozen_fs {A} (m : Fs A) s : safe m → frozen s0 names s → frozen s0 names (set_dir (m (sn_dir s)).2 s).
Proof.
  intros Hm [H1 H2 H3 H4]. split; [done..|]. intros p b Hp Hb. cbn.
  destruct (m (sn_dir s)) as [r dir'] eqn:Hr. by eapply Hm; [| |exact Hr]; [done|apply H4].
Qed.
Lemma frozen_attempt {A} (m : Fs A) : safe m → keeps (frozen s0 names) (attempt m).
Proof. intros Hm s r s' Hs [= <- <-]. by apply frozen_fs. Qed.
Lemma frozen_logged {A} (m : Fs A) : safe m → keeps (frozen s0 names) (logged m).
Proof. intros Hm s r s' Hs [= <- <-]. by apply frozen_fs. Qed.
Lemma frozen_in_dir {A} err (m : Fs A) : safe m → keeps (frozen s0 names) (in_dir err m).
Proof. intros Hm s r s' Hs [= <- <-]. by apply frozen_fs. Qed.
Lemma frozen_put n file : n ∈ names → keeps (frozen s0 names) (modify (λ s, set_dir (<[n := file]> (sn_dir s)) s) : SM unit).
Proof.
  intros Hn. apply keeps_modify. intros s [H1 H2 H3 H4]. split; [done..|]. intros p b Hp Hb. cbn.
  rewrite lookup_insert_ne by (by intros ->). by apply H4.
Qed.
End frozen.

Definition bumped (s : SnapMachine) : SnapMachine :=
  mkSnapMachine (sn_machine s) (wrap_add (sn_idx s) 1) (sn_current s) (sn_dir s).

Section operations.
Context `{!Serde SnapshotRecord, !Serde MetaSnapshotData}.
Context (leader_text : LogId → string) (fails : FsCall → option string) (leftover : bytes).

Lemma publish_spec n n' dir r dir' :
  n ≠ n' → publish_snapshot_file fails n n' dir = (Ok r, dir') →
  ∀ b, dir !! n = Some b → dir' !! n' = Some b.
Proof.
  intros Hne H b Hb. unfold publish_snapshot_file, call, sync_snapshot_dir, call in H.
  destruct (fails (FsOpen n)), (fails (FsSync n)), (fails (FsRename n)), (fails FsSyncDir); try discriminate H.
  injection H as _ <-. by rewrite Hb, lookup_insert_eq.
Qed.

Lemma safe_open n : ∀ p b, keeps (λ dir : Dir, dir !! p = Some b) (open_snapshot_file fails n).
Proof.
  intros p b. apply keeps_bind; [apply keeps_call|]. intros _. apply keeps_bind; [apply keeps_gets|].
  intros []; [apply keeps_ret|apply keeps_throw].
Qed.

Lemma open_spec n b dir :
  dir !! n = Some b →
  open_snapshot_file fails n dir =
    (match fails (FsOpen n) with Some e => Err e | None => Ok b end, dir).
Proof.
  intros Hb. unfold open_snapshot_file, call. destruct (fails (FsOpen n)); [done|].
  rewrite (txn_bind_ok (mret tt) _ _ _ _ eq_refl), (txn_bind_ok (gets _) _ _ _ _ eq_refl). by rewrite Hb.
Qed.

Lemma build_file_frozen s r s' :
  build_file leader_text fails leftover s = (r, s') →
  frozen (bumped s) [temp_name ".building-" (sn_idx (bumped s)); snap_name "built-" (sn_idx (bumped s))] s'.
Proof.
  unfold build_file. rewrite (txn_bind_ok (gets _) _ _ _ _ eq_refl), (txn_bind_ok next_idx _ _ _ _ eq_refl).
  cbv zeta. change (wrap_add (sn_idx s) 1) with (sn_idx (bumped s)).
  set (temp := temp_name _ _). set (path := snap_name _ _). fold (bumped s). revert r s'.
  assert (∀ p, p ∉ [temp; path] → temp ≠ p ∧ path ≠ p) as Hnin.
  { intros p Hp. by rewrite !not_elem_of_cons in Hp; destruct Hp as (?&?&_). }
  assert (keeps (frozen (bumped s) [temp; path]) (logged (remove_file fails temp))) as Hrm.
  { apply frozen_logged. intros p b [??]%Hnin. by apply keeps_remove. }
  match goal with |- ∀ r s', ?m _ = _ → _ => assert (keeps (frozen (bumped s) [temp; path]) m) as Hk end.
  2: { intros r s' H. eapply Hk, H. apply frozen_refl. }
  apply keeps_bind.
  { destruct (export_snapshot_to_path _ _), (fails (FsWrite temp)); cbv zeta.
    2: by apply frozen_put; set_solver.
    all: apply keeps_bind; [by apply frozen_put; set_solver|intros _].
    all: apply keeps_bind; [done|intros _; apply keeps_throw]. }
  intros _. apply keeps_bind.
  { apply frozen_attempt. intros p b [??]%Hnin. by apply keeps_publish. }
  intros []; [apply keeps_ret|]. apply keeps_bind; [done|intros _; apply keeps_throw].
Qed.

Lemma build_file_ok s x s' :
  build_file leader_text fails leftover s = (Ok x, s') →
  let sm := msm_meta (sn_machine s) in
  x.2 = snap_name "built-" (sn_idx (bumped s)) ∧ sme_last_log_id x.1 = last_applied_log sm ∧
  sme_last_membership x.1 = last_membership sm ∧
  ∃ file, export_snapshot_to_path sm (msm_store (sn_machine s)) = Ok file ∧ sn_dir s' !! x.2 = Some file.
Proof.
  unfold build_file. rewrite (txn_bind_ok (gets _) _ _ _ _ eq_refl), (txn_bind_ok next_idx _ _ _ _ eq_refl).
  cbv zeta. change (wrap_add (sn_idx s) 1) with (sn_idx (bumped s)).
  destruct (export_snapshot_to_path _ _) as [file|] eqn:Hx; [destruct (fails (FsWrite _)); [by intros|]|done].
  rewrite (txn_bind_ok (modify _) _ _ _ _ eq_refl), (txn_bind_ok (attempt _) _ _ _ _ eq_refl).
  set (temp := temp_name _ _). set (path := snap_name _ _). cbn [sn_dir set_dir].
  destruct (publish_snapshot_file fails temp path (<[temp := file]> (sn_dir s))) as [[u|e] dir'] eqn:Hp;
    cbn [fst snd]; [|by intros]. intros [= <- <-]. split_and!; [done..|]. exists file. split; [done|]. cbn.
  by eapply publish_spec; [|exact Hp|rewrite lookup_insert_eq].
Qed.

Lemma build_commit_spec meta path s r s' :
  build_commit fails meta path s = (r, s') →
  sn_machine s' = sn_machine s ∧ sn_idx s' = sn_idx s ∧
  sn_current s' = Some (mkStoredSnapshot meta path) ∧
  (∀ p b, (∀ c, sn_current s = Some c → ss_path c ≠ p) → sn_dir s !! p = Some b → sn_dir s' !! p = Some b).
Proof.
  unfold build_commit. rewrite (txn_bind_ok (gets _) _ _ _ _ eq_refl), (txn_bind_ok (modify _) _ _ _ _ eq_refl).
  set (s1 := set_current _ s). set (names := match sn_current s with Some c => [ss_path c] | None => [] end).
  match goal with |- ?m _ = _ → _ => assert (keeps (frozen s1 names) m) as Hk end.
  { apply keeps_bind.
    - unfold names. destruct (sn_current s) as [c|]; [|apply keeps_ret]. apply frozen_logged. intros p b Hp.
      apply keeps_remove_snapshot. by intros <-; apply Hp; left.
    - intros _. apply keeps_bind; [|intros ?; apply keeps_ret]. apply frozen_in_dir. intros p b _. apply safe_open. }
  intros H. apply Hk in H as [H1 H2 H3 H4]; [|apply frozen_refl]. split_and!; [done..|]. intros p b Hp Hb.
  apply H4; [|done]. unfold names. destruct (sn_current s) as [c|]; [|by intros ?%elem_of_nil].
  intros ->%list_elem_of_singleton. by eapply Hp.
Qed.

Lemma copy_spec content n n' dir r dir' :
  copy_received fails leftover content n n' dir = (Ok r, dir') → dir' !! n' = Some content.
Proof.
  unfold copy_received, create_new. intros H.
  apply txn_bind_inv in H as [(u&d1&H1&H)|(e&_&[=])].
  destruct (fails (FsWrite n)).
  { by apply txn_bind_inv in H as [(u'&d2&[=]&_)|(e&_&[=])]. }
  rewrite (txn_bind_ok (modify _) _ _ _ _ eq_refl) in H. unfold call, sync_snapshot_dir, call in H.
  destruct (fails (FsSync n)), (fails (FsRename n)), (fails FsSyncDir); try discriminate H.
  injection H as _ <-. by rewrite lookup_insert_eq, lookup_insert_eq.
Qed.

(** The copy of the received file, and the transaction that rebuilds the
    tables; an error leaves the tables alone. *)
Lemma install_tables_spec now content s r s' :
  install_tables fails leftover now content s = (r, s') →
  let idx := sn_idx (bumped s) in
  let d := msm_store (sn_machine s) in
  ∃ d', frozen (set_machine (mkMachine (msm_meta (sn_machine s)) d') (bumped s))
          [temp_name ".installing-" idx; snap_name "installed-" idx] s' ∧
    match r with
    | Ok x => x.2 = snap_name "installed-" idx ∧ sn_dir s' !! x.2 = Some content ∧
              install_snapshot_from_reader now content d = (Ok x.1, d')
    | Err _ => d' = d
    end.
Proof.
  intros H idx d. unfold install_tables in H. rewrite (txn_bind_ok next_idx _ _ _ _ eq_refl) in H. cbv zeta in H.
  change (wrap_add (sn_idx s) 1) with idx in H. fold (bumped s) in H.
  set (temp := temp_name _ idx) in *. set (durable := snap_name _ idx) in *.
  assert (∀ p, p ∉ [temp; durable] → temp ≠ p ∧ durable ≠ p) as Hnin.
  { intros p Hp. by rewrite !not_elem_of_cons in Hp; destruct Hp as (?&?&_). }
  rewrite (txn_bind_ok (attempt _) _ _ _ _ eq_refl) in H.
  assert (frozen (bumped s) [temp; durable] (set_dir (copy_received fails leftover content temp durable (sn_dir s)).2 (bumped s)))
    as Hcopy.
  { apply (frozen_fs _ (bumped s)); [|apply frozen_refl]. intros p b [??]%Hnin. by apply keeps_copy. }
  assert (∀ s1, frozen (bumped s) [temp; durable] s1 →
    frozen (set_machine (mkMachine (msm_meta (sn_machine s)) d) (bumped s)) [temp; durable] s1) as Hsame.
  { intros s1 [H1 H2 H3 H4]. split; [|done..]. rewrite H1. cbn. unfold d. by destruct (sn_machine s). }
  cbn [sn_dir bumped] in H. destruct (copy_received fails leftover content temp durable (sn_dir s)) as [[u|e] dir1] eqn:Hc;
    cbn [fst snd] in H, Hcopy.
  2: { assert (keeps (frozen (bumped s) [temp; durable]) (logged (remove_file fails temp))) as Hrm.
       { apply frozen_logged. intros p b [??]%Hnin. by apply keeps_remove. }
       apply txn_bind_inv in H as [(u&s2&H1&[= <- <-])|(e'&[=]&_)]. exists d. split; [|done].
       apply Hsame. by eapply Hrm. }
  apply copy_spec in Hc.
  apply txn_bind_inv in H as [(file&s2&Ho&H)|(e'&Ho&->)].
  2: { exists d. split; [|done]. apply Hsame. eapply frozen_in_dir; [|exact Hcopy|exact Ho]. intros; apply safe_open. }
  assert (file = content ∧ s2 = set_dir dir1 (bumped s)) as [-> ->].
  { unfold in_dir in Ho. cbn [sn_dir set_dir] in Ho. rewrite (open_spec _ _ _ Hc) in Ho.
    by destruct (fails (FsOpen durable)); [|injection Ho as <- <-]. }
  destruct (install_snapshot_from_reader now content d) as [[sm|e'] d'] eqn:Hi;
    apply txn_bind_inv in H as [(sm'&s2&H1&[= <- <-])|(e1&H1&->)];
    unfold on_store in H1; cbn in H1; fold d in H1; rewrite Hi in H1; cbn in H1; try discriminate H1.
  - injection H1 as <- <-. exists d'. destruct Hcopy as [F1 F2 F3 F4]. split_and!; [by split|done|done|done].
  - injection H1 as _ <-. exists d'. split; [|by eapply snapshot_err_keeps]. destruct Hcopy. by split.
Qed.

Lemma install_markers_spec meta sm durable s r s' :
  install_markers fails meta sm durable s = (r, s') →
  let sm' := mkSmAppliedMeta (match sme_last_log_id meta with Some l => Some l | None => last_applied_log sm end)
               (sme_last_membership meta) in
  r = Ok tt ∧ sn_machine s' = mkMachine sm' (save_sm_meta_only sm' (msm_store (sn_machine s))) ∧
  sn_idx s' = sn_idx s ∧ sn_current s' = Some (mkStoredSnapshot meta durable) ∧
  (∀ p b, p = durable ∨ managed_snapshot_kind p = Some Built → sn_dir s !! p = Some b → sn_dir s' !! p = Some b).
Proof.
  unfold install_markers. cbv zeta.
  rewrite (txn_bind_ok (modify _) _ _ _ _ eq_refl), (txn_bind_ok (modify _) _ _ _ _ eq_refl). intros [= <- <-].
  split_and!; [done..|]. intros p b Hp Hb. cbn.
  destruct (prune_received_snapshot_files fails durable (sn_dir s)) as [r' dir'] eqn:Hr. cbn.
  eapply (keeps_prune fails p b (Some durable) received); [|exact Hb|exact Hr].
  destruct Hp as [->|Hk]; [by left|right]. intros k. rewrite Hk. by intros [= <-].
Qed.
End operations.

(** ** A cluster that sends snapshots *)

(** A node: the machine, and the builds whose file is published and that are
    not committed yet. *)
Record Node := mkNode { nd_sm : SnapMachine; nd_pending : list (SnapshotMeta * string) }.

(** [cl_sent]: the snapshots that were ever read off a node to be sent. *)
Record Cluster := mkCluster { cl_nodes : gmap N Node; cl_sent : list (SnapshotMeta * bytes) }.

Section cluster.
Context `{!Serde SnapshotRecord, !Serde MetaSnapshotData, !SerdeLaws SnapshotRecord}.

(** What one node does by itself, with any file system errors: apply an
    entry; write and publish the file of a build; commit a build; receive
    bytes; fail to install whatever it received; restart. *)
Inductive node_step : Node → Node → Prop :=
  | step_apply now e s pend :
      store_room (msm_store (sn_machine s)) → entry_admissible (sn_machine s) e → entry_carried e →
      node_step (mkNode s pend) (mkNode (set_machine (apply_entry now e (sn_machine s)).2 s) pend)
  | step_build lt fails leftover s pend r s' :
      sn_idx s < U64_MAX → build_file lt fails leftover s = (r, s') →
      node_step (mkNode s pend) (mkNode s' (match r with Ok x => x :: pend | Err _ => pend end))
  | step_commit fails s l1 x l2 r s' :
      build_commit fails x.1 x.2 s = (r, s') → node_step (mkNode s (l1 ++ x :: l2)) (mkNode s' (l1 ++ l2))
  | step_receive fails s pend r s' b :
      sn_idx s < U64_MAX → begin_receiving_snapshot fails s = (r, s') →
      node_step (mkNode s pend)
        (mkNode (match r with Ok name => set_dir (<[name := b]> (sn_dir s')) s' | Err _ => s' end) pend)
  | step_refused fails leftover now meta content s pend e s' :
      sn_idx s < U64_MAX → install_snapshot fails leftover now meta content s = (Err e, s') →
      node_step (mkNode s pend) (mkNode s' pend)
  | step_restart fails s pend s' dir' :
      new fails (msm_store (sn_machine s)) (sn_dir s) = (Ok s', dir') → node_step (mkNode s pend) (mkNode s' []).

(** A node serves its current snapshot; a node installs one that was sent, at
    any later time. *)
Inductive cluster_step : Cluster → Cluster → Prop :=
  | cluster_node c n nd nd' :
      cl_nodes c !! n = Some nd → node_step nd nd' →
      cluster_step c (mkCluster (<[n := nd']> (cl_nodes c)) (cl_sent c))
  | cluster_serve c n nd fails x s' :
      cl_nodes c !! n = Some nd → get_current_snapshot fails (nd_sm nd) = (Ok (Some x), s') →
      cluster_step c (mkCluster (cl_nodes c) (x :: cl_sent c))
  | cluster_install c n nd fails leftover now x s' :
      cl_nodes c !! n = Some nd → x ∈ cl_sent c → sn_idx (nd_sm nd) < U64_MAX →
      install_snapshot fails leftover now x.1 x.2 (nd_sm nd) = (Ok tt, s') →
      cluster_step c (mkCluster (<[n := mkNode s' (nd_pending nd)]> (cl_nodes c)) (cl_sent c)).

Inductive cluster_reachable : Cluster → Prop :=
  | cluster_fresh nodes :
      (∀ n nd, nodes !! n = Some nd → ∃ t dir,
        nd = mkNode (mkSnapMachine (mkMachine SmAppliedMeta_default (fresh_store t)) 0 None dir) []) →
      cluster_reachable (mkCluster nodes [])
  | cluster_next c c' : cluster_reachable c → cluster_step c c' → cluster_reachable c'.

(** The whole export of a store in a good state, with the markers that
    describe it. *)
Definition exported (meta : SnapshotMeta) (file : bytes) : Prop :=
  ∃ sm d, sm_inv d ∧ rows_ok d ∧ export_snapshot_to_path sm d = Ok file ∧
    last_applied_log sm = sme_last_log_id meta ∧ last_membership sm = sme_last_membership meta.

Definition snaps_ok (idx : N) (dir : Dir) (l : list (SnapshotMeta * string)) : Prop :=
  NoDup l.*2 ∧ Forall (λ x, kept_name idx x.2 ∧ ∃ file, dir !! x.2 = Some file ∧ exported x.1 file) l.

Definition current_snaps (s : SnapMachine) : list (SnapshotMeta * string) :=
  match sn_current s with Some c => [(ss_meta c, ss_path c)] | None => [] end.

Record node_ok (nd : Node) : Prop := {
  nk_inv : sm_inv (msm_store (sn_machine (nd_sm nd)));
  nk_rows : rows_ok (msm_store (sn_machine (nd_sm nd)));
  nk_built : Forall (λ x, ∃ k, x.2 = snap_name "built-" k) (nd_pending nd);
  nk_snaps : snaps_ok (sn_idx (nd_sm nd)) (sn_dir (nd_sm nd)) (nd_pending nd ++ current_snaps (nd_sm nd))
}.

Lemma snaps_ok_sub idx dir l l' : l' ⊆+ l → snaps_ok idx dir l → snaps_ok idx dir l'.
Proof using.
  intros Hsub [Hn Hf]. split.
  - destruct (submseteq_Permutation _ _ Hsub) as [k Hk]. rewrite Hk, fmap_app in Hn. by apply NoDup_app in Hn as [].
  - apply Forall_forall. intros x Hx. eapply (proj1 (Forall_forall _ _) Hf). by eapply elem_of_submseteq.
Qed.

Lemma snaps_ok_move idx dir idx' dir' l :
  idx ≤ idx' → (∀ x b, x ∈ l → dir !! x.2 = Some b → dir' !! x.2 = Some b) → snaps_ok idx dir l → snaps_ok idx' dir' l.
Proof using.
  intros Hi Hd [Hn Hf]. split; [done|]. apply Forall_forall. intros x Hx.
  destruct (proj1 (Forall_forall _ _) Hf x Hx) as [(k&Hk&Hname) (file&Hfile&He)].
  split; [exists k; split; [lia|done]|]. exists file. eauto.
Qed.

Lemma snaps_ok_cons idx dir l x k :
  snaps_ok idx dir l → idx < k → (x.2 = snap_name "built-" k ∨ x.2 = snap_name "installed-" k) →
  (∃ file, dir !! x.2 = Some file ∧ exported x.1 file) → snaps_ok k dir (x :: l).
Proof using.
  intros [Hn Hf] Hk Hx Hfile. split.
  - cbn. apply NoDup_cons. split; [|done]. intros (y&Hy&Hyl)%list_elem_of_fmap.
    destruct (proj1 (Forall_forall _ _) Hf y Hyl) as [(k'&Hle&Hk') _]. rewrite <-Hy in Hk'.
    destruct Hx as [Hx|Hx], Hk' as [Hk'|Hk']; rewrite Hx in Hk'; try discriminate Hk';
      apply snap_name_inj in Hk'; lia.
  - apply Forall_cons. split; [split; [by exists k; split; [lia|]|done]|].
    apply (snaps_ok_move idx dir k dir l); [lia|done|by split].
Qed.

Definition build_names (k : N) : list string := [temp_name ".building-" k; snap_name "built-" k].
Definition install_names (k : N) : list string := [temp_name ".installing-" k; snap_name "installed-" k].

Lemma kept_fresh idx k p : kept_name idx p → idx < k → p ∉ build_names k ∧ p ∉ install_names k.
Proof using.
  intros (j&Hj&Hp) Hk. unfold build_names, install_names. rewrite !not_elem_of_cons.
  split_and!; try apply not_elem_of_nil; intros ->; destruct Hp as [Hp|Hp]; try discriminate Hp;
    apply snap_name_inj in Hp; lia.
Qed.

Lemma bumped_idx s : sn_idx s < U64_MAX → sn_idx (bumped s) = sn_idx s + 1.
Proof using. intros H. cbn. apply wrap_add_small. lia. Qed.

Lemma rebuilt_inv sm sm' d d0 : sm_inv d → sm_inv (save_sm_meta_only sm' (rebuilt sm d d0)).
Proof using.
  intros [H1 H2 H3]. split; [|done|done]. by apply (same_store_inv d).
Qed.
Lemma rebuilt_rows sm sm' d d0 : rows_ok d → rows_ok (save_sm_meta_only sm' (rebuilt sm d d0)).
Proof using. apply rows_ok_sub; [done..|reflexivity]. Qed.

Lemma fresh_rows t : rows_ok (fresh_store t).
Proof using. split; cbn; intros ??; [by intros ?%elem_of_empty|by rewrite lookup_empty|by rewrite lookup_empty]. Qed.

Lemma snaps_ok_frozen idx l s s0 names :
  frozen s0 names s → (∀ x, x ∈ l → x.2 ∉ names) → idx ≤ sn_idx s0 →
  snaps_ok idx (sn_dir s0) l → snaps_ok (sn_idx s) (sn_dir s) l.
Proof using.
  intros [_ Hi _ Hd] Hn Hle. apply snaps_ok_move; [lia|]. intros x b Hx. apply Hd. by apply Hn.
Qed.

Lemma snaps_fresh idx dir l k x : snaps_ok idx dir l → idx < k → x ∈ l →
  x.2 ∉ build_names k ∧ x.2 ∉ install_names k.
Proof using.
  intros [_ Hf] Hk Hx. destruct (proj1 (Forall_forall _ _) Hf x Hx) as [Hname _]. by eapply kept_fresh.
Qed.

Lemma build_ok lt fails leftover s pend r s' :
  sn_idx s < U64_MAX → build_file lt fails leftover s = (r, s') → node_ok (mkNode s pend) →
  node_ok (mkNode s' (match r with Ok x => x :: pend | Err _ => pend end)).
Proof using SerdeLaws0.
  intros Hidx Hb [Hinv Hrows Hbuilt Hsn]. cbn [nd_sm nd_pending] in *.
  assert (Hf := build_file_frozen _ _ _ _ _ _ Hb). assert (Hi := bumped_idx s Hidx).
  assert (current_snaps s' = current_snaps s) as Hcur by (unfold current_snaps; by rewrite (fz_current _ _ _ Hf)).
  assert (snaps_ok (sn_idx s) (sn_dir s') (pend ++ current_snaps s)) as Hold.
  { eapply snaps_ok_move; [done| |exact Hsn]. intros x b Hx Hd. apply (fz_dir _ _ _ Hf); [|done].
    apply (snaps_fresh _ _ _ _ _ Hsn); [lia|done]. }
  destruct r as [x|e]; (split; cbn [nd_sm nd_pending]; [by rewrite (fz_machine _ _ _ Hf)..| |]); rewrite ?Hcur.
  - destruct (build_file_ok _ _ _ _ _ _ Hb) as (Hx&Hlog&Hmem&file&Hexp&Hfile).
    apply Forall_cons. split; [by eexists|done].
  - destruct (build_file_ok _ _ _ _ _ _ Hb) as (Hx&Hlog&Hmem&file&Hexp&Hfile).
    rewrite (fz_idx _ _ _ Hf). eapply snaps_ok_cons; [exact Hold|lia|by left|].
    exists file. split; [done|]. by eexists _, _.
  - done.
  - rewrite (fz_idx _ _ _ Hf). eapply snaps_ok_move; [| |exact Hold]; [lia|done].
Qed.

Lemma commit_ok fails s l1 x l2 r s' :
  build_commit fails x.1 x.2 s = (r, s') → node_ok (mkNode s (l1 ++ x :: l2)) → node_ok (mkNode s' (l1 ++ l2)).
Proof using.
  intros Hc [Hinv Hrows Hbuilt Hsn]. cbn [nd_sm nd_pending] in *.
  destruct (build_commit_spec _ _ _ _ _ _ Hc) as (Hm&Hi&Hcur&Hd).
  split; cbn [nd_sm nd_pending]; [by rewrite Hm..| |].
  - apply Forall_app in Hbuilt as [? [_ ?]%Forall_cons]. by apply Forall_app.
  - unfold current_snaps at 1. rewrite Hcur, Hi. cbn [ss_meta ss_path]. rewrite <-surjective_pairing.
    assert ((l1 ++ l2) ++ [x] ≡ₚ l1 ++ x :: l2) as Hperm by (rewrite <-app_assoc; f_equiv; by rewrite Permutation_app_comm).
    apply (snaps_ok_move (sn_idx s) (sn_dir s)); [done| |].
    + intros y b Hy Hb. apply Hd; [|done]. intros c Hcc Heq. destruct Hsn as [Hn _].
      unfold current_snaps in Hn. rewrite Hcc, fmap_app in Hn. apply NoDup_app in Hn as (_&Hn&_).
      apply (Hn y.2); [|cbn; rewrite Heq; by left]. apply list_elem_of_fmap_2. by rewrite <-Hperm.
    + eapply snaps_ok_sub; [|exact Hsn]. rewrite Hperm. by apply submseteq_inserts_r.
Qed.

Lemma refused_ok fails leftover now meta content s pend e s' :
  sn_idx s < U64_MAX → install_snapshot fails leftover now meta content s = (Err e, s') →
  node_ok (mkNode s pend) → node_ok (mkNode s' pend).
Proof using.
  intros Hidx Hinst [Hinv Hrows Hbuilt Hsn]. cbn [nd_sm nd_pending] in *. unfold install_snapshot in Hinst.
  apply txn_bind_inv in Hinst as [([sm durable]&s1&H1&H2)|(e'&H1&_)].
  { by apply install_markers_spec in H2 as ([=]&_). }
  destruct (install_tables_spec _ _ _ _ _ _ _ H1) as (d'&[F1 F2 F3 F4]&->). assert (Hi := bumped_idx s Hidx).
  split; cbn [nd_sm nd_pending]; [by rewrite F1..|done|].
  unfold current_snaps at 1. rewrite F3, F2. apply (snaps_ok_move (sn_idx s) (sn_dir s)); [cbn in *; lia| |done].
  intros x b Hx Hb. apply F4; [|done]. apply (snaps_fresh _ _ _ _ _ Hsn); [lia|done].
Qed.

Lemma restart_ok fails s pend s' dir' :
  new fails (msm_store (sn_machine s)) (sn_dir s) = (Ok s', dir') → node_ok (mkNode s pend) → node_ok (mkNode s' []).
Proof using.
  unfold new. intros Hnew [Hinv Hrows _ _]. destruct (load_sm_meta _); [|done].
  destruct (prune_snapshot_dir_on_startup _ _) as [[] dir1]; [|done]. injection Hnew as <- <-.
  split; cbn; [done|done|constructor|by split; constructor].
Qed.

Lemma receive_ok fails s pend r s' b :
  sn_idx s < U64_MAX → begin_receiving_snapshot fails s = (r, s') → node_ok (mkNode s pend) →
  node_ok (mkNode (match r with Ok name => set_dir (<[name := b]> (sn_dir s')) s' | Err _ => s' end) pend).
Proof using.
  intros Hidx Hr [Hinv Hrows Hbuilt Hsn]. cbn [nd_sm nd_pending] in *. unfold begin_receiving_snapshot in Hr.
  rewrite (txn_bind_ok next_idx _ _ _ _ eq_refl) in Hr. cbv zeta in Hr. fold (bumped s) in Hr.
  change (wrap_add (sn_idx s) 1) with (sn_idx (bumped s)) in Hr. assert (Hi := bumped_idx s Hidx).
  set (name := snap_name "incoming-" _) in *.
  assert (frozen (bumped s) [name] s' ∧ ∀ n, r = Ok n → n = name) as [Hf Hn].
  { apply txn_bind_inv in Hr as [(u&s1&H1&[= <- <-])|(e&H1&->)].
    1: split; [|by intros n [= <-]]. 2: split; [|done].
    all: eapply frozen_in_dir; [|apply frozen_refl|exact H1]; intros; apply keeps_create. }
  assert (∃ s1, frozen (bumped s) [name] s1 ∧
    match r with Ok name => set_dir (<[name := b]> (sn_dir s')) s' | Err _ => s' end = s1) as (s1&[F1 F2 F3 F4]&->).
  { destruct r as [n|e]; [|by exists s']. rewrite (Hn n eq_refl). eexists. split; [|done].
    destruct Hf as [F1 F2 F3 F4]. split; [done..|]. intros p c Hp Hc. cbn.
    rewrite lookup_insert_ne by (intros <-; by apply Hp; left). by apply F4. }
  split; cbn [nd_sm nd_pending]; [by rewrite F1..|done|].
  unfold current_snaps at 1. rewrite F3, F2. apply (snaps_ok_move (sn_idx s) (sn_dir s)); [cbn in *; lia| |done].
  intros x c Hx Hc. apply F4; [|done]. destruct Hsn as [_ Hall].
  destruct (proj1 (Forall_forall _ _) Hall x Hx) as [(k&_&[Hk|Hk]) _];
    rewrite Hk; by intros [=]%list_elem_of_singleton.
Qed.

Lemma step_ok nd nd' : node_step nd nd' → node_ok nd → node_ok nd'.
Proof using SerdeLaws0.
  intros Hstep Hok. destruct Hstep; [|by eapply build_ok|by eapply commit_ok|by eapply receive_ok
    |by eapply refused_ok|by eapply restart_ok].
  destruct Hok as [Hinv Hrows Hbuilt Hsn]. split; cbn; [by apply apply_entry_sm|by apply apply_entry_rows|done|done].
Qed.

(** The markers that an installed snapshot leaves are the ones it came with. *)
Lemma exported_markers meta sm :
  last_applied_log sm = sme_last_log_id meta → last_membership sm = sme_last_membership meta →
  mkSmAppliedMeta (match sme_last_log_id meta with Some l => Some l | None => last_applied_log sm end)
    (sme_last_membership meta) = sm.
Proof using. destruct sm as [l m]; cbn. intros -> ->. by destruct (sme_last_log_id meta). Qed.

Lemma installed_machine fails leftover now meta file s s' :
  install_snapshot fails leftover now meta file s = (Ok tt, s') → ∀ sm d,
  store_inv d → rows_ok d → export_snapshot_to_path sm d = Ok file →
  last_applied_log sm = sme_last_log_id meta → last_membership sm = sme_last_membership meta →
  sn_machine s' = mkMachine sm (rebuilt sm d (msm_store (sn_machine s))).
Proof using SerdeLaws0.
  intros Hinst sm d Hd Hrows Hexp Hlog Hmem. unfold install_snapshot in Hinst.
  apply txn_bind_inv in Hinst as [([sm1 durable]&s1&H1&H2)|(e'&_&[=])].
  apply install_tables_spec in H1 as (d'&Hf&_&_&Hi). cbn [fst] in Hi.
  rewrite (export_installs now sm d file) in Hi by done. injection Hi as <- <-.
  apply install_markers_spec in H2 as (_&->&_). rewrite (exported_markers meta sm Hlog Hmem).
  by rewrite (fz_machine _ _ _ Hf).
Qed.

Lemma install_ok fails leftover now meta file s pend s' :
  sn_idx s < U64_MAX → exported meta file → install_snapshot fails leftover now meta file s = (Ok tt, s') →
  node_ok (mkNode s pend) → node_ok (mkNode s' pend).
Proof using SerdeLaws0.
  intros Hidx (sm&d&Hsm&Hr&Hexp&Hlog&Hmem) Hinst [Hinv Hrows Hbuilt Hsn]. cbn [nd_sm nd_pending] in *.
  assert (Hmach := installed_machine _ _ _ _ _ _ _ Hinst sm d (sm_store _ Hsm) Hr Hexp Hlog Hmem).
  assert (exported meta file) as Hx by (by exists sm, d). assert (Hi := bumped_idx s Hidx).
  unfold install_snapshot in Hinst. apply txn_bind_inv in Hinst as [([sm1 durable]&s1&H1&H2)|(e'&_&[=])].
  apply install_tables_spec in H1 as (d'&[_ F2 _ F4]&Hname&Hfile&_). cbn [fst snd] in Hname, Hfile.
  apply install_markers_spec in H2 as (_&_&Hi2&Hcur&Hkeep).
  split; cbn [nd_sm nd_pending]; [rewrite Hmach; cbn..|done|].
  - by apply (rebuilt_inv sm sm).
  - by apply (rebuilt_rows sm sm).
  - unfold current_snaps. rewrite Hcur, Hi2, F2. cbn [ss_meta ss_path set_machine sn_idx].
    apply (snaps_ok_sub _ _ ((meta, durable) :: pend)).
    { by rewrite <-Permutation_cons_append. }
    eapply (snaps_ok_cons (sn_idx s)); [|lia|by right|exists file; split; [apply Hkeep; [by left|done]|done]].
    assert (snaps_ok (sn_idx s) (sn_dir s) pend) as Hp by (eapply snaps_ok_sub, Hsn; by apply submseteq_inserts_r).
    eapply snaps_ok_move; [done| |exact Hp]. intros x b Hin Hb.
    destruct (proj1 (Forall_forall _ _) Hbuilt x Hin) as [k Hk]. apply Hkeep; [right; rewrite Hk; apply built_kind|].
    apply F4; [|done]. apply (snaps_fresh _ _ _ _ _ Hp); [lia|done].
Qed.

Lemma served_exported fails s pend x s' :
  node_ok (mkNode s pend) → get_current_snapshot fails s = (Ok (Some x), s') → exported x.1 x.2.
Proof using.
  intros [_ _ _ [_ Hsn]] H. unfold get_current_snapshot in H. rewrite (txn_bind_ok (gets _) _ _ _ _ eq_refl) in H.
  unfold current_snaps in Hsn. cbn [nd_sm nd_pending] in Hsn. destruct (sn_current s) as [c|]; [|done].
  apply Forall_app in Hsn as [_ [[_ (file&Hfile&He)] _]%Forall_cons]. cbn [fst snd] in Hfile, He.
  unfold in_dir, mbind, txn_bind in H. rewrite (open_spec _ _ _ _ Hfile) in H.
  by destruct (fails (FsOpen (ss_path c))); [|injection H as <- <-].
Qed.

Lemma reachable_ok c : cluster_reachable c →
  (∀ n nd, cl_nodes c !! n = Some nd → node_ok nd) ∧ Forall (λ x, exported x.1 x.2) (cl_sent c).
Proof using SerdeLaws0.
  induction 1 as [nodes Hfresh|c c' _ [IHn IHs] Hstep].
  { split; [|constructor]. intros n nd (t&dir&->)%Hfresh.
    split; cbn; [apply fresh_store_sm|apply fresh_rows|constructor|by split; constructor]. }
  destruct Hstep as [c n nd nd' Hn Hs|c n [s pend] fails x s' Hn Hs|c n [s pend] fails leftover now x s' Hn Hx Hidx Hs];
    cbn [cl_nodes cl_sent nd_sm nd_pending] in *; (split; [|try done]).
  - intros m md [[_ <-]|[_ Hm]]%lookup_insert_Some; [eapply step_ok; eauto|by eapply IHn].
  - done.
  - apply Forall_cons. split; [|done]. eapply served_exported; [by eapply IHn|exact Hs].
  - intros m md [[_ <-]|[_ Hm]]%lookup_insert_Some; [|by eapply IHn].
    eapply install_ok; [done| |done|by eapply IHn]. by apply (proj1 (Forall_forall _ _) IHs).
Qed.


(** ** Catching up *)

Lemma copy_runs leftover content n n' dir :
  dir !! n = None →
  ∃ dir', copy_received (λ _, None) leftover content n n' dir = (Ok tt, dir') ∧ dir' !! n' = Some content.
Proof using.
  intros Hn. destruct (copy_received (λ _, None) leftover content n n' dir) as [r dir'] eqn:Hr.
  assert (r = Ok tt) as ->; [|exists dir'; split; [done|by eapply copy_spec]].
  unfold copy_received, create_new in Hr.
  rewrite txn_bind_assoc, (txn_bind_ok (gets _) _ _ _ _ eq_refl), Hn in Hr. by injection Hr as <- _.
Qed.

Lemma install_runs leftover now meta file s sm d :
  sn_dir s !! temp_name ".installing-" (sn_idx (bumped s)) = None →
  store_inv d → rows_ok d → export_snapshot_to_path sm d = Ok file →
  ∃ s', install_snapshot (λ _, None) leftover now meta file s = (Ok tt, s').
Proof using SerdeLaws0.
  intros Htemp Hd Hrows Hexp. unfold install_snapshot, install_tables.
  rewrite txn_bind_assoc, (txn_bind_ok next_idx _ _ _ _ eq_refl). cbv zeta.
  fold (bumped s). change (wrap_add (sn_idx s) 1) with (sn_idx (bumped s)).
  rewrite txn_bind_assoc, (txn_bind_ok (attempt _) _ _ _ _ eq_refl).
  destruct (copy_runs leftover file _ (snap_name "installed-" (sn_idx (bumped s))) _ Htemp) as (dir'&Hcopy&Hfile).
  change (sn_dir (bumped s)) with (sn_dir s). rewrite Hcopy. cbn [fst snd].
  set (s1 := set_dir dir' (bumped s)). rewrite txn_bind_assoc.
  rewrite (txn_bind_ok _ _ s1 file s1).
  2: { unfold in_dir. change (sn_dir s1) with dir'. by rewrite (open_spec _ _ _ _ Hfile). }
  rewrite txn_bind_assoc. set (d0 := msm_store (sn_machine s)).
  rewrite (txn_bind_ok _ _ s1 sm (set_machine (mkMachine (msm_meta (sn_machine s)) (rebuilt sm d d0)) s1)).
  2: { unfold on_store. change (msm_store (sn_machine s1)) with d0. by rewrite (export_installs now sm d file d0). }
  rewrite (txn_bind_ok (mret _) _ _ _ _ eq_refl).
  destruct (install_markers _ _ _ _ _) as [r s'] eqn:Hm. apply install_markers_spec in Hm as [-> _]. by eexists.
Qed.

Lemma rebuilt_same sm d d0 :
  schema_version d0 = schema_version d → sm_meta d = Some sm → is_Some (worker_membership d) → rebuilt sm d d0 = d.
Proof using.
  intros Hsv Hm [w Hw]. unfold rebuilt, membership_of. rewrite Hsv, Hw, <-Hm. destruct d; cbn in *. by rewrite Hw.
Qed.

(** What a committed build hands out is the file it published. *)
Lemma commit_serves fails meta path file s x s' :
  sn_dir s !! path = Some file → build_commit fails meta path s = (Ok x, s') → x = (meta, file).
Proof using.
  intros Hfile H. unfold build_commit in H.
  rewrite (txn_bind_ok (gets _) _ _ _ _ eq_refl), (txn_bind_ok (modify _) _ _ _ _ eq_refl) in H.
  apply txn_bind_inv in H as [(u&s2&Hprev&H)|(e&_&[=])].
  apply txn_bind_inv in H as [(b&s3&Ho&[= <- <-])|(e&_&[=])]. f_equal.
  assert (∀ c, sn_dir s2 !! path = Some c → c = file) as Honly.
  { destruct (sn_current s) as [c0|]; injection Hprev as _ <-; cbn; [|intros c; congruence].
    assert (keeps (λ dir : Dir, ∀ c, dir !! path = Some c → c = file) (remove_snapshot_file fails (ss_path c0))) as Hk.
    { assert (∀ call', keeps (λ dir : Dir, ∀ c, dir !! path = Some c → c = file) (call fails call')) as Hcall.
      { intros call'. unfold call. destruct (fails call'); [apply keeps_throw|apply keeps_ret]. }
      apply keeps_bind; [apply keeps_gets|]. intros []; [|apply keeps_ret].
      apply keeps_bind; [|intros _; apply Hcall]. apply keeps_bind; [apply Hcall|]. intros _. apply keeps_modify.
      intros dir Hd c [_ Hc]%lookup_delete_Some. by apply Hd. }
    destruct (remove_snapshot_file fails (ss_path c0) (sn_dir s)) as [r dir'] eqn:Hr. cbn.
    eapply Hk; [|exact Hr]. intros c; congruence. }
  unfold in_dir, open_snapshot_file, call in Ho. destruct (fails (FsOpen path)); [discriminate Ho|].
  rewrite (txn_bind_ok (mret tt) _ _ _ _ eq_refl), (txn_bind_ok (gets _) _ _ _ _ eq_refl) in Ho.
  destruct (sn_dir s2 !! path) as [c|] eqn:Hc; [|discriminate Ho]. injection Ho as <- _. by apply Honly.
Qed.


(** C39: a build during an install.  The lock on the markers is not held while
    the tables are replaced: a build that exports between the two writes a
    file with the old markers over the new tables, which installs cleanly and
    leaves its receiver with tables that are ahead of its markers. *)
Theorem build_during_install now sm d file fails leftover s durable s1 lt x s2 now' d0 :
  sm_inv d → rows_ok d → export_snapshot_to_path sm d = Ok file →
  install_tables fails leftover now file s = (Ok (sm, durable), s1) →
  build_file lt fails leftover s1 = (Ok x, s2) →
  let old := msm_meta (sn_machine s) in
  sme_last_log_id x.1 = last_applied_log old ∧
  ∃ mixed, sn_dir s2 !! x.2 = Some mixed ∧
    install_snapshot_from_reader now' mixed d0 = (Ok old, rebuilt old d d0).
Proof using SerdeLaws0.
  intros Hd Hrows Hexp H1 H2 old. apply install_tables_spec in H1 as (d'&[F1 _ _ _]&_&_&Hi). cbn [fst] in Hi.
  rewrite (export_installs now sm d file) in Hi by (try done; apply Hd). injection Hi as <-.
  destruct (build_file_ok _ _ _ _ _ _ H2) as (_&Hlog&_&mixed&Hm&Hfile). rewrite F1 in Hlog, Hm. cbn in Hlog, Hm.
  split; [done|]. exists mixed. split; [done|].
  rewrite (export_installs now' old _ mixed d0 (sm_store _ (rebuilt_inv sm sm d _ Hd)) (rebuilt_rows sm sm d _ Hrows) Hm).
  done.
Qed.
End cluster.

(** ** Start *)

Lemma deletes_run (l : list string) (dir : Dir) :
  ∃ dir', for_each (λ n, modify (delete n) : Fs unit) l dir = (Ok tt, dir') ∧
    ∀ name, dir' !! name = if bool_decide (name ∈ l) then None else dir !! name.
Proof.
  revert dir. induction l as [|n l IH]; intros dir; [by exists dir|]. cbn [for_each].
  rewrite (txn_bind_ok (modify _) _ _ _ _ eq_refl). destruct (IH (delete n dir)) as (dir'&->&Hd). exists dir'.
  split; [done|]. intros name. rewrite Hd. repeat case_bool_decide; try done.
  - set_solver.
  - assert (name = n) as -> by set_solver. apply lookup_delete_eq.
  - apply lookup_delete_ne. set_solver.
Qed.

(** What a start leaves in the snapshot directory.  With a file system that
    works, every file with one of the names that snapshots are written under,
    half written or complete, is gone, and every other file is as it was:
    indices can start again from zero without meeting an old file. *)
Theorem start_prunes store dir s dir' :
  new (λ _, None) store dir = (Ok s, dir') →
  sn_idx s = 0 ∧ sn_current s = None ∧ sn_dir s = dir' ∧
  ∀ name, dir' !! name = if bool_decide (managed_snapshot_kind name = None) then dir !! name else None.
Proof.
  unfold new. intros H. destruct (load_sm_meta store) as [sm|]; [|done].
  destruct (prune_snapshot_dir_on_startup (λ _, None) dir) as [[u|] dir1] eqn:Hp; [|done]. injection H as <- <-.
  split_and!; [done..|]. intros name. unfold prune_snapshot_dir_on_startup, prune_snapshot_dir in Hp.
  rewrite (txn_bind_ok (call (λ _, None) _) _ dir tt dir eq_refl), (txn_bind_ok (gets _) _ _ _ _ eq_refl) in Hp. cbv zeta in Hp.
  match type of Hp with context [for_each _ ?l] => destruct (deletes_run l dir) as (dir2&Hrun&Hd) end.
  rewrite (txn_bind_ok _ _ _ _ _ Hrun) in Hp.
  assert (dir1 = dir2) as -> by (case_bool_decide; by injection Hp). rewrite Hd. clear Hd Hp Hrun.
  destruct (managed_snapshot_kind name) as [k|] eqn:Hk.
  - rewrite (bool_decide_false (Some k = None)) by done. case_bool_decide as Hin; [done|].
    destruct (dir !! name) as [b|] eqn:Hb; [|done]. destruct Hin. apply list_elem_of_filter. split; [done|].
    apply list_elem_of_filter. rewrite Hk. split; [done|]. apply elem_of_elements, elem_of_dom. by eexists.
  - rewrite (bool_decide_true (None = None)) by done. rewrite bool_decide_false; [done|].
    intros [_ [[_ Hin] _]%list_elem_of_filter]%list_elem_of_filter. by rewrite Hk in Hin.
Qed.

(** ** A concrete record format *)

#[export] Instance LogId_countable : Countable LogId.
Proof. count (λ l, (lid_term l, lid_node l, lid_index l)) (λ p, let '(a, b, c) := p in mkLogId a b c). Defined.
#[export] Instance StoredMembership_eq_dec : EqDecision StoredMembership.
Proof. solve_decision. Defined.
#[export] Instance StoredMembership_countable : Countable StoredMembership.
Proof.
  count (λ m, (stm_log_id m, stm_configs m, stm_nodes m)) (λ p, let '(a, b, c) := p in mkStoredMembership a b c).
Defined.
#[export] Instance SmAppliedMeta_eq_dec : EqDecision SmAppliedMeta.
Proof. solve_decision. Defined.
#[export] Instance SmAppliedMeta_countable : Countable SmAppliedMeta.
Proof. count (λ m, (last_applied_log m, last_membership m)) (λ p, mkSmAppliedMeta p.1 p.2). Defined.
#[export] Instance MetaRaftResponse_countable : Countable MetaRaftResponse.
Proof.
  count (λ r, match r with
    | REmpty => inl None | RInode i => inl (Some i) | RManifestId id => inr (inl (inl id))
    | RGcPlan p => inr (inl (inr p)) | RGcBatch b => inr (inr (inl (inl b)))
    | RWorkerMembership m => inr (inr (inl (inr m))) | RErr e => inr (inr (inr e)) end)
   (λ p, match p with
    | inl None => REmpty | inl (Some i) => RInode i | inr (inl (inl id)) => RManifestId id
    | inr (inl (inr p)) => RGcPlan p | inr (inr (inl (inl b))) => RGcBatch b
    | inr (inr (inl (inr m))) => RWorkerMembership m | inr (inr (inr e)) => RErr e end).
Defined.
#[export] Instance ChunkReservation_countable : Countable ChunkReservation.
Proof.
  count (λ r, (cr_ticket r, cr_inode r, cr_expected_generation r, cr_chunks r, cr_expires_at_unix_ms r))
        (λ p, let '(a, b, c, d, e) := p in mkChunkReservation a b c d e).
Defined.
#[export] Instance SnapshotRecord_eq_dec : EqDecision SnapshotRecord.
Proof. solve_decision. Defined.
#[export] Instance SnapshotRecord_countable : Countable SnapshotRecord.
Proof.
  count (λ r, match r with
    | SEnd => inl None | SInode i => inl (Some i)
    | SHeader a b c d e => inr (inl (inl (a, b, c, d, e)))
    | SDentry a b c => inr (inl (inr (inl (a, b, c))))
    | SManifest a b => inr (inl (inr (inr (a, b))))
    | SXattr a b c => inr (inr (inl (inl (a, b, c))))
    | SOpenPresence a b => inr (inr (inl (inr (a, b))))
    | SClientRequest a b c d => inr (inr (inr (inl (a, b, c, d))))
    | SReservation a => inr (inr (inr (inr (inl a))))
    | SDeleteTombstone a => inr (inr (inr (inr (inr a)))) end)
   (λ p, match p with
    | inl None => SEnd | inl (Some i) => SInode i
    | inr (inl (inl (a, b, c, d, e))) => SHeader a b c d e
    | inr (inl (inr (inl (a, b, c)))) => SDentry a b c
    | inr (inl (inr (inr (a, b)))) => SManifest a b
    | inr (inr (inl (inl (a, b, c)))) => SXattr a b c
    | inr (inr (inl (inr (a, b)))) => SOpenPresence a b
    | inr (inr (inr (inl (a, b, c, d)))) => SClientRequest a b c d
    | inr (inr (inr (inr (inl a)))) => SReservation a
    | inr (inr (inr (inr (inr a)))) => SDeleteTombstone a end).
Defined.
#[export] Instance MetaSnapshotData_eq_dec : EqDecision MetaSnapshotData.
Proof. solve_decision. Defined.
#[export] Instance MetaSnapshotData_countable : Countable MetaSnapshotData.
Proof.
  count (λ s, ((sd_inodes s, sd_dentries s, sd_manifests s, sd_xattrs s, sd_open_presences s),
               (sd_next_inode s, sd_next_manifest s, sd_sm s, sd_client_requests s, sd_gc_lease s),
               (sd_chunk_reservations s, sd_gc_tombstones s, sd_gc_delete_tombstones s, sd_worker_membership s)))
        (λ p, let '((a, b, c, d, e), (f, g, h, i, j), (k, l, m, n)) := p in
              mkSnapshotData a b c d e f g h i j k l m n).
Defined.

Definition text_records : Serde SnapshotRecord := bare_text SnapshotRecord.
Definition text_records_laws : SerdeLaws SnapshotRecord (Serde0 := text_records).
Proof. by apply (text_serde_laws "002"). Defined.
Definition text_data : Serde MetaSnapshotData := bare_text MetaSnapshotData.

(** A leader that has created a directory and a ledger row for it. *)
Definition leader_log : list Entry :=
  [mkEntry (mkLogId 1 1 1) (MembershipChange (mkMembership [[1; 2]] [(1, "a:1"); (2, "b:1")]));
   mkEntry (mkLogId 1 1 2) (Normal (mkRequest (Some 7) 5 (CreateOp ROOT_INODE "d" Directory 493 0 0 None)));
   mkEntry (mkLogId 1 1 3) (Normal (mkRequest None 5 (RegisterWorker example_worker)))].
Definition leader_machine : MetaStateMachine :=
  (apply (λ _ _, 9%Z) leader_log (mkMachine SmAppliedMeta_default (fresh_store 3))).2.

Lemma leader_good : sm_inv (msm_store leader_machine) ∧ rows_ok (msm_store leader_machine).
Proof.
  unfold leader_machine, leader_log. cbn [apply].
  set (m0 := mkMachine _ _). set (e1 := mkEntry _ _). set (e2 := mkEntry _ _). set (e3 := mkEntry _ _).
  assert (∀ m e, sm_inv (msm_store m) ∧ rows_ok (msm_store m) → room_check (msm_store m) = true →
    entry_admissible m e → entry_carried e → sm_inv (msm_store (apply_entry (λ _, 9%Z) e m).2) ∧
      rows_ok (msm_store (apply_entry (λ _, 9%Z) e m).2)) as Hstep.
  { intros m e [H1 H2] Hroom Ha Hc. split; [by apply apply_entry_sm; [|apply room_check_ok|]|by apply apply_entry_rows]. }
  destruct (apply_entry _ e1 m0) as [r1 m1] eqn:H1. destruct (apply_entry _ e2 m1) as [r2 m2] eqn:H2.
  destruct (apply_entry _ e3 m2) as [r3 m3] eqn:H3. cbn [snd].
  apply (f_equal snd) in H1, H2, H3. cbn [snd] in *. subst m1 m2 m3.
  repeat apply Hstep; try done; try (vm_compute; reflexivity).
  split; [apply fresh_store_sm|apply fresh_rows].
Qed.

(** The file of that leader. *)
Definition leader_file : bytes :=
  match export_snapshot_to_path (Serde0 := text_records) (msm_meta leader_machine) (msm_store leader_machine) with
  | Ok file => file
  | Err _ => []
  end.
Lemma leader_exports :
  export_snapshot_to_path (Serde0 := text_records) (msm_meta leader_machine) (msm_store leader_machine) = Ok leader_file.
Proof.
  unfold leader_file. destruct (export_snapshot_to_path _ _) as [file|e] eqn:Hx; [done|].
  exfalso. apply (f_equal is_ok) in Hx. vm_compute in Hx. discriminate Hx.
Qed.


Lemma snapshot_cut_refused_witness :
  ∃ e, install_snapshot_from_reader (Serde0 := text_records) (Serde1 := text_data) (λ _, 0) (take 40 leader_file)
         (fresh_store 8) = (Err e, fresh_store 8).
Proof.
  apply (snapshot_cut_refused (SerdeLaws0 := text_records_laws) (λ _, 0) (msm_meta leader_machine) (msm_store leader_machine)
    leader_file (fresh_store 8) 40 (proj2 leader_good) leader_exports).
  - apply Nat.ltb_lt. vm_compute. reflexivity.
  - intros k Hk. do 21 (destruct k as [|k]; [eexists; vm_compute; reflexivity|]). cbn in Hk. lia.
Defined.

Abbreviation works := (λ _ : FsCall, None).
Definition lone_leader : SnapMachine := mkSnapMachine leader_machine 0 None ∅.
Definition lone_follower : SnapMachine := mkSnapMachine (mkMachine SmAppliedMeta_default (fresh_store 8)) 0 None ∅.
Definition built_by_leader :=
  build_snapshot (Serde0 := text_records) (λ l, pretty (lid_term l)) works [] lone_leader.

Lemma leader_builds : ∃ meta, built_by_leader = (Ok (meta, leader_file), built_by_leader.2).
Proof.
  unfold built_by_leader, build_snapshot, build_file.
  rewrite !txn_bind_assoc, (txn_bind_ok (gets _) _ _ _ _ eq_refl), txn_bind_assoc, (txn_bind_ok next_idx _ _ _ _ eq_refl).
  cbv zeta. cbn [sn_machine lone_leader]. rewrite leader_exports. eexists. reflexivity.
Qed.


(** A follower in the middle of the install, and a build then. *)
Definition half_installed :=
  install_tables (Serde0 := text_records) (Serde1 := text_data) works [] (λ _, 0) leader_file lone_follower.
Definition built_between := build_file (Serde0 := text_records) (λ l, "") works [] half_installed.2.

Lemma build_during_install_witness :
  ∃ durable x mixed,
    half_installed = (Ok (msm_meta leader_machine, durable), half_installed.2) ∧
    built_between = (Ok x, built_between.2) ∧ sme_last_log_id x.1 = None ∧
    sn_dir built_between.2 !! x.2 = Some mixed ∧
    install_snapshot_from_reader (Serde0 := text_records) (Serde1 := text_data) (λ _, 0) mixed (fresh_store 8) =
      (Ok SmAppliedMeta_default, rebuilt SmAppliedMeta_default (msm_store leader_machine) (fresh_store 8)).
Proof.
  assert (is_ok half_installed.1 = true) as Hr1 by (vm_compute; reflexivity).
  assert (is_ok built_between.1 = true) as Hr2 by (vm_compute; reflexivity).
  destruct half_installed as [[[sm durable]|] s1] eqn:H1; [|discriminate Hr1]. unfold half_installed in H1.
  destruct built_between as [[x|] s2] eqn:H2; [|discriminate Hr2]. unfold built_between, half_installed in H2.
  rewrite H1 in H2. cbn [snd] in H2.
  assert (sm = msm_meta leader_machine) as ->.
  { destruct (install_tables_spec _ _ _ _ _ _ _ H1) as (d'&_&_&_&Hi).
    rewrite (export_installs (SerdeLaws0 := text_records_laws) _ _ _ _ _ (sm_store _ (proj1 leader_good))
      (proj2 leader_good) leader_exports) in Hi. by injection Hi as <-. }
  destruct (build_during_install (SerdeLaws0 := text_records_laws) (λ _, 0) _ _ _ works [] lone_follower durable s1
    (λ _, "") x s2 (λ _, 0) (fresh_store 8) (proj1 leader_good) (proj2 leader_good) leader_exports H1 H2)
    as [Hlog (mixed&Hm&Hi)].
  exists durable, x, mixed. split_and!; [reflexivity|reflexivity|exact Hlog|exact Hm|exact Hi].
Defined.

(** A cluster of one node that has built and committed a snapshot. *)
Definition first_build := build_file (Serde0 := text_records) (λ l, "") works [] lone_follower.

