(* ===== verification/RaftLog.v ===== *)
(** * The Raft log store ([crates/meta/src/raft_log_store.rs])

    [HeedRaftLogStore] keeps log entries as JSON under big-endian keys of
    eight bytes, and the vote, the committed position and the last purged
    position as rows of a second table.  The specification is a log: a map
    from indices to entries, and three values. *)

From S2P Require Import Prelude Types Bytes Keys MetaDb Apply Machine Wire MetaText RaftSnap.

Local Open Scope N_scope.

(** ** The tables *)

(** [memcmp]: the order in which the tables are iterated. *)
Fixpoint bytes_le (a b : bytes) : bool :=
  match a, b with
  | [], _ => true
  | _ :: _, [] => false
  | x :: a', y :: b' => (Byte.to_N x <? Byte.to_N y) || ((Byte.to_N x =? Byte.to_N y) && bytes_le a' b')
  end.
Definition row_le : relation (bytes * bytes) := λ a b, Is_true (bytes_le a.1 b.1).
#[export] Instance row_le_decision : RelDecision row_le.
Proof. intros a b. unfold row_le. apply _. Defined.

Record HeedRaftStore := mkRaftLogs { rl_logs : gmap bytes bytes; rl_meta : gmap string bytes }.

Definition logs_iter (s : HeedRaftStore) : list (bytes * bytes) := merge_sort row_le (map_to_list (rl_logs s)).

Definition KEY_VOTE : string := "vote".
Definition KEY_COMMITTED : string := "committed".
Definition KEY_LAST_PURGED : string := "last_purged".

Definition index_key (index : N) : bytes := be_bytes 8 index.

(** [Vote] of openraft: the leader it is for, and whether that is committed. *)
Record Vote := mkVote { vt_term : N; vt_node : N; vt_committed : bool }.

(** [StorageError], by the operation it names. *)
Inductive LogError := ReadLogs (e : string) | WriteLogs (e : string) | VoteError (e : string).

Inductive Bound := Included (i : N) | Excluded (i : N) | Unbounded.

Record LogState := mkLogState { ls_last_purged : option LogId; ls_last_log_id : option LogId }.

Section store.
Context `{!Serde Entry, !Serde LogId, !Serde (option LogId), !Serde Vote}.

Definition as_error {A} (error : string → LogError) (r : result string A) : result LogError A :=
  match r with Ok a => Ok a | Err e => Err (error e) end.

(** ** Reading *)

(** The loop of [try_get_log_entries]. *)
Fixpoint read_rows (start : N) (end_inclusive : option N) (rows : list (bytes * bytes)) : result LogError (list Entry) :=
  match rows with
  | [] => Ok []
  | (k, v) :: rows =>
      if negb (bool_decide (length k = 8%nat)) then read_rows start end_inclusive rows
      else
        let idx := of_be_bytes k in
        if idx <? start then read_rows start end_inclusive rows
        else if match end_inclusive with Some e => e <? idx | None => false end then Ok []
        else
          entry ← as_error ReadLogs (from_slice v);
          out ← read_rows start end_inclusive rows;
          Ok (entry :: out)
  end.

Definition start_of (b : Bound) : N :=
  match b with Included i => i | Excluded i => sat_add i 1 | Unbounded => 0 end.
(** [i.checked_sub(1)] is [None] at zero. *)
Definition end_of (b : Bound) : option N :=
  match b with Included i => Some i | Excluded i => if i =? 0 then None else Some (i - 1) | Unbounded => None end.

Definition try_get_log_entries (start_bound end_bound : Bound) (s : HeedRaftStore) : result LogError (list Entry) :=
  read_rows (start_of start_bound) (end_of end_bound) (logs_iter s).

(** The loop of [get_log_state]: the id of the last entry. *)
Fixpoint last_row (last : option LogId) (rows : list (bytes * bytes)) : result LogError (option LogId) :=
  match rows with
  | [] => Ok last
  | (_, v) :: rows =>
      entry ← as_error ReadLogs (from_slice v);
      last_row (Some (log_id entry)) rows
  end.

(** A row of the second table. *)
Definition read_meta {T} `{!Serde T} (error : string → LogError) (key : string) (s : HeedRaftStore) :
    result LogError (option T) :=
  match rl_meta s !! key with
  | Some b => t ← as_error error (from_slice b); Ok (Some t)
  | None => Ok None
  end.

Definition get_log_state (s : HeedRaftStore) : result LogError LogState :=
  last_purged ← read_meta ReadLogs KEY_LAST_PURGED s;
  last ← last_row None (logs_iter s);
  Ok (mkLogState last_purged (match last with None => last_purged | Some x => Some x end)).

Definition read_committed (s : HeedRaftStore) : result LogError (option LogId) := read_meta ReadLogs KEY_COMMITTED s.
Definition read_vote (s : HeedRaftStore) : result LogError (option Vote) := read_meta VoteError KEY_VOTE s.

(** ** Writing: a transaction that fails is dropped *)

Definition put_meta {T} `{!Serde T} (error : string → LogError) (key : string) (t : T) (s : HeedRaftStore) :
    result LogError HeedRaftStore :=
  b ← as_error error (to_vec t);
  Ok (mkRaftLogs (rl_logs s) (<[key := b]> (rl_meta s))).

Definition save_committed (committed : option LogId) (s : HeedRaftStore) : result LogError HeedRaftStore :=
  put_meta WriteLogs KEY_COMMITTED committed s.
Definition save_vote (vote : Vote) (s : HeedRaftStore) : result LogError HeedRaftStore :=
  put_meta VoteError KEY_VOTE vote s.

Fixpoint append (entries : list Entry) (s : HeedRaftStore) : result LogError HeedRaftStore :=
  match entries with
  | [] => Ok s
  | entry :: entries =>
      b ← as_error WriteLogs (to_vec entry);
      append entries (mkRaftLogs (<[index_key (lid_index (log_id entry)) := b]> (rl_logs s)) (rl_meta s))
  end.

(** The keys of the rows whose index passes a test, and their removal. *)
Definition keys_where (test : N → bool) (s : HeedRaftStore) : list bytes :=
  omap (λ kv, if negb (bool_decide (length kv.1 = 8%nat)) then None
              else let idx := of_be_bytes kv.1 in if test idx then Some (be_bytes 8 idx) else None) (logs_iter s).
Definition delete_keys (keys : list bytes) (s : HeedRaftStore) : HeedRaftStore :=
  mkRaftLogs (foldl (λ m k, delete k m) (rl_logs s) keys) (rl_meta s).

Definition truncate (id : LogId) (s : HeedRaftStore) : result LogError HeedRaftStore :=
  Ok (delete_keys (keys_where (λ idx, lid_index id <=? idx) s) s).

Definition purge (id : LogId) (s : HeedRaftStore) : result LogError HeedRaftStore :=
  s ← put_meta WriteLogs KEY_LAST_PURGED id s;
  Ok (delete_keys (keys_where (λ idx, idx <=? lid_index id) s) s).
End store.

(** ** Calls *)

Inductive LogCall :=
  | CAppend (entries : list Entry)
  | CRead (start_bound end_bound : Bound)
  | CState
  | CTruncate (id : LogId)
  | CPurge (id : LogId)
  | CSaveVote (vote : Vote)
  | CReadVote
  | CSaveCommitted (committed : option LogId)
  | CReadCommitted.

Inductive LogAnswer :=
  | ADone
  | AEntries (entries : list Entry)
  | AState (state : LogState)
  | AVote (vote : option Vote)
  | ACommitted (committed : option LogId).

Section calls.
Context `{!Serde Entry, !Serde LogId, !Serde (option LogId), !Serde Vote}.

Definition answering {A} (f : A → LogAnswer) (r : result LogError A) (s : HeedRaftStore) :
    result LogError LogAnswer * HeedRaftStore :=
  match r with Ok a => (Ok (f a), s) | Err e => (Err e, s) end.
Definition committing (r : result LogError HeedRaftStore) (s : HeedRaftStore) :
    result LogError LogAnswer * HeedRaftStore :=
  match r with Ok s' => (Ok ADone, s') | Err e => (Err e, s) end.

(** One call of openraft on the store. *)
Definition serve_log (c : LogCall) (s : HeedRaftStore) : result LogError LogAnswer * HeedRaftStore :=
  match c with
  | CAppend entries => committing (append entries s) s
  | CRead start_bound end_bound => answering AEntries (try_get_log_entries start_bound end_bound s) s
  | CState => answering AState (get_log_state s) s
  | CTruncate id => committing (truncate id s) s
  | CPurge id => committing (purge id s) s
  | CSaveVote vote => committing (save_vote vote s) s
  | CReadVote => answering AVote (read_vote s) s
  | CSaveCommitted committed => committing (save_committed committed s) s
  | CReadCommitted => answering ACommitted (read_committed s) s
  end.
End calls.

(** ** The specification *)

Record RaftLog := mkLog {
  lg_entries : gmap N Entry;
  lg_vote : option Vote;
  lg_committed : option LogId;
  lg_purged : option LogId
}.
Definition empty_log : RaftLog := mkLog ∅ None None None.

Definition after_start (b : Bound) (k : N) : Prop :=
  match b with Included i => i ≤ k | Excluded i => i < k | Unbounded => True end.
Definition before_end (b : Bound) (k : N) : Prop :=
  match b with Included i => k ≤ i | Excluded i => k < i | Unbounded => True end.
#[export] Instance after_start_dec b k : Decision (after_start b k).
Proof. destruct b; cbn; apply _. Defined.
#[export] Instance before_end_dec b k : Decision (before_end b k).
Proof. destruct b; cbn; apply _. Defined.

(** The entries in the order of their indices. *)
Definition in_order (log : RaftLog) : list Entry := (kv_sorted (lg_entries log)).*2.

Definition with_entries (m : gmap N Entry) (log : RaftLog) : RaftLog :=
  mkLog m (lg_vote log) (lg_committed log) (lg_purged log).

Definition spec_log (c : LogCall) (log : RaftLog) : LogAnswer * RaftLog :=
  match c with
  | CAppend entries =>
      (ADone, with_entries (foldl (λ m e, <[lid_index (log_id e) := e]> m) (lg_entries log) entries) log)
  | CRead start_bound end_bound =>
      (AEntries (filter (λ kv, after_start start_bound kv.1 ∧ before_end end_bound kv.1) (kv_sorted (lg_entries log))).*2, log)
  | CState =>
      (AState (mkLogState (lg_purged log)
         (match last (in_order log) with Some e => Some (log_id e) | None => lg_purged log end)), log)
  | CTruncate id => (ADone, with_entries (filter (λ kv, kv.1 < lid_index id) (lg_entries log)) log)
  | CPurge id =>
      (ADone, mkLog (filter (λ kv, lid_index id < kv.1) (lg_entries log)) (lg_vote log) (lg_committed log) (Some id))
  | CSaveVote vote => (ADone, mkLog (lg_entries log) (Some vote) (lg_committed log) (lg_purged log))
  | CReadVote => (AVote (lg_vote log), log)
  | CSaveCommitted committed => (ADone, mkLog (lg_entries log) (lg_vote log) committed (lg_purged log))
  | CReadCommitted => (ACommitted (lg_committed log), log)
  end.

(** The entries of the source's types. *)
#[export] Instance carried_entry : Carried Entry := λ e,
  match payload e with Normal req => manifests_carried (op req) | _ => True end.

(** The calls that keep to the contract: indices of 64 bits, a committed
    position, and bounds that name a last index. *)
Definition call_ok (c : LogCall) : Prop :=
  match c with
  | CAppend entries => Forall (λ e, carried e ∧ lid_index (log_id e) ≤ U64_MAX) entries
  | CRead start_bound end_bound =>
      match start_bound with Excluded i => i < U64_MAX | _ => True end ∧ end_bound ≠ Excluded 0
  | CSaveCommitted committed => is_Some committed
  | _ => True
  end.

(** ** The order of the keys is the order of the indices *)

Lemma bytes_le_be a b :
  length a = length b → bytes_le a b = true ↔ of_be_bytes a ≤ of_be_bytes b.
Proof.
  revert b. induction a as [|x a IH]; intros [|y b]; try done. intros [= Hl]. cbn [bytes_le].
  rewrite !of_be_bytes_cons, <-Hl. specialize (IH b Hl).
  assert (of_be_bytes a < 256 ^ N.of_nat (length a)) as Ha.
  { unfold of_be_bytes. rewrite <-(length_reverse a). apply of_le_bytes_bound. }
  assert (of_be_bytes b < 256 ^ N.of_nat (length a)) as Hb.
  { rewrite Hl. unfold of_be_bytes. rewrite <-(length_reverse b). apply of_le_bytes_bound. }
  generalize dependent (256 ^ N.of_nat (length a)). intros w Ha Hb.
  rewrite orb_true_iff, andb_true_iff, N.ltb_lt, N.eqb_eq, IH. nia.
Qed.

Lemma bytes_le_antisym a b : bytes_le a b = true → bytes_le b a = true → a = b.
Proof.
  revert b. induction a as [|x a IH]; intros [|y b]; try done. cbn [bytes_le].
  rewrite !orb_true_iff, !andb_true_iff, !N.ltb_lt, !N.eqb_eq. intros H1 H2.
  assert (Byte.to_N x = Byte.to_N y) as Hxy by lia. f_equal; [by apply to_N_inj|]. apply IH; intuition lia.
Qed.

#[local] Instance row_le_total : Total row_le.
Proof.
  intros [a u] [b v]. unfold row_le. cbn. revert b. induction a as [|x a IH]; intros [|y b]; cbn; [by left..|by right|].
  rewrite !Is_true_true, !orb_true_iff, !andb_true_iff, !N.ltb_lt, !N.eqb_eq.
  specialize (IH b). rewrite !Is_true_true in IH.
  destruct (N.lt_total (Byte.to_N x) (Byte.to_N y)) as [?|[?|?]]; [tauto| |tauto]. destruct IH; [left|right]; auto.
Qed.
#[local] Instance row_le_trans : Transitive row_le.
Proof.
  intros [a u] [b v] [c w]. unfold row_le. cbn. revert b c. induction a as [|x a IH]; intros [|y b] [|z c]; try done.
  cbn [bytes_le]. rewrite !Is_true_true, !orb_true_iff, !andb_true_iff, !N.ltb_lt, !N.eqb_eq.
  specialize (IH b c). rewrite !Is_true_true in IH.
  intros [?|[??]] [?|[??]]; [left; lia..|right]. split; [congruence|auto].
Qed.

Lemma index_key_le a b : a ≤ U64_MAX → b ≤ U64_MAX → a ≤ b → bytes_le (index_key a) (index_key b) = true.
Proof.
  intros Ha Hb Hle. unfold index_key. apply bytes_le_be; [by rewrite !be_bytes_length|].
  by rewrite !of_be_bytes_be by (by apply u64_width).
Qed.
Lemma of_index_key k : k ≤ U64_MAX → of_be_bytes (index_key k) = k.
Proof. intros Hk. by apply of_be_bytes_be, u64_width. Qed.
Lemma index_key_length k : length (index_key k) = 8%nat.
Proof. apply be_bytes_length. Qed.
Lemma index_key_inj a b : a ≤ U64_MAX → b ≤ U64_MAX → index_key a = index_key b → a = b.
Proof.
  intros Ha Hb H. apply (f_equal of_be_bytes) in H. unfold index_key in H.
  by rewrite !of_be_bytes_be in H by (by apply u64_width).
Qed.

(** ** Refinement *)

Section refinement.
Context `{!Serde Entry, !Serde LogId, !Serde (option LogId), !Serde Vote}.
Context `{!SerdeLaws Entry, !SerdeLaws LogId, !SerdeLaws Vote}.
(** serde writes [Some] of a value as the value. *)
Context (some_transparent : ∀ x : LogId, to_vec (Some x) = to_vec x).

Definition meta_row {T} `{!Serde T} (key : string) (o : option T) (s : HeedRaftStore) : Prop :=
  match o with
  | Some t => ∃ b, to_vec t = Ok b ∧ rl_meta s !! key = Some b
  | None => rl_meta s !! key = None
  end.

(** The rows of the log are the entries, under the keys of their indices. *)
Record log_rel (s : HeedRaftStore) (log : RaftLog) : Prop := {
  lr_entries k e : lg_entries log !! k = Some e → lid_index (log_id e) = k ∧ k ≤ U64_MAX ∧ carried e;
  lr_rows key v : rl_logs s !! key = Some v ↔
    ∃ k e, key = index_key k ∧ lg_entries log !! k = Some e ∧ to_vec e = Ok v;
  lr_vote : meta_row KEY_VOTE (lg_vote log) s;
  lr_committed : meta_row KEY_COMMITTED (lg_committed log) s;
  lr_purged : meta_row KEY_LAST_PURGED (lg_purged log) s
}.

Definition row_of (kv : N * Entry) : bytes * bytes :=
  (index_key kv.1, match to_vec kv.2 with Ok b => b | Err _ => [] end).

Lemma rows_sorted l :
  StronglySorted (key_le fst) l → (∀ x, x ∈ l → x.1 ≤ U64_MAX) → StronglySorted row_le (row_of <$> l).
Proof using.
  induction 1 as [|x l Hl IH Hx]; intros Hb; constructor.
  - apply IH. intros y Hy. apply Hb. by right.
  - apply Forall_fmap, Forall_forall. intros y Hy. unfold row_le, compose. cbn. apply Is_true_true.
    apply index_key_le; [apply Hb; by left|apply Hb; by right|]. by apply (proj1 (Forall_forall _ _) Hx).
Qed.

Lemma logs_iter_rows s log : log_rel s log → logs_iter s = row_of <$> kv_sorted (lg_entries log).
Proof using SerdeLaws0.
  intros [He Hr _ _ _]. unfold logs_iter.
  assert (∀ key v, (key, v) ∈ row_of <$> kv_sorted (lg_entries log) ↔ rl_logs s !! key = Some v) as Hin.
  { intros key v. rewrite Hr, list_elem_of_fmap. split.
    - intros ([k e]&[= -> ->]&Hk%elem_of_kv_sorted). destruct (He k e Hk) as (_&_&Hc).
      destruct (to_vec_total e Hc) as (b&Hb&_). exists k, e. by rewrite Hb.
    - intros (k&e&->&Hk&Hb). exists (k, e). split; [unfold row_of; cbn; by rewrite Hb|by apply elem_of_kv_sorted]. }
  apply (StronglySorted_unique_strong row_le).
  - intros [k1 v1] [k2 v2] H1 H2 Hle1 Hle2. unfold row_le in *. cbn in *. rewrite Is_true_true in Hle1, Hle2.
    rewrite (bytes_le_antisym _ _ Hle1 Hle2) in *. apply Hin in H2.
    rewrite merge_sort_Permutation, elem_of_map_to_list in H1. congruence.
  - apply StronglySorted_merge_sort; apply _.
  - apply rows_sorted; [apply sort_by_key_sorted|]. intros [k e] Hk%elem_of_kv_sorted. by apply He in Hk as (_&?&_).
  - apply NoDup_Permutation.
    + rewrite merge_sort_Permutation. apply NoDup_map_to_list.
    + apply NoDup_fmap_2_strong; [|rewrite kv_sorted_perm; apply NoDup_map_to_list].
      intros [k1 e1] [k2 e2] H1%elem_of_kv_sorted H2%elem_of_kv_sorted Hk.
      apply (f_equal fst) in Hk. change (index_key k1 = index_key k2) in Hk.
      apply index_key_inj in Hk as ->; [congruence|by apply He in H1 as (_&?&_)|by apply He in H2 as (_&?&_)].
    + intros [key v]. by rewrite merge_sort_Permutation, elem_of_map_to_list, Hin.
Qed.

Definition stop_bound (stop : option N) : Bound := match stop with Some e => Included e | None => Unbounded end.

Lemma read_rows_spec start stop l :
  StronglySorted (key_le fst) l → Forall (λ kv, carried kv.2 ∧ kv.1 ≤ U64_MAX) l →
  read_rows start stop (row_of <$> l) =
    Ok (filter (λ kv, after_start (Included start) kv.1 ∧ before_end (stop_bound stop) kv.1) l).*2.
Proof using SerdeLaws0.
  induction 1 as [|[k e] l Hl IH Hx]; intros Hc; [done|]. apply Forall_cons in Hc as [[Hce Hk] Hc].
  cbn [fmap list_fmap read_rows row_of fst snd] in *. destruct (to_vec_total e Hce) as (b&Hb&_). rewrite Hb.
  rewrite index_key_length, bool_decide_true, of_index_key by done. cbn [negb]. rewrite filter_cons. cbn [fst after_start].
  destruct (N.ltb_spec k start) as [Hlt|Hge].
  { rewrite decide_False by (intros [? _]; lia). by apply IH. }
  assert (match stop with Some e => e <? k | None => false end = negb (bool_decide (before_end (stop_bound stop) k))) as ->.
  { destruct stop as [m|]; cbn; [|done]. case_bool_decide; cbn; [apply N.ltb_ge|apply N.ltb_lt]; lia. }
  case_bool_decide as Hend; cbn [negb].
  - rewrite decide_True by done. rewrite (from_to_vec e b Hce Hb). cbn. by rewrite IH.
  - rewrite decide_False by tauto. rewrite filter_none; [done|].
    intros [k' e'] Hin [_ Hb'].
    destruct Hend. assert (Hle := proj1 (Forall_forall _ _) Hx _ Hin). unfold key_le in Hle. cbn in *.
    destruct stop; cbn in *; [lia|done].
Qed.

Lemma last_row_spec l o :
  Forall (λ kv, carried kv.2) l →
  last_row o (row_of <$> l) = Ok (match last l with Some kv => Some (log_id kv.2) | None => o end).
Proof using SerdeLaws0.
  revert o. induction l as [|[k e] l IH]; intros o Hc; [done|]. apply Forall_cons in Hc as [Hce Hc].
  cbn [fmap list_fmap last_row row_of snd] in *. destruct (to_vec_total e Hce) as (b&Hb&_). rewrite Hb.
  rewrite (from_to_vec e b Hce Hb). cbn [as_error mbind result_bind]. rewrite IH, last_cons by done.
  by destruct (last l).
Qed.

Lemma read_meta_spec {T} `{!Serde T, !Carried T, !SerdeLaws T} error key (o : option T) s :
  (∀ t, o = Some t → carried t) → meta_row key o s → read_meta error key s = Ok o.
Proof using.
  unfold meta_row, read_meta. destruct o as [t|]; [|by intros _ ->]. intros Hc (b&Hb&->).
  by rewrite (from_to_vec t b (Hc t eq_refl) Hb).
Qed.

Lemma rel_forall s log : log_rel s log → Forall (λ kv, carried kv.2 ∧ kv.1 ≤ U64_MAX) (kv_sorted (lg_entries log)).
Proof using.
  intros [He _ _ _ _]. apply Forall_forall. intros [k e] Hk%elem_of_kv_sorted. by apply He in Hk as (_&?&?).
Qed.

Lemma rel_append e b s log :
  log_rel s log → carried e → lid_index (log_id e) ≤ U64_MAX → to_vec e = Ok b →
  log_rel (mkRaftLogs (<[index_key (lid_index (log_id e)) := b]> (rl_logs s)) (rl_meta s))
    (with_entries (<[lid_index (log_id e) := e]> (lg_entries log)) log).
Proof using.
  intros [He Hr Hv Hc Hp] Hce Hk Hb. split; [| |done..]; cbn [lg_entries with_entries rl_logs].
  - intros k e' [[<- <-]|[_ H]]%lookup_insert_Some; [done|by apply He].
  - intros key v. rewrite lookup_insert_Some, Hr. split.
    + intros [[<- <-]|[Hne (k&e'&->&Hk'&Hv')]]; [exists (lid_index (log_id e)), e; by rewrite lookup_insert_eq|].
      exists k, e'. rewrite lookup_insert_ne by (by intros <-). done.
    + intros (k&e'&->&[[<- <-]|[Hne Hk']]%lookup_insert_Some&Hv'); [left; split; congruence|right].
      split; [|by exists k, e']. intros Heq. destruct (He k e' Hk') as (_&?&_). by apply index_key_inj in Heq.
Qed.

Lemma append_spec entries s log :
  log_rel s log → call_ok (CAppend entries) →
  ∃ s', append entries s = Ok s' ∧ log_rel s' (spec_log (CAppend entries) log).2.
Proof using SerdeLaws0.
  cbn [call_ok spec_log snd]. revert s log. induction entries as [|e entries IH]; intros s log Hrel Hok.
  { exists s. split; [done|]. by destruct log. }
  apply Forall_cons in Hok as [[Hc Hk] Hok]. cbn [append foldl]. destruct (to_vec_total e Hc) as (b&Hb&_). rewrite Hb.
  cbn [as_error mbind result_bind]. by apply (IH _ _ (rel_append e b s log Hrel Hc Hk Hb)).
Qed.

Lemma keys_where_spec test s log :
  log_rel s log →
  keys_where test s = (λ kv, index_key kv.1) <$> filter (λ kv, test kv.1 = true) (kv_sorted (lg_entries log)).
Proof using SerdeLaws0.
  intros Hrel. unfold keys_where. rewrite (logs_iter_rows s log Hrel). assert (Hall := rel_forall s log Hrel).
  induction (kv_sorted (lg_entries log)) as [|[k e] l IH]; [done|]. apply Forall_cons in Hall as [[_ Hk] Hall].
  rewrite filter_cons. cbn [fmap list_fmap omap list_omap row_of fst snd]. cbn in Hk.
  rewrite index_key_length, bool_decide_true, of_index_key by done. cbn [negb]. cbv zeta. rewrite (IH Hall). destruct (test k); cbn [fst]; [by rewrite decide_True|].
  by rewrite decide_False.
Qed.

Lemma rel_delete test s log :
  log_rel s log →
  log_rel (delete_keys (keys_where test s) s) (with_entries (filter (λ kv, test kv.1 = false) (lg_entries log)) log).
Proof using SerdeLaws0.
  intros Hrel. destruct (Hrel) as [He Hr Hv Hc Hp]. split; [| |done..]; cbn [lg_entries with_entries rl_logs delete_keys].
  - intros k e [Hk _]%map_lookup_filter_Some. by apply He.
  - intros key v. rewrite (keys_where_spec test s log Hrel), (foldl_delete id), list_fmap_id.
    rewrite map_lookup_filter_Some, Hr. cbn [fst]. split.
    + intros [(k&e&->&Hk&Hb) Hnot]. exists k, e. split_and!; [done| |done]. apply map_lookup_filter_Some. split; [done|].
      cbn. destruct (test k) eqn:Ht; [|done]. destruct Hnot. apply list_elem_of_fmap. exists (k, e). split; [done|].
      apply list_elem_of_filter. split; [done|by apply elem_of_kv_sorted].
    + intros (k&e&->&[Hk Ht]%map_lookup_filter_Some&Hb). split; [by exists k, e|].
      intros ([k' e']&Hkey&[Ht' Hk'%elem_of_kv_sorted]%list_elem_of_filter)%list_elem_of_fmap. cbn in *.
      apply index_key_inj in Hkey as ->; [congruence|by apply He in Hk as (_&?&_)|by apply He in Hk' as (_&?&_)].
Qed.

(** A row of the second table. *)
Lemma put_meta_spec {T} `{!Serde T, !Carried T, !SerdeLaws T} error key (t : T) s :
  carried t → ∃ s', put_meta error key t s = Ok s' ∧ rl_logs s' = rl_logs s ∧ meta_row key (Some t) s' ∧
    ∀ T' (ser : Serde T') key' (o : option T'), key' ≠ key → meta_row key' o s → meta_row key' o s'.
Proof using.
  intros Hc. destruct (to_vec_total t Hc) as (b&Hb&_). unfold put_meta. rewrite Hb. eexists. split_and!; [done|done| |].
  - exists b. cbn. by rewrite lookup_insert_eq.
  - intros T' ? key' o Hne. unfold meta_row. cbn. by rewrite lookup_insert_ne.
Qed.

Lemma after_start_of b k : match b with Excluded i => i < U64_MAX | _ => True end →
  after_start b k ↔ after_start (Included (start_of b)) k.
Proof using.
  destruct b as [i|i|]; cbn; [done| |lia]. unfold sat_add, sat_add_w, U64_MAX. lia.
Qed.
Lemma before_end_of b k : b ≠ Excluded 0 → before_end b k ↔ before_end (stop_bound (end_of b)) k.
Proof using.
  intros Hb. destruct b as [i|i|]; cbn; [done| |done]. destruct (N.eqb_spec i 0) as [->|]; [done|]. cbn. lia.
Qed.

(** C7: the log store is a log.  Every call that keeps to the contract
    succeeds, answers what the log of the specification answers (entries in
    index order within the bounds, the last id, the vote, the committed
    position), and leaves the tables representing the log that the
    specification leaves: appended entries replace those at their indices, a
    truncation removes the indices from its own on, a purge those up to its
    own and records it. *)
Theorem log_store_refines c s log :
  log_rel s log → call_ok c →
  ∃ s', serve_log c s = (Ok (spec_log c log).1, s') ∧ log_rel s' (spec_log c log).2.
Proof using SerdeLaws0 SerdeLaws1 SerdeLaws2 some_transparent.
  intros Hrel Hok. destruct c as [entries|sb eb| |id|id|vote| |committed|]; cbn [serve_log spec_log fst snd].
  - destruct (append_spec entries s log Hrel Hok) as (s'&->&Hrel'). by exists s'.
  - exists s. split; [|done]. destruct Hok as [Hs He]. unfold try_get_log_entries.
    rewrite (logs_iter_rows s log Hrel), read_rows_spec; [|apply sort_by_key_sorted|by apply rel_forall with s].
    cbn [answering]. do 4 f_equal. apply list_filter_iff. intros [k e]. cbn [fst].
    by rewrite <-after_start_of, <-before_end_of.
  - exists s. split; [|done]. unfold get_log_state. destruct (Hrel) as [_ _ _ _ Hp].
    rewrite (read_meta_spec _ _ (lg_purged log)) by done. cbn [mbind result_bind].
    rewrite (logs_iter_rows s log Hrel), last_row_spec.
    2: { eapply Forall_impl; [by apply (rel_forall s)|]. by intros ? []. }
    cbn [mbind result_bind answering]. do 4 f_equal. unfold in_order. rewrite fmap_last. by destruct (last _).
  - exists (delete_keys (keys_where (λ idx, lid_index id <=? idx) s) s). split; [done|].
    assert (filter (λ kv, kv.1 < lid_index id) (lg_entries log)
      = filter (λ kv, (lid_index id <=? kv.1) = false) (lg_entries log)) as ->; [|by apply rel_delete].
    apply map_filter_ext. intros k e _. by rewrite N.leb_gt.
  - destruct (put_meta_spec WriteLogs KEY_LAST_PURGED id s I) as (s1&Hput&Hl&Hrow&Hother).
    exists (delete_keys (keys_where (λ idx, idx <=? lid_index id) s1) s1). unfold purge. rewrite Hput. split; [done|].
    assert (log_rel s1 (mkLog (lg_entries log) (lg_vote log) (lg_committed log) (Some id))) as Hrel1.
    { destruct Hrel as [He Hr Hv Hc _]. split; [done|by rewrite Hl|by apply Hother|by apply Hother|done]. }
    assert (filter (λ kv, lid_index id < kv.1) (lg_entries log)
      = filter (λ kv, (kv.1 <=? lid_index id) = false) (lg_entries log)) as ->.
    { apply map_filter_ext. intros k e _. by rewrite N.leb_gt. }
    apply (rel_delete (λ idx, idx <=? lid_index id) _ _ Hrel1).
  - destruct (put_meta_spec VoteError KEY_VOTE vote s I) as (s1&Hput&Hl&Hrow&Hother). exists s1.
    unfold save_vote. rewrite Hput. split; [done|]. destruct Hrel as [He Hr Hv Hc Hp].
    split; [done|by rewrite Hl|done|by apply Hother|by apply Hother].
  - exists s. split; [|done]. destruct Hrel as [_ _ Hv _ _]. unfold read_vote. by rewrite (read_meta_spec _ _ (lg_vote log)).
  - destruct Hok as [id ->]. destruct (put_meta_spec WriteLogs KEY_COMMITTED id s I) as (s1&Hput&Hl&Hrow&Hother).
    exists s1. unfold save_committed, put_meta. rewrite some_transparent. unfold put_meta in Hput. rewrite Hput.
    split; [done|]. destruct Hrel as [He Hr Hv Hc Hp].
    split; [done|by rewrite Hl|by apply Hother|done|by apply Hother].
  - exists s. split; [|done]. destruct Hrel as [_ _ _ Hc _]. unfold read_committed.
    by rewrite (read_meta_spec _ _ (lg_committed log)).
Qed.

(** Outside the contract: a range that ends before index zero is taken for
    one without an end, and a cleared committed position, which is written as
    [null], cannot be read back. *)
Theorem empty_range_reads_all s log :
  log_rel s log → try_get_log_entries (Included 0) (Excluded 0) s = Ok (in_order log).
Proof using SerdeLaws0.
  intros Hrel. unfold try_get_log_entries. cbn [start_of end_of]. rewrite N.eqb_refl.
  rewrite (logs_iter_rows s log Hrel), read_rows_spec; [|apply sort_by_key_sorted|by apply rel_forall with s].
  unfold in_order. do 2 f_equal. apply filter_all. intros [k e] _. cbn. split; [lia|done].
Qed.

Theorem cleared_commit_unreadable s b e :
  to_vec (None : option LogId) = Ok b → from_slice (T := LogId) b = Err e →
  ∃ s', save_committed None s = Ok s' ∧ read_committed s' = Err (ReadLogs e).
Proof using.
  intros Hb He. unfold save_committed, put_meta. rewrite Hb. eexists. split; [done|].
  unfold read_committed, read_meta. cbn [rl_meta]. rewrite lookup_insert_eq. by rewrite He.
Qed.
End refinement.

(** ** A log on disk *)

#[export] Instance Vote_eq_dec : EqDecision Vote.
Proof. solve_decision. Defined.
#[export] Instance Vote_countable : Countable Vote.
Proof. count (λ v, (vt_term v, vt_node v, vt_committed v)) (λ p, let '(a, b, c) := p in mkVote a b c). Defined.

#[export] Instance XattrSetMode_countable : Countable XattrSetMode.
Proof.
  count (λ m, match m with Upsert => 0 | Create => 1 | Replace => 2 end)
        (λ n, match n with 0 => Upsert | 1 => Create | _ => Replace end).
Defined.
#[export] Instance MetaRaftOp_eq_dec : EqDecision MetaRaftOp.
Proof. solve_decision. Defined.
#[export] Instance MetaRaftOp_countable : Countable MetaRaftOp.
Proof.
  count (λ o, match o with
    | RegisterWorker a => inl (inl (inl (inl a)))
    | CreateOp a b c d e f g => inl (inl (inl (inr (inl (a, b, c, d, e, f, g)))))
    | SymlinkOp a b c d e f => inl (inl (inl (inr (inr (a, b, c, d, e, f)))))
    | PutInode a => inl (inl (inr (inl (inl a))))
    | PutInodeCas a b => inl (inl (inr (inl (inr (a, b)))))
    | PutManifest a => inl (inl (inr (inr (inl a))))
    | CommitInodeManifest a b c => inl (inl (inr (inr (inr (a, b, c)))))
    | ReserveChunks a b c d e => inl (inr (inl (inl (inl (a, b, c, d, e)))))
    | AbortChunkReservation a => inl (inr (inl (inl (inr a))))
    | ExpireChunkReservations a b => inl (inr (inl (inr (inl (a, b)))))
    | PruneClientRequests a b => inl (inr (inl (inr (inr (a, b)))))
    | CommitInodeManifestReserved a b c d => inl (inr (inr (inl (inl (a, b, c, d)))))
    | TombstoneGcBatch a => inl (inr (inr (inl (inr a))))
    | FinalizeGcTombstones a => inl (inr (inr (inr (inl a))))
    | InitializeGcDeleteTargets a b => inl (inr (inr (inr (inr (a, b)))))
    | AcknowledgeGcDeletes a => inr (inl (inl (inl (inl a))))
    | BeginFlush a b c => inr (inl (inl (inl (inr (a, b, c)))))
    | CommitFlush a b c d => inr (inl (inl (inr (inl (a, b, c, d)))))
    | FailFlushConflict a b c d => inr (inl (inl (inr (inr (a, b, c, d)))))
    | BeginGc a => inr (inl (inr (inl (inl a))))
    | FinishGc a => inr (inl (inr (inl (inr a))))
    | ImportExternal a b c d e => inr (inl (inr (inr (inl (a, b, c, d, e)))))
    | Unlink a b c => inr (inl (inr (inr (inr (a, b, c)))))
    | OpenInode a b => inr (inr (inl (inl (inl (a, b)))))
    | CloseInode a b => inr (inr (inl (inl (inr (a, b)))))
    | RecoverSession a => inr (inr (inl (inr (inl a))))
    | Link a b c d => inr (inr (inl (inr (inr (a, b, c, d)))))
    | SetXattr a b c d e => inr (inr (inr (inl (inl (a, b, c, d, e)))))
    | RemoveXattr a b c => inr (inr (inr (inl (inr (a, b, c)))))
    | Rmdir a b c => inr (inr (inr (inr (inl (a, b, c)))))
    | Rename a b c d e f g => inr (inr (inr (inr (inr (a, b, c, d, e, f, g)))))
    end)
   (λ p, match p with
    | inl (inl (inl (inl a))) => RegisterWorker a
    | inl (inl (inl (inr (inl (a, b, c, d, e, f, g))))) => CreateOp a b c d e f g
    | inl (inl (inl (inr (inr (a, b, c, d, e, f))))) => SymlinkOp a b c d e f
    | inl (inl (inr (inl (inl a)))) => PutInode a
    | inl (inl (inr (inl (inr (a, b))))) => PutInodeCas a b
    | inl (inl (inr (inr (inl a)))) => PutManifest a
    | inl (inl (inr (inr (inr (a, b, c))))) => CommitInodeManifest a b c
    | inl (inr (inl (inl (inl (a, b, c, d, e))))) => ReserveChunks a b c d e
    | inl (inr (inl (inl (inr a)))) => AbortChunkReservation a
    | inl (inr (inl (inr (inl (a, b))))) => ExpireChunkReservations a b
    | inl (inr (inl (inr (inr (a, b))))) => PruneClientRequests a b
    | inl (inr (inr (inl (inl (a, b, c, d))))) => CommitInodeManifestReserved a b c d
    | inl (inr (inr (inl (inr a)))) => TombstoneGcBatch a
    | inl (inr (inr (inr (inl a)))) => FinalizeGcTombstones a
    | inl (inr (inr (inr (inr (a, b))))) => InitializeGcDeleteTargets a b
    | inr (inl (inl (inl (inl a)))) => AcknowledgeGcDeletes a
    | inr (inl (inl (inl (inr (a, b, c))))) => BeginFlush a b c
    | inr (inl (inl (inr (inl (a, b, c, d))))) => CommitFlush a b c d
    | inr (inl (inl (inr (inr (a, b, c, d))))) => FailFlushConflict a b c d
    | inr (inl (inr (inl (inl a)))) => BeginGc a
    | inr (inl (inr (inl (inr a)))) => FinishGc a
    | inr (inl (inr (inr (inl (a, b, c, d, e))))) => ImportExternal a b c d e
    | inr (inl (inr (inr (inr (a, b, c))))) => Unlink a b c
    | inr (inr (inl (inl (inl (a, b))))) => OpenInode a b
    | inr (inr (inl (inl (inr (a, b))))) => CloseInode a b
    | inr (inr (inl (inr (inl a)))) => RecoverSession a
    | inr (inr (inl (inr (inr (a, b, c, d))))) => Link a b c d
    | inr (inr (inr (inl (inl (a, b, c, d, e))))) => SetXattr a b c d e
    | inr (inr (inr (inl (inr (a, b, c))))) => RemoveXattr a b c
    | inr (inr (inr (inr (inl (a, b, c))))) => Rmdir a b c
    | inr (inr (inr (inr (inr (a, b, c, d, e, f, g))))) => Rename a b c d e f g
    end).
Defined.
#[export] Instance MetaRaftRequest_eq_dec : EqDecision MetaRaftRequest.
Proof. solve_decision. Defined.
#[export] Instance MetaRaftRequest_countable : Countable MetaRaftRequest.
Proof. count (λ r, (request_id r, ledger_now_unix_ms r, op r)) (λ p, let '(a, b, c) := p in mkRequest a b c). Defined.
#[export] Instance Membership_eq_dec : EqDecision Membership.
Proof. solve_decision. Defined.
#[export] Instance EntryPayload_eq_dec : EqDecision EntryPayload.
Proof. solve_decision. Defined.
#[export] Instance Entry_eq_dec : EqDecision Entry.
Proof. solve_decision. Defined.
#[export] Instance Entry_countable : Countable Entry.
Proof.
  apply (inj_countable' (λ e, (log_id e, match payload e with
           Blank => None | Normal r => Some (inl r) | MembershipChange m => Some (inr (mem_configs m, mem_nodes m)) end))
        (λ p, mkEntry p.1 match p.2 with
           None => Blank | Some (inl r) => Normal r | Some (inr (a, b)) => MembershipChange (mkMembership a b) end)).
  by intros [? [|?|[]]].
Defined.

(** [Some] as its value, and a text that no value has for [None]. *)
Definition nullable_text : Serde (option LogId) := {|
  to_vec o := match o with Some x => to_vec (Serde := bare_text LogId) x | None => Ok [] end;
  from_slice b := match from_slice (Serde := bare_text LogId) b with Ok x => Ok (Some x) | Err e => Err e end
|}.

Lemma empty_log_rel `{!Serde Entry, !Serde LogId, !Serde Vote} : log_rel (mkRaftLogs ∅ ∅) empty_log.
Proof.
  split; cbn; [by intros k e []%lookup_empty_Some| |apply lookup_empty..]. intros key v. rewrite lookup_empty. split; [done|].
  by intros (k&e&_&[]%lookup_empty_Some&_).
Qed.

Lemma log_store_refines_witness :
  ∃ s', serve_log (Serde0 := bare_text Entry) (Serde1 := bare_text LogId) (Serde2 := nullable_text) (Serde3 := bare_text Vote)
          (CAppend leader_log) (mkRaftLogs ∅ ∅) = (Ok ADone, s') ∧
        log_rel (Serde0 := bare_text Entry) (Serde1 := bare_text LogId) (Serde3 := bare_text Vote) s'
          (spec_log (CAppend leader_log) empty_log).2.
Proof.
  refine (log_store_refines (Serde0 := bare_text Entry) (Serde1 := bare_text LogId) (Serde2 := nullable_text)
    (Serde3 := bare_text Vote) (SerdeLaws0 := text_serde_laws "002" Entry _ _) (SerdeLaws1 := text_serde_laws "002" LogId _ _)
    (SerdeLaws2 := text_serde_laws "002" Vote _ _) _ (CAppend leader_log) (mkRaftLogs ∅ ∅) empty_log empty_log_rel _); try done.
  by repeat constructor.
Defined.
