(* ===== verification/GcSystem.v ===== *)
(** * One collector is safe, two are not

    The interleaved system of [GcRace]: whatever the order of calls, every
    chunk that a file refers to stays readable, as long as one collector runs
    at a time.  With two collectors a concrete schedule loses a chunk that a
    writer has just committed. *)

From S2P Require Import Prelude Types Bytes Extents Keys ChunkStore Pack Ufs MetaDb Namespace NamespaceInv.
From S2P Require Import Evolve InodeData Gc GcInv Membership Ledger Apply HeedStore MetaStore Client.
From S2P Require Import ClientIo ClientFlush ClientData ApplyInv Calm Programs GcRace Open Machine.

Local Open Scope N_scope.

Section system.
Context {hash : bytes → ChunkId} {Ct U : Type} `{!ChunkStore hash Ct}.
Context (targets : GcTargets Ct).

Abbreviation Cl := (FluxClient Db Ct U).
Abbreviation Sh := (Shared (Ct := Ct) (U := U)).

(** An operation under way: the calls it has left and its client record. *)
Definition Proc : Type := prog Cl unit * Cl.
Definition forget {A} (p : prog Cl A) : prog Cl unit := seq_prog p (λ _, Done tt).

Inductive proc_step : Proc → Sh → Proc → Sh → Prop :=
  | proc_call {B} need (m : Cl → B * Cl) k l s b c :
      need (enter s l) → m (enter s l) = (b, c) →
      proc_step (Call need m k, l) s (k b, c) (shared c).

(** A write or a change of attributes under ticket [t], and a pass of the
    collector. *)
Inductive writer_op (t : WriteTicketId) : prog Cl unit → Prop :=
  | op_write clock ms debug ufs now op_id ino offset data :
      writer_op t (forget (@write_at_calls hash Db Ct U (heed_meta clock ms debug) _ ufs
                             now t op_id ino offset data))
  | op_setattr clock ms debug now op_id ino attrs :
      writer_op t (forget (@setattr_calls hash Db Ct U (heed_meta clock ms debug) _
                             now t op_id ino attrs)).

Inductive collector_op : prog Cl unit → Prop :=
  | op_pass clock ms debug batch_size :
      collector_op (forget (@gc_pass_calls hash Db Ct U (heed_meta clock ms debug) _ targets batch_size)).

Record System := mkSystem {
  sys_shared : Sh;
  sys_collector : option Proc;
  sys_writers : gmap WriteTicketId Proc
}.

(** Operations begin with a new ticket, make their calls one at a time and
    may stop half-way; anybody sends other requests to the metadata store,
    and the underlying file system changes by itself. *)
Inductive step : System → System → Prop :=
  | step_writer t s s' p p' col ws :
      ws !! t = Some p → store_room (sh_meta s) → proc_step p s p' s' →
      step (mkSystem s col ws) (mkSystem s' col (<[t := p']> ws))
  | step_collector s s' p p' ws :
      store_room (sh_meta s) → proc_step p s p' s' →
      step (mkSystem s (Some p) ws) (mkSystem s' (Some p') ws)
  | step_request now o r d' s col ws :
      store_room (sh_meta s) → admissible (sh_meta s) o → calm_op o = true →
      dispatch now o (sh_meta s) = (r, d') →
      step (mkSystem s col ws) (mkSystem (mkShared d' (sh_chunks s) (sh_ufs s)) col ws)
  | step_ufs u s col ws :
      step (mkSystem s col ws) (mkSystem (mkShared (sh_meta s) (sh_chunks s) u) col ws)
  | step_begin t p l s col ws :
      ws !! t = None → reservations (sh_meta s) !! t = None → writer_op t p →
      step (mkSystem s col ws) (mkSystem s col (<[t := (p, l)]> ws))
  | step_collect p l s ws :
      collector_op p → step (mkSystem s None ws) (mkSystem s (Some (p, l)) ws)
  | step_stop t s col ws :
      step (mkSystem s col ws) (mkSystem s col (delete t ws))
  | step_stop_collector s col ws :
      step (mkSystem s col ws) (mkSystem s None ws).

(** Every operation under way is safe in the present state. *)
Definition writers_safe (ws : gmap WriteTicketId Proc) (s : Sh) : Prop :=
  ∀ t p l, ws !! t = Some (p, l) → safe (writer_rely t) (writer_does t) p anything l s.
Definition collector_safe (col : option Proc) (s : Sh) : Prop :=
  ∀ p l, col = Some (p, l) → safe collector_rely collector_does p anything l s.

Lemma forget_safe {A} R G `{!PreOrder R} (p : prog Cl A) l (s : Sh) :
  safe R G p anything l s → safe R G (forget p) anything l s.
Proof. intros Hp. eapply safe_seq; [done..|]. intros. by apply safe_done. Qed.

Lemma writers_rely ws s s' :
  (∀ t, writer_rely t s s') → writers_safe ws s → writers_safe ws s'.
Proof. intros HR Hw t p l Hp. eapply safe_rely; [apply _|apply HR|by apply Hw]. Qed.

Lemma collector_relies col s s' : collector_rely s s' → collector_safe col s → collector_safe col s'.
Proof. intros HR Hw p l Hp. eapply safe_rely; [apply _|apply HR|by apply Hw]. Qed.

(** A step of an operation keeps to its guarantee and leaves it safe. *)
Lemma proc_step_safe R G `{!PreOrder R} p l s p' l' s' :
  proc_step (p, l) s (p', l') s' → sound s → store_room (sh_meta s) →
  safe R G p anything l s → G s s' ∧ safe R G p' anything l' s'.
Proof.
  intros H Hso Hroom Hs. inversion H as [B need m k l1 s1 b c Hn Hm Hp Hs1 Hp' Hs']; subst.
  specialize (Hs s ltac:(done) Hso Hroom Hn). by rewrite Hm in Hs.
Qed.

Definition sys_inv (σ : System) : Prop :=
  sound (sys_shared σ) ∧ writers_safe (sys_writers σ) (sys_shared σ) ∧
  collector_safe (sys_collector σ) (sys_shared σ).

Lemma step_inv σ σ' : deletes_only targets → sys_inv σ → step σ σ' → sys_inv σ'.
Proof.
  intros Hdel (Hso&Hw&Hc) H. destruct H as
    [t s s' [p l] [p' l'] col ws Hp Hroom Hst|s s' [p l] [p' l'] ws Hroom Hst|now o r d' s col ws Hroom Hadm Hop Hd
    |u s col ws|t p l s col ws Hf Hu Hop|p l s ws Hop|t s col ws|s col ws]; cbn in *.
  - apply (proc_step_safe (writer_rely t) (writer_does t)) in Hst as [HG Hs]; [|done|done|by apply Hw].
    split_and!; cbn; [apply HG| |eapply collector_relies; [by eapply writer_collector|done]].
    intros t' q l0 [[<- [= <- <-]]|[Hne Hq]]%lookup_insert_Some; [done|].
    eapply safe_rely; [apply _|by eapply writer_writer|by apply Hw].
  - apply (proc_step_safe collector_rely collector_does) in Hst as [HG Hs]; [|done|done|by apply Hc].
    split_and!; cbn; [apply HG| |by intros ? ? [= <- <-]].
    eapply writers_rely; [|done]. intros t. by apply collector_writer.
  - assert (calm (sh_meta s) d') as Hcalm by (eapply dispatch_calm; try done; apply Hso).
    assert (∀ t, writer_does t s (mkShared d' (sh_chunks s) (sh_ufs s))) as HG.
    { intros t. apply calm_writer; try done; [eapply dispatch_store|eapply dispatch_workers]; try done; apply Hso. }
    split_and!; cbn; [apply (HG 0)|eapply writers_rely; [|done]|eapply collector_relies; [by eapply (writer_collector 0)|done]].
    intros t. apply (writer_writer (t + 1)); [lia|done].
  - split_and!; cbn; [by destruct Hso| |].
    + eapply writers_rely; [|done]. by split.
    + eapply collector_relies; [|done]. by intros c.
  - split_and!; cbn; [done| |done]. intros t' q l0 [[<- [= <- <-]]|[_ Hq]]%lookup_insert_Some; [|by apply Hw].
    destruct Hop; apply forget_safe; [apply _| |apply _|]; [by apply safe_write_at|by apply safe_setattr].
  - split_and!; cbn; [done..|]. intros q l0 [= <- <-]. destruct Hop. apply forget_safe; [apply _|]. by apply safe_gc_pass.
  - split_and!; cbn; [done| |done]. intros t' q l0 [_ Hq]%lookup_delete_Some. by apply Hw.
  - by split_and!.
Qed.


(** ** Running a schedule *)

Definition advance (p : Proc) (s : Sh) : Proc * Sh :=
  match p with
  | (Done a, l) => ((Done a, l), s)
  | (Call _ m k, l) => let '(b, c) := m (enter s l) in ((k b, c), shared c)
  end.

Definition ready (p : Proc) (s : Sh) : Prop :=
  match p with
  | (Done _, _) => False
  | (Call need _ _, l) => need (enter s l)
  end.

Lemma advance_step p s : ready p s → proc_step p s (advance p s).1 (advance p s).2.
Proof.
  destruct p as [[a|B need m k] l]; [done|]. cbn. intros Hn.
  destruct (m (enter s l)) as [b c] eqn:Hm. by constructor.
Qed.

(** [n] calls of one operation. *)
Fixpoint drive (n : nat) (p : Proc) (s : Sh) : Proc * Sh :=
  match n with
  | O => (p, s)
  | S n => let '(p, s) := advance p s in drive n p s
  end.

Fixpoint can_drive (n : nat) (p : Proc) (s : Sh) : Prop :=
  match n with
  | O => True
  | S n => room_check (sh_meta s) = true ∧ ready p s ∧ let '(p, s) := advance p s in can_drive n p s
  end.

Lemma drive_steps n t p s :
  can_drive n p s →
  rtc step (mkSystem s None {[t := p]}) (mkSystem (drive n p s).2 None {[t := (drive n p s).1]}).
Proof.
  revert p s. induction n as [|n IH]; intros p s; [done|]. cbn. intros (Hroom&Hr&Hn).
  pose proof (advance_step p s Hr) as Hs. destruct (advance p s) as [p' s']. eapply rtc_l; [|by apply IH].
  assert (<[t := p']> {[t := p]} = ({[t := p']} : gmap _ Proc)) as <- by apply insert_singleton_eq.
  eapply step_writer; [apply lookup_singleton_eq| |done]. by apply room_check_ok.
Qed.

(** [order] names the operation that makes the next call. *)
Fixpoint schedule (order : list nat) (ps : list Proc) (s : Sh) : list Proc * Sh :=
  match order with
  | [] => (ps, s)
  | i :: order =>
      match ps !! i with
      | None => schedule order ps s
      | Some p => let '(p, s) := advance p s in schedule order (<[i := p]> ps) s
      end
  end.
End system.

(** ** Witness: a file is created and written *)

#[local] Instance race_meta : MetaStore Db := heed_meta (λ _, 7%Z) 1000 (λ _, "").
#[local] Instance race_chunks : ChunkStore toy_hash PackStore := pack_chunk_store toy_hash toy_hash_width.

Abbreviation Client := (FluxClient Db PackStore unit).
Definition race_start : Shared := mkShared (fresh_store 0) new_store tt.
Definition race_create : MetaRaftOp := CreateOp ROOT_INODE "a" Regular 420 0 0 None.
Definition race_created : Shared := mkShared (dispatch example_now race_create (fresh_store 0)).2 new_store tt.
Definition race_local : Client := client_new (fresh_store 0) new_store tt.
Definition race_writer (t : WriteTicketId) : Proc (Ct := PackStore) (U := unit) :=
  (forget (write_at_calls no_ufs 5%Z t 11 2 0 demo_data), race_local).
Definition race_end : Proc * Shared := drive 4 (race_writer 9) race_created.
Definition race_inode : Inode := default (root_inode 0) (inodes (sh_meta race_end.2) !! 2).
Definition race_manifest : Manifest := default (Manifest_empty 2 1) (manifests (sh_meta race_end.2) !! 1).

Lemma race_start_sound : sound race_start.
Proof.
  split; [apply fresh_store_sm|apply fresh_store_sm|apply new_store_wf|].
  intros c (id&i&mid&m&_&_&Hm&_). cbn in Hm. by rewrite lookup_empty in Hm.
Qed.

Lemma race_runs : rtc (step one_target) (mkSystem race_start None ∅) (mkSystem race_end.2 None {[9 := race_end.1]}).
Proof.
  apply (rtc_l _ _ (mkSystem race_created None ∅)); [|apply (rtc_l _ _ (mkSystem race_created None {[9 := race_writer 9]}))].
  - apply (step_request _ example_now race_create (dispatch example_now race_create (fresh_store 0)).1 (sh_meta race_created));
      [apply fresh_store_room|done|done|]. apply surjective_pairing.
  - assert (<[9 := race_writer 9]> ∅ = ({[9 := race_writer 9]} : gmap N Proc)) as <- by done.
    apply step_begin; [done|vm_compute; reflexivity|]. constructor.
  - apply (drive_steps one_target 4 9 (race_writer 9) race_created). vm_compute. split_and!; try done.
Qed.


(** ** Two collectors *)

(** The store holds a chunk that no file refers to. *)
Definition race_orphan : Shared :=
  mkShared (sh_meta race_created) (put toy_hash demo_data new_store).2 tt.
Definition race_pass : Proc (Ct := PackStore) (U := unit) := (forget (gc_pass_calls one_target 32), race_local).

(** The first collector buries the chunk and stops before the deletion; the
    second finishes the burial; the chunk is written again, by a writer that
    finds no tombstone; the first collector goes on. *)
Definition race_order : list nat := replicate 9 0%nat ++ replicate 6 1%nat ++ replicate 4 2%nat ++ [0%nat].
Definition race_lost : Shared := (schedule race_order [race_pass; race_pass; race_writer 9] race_orphan).2.

Lemma race_orphan_sound : sound race_orphan.
Proof.
  destruct (put_law toy_hash toy_hash_width new_store demo_data) as (k&Hk&Hwf&_); [apply new_store_wf|by apply small_room with 1|].
  assert (sm_inv (sh_meta race_created)) as Hsm.
  { eapply execute_sm; [apply (fresh_store_sm 0)|apply fresh_store_room|exact (I : admissible _ race_create)|].
    apply surjective_pairing. }
  split; [apply Hsm|apply Hsm| |].
  - cbn. by rewrite Hk.
  - intros c (id&i&mid&m&_&_&Hm&_). exfalso.
    assert (bool_decide (manifests (sh_meta race_created) = ∅) = true) as He%bool_decide_eq_true by (vm_compute; reflexivity).
    cbn in Hm. change (manifests (sh_meta race_created) !! mid = Some m) in Hm. by rewrite He, lookup_empty in Hm.
Qed.

(** C37: two collectors lose data.  From a sound state, two passes of the
    collector and one write interleave so that the write is committed and its
    only chunk is gone: the deletion list that the first collector holds
    outlives the tombstones it was taken from. *)
Theorem two_collectors_lose :
  sound race_orphan ∧
  ∃ i mid m, inodes (sh_meta race_lost) !! 2 = Some i ∧ i_manifest_id i = Some mid ∧
    manifests (sh_meta race_lost) !! mid = Some m ∧ local_chunks m = [toy_hash demo_data] ∧
    cs_get (sh_chunks race_lost) (toy_hash demo_data) = Err NotFound.
Proof.
  split; [apply race_orphan_sound|].
  assert (match inodes (sh_meta race_lost) !! 2 with
          | Some i => match i_manifest_id i with
                      | Some mid => match manifests (sh_meta race_lost) !! mid with
                                    | Some m => bool_decide (local_chunks m = [toy_hash demo_data])
                                    | None => false
                                    end
                      | None => false
                      end
          | None => false
          end = true) as H by (vm_compute; reflexivity).
  destruct (inodes (sh_meta race_lost) !! 2) as [i|]; [|done].
  destruct (i_manifest_id i) as [mid|] eqn:Hmid; [|done].
  destruct (manifests (sh_meta race_lost) !! mid) as [m|] eqn:Hm; [|done].
  exists i, mid, m. apply bool_decide_eq_true in H. by split_and!.
Qed.
