(* ===== verification/Refine.v ===== *)
(** * The namespace contract

    What clients see of the namespace is a map from (directory, name) to
    inode.  [names_after] is its abstract semantics: what each request does
    to the map, given the response.  Every request implements it, and a
    request that answers with an error leaves the map alone. *)

From S2P Require Import MetaDb Namespace NamespaceInv Evolve Rename InodeData Gc GcInv.
From S2P Require Import Membership Ledger Apply Frame ApplyInv Open Machine.

Local Open Scope N_scope.

(** ** Abstract semantics *)

Abbreviation names := (gmap (N * string) N).

Definition names_after (o : MetaRaftOp) (resp : MetaRaftResponse) (m : names) : names :=
  match o, resp with
  | _, RErr _ => m
  | CreateOp p n _ _ _ _ _, RInode i
  | SymlinkOp p n _ _ _ _, RInode i
  | ImportExternal p n _ _ _, RInode i => <[(p, n) := i_id i]> m
  | Link id p n _, _ => <[(p, n) := id]> m
  | Unlink p n _, _ | Rmdir p n _, _ => delete (p, n) m
  | Rename op on _ np nn _ _, RInode i =>
      if decide (m !! (np, nn) = Some (i_id i)) then m
      else <[(np, nn) := i_id i]> (delete (op, on) m)
  | _, _ => m
  end.

(** ** Operations *)

Lemma alloc_names d r d' : alloc_inode d = (r, d') → dentries d' = dentries d.
Proof. apply framed_run, rows_framed. Qed.

Section operations.
Context (now : nat → Z) (d : Db) (Hns : ns_inv d) (Hroom : room d).

Lemma bump_names t p e r d' :
  load_and_bump_parent_dir t p e d = (r, d') → dentries d' = dentries d.
Proof. apply framed_run, bump_framed. Qed.

Lemma create_names e p n ft mode uid gid tgt r d' :
  create_node_in_txn now e p n ft mode uid gid tgt d = (r, d') →
  match r with
  | Ok i => dentries d' = <[(p, n) := i_id i]> (dentries d)
  | Err _ => dentries d' = dentries d
  end.
Proof.
  intros H. unfold create_node_in_txn in H.
  db_step H H1; db_inv H1; [|done]. db_step H H2; db_inv H2. db_step H H3; db_inv H3; [|done].
  apply txn_bind_inv in H as [(ip&d1&H4&H)|(err&H4&->)]; [|by eapply bump_names].
  apply bump_names in H4. rewrite txn_bind_gets in H.
  apply txn_bind_inv in H as [(id&d2&H5&H)|(err&H5&->)]; [|by apply alloc_names in H5; congruence].
  assert (dentries d2 = dentries d1) as Hd2 by (by eapply alloc_names).
  db_step H H6; db_inv H6. db_step H H7; db_inv H7.
  db_step H H8; [|by case_match; db_inv H8]. db_inv H.
  case_match; db_inv H8; simpl; congruence.
Qed.

Lemma import_names e p n template manifest r d' :
  import_external_in_txn now e p n template manifest d = (r, d') →
  match r with
  | Ok i => dentries d' = <[(p, n) := i_id i]> (dentries d)
  | Err _ => dentries d' = dentries d
  end.
Proof.
  intros H. unfold import_external_in_txn in H.
  db_step H H1; db_inv H1; [|done]. db_step H H2; db_inv H2; [|done].
  db_step H H3; db_inv H3. db_step H H4; db_inv H4; [|done].
  apply txn_bind_inv in H as [(ip&d1&H5&H)|(err&H5&->)]; [|by eapply bump_names].
  apply bump_names in H5.
  apply txn_bind_inv in H as [(id&d2&H6&H)|(err&H6&->)]; [|by apply alloc_names in H6; congruence].
  assert (dentries d2 = dentries d1) as Hd2 by (by eapply alloc_names). clear H6.
  set (inode := match i_locality_fields _ with Some _ => _ | None => _ end) in H.
  assert (i_id inode = id) as Hid by (unfold inode; by destruct (i_locality_fields _)).
  clearbody inode.
  apply txn_bind_inv in H as [(x&d3&H6&H)|(err&H6&->)].
  - assert (dentries d3 = dentries d2) as Hd3.
    { eapply framed_run; [|exact H6]. destruct manifest; frame. }
    assert (i_id x = id) as Hx by (destruct manifest; db_inv H6; done).
    db_inv H. simpl. congruence.
  - transitivity (dentries d2); [|congruence].
    eapply framed_run; [|exact H6]. destruct manifest; frame.
Qed.

Lemma link_names e id p n r d' :
  link_in_txn now e id p n d = (r, d') →
  match r with
  | Ok i => dentries d' = <[(p, n) := id]> (dentries d)
  | Err _ => dentries d' = dentries d
  end.
Proof.
  intros H. unfold link_in_txn in H.
  db_step H H1; db_inv H1; [|done]. db_step H H2; db_inv H2.
  db_step H H3; db_inv H3; [|done]. db_step H H4; db_inv H4; [|done].
  db_step H H5; db_inv H5; [|done]. db_step H H6; db_inv H6; [|done].
  apply txn_bind_inv in H as [(ip&d1&H7&H)|(err&H7&->)]; [|by eapply bump_names].
  apply bump_names in H7. db_step H H8; db_inv H8; [|done]. db_inv H. simpl.
  by rewrite H7, (ns_id _ _ Hns _ _ Hi).
Qed.

(** Removing the last link never fails under the invariant. *)
Lemma remove_link_ok t i d' r d'' :
  i_link_count i ≠ 0 → i_generation i < U64_MAX → reservations_keyed d' →
  remove_inode_link_in_txn t i d' = (r, d'') → r = Ok tt ∧ dentries d'' = dentries d'.
Proof.
  intros Hl Hg Hk H. split; [|by eapply framed_run, H; apply remove_link_framed].
  unfold remove_inode_link_in_txn, next_generation in H.
  db_step H H1; db_inv H1; bools; [|done]. cbn [set_link_count i_generation] in H.
  db_step H H2; db_inv H2;
    [|destruct (checked_add (i_generation i) 1) eqn:Hc; [done|];
      apply checked_add_None in Hc; lia].
  rewrite txn_bind_gets in H.
  case_match; [|by db_inv H]. rewrite delete_inode_in_txn_spec in H by done. by db_inv H.
Qed.

Lemma unlink_names e p n r d' :
  unlink_in_txn now e p n d = (r, d') →
  match r with
  | Ok _ => dentries d' = delete (p, n) (dentries d)
  | Err _ => dentries d' = dentries d
  end.
Proof.
  intros H. unfold unlink_in_txn in H.
  db_step H H1; db_inv H1. db_step H H2; db_inv H2; [|done].
  destruct (dentries d !! (p, n)) as [?|] eqn:Hd; simplify_eq/=.
  db_step H H3; db_inv H3; [|done]. db_step H H4; db_inv H4; bools; [|done].
  apply txn_bind_inv in H as [(ip&d1&H7&H)|(err&H7&->)]; [|by eapply bump_names].
  destruct (bump_cases _ _ _ _ _ _ _ Hns H7) as [(?&?&->)|(j&Hj&Hdir&_&_&->&Hns1)]; [done|].
  db_step H H8; db_inv H8. apply remove_link_ok in H as [-> ->]; [done| | |].
  - rewrite (ns_links _ _ Hns _ _ Hi) by done. assert (Hp := nlinks_pos _ _ _ Hd). lia.
  - by apply (proj2 Hroom _ _ Hi).
  - by eapply (ns_reservations_keyed _ d).
Qed.

Lemma rmdir_names e p n r d' :
  rmdir_in_txn now e p n d = (r, d') →
  match r with
  | Ok _ => dentries d' = delete (p, n) (dentries d)
  | Err _ => dentries d' = dentries d
  end.
Proof.
  intros H. unfold rmdir_in_txn in H.
  db_step H H1; db_inv H1. db_step H H2; db_inv H2; [|done].
  db_step H H3; db_inv H3; [|done]. db_step H H4; db_inv H4; [|done].
  rewrite txn_bind_gets in H. db_step H H5; db_inv H5; [|done].
  apply txn_bind_inv in H as [(ip&d1&H7&H)|(err&H7&->)]; [|by eapply bump_names].
  destruct (bump_cases _ _ _ _ _ _ _ Hns H7) as [(?&?&->)|(j&Hj&Hdir&_&_&->&Hns1)]; [done|].
  db_step H H8; db_inv H8. rewrite delete_inode_in_txn_spec in H; [by injection H as <- <-|].
  by eapply (ns_reservations_keyed _ d).
Qed.

Lemma rename_names eop op on enp np nn no_replace r d' :
  rename_in_txn now eop op on enp np nn no_replace d = (r, d') →
  match r with
  | Ok i => dentries d' = if decide (dentries d !! (np, nn) = Some (i_id i)) then dentries d
                          else <[(np, nn) := i_id i]> (delete (op, on) (dentries d))
  | Err _ => dentries d' = dentries d
  end.
Proof.
  intros H. destruct (rename_cases _ _ _ _ _ _ _ _ _ _ _ Hns Hroom H) as (Hns'&_&Heff).
  destruct r as [i|e]; [|by rewrite (Heff : d' = d)].
  destruct Heff as (sid&src&Hold&Hsrc&Hi&<-&[[-> Hnew]|(Hde&_&Hnew&_)]);
    [by rewrite decide_True|by rewrite decide_False].
Qed.
End operations.

Lemma control_op_names now o : store_op o = false → framed dentries (dispatch now o).
Proof.
  destruct o; intros Ho; try discriminate Ho; cbn [dispatch]; apply framed_respond;
    unfold register_worker_in_txn, prune_client_requests_in_txn, begin_gc_in_txn,
      finish_gc_in_txn; frame; apply expire_framed.
Qed.

Lemma names_after_err o e m : names_after o (RErr e) m = m.
Proof. by destruct o. Qed.

Lemma names_after_data o resp m : name_op o = false → names_after o resp m = m.
Proof. by destruct o, resp. Qed.

Lemma dispatch_names now o d resp d' :
  ns_inv d → room d → dispatch now o d = (Ok resp, d') →
  dentries d' = names_after o resp (dentries d).
Proof.
  intros Hns Hroom H. destruct (name_op o) eqn:Hn.
  - destruct o; try discriminate Hn; cbn [dispatch] in H;
      apply respond_inv in H as (r0&H&[= ->]).
    + apply create_names in H. by destruct r0.
    + unfold symlink_in_txn in H. db_step H H1; db_inv H1; [|done].
      db_step H H2; db_inv H2; [|done]. apply create_names in H. by destruct r0.
    + apply import_names in H. by destruct r0.
    + apply unlink_names in H; try done. by destruct r0.
    + apply link_names in H; try done. by destruct r0.
    + apply rmdir_names in H; try done. by destruct r0.
    + apply rename_names in H; try done. by destruct r0.
  - rewrite names_after_data by done. eapply framed_run; [|exact H].
    destruct (store_op o) eqn:Ho; [by apply data_op_framed|by apply control_op_names].
Qed.

(** Whether a request is answered from the ledger. *)
Definition answered (d : Db) (req : MetaRaftRequest) : bool :=
  match dedup_id req with
  | Some id => is_some (live_row d id (ledger_now_unix_ms req))
  | None => false
  end.


