(* ===== verification/NsProps.v ===== *)
(** * Properties of the namespace operations

    Functional behaviour of the operations that clients use on names, links,
    open files and extended attributes. *)

From S2P Require Import MetaDb Namespace NamespaceInv Evolve Rename InodeData Gc GcInv.
From S2P Require Import Membership Ledger Apply Frame ApplyInv Open Machine Refine.

Local Open Scope N_scope.

Lemma example_ns : ns_inv (msm_store example_machine).
Proof. apply (reachable_sm _ example_reachable). Qed.

(** ** Subtrees and renames *)

(** The subtree search of rename always terminates within its fuel without
    an error, and answers whether the candidate is reachable from the
    ancestor through directory entries. *)
Theorem descendant_exact d a c :
  ns_inv d → ∃ b, inode_is_descendant d a c = Ok b ∧ (b = true ↔ reach (dentries d) a c).
Proof. intros Hns. by apply inode_is_descendant_spec. Qed.

Lemma descendant_exact_witness :
  ns_inv (msm_store example_machine) ∧ reach (dentries (msm_store example_machine)) ROOT_INODE 2.
Proof.
  split; [exact example_ns|].
  destruct (descendant_exact (msm_store example_machine) ROOT_INODE 2 example_ns) as (b&Hb&Hr).
  apply Hr. vm_compute in Hb. injection Hb as <-. reflexivity.
Defined.

(** A rename is atomic and cannot make the tree cyclic: refused, it leaves
    the store untouched; accepted, it either found both names on the same
    inode, or rebinds exactly that entry outside the moved subtree, never
    replacing an entry under [no_replace], and every row other than the
    source, the two parents and the replaced target is unchanged.  The
    namespace invariant holds afterwards. *)
Theorem rename_atomic now eop op on enp np nn no_replace d r d' :
  ns_inv d → room d → rename_in_txn now eop op on enp np nn no_replace d = (r, d') →
  ns_inv d' ∧ rename_effect now op on np nn no_replace d r d'.
Proof.
  intros Hns Hroom H. destruct (rename_cases _ _ _ _ _ _ _ _ _ _ _ Hns Hroom H) as (?&_&?). done.
Qed.

Lemma example_room : room (msm_store example_machine).
Proof. apply room_check_ok. vm_compute. reflexivity. Qed.

Lemma rename_atomic_witness :
  ∃ i d', rename_in_txn example_now None ROOT_INODE "a" None ROOT_INODE "b" true
            (msm_store example_machine) = (Ok i, d') ∧ ns_inv d'.
Proof.
  destruct (rename_in_txn example_now None ROOT_INODE "a" None ROOT_INODE "b" true
    (msm_store example_machine)) as [[i|e] d'] eqn:Hrun;
    [|exfalso; vm_compute in Hrun; discriminate Hrun].
  exists i, d'. split; [reflexivity|].
  exact (proj1 (rename_atomic _ _ _ _ _ _ _ _ _ _ _ example_ns example_room Hrun)).
Defined.

(** ** Versions *)

(** The requests on names, links, open files and extended attributes. *)
Definition ns_request (o : MetaRaftOp) : bool :=
  match o with
  | CreateOp _ _ _ _ _ _ _ | SymlinkOp _ _ _ _ _ _ | Unlink _ _ _ | OpenInode _ _
  | CloseInode _ _ | RecoverSession _ | Link _ _ _ _ | SetXattr _ _ _ _ _
  | RemoveXattr _ _ _ | Rmdir _ _ _ | Rename _ _ _ _ _ _ _ => true
  | _ => false
  end.

Lemma ns_request_evolves now o d r d' :
  ns_inv d → room d → ns_request o = true → dispatch now o d = (r, d') → evolves d d'.
Proof.
  intros Hns Hroom Ho H. destruct o; try discriminate Ho; cbn [dispatch] in H;
    apply respond_inv in H as (r0&H&->).
  - by eapply create_evolves.
  - by eapply symlink_evolves.
  - by eapply unlink_evolves.
  - by eapply open_evolves.
  - by eapply close_evolves.
  - by eapply recover_evolves.
  - by eapply link_evolves.
  - by eapply set_xattr_evolves.
  - by eapply remove_xattr_evolves.
  - by eapply rmdir_evolves.
  - by destruct (rename_cases _ _ _ _ _ _ _ _ _ _ _ Hns Hroom H) as (_&?&_).
Qed.

(** Generations are reliable compare-and-swap tokens.  Whatever a
    namespace request does, an inode that is still there either has the very
    same row, or a strictly larger generation and the same data; a row that
    was not there has an id never handed out before. *)
Theorem generations_advance now o d r d' id i' :
  ns_inv d → room d → ns_request o = true → dispatch now o d = (r, d') →
  inodes d' !! id = Some i' →
  (∃ i, inodes d !! id = Some i ∧ data_of i' = data_of i ∧
        (i' = i ∨ i_generation i < i_generation i')) ∨
  (∃ n, next_inode d = Some n ∧ n ≤ id).
Proof.
  intros Hns Hroom Ho H Hi. assert (Hev := ns_request_evolves _ _ _ _ _ Hns Hroom Ho H).
  destruct (ev_inodes _ _ Hev _ _ Hi) as [(i&?&?&?)|(n&?&?&_)]; eauto 10.
Qed.

Lemma generations_advance_witness :
  ∃ d' i', dispatch example_now (Unlink ROOT_INODE "a" None) (msm_store example_machine)
             = (Ok REmpty, d') ∧ inodes d' !! ROOT_INODE = Some i' ∧
  ∃ i, inodes (msm_store example_machine) !! ROOT_INODE = Some i ∧
       (i' = i ∨ i_generation i < i_generation i').
Proof.
  destruct (dispatch example_now (Unlink ROOT_INODE "a" None) (msm_store example_machine))
    as [r d'] eqn:Hrun.
  destruct (inodes d' !! ROOT_INODE) as [i'|] eqn:Hi.
  2:{ exfalso. apply (f_equal snd) in Hrun. simpl in Hrun. rewrite <-Hrun in Hi.
      vm_compute in Hi. discriminate Hi. }
  exists d', i'.
  assert (H := generations_advance example_now (Unlink ROOT_INODE "a" None)
    (msm_store example_machine) r d' ROOT_INODE i' example_ns example_room eq_refl Hrun Hi).
  assert (r = Ok REmpty) as -> by (apply (f_equal fst) in Hrun; symmetry; exact Hrun).
  split; [reflexivity|].
  split; [exact Hi|]. destruct H as [(i&Hold&_&Hg)|(n&Hn&Hle)].
  - exists i. split; [exact Hold|exact Hg].
  - exfalso. vm_compute in Hn. injection Hn as <-. vm_compute in Hle. apply Hle. reflexivity.
Defined.

(** ** Names *)

(** Creating a node and looking its name up gives that node: its id is the
    next free one, its parent's generation has advanced, and every other
    binding of the directory tree is as before. *)
Theorem create_then_lookup now e p n ft mode uid gid d i d' :
  ns_inv d → room d → create_in_txn now e p n ft mode uid gid d = (Ok i, d') →
  lookup_name d' p n = Ok i ∧ next_inode d = Some (i_id i) ∧ inodes d !! i_id i = None ∧
  (∃ ip ip', inodes d !! p = Some ip ∧ inodes d' !! p = Some ip' ∧
             i_generation ip' = i_generation ip + 1) ∧
  dentries d' = <[(p, n) := i_id i]> (dentries d).
Proof.
  intros Hns [Hroom1 Hroom2] H. assert (Hn := create_names _ _ _ _ _ _ _ _ _ _ _ _ H).
  unfold create_in_txn, create_node_in_txn in H.
  db_step H H1; db_inv H1. db_step H H2; db_inv H2. db_step H H3; db_inv H3.
  apply txn_bind_inv in H as [(x&d1&H4&H)|(err&_&?)]; [|done].
  destruct (bump_cases _ _ _ _ _ _ _ Hns H4) as [(?&?&_)|(ip&Hip&Hd&_&_&->&Hns1)]; [done|].
  rewrite txn_bind_gets in H. apply txn_bind_inv in H as [(id&d2&H5&H)|(err&_&?)]; [|done].
  destruct (alloc_inode_cases _ _ _ _ Hns1 H5) as (m&Hm&[= ->]&->).
  db_step H H6; db_inv H6. db_step H H7; db_inv H7.
  apply txn_bind_inv in H as [([]&d3&H8&H)|(err&_&?)]; [|done].
  unfold mret, txn_ret in H. injection H as <- <-. simpl in Hm, Hn |- *.
  assert (inodes d3 = <[m := new_node m ft mode uid gid None (now 1%nat)]>
            (<[p := bumped (now 0%nat) ip]> (inodes d))) as Hi.
  { case_match; db_inv H8; done. }
  assert (inodes d !! m = None) as Hfresh.
  { apply eq_None_not_Some. destruct (ns_next _ _ Hns) as (m'&Hm'&Hlt).
    intros Hs%Hlt. simplify_eq. lia. }
  assert (m ≠ p) as Hne by congruence.
  assert (inodes d3 !! p = Some (bumped (now 0%nat) ip)) as Hp
    by (by rewrite Hi, lookup_insert_ne, lookup_insert_eq).
  assert (inodes d3 !! m = Some (new_node m ft mode uid gid None (now 1%nat))) as Hc
    by (by rewrite Hi, lookup_insert_eq).
  split; [|split; [done|split; [done|split; [|done]]]].
  - unfold lookup_name. rewrite Hp. simpl. rewrite bool_decide_false by (simpl; congruence).
    rewrite Hn, lookup_insert_eq. simpl. by rewrite Hc.
  - exists ip, (bumped (now 0%nat) ip). split_and!; try done. simpl.
    specialize (Hroom2 _ _ Hip). unfold sat_add_w. lia.
Qed.

Lemma create_then_lookup_witness :
  ∃ i d', create_in_txn example_now None ROOT_INODE "d" Directory 493 0 0
            (msm_store example_machine) = (Ok i, d') ∧ lookup_name d' ROOT_INODE "d" = Ok i.
Proof.
  destruct (create_in_txn example_now None ROOT_INODE "d" Directory 493 0 0
    (msm_store example_machine)) as [[i|e] d'] eqn:Hrun;
    [|exfalso; vm_compute in Hrun; discriminate Hrun].
  exists i, d'. split; [reflexivity|].
  exact (proj1 (create_then_lookup _ _ _ _ _ _ _ _ _ _ _ example_ns example_room Hrun)).
Defined.

(** [readdir] of a directory lists exactly its bindings, once each, and
    [lookup] agrees with every entry it lists. *)
Theorem readdir_exact d dir l :
  ns_inv d → readdir d dir = Ok l →
  NoDup l ∧
  (∀ e, e ∈ l ↔ d_parent e = dir ∧ dentries d !! (dir, d_name e) = Some (d_child e)) ∧
  (∀ e, e ∈ l → ∃ i, lookup_name d dir (d_name e) = Ok i ∧ i_id i = d_child e).
Proof.
  intros Hns H. unfold readdir in H.
  destruct (inodes d !! dir) as [i|] eqn:Hi; [|done]. simpl in H.
  case_bool_decide as Hd; [done|]. injection H as <-.
  assert (∀ e, e ∈ (λ nc, mkDentry dir nc.1 nc.2) <$> dir_entries d dir ↔
    d_parent e = dir ∧ dentries d !! (dir, d_name e) = Some (d_child e)) as Hel.
  { intros e. rewrite list_elem_of_fmap. split.
    - intros ([n c]&->&Hin). simpl. split; [done|]. by apply elem_of_dir_entries.
    - intros [Hp He]. exists (d_name e, d_child e). split; [by destruct e; simplify_eq/=|].
      by apply elem_of_dir_entries. }
  split; [|split; [done|]].
  - apply NoDup_fmap_2_strong.
    + intros [n1 c1] [n2 c2] _ _ [= -> ->]. done.
    + unfold dir_entries. rewrite sort_by_name_perm.
      apply NoDup_fmap_2_strong; [|apply NoDup_filter, NoDup_map_to_list].
      intros [[p1 n1] c1] [[p2 n2] c2] H1 H2 Heq. simplify_eq/=.
      apply list_elem_of_filter in H1 as [H1 _], H2 as [H2 _]. simpl in *. congruence.
  - intros e He. apply Hel in He as [_ He].
    destruct (ns_entry _ _ Hns _ _ _ He) as (_&[c Hc]&_). exists c.
    unfold lookup_name. rewrite Hi. simpl. rewrite bool_decide_false by congruence.
    rewrite He. simpl. rewrite Hc. split; [done|]. by apply (ns_id _ _ Hns).
Qed.

Lemma readdir_exact_witness :
  ∃ l, readdir (msm_store example_machine) ROOT_INODE = Ok l ∧ mkDentry ROOT_INODE "a" 2 ∈ l.
Proof.
  destruct (readdir (msm_store example_machine) ROOT_INODE) as [l|e] eqn:Hrun;
    [|exfalso; vm_compute in Hrun; discriminate Hrun].
  exists l. split; [reflexivity|].
  apply (proj1 (proj2 (readdir_exact _ _ _ example_ns Hrun))). split; reflexivity.
Defined.

(** ** Open files *)

(** An open file outlives its names.  Closing a session's handle removes
    that presence row only, and deletes the inode exactly when it has no name
    left and no other session holds it open; everything else stays. *)
Theorem close_reaps s id d d' :
  ns_inv d → close_inode_in_txn s id d = (Ok tt, d') →
  (inodes d' !! id = None ↔
   ∀ i, inodes d !! id = Some i →
        i_link_count i = 0 ∧ ∀ s', (id, s') ∈ open_presences d → s' = s) ∧
  (∀ x, x ≠ id → inodes d' !! x = inodes d !! x) ∧
  (∀ i', inodes d' !! id = Some i' → inodes d !! id = Some i') ∧
  (∀ x s', (x, s') ∈ open_presences d' ↔ (x, s') ∈ open_presences d ∧ (x, s') ≠ (id, s)).
Proof.
  intros Hns H. unfold close_inode_in_txn, reap_unlinked_inode_if_unopened_in_txn in H.
  db_step H H1; db_inv H1. rewrite txn_bind_modify, txn_bind_gets in H. simpl in H.
  set (d1 := upd_open_presences _ d) in *.
  assert (∀ x s', (x, s') ∈ open_presences d1 ↔ (x, s') ∈ open_presences d ∧ (x, s') ≠ (id, s))
    as Hop by (intros; simpl; set_solver).
  destruct (inodes d !! id) as [i|] eqn:Hi.
  2:{ unfold mret, txn_ret in H. injection H as <-. simpl. rewrite Hi. split_and!; auto; naive_solver. }
  rewrite txn_bind_gets in H. assert (Hopen := has_open_presence_spec d1 id).
  destruct (i_link_count i =? 0) eqn:Hl; simpl in H; bools.
  2:{ unfold mret, txn_ret in H. injection H as <-. simpl. rewrite Hi. split_and!; auto. naive_solver. }
  destruct (has_open_presence d1 id) eqn:Ho; simpl in H.
  - unfold mret, txn_ret in H. injection H as <-. simpl. rewrite Hi.
    destruct (proj1 Hopen eq_refl) as [s' [Hs' Hne]%Hop]. split_and!; auto.
    split; [done|]. intros Hall. destruct (Hall i eq_refl) as [_ Hs]. specialize (Hs _ Hs').
    congruence.
  - rewrite delete_inode_in_txn_spec in H by (by eapply (ns_reservations_keyed _ d)).
    injection H as <-. simpl. rewrite lookup_delete_eq. split_and!.
    + split; [|done]. intros _ j [= <-]. split; [done|]. intros s' Hs'.
      destruct (decide (s' = s)) as [|Hne]; [done|]. exfalso.
      assert (false = true); [|done]. apply Hopen. exists s'. apply Hop. split; [done|congruence].
    + intros y Hy. by rewrite lookup_delete_ne.
    + done.
    + intros y s'. rewrite elem_of_filter. assert (Hy := Hop y s'). simpl in Hy. rewrite Hy. simpl. split; [tauto|].
      intros [Hy1 Hne]. split; [|done]. intros ->. assert (false = true); [|done].
      apply Hopen. exists s'. by apply Hop.
Qed.

(** Open the example file, remove its only name, close it. *)
Definition example_opened : Db := (open_inode_in_txn "s1" 2 (msm_store example_machine)).2.
Definition example_orphan : Db :=
  (unlink_in_txn example_now None ROOT_INODE "a" example_opened).2.

Lemma example_orphan_ns : ns_inv example_orphan.
Proof.
  assert (ns_inv example_opened) as H1
    by exact (open_keeps "s1" 2 _ _ _ example_ns (surjective_pairing _)).
  assert (room example_opened) as Hroom by (apply room_check_ok; vm_compute; reflexivity).
  exact (unlink_keeps example_now None ROOT_INODE "a" example_opened _ _ H1 Hroom
    (surjective_pairing _)).
Qed.

Lemma close_reaps_witness :
  is_Some (inodes example_orphan !! 2) ∧
  ∃ d', close_inode_in_txn "s1" 2 example_orphan = (Ok tt, d') ∧ inodes d' !! 2 = None.
Proof.
  split; [vm_compute; eexists; reflexivity|].
  destruct (close_inode_in_txn "s1" 2 example_orphan) as [[[]|e] d'] eqn:Hrun;
    [|exfalso; vm_compute in Hrun; discriminate Hrun].
  exists d'. split; [reflexivity|].
  apply (proj1 (close_reaps "s1" 2 example_orphan d' example_orphan_ns Hrun)).
  intros i Hi. vm_compute in Hi. injection Hi as <-. split; [reflexivity|].
  intros s' Hs'%elem_of_elements.
  assert (elements (open_presences example_orphan) = [(2, "s1")]) as Hel
    by (vm_compute; reflexivity).
  rewrite Hel in Hs'. apply list_elem_of_singleton in Hs'. congruence.
Defined.

(** ** Extended attributes *)

(** A stored attribute is read back unchanged; other attributes, names and
    other inodes are untouched, the inode's generation advances by one, and
    the attribute count stays within its limit. *)
Theorem set_xattr_roundtrip now g id n v mode d i d' :
  set_xattr_in_txn now g id n v mode d = (Ok i, d') →
  ns_inv d →
  get_xattr d' id n = Ok v ∧
  (∀ k, k ≠ (id, n) → xattrs d' !! k = xattrs d !! k) ∧
  dentries d' = dentries d ∧ (∀ x, x ≠ id → inodes d' !! x = inodes d !! x) ∧
  inodes d' !! id = Some i ∧ i_generation i = g + 1 ∧
  (N.of_nat (length (inode_xattrs d id)) < XATTR_COUNT_MAX ∨ is_Some (xattrs d !! (id, n))).
Proof.
  intros H Hns. unfold set_xattr_in_txn, next_generation in H.
  db_step H H1; db_inv H1. db_step H H2; db_inv H2. db_step H H3; db_inv H3.
  assert (∃ u, validate_xattr_name n = Ok u) as [u Hu].
  { unfold validate_xattr in H3. destruct (validate_xattr_name n); [eauto|done]. }
  rewrite txn_bind_gets in H.
  apply txn_bind_inv in H as [(u4&d4&H4&H)|(err&_&?)]; [|done]. assert (d4 = d) as ->.
  { destruct mode, (xattrs d !! (id, n)); by db_inv H4. }
  rewrite txn_bind_gets in H. cbv zeta in H. db_step H H5; db_inv H5. db_step H H6; db_inv H6.
  db_step H H7; db_inv H7.
  destruct (checked_add (i_generation x) 1) as [g'|] eqn:Hg; simplify_eq/=.
  apply checked_add_Some in Hg as [-> _]. apply check_generation_ok in H2.
  assert (Hid := ns_id _ _ Hns _ _ Hi).
  db_inv H. simpl. split_and!; try done.
  - unfold get_xattr. rewrite Hu. simpl. rewrite lookup_insert_eq. simpl. by rewrite lookup_insert_eq.
  - intros k Hk. by rewrite lookup_insert_ne.
  - intros y Hy. by rewrite lookup_insert_ne.
  - by rewrite lookup_insert_eq.
  - apply andb_false_iff in Hb as [Hb|Hb]; bools; [right|by left].
    unfold is_none in Hb. apply negb_false_iff in Hb. by apply is_some_true in Hb as [? ->].
Qed.

Lemma set_xattr_roundtrip_witness :
  ∃ i d', set_xattr_in_txn example_now 1 2 "user.k" [Byte.x61; Byte.x62] Upsert
            (msm_store example_machine) = (Ok i, d') ∧
          get_xattr d' 2 "user.k" = Ok [Byte.x61; Byte.x62].
Proof.
  destruct (set_xattr_in_txn example_now 1 2 "user.k" [Byte.x61; Byte.x62] Upsert
    (msm_store example_machine)) as [[i|e] d'] eqn:Hrun;
    [|exfalso; vm_compute in Hrun; discriminate Hrun].
  exists i, d'. split; [reflexivity|].
  exact (proj1 (set_xattr_roundtrip _ _ _ _ _ _ _ _ _ Hrun example_ns)).
Defined.
