(* ===== verification/StoreProps.v ===== *)
(** * Properties of collection, leases and flushes

    The guarantees that the garbage collector, the writers and the flusher
    rely on, stated for the operations of the store and for the state machine
    that runs them. *)

From S2P Require Import MetaDb Namespace NamespaceInv Evolve Rename InodeData Gc GcInv.
From S2P Require Import Membership Ledger Apply Frame ApplyInv Open Machine.

Local Open Scope N_scope.

(** ** The collection lease *)

Lemma execute_blocked now o d lease :
  gc_lease d = Some lease → gc_exempt o = false → execute now o d = (Ok (RErr Busy), d).
Proof. intros Hl Ho. unfold execute. by rewrite txn_bind_gets, Hl, Ho. Qed.

(** While a stop-the-world collection holds its lease, every request but
    worker registration and the lease operations themselves leaves all the
    tables of the store as they are: only the ledger and the applied markers
    may change, and the answer is [Busy] unless it is a recorded one. *)
Theorem lease_freezes now req sm d lease resp d' :
  gc_lease d = Some lease → gc_exempt (op req) = false →
  apply_raft_request now req sm d = (Ok resp, d') →
  (∃ f, d' = save_sm_meta_only sm (upd_client_requests f d)) ∧
  (resp = RErr Busy ∨
   ∃ id e, dedup_id req = Some id ∧ live_row d id (ledger_now_unix_ms req) = Some e ∧
           resp = response e).
Proof.
  intros Hl Hop (resp0&d0&[= <-]&->&Ha)%apply_inv.
  destruct (after_prune_same (ledger_now_unix_ms req) d) as [f Hf].
  destruct Ha as [resp d0 _ Hex|id e Hid Hrow|id _ _ _|id resp d0 _ _ _ Hex].
  - rewrite (execute_blocked _ _ _ _ Hl Hop) in Hex. injection Hex as <- <-.
    split; [|by left]. exists (λ x, x). by destruct d.
  - split; [|right; eauto 10]. exists (λ x, x). by destruct d.
  - split; [|by left]. rewrite Hf. by eexists.
  - rewrite Hf, (execute_blocked _ _ _ lease) in Hex by done. injection Hex as <- <-.
    split; [|by left]. by eexists (λ m, _ (f m)).
Qed.

Lemma lease_freezes_witness :
  let d := upd_gc_lease (λ _, Some 7) (fresh_store 0) in
  gc_lease d = Some 7 ∧ gc_exempt (op (example_create 1000)) = false ∧
  ∃ d', apply_raft_request example_now (example_create 1000) SmAppliedMeta_default d
          = (Ok (RErr Busy), d').
Proof.
  split; [reflexivity|]. split; [reflexivity|].
  destruct (apply_raft_request example_now (example_create 1000) SmAppliedMeta_default
    (upd_gc_lease (λ _, Some 7) (fresh_store 0))) as [[resp|e] d'] eqn:Hrun;
    [|exfalso; vm_compute in Hrun; discriminate Hrun].
  destruct (lease_freezes example_now (example_create 1000) SmAppliedMeta_default
    (upd_gc_lease (λ _, Some 7) (fresh_store 0)) 7 resp d' eq_refl eq_refl Hrun) as [_ [->|(id&e&_&Hrow&_)]].
  - exists d'. reflexivity.
  - exfalso. vm_compute in Hrow. discriminate Hrow.
Defined.

(** Taking the lease succeeds on any store without one, and its plan lists
    exactly the chunks that some inode's manifest refers to. *)
Theorem begin_gc_plan lease d :
  store_inv d → gc_lease d = None →
  ∃ l n d', begin_gc_in_txn lease d = (Ok (mkGcPlan lease l n), d') ∧
    gc_lease d' = Some lease ∧ inodes d' = inodes d ∧
    (∀ c, c ∈ l ↔ manifest_live d c) ∧ (∀ c, manifest_live d' c ↔ manifest_live d c).
Proof.
  intros Hst Hl. assert (Hsw := swept_store lease d Hst).
  destruct (gc_plan_spec _ lease Hsw) as (l&Hplan&Hlive).
  assert (∀ c, manifest_live (swept lease d) c ↔ manifest_live d c) as Hsame.
  { intros c. unfold manifest_live. split.
    - intros (id&i&mid&m&?&?&Hm&?). exists id, i, mid, m. split_and!; try done.
      simpl in Hm. rewrite (foldl_delete (λ x, x)) in Hm.
      by apply map_lookup_filter_Some in Hm as [? _].
    - intros (id&i&mid&m&?&?&Hm&?). exists id, i, mid, m. split_and!; try done.
      simpl. rewrite (foldl_delete (λ x, x)), map_lookup_filter_Some. split; [done|].
      rewrite list_fmap_id, list_elem_of_filter. intros [[] _].
      apply elem_of_active_manifests. eauto. }
  unfold begin_gc_in_txn. rewrite txn_bind_gets, Hl, txn_bind_modify, !txn_bind_gets.
  cbv zeta. erewrite txn_bind_ok by apply for_each_modify. rewrite fold_upd_manifests.
  set (d1 := upd_manifests _ _). change d1 with (swept lease d). erewrite txn_bind_ok by (unfold reads; by rewrite Hplan).
  eexists l, _, (swept lease d). split; [done|]. split_and!; try done.
  intros c. by rewrite Hlive.
Qed.

Lemma begin_gc_plan_witness :
  store_inv (fresh_store 0) ∧ gc_lease (fresh_store 0) = None ∧
  ∃ l n d', begin_gc_in_txn 7 (fresh_store 0) = (Ok (mkGcPlan 7 l n), d') ∧
            gc_lease d' = Some 7.
Proof.
  assert (store_inv (fresh_store 0)) as Hst by apply fresh_store_sm.
  split; [exact Hst|]. split; [reflexivity|].
  destruct (begin_gc_plan 7 (fresh_store 0) Hst eq_refl) as (l&n&d'&Hrun&Hlease&_).
  exists l, n, d'. split; [exact Hrun|exact Hlease].
Defined.

(** ** Concurrent collection *)

(** A concurrent collection batch tombstones exactly the candidates that
    no inode's manifest and no write reservation refers to, always succeeds,
    and leaves inodes and reservations alone. *)
Theorem tombstone_batch_exact candidates d :
  store_inv d →
  ∃ l n d', tombstone_gc_batch_in_txn candidates d = (Ok (mkGcBatch l n), d') ∧
    (∀ c, c ∈ l ↔ c ∈ candidates ∧ ¬ live d c) ∧
    inodes d' = inodes d ∧ reservations d' = reservations d ∧
    (∀ c, is_Some (tombstones d' !! c) ↔ c ∈ l ∨ is_Some (tombstones d !! c)).
Proof.
  intros Hst. destruct (tombstone_batch_run candidates d Hst)
    as (l&n&d'&Hrun&Hl&_&Hi&Hr&Ht). exists l, n, d'. split_and!; try done.
  intros c. rewrite Ht. destruct (decide (c ∈ l)); [|naive_solver].
  split; [by left|]. eauto.
Qed.

Lemma tombstone_batch_exact_witness :
  store_inv (fresh_store 0) ∧
  ∃ l n d', tombstone_gc_batch_in_txn [11; 12] (fresh_store 0) = (Ok (mkGcBatch l n), d') ∧
            is_Some (tombstones d' !! 11).
Proof.
  assert (store_inv (fresh_store 0)) as Hst by apply fresh_store_sm.
  split; [exact Hst|].
  destruct (tombstone_batch_exact [11; 12] (fresh_store 0) Hst) as (l&n&d'&Hrun&Hl&_&_&Ht).
  exists l, n, d'. split; [exact Hrun|]. apply Ht. left. apply Hl. split; [left|].
  intros [(id&i&mid&m&_&_&Hm&_)|(t&r&Hr&_)].
  - simpl in Hm. by rewrite lookup_empty in Hm.
  - simpl in Hr. by rewrite lookup_empty in Hr.
Defined.

(** The delete targets still pending for a chunk, once chosen. *)
Definition pending (d : Db) (c : ChunkId) : option (list WorkerTargetId) :=
  t ← tombstones d !! c; if gt_targets_initialized t then Some (gt_pending_targets t) else None.

Lemma acknowledge_pending acks d d' c l :
  store_inv d → acknowledge_gc_deletes_in_txn acks d = (Ok tt, d') → pending d c = Some l →
  pending d' c = Some (filter (λ p, (c, p) ∉ acks) l).
Proof.
  revert d l. induction acks as [|[c' t'] acks IH]; intros d l Hst H Hp.
  { apply pair_equal_spec in H as [_ <-]. rewrite Hp. f_equal. symmetry. apply filter_all.
    intros ? _. apply not_elem_of_nil. }
  unfold acknowledge_gc_deletes_in_txn in H. cbn [for_each] in H.
  apply txn_bind_inv in H as [([]&d1&H1&H)|(e&_&?)]; [|done].
  assert (store_inv d1) as Hst1.
  { eapply (acknowledge_store [(c', t')]); [exact Hst|]. unfold acknowledge_gc_deletes_in_txn.
    cbn [for_each]. erewrite txn_bind_ok by exact H1. done. }
  assert (pending d1 c = Some (if decide (c = c') then filter (λ p, p ≠ t') l else l)) as Hp1.
  { unfold pending, put_tombstone_in_txn in *. cbn [fst snd] in H1. db_step H1 Hf;
      rewrite (find_tombstone_run _ _ Hst) in Hf; apply pair_equal_spec in Hf as [Hf <-].
    db_inv H1. bools. destruct (tombstones d !! c') as [t|] eqn:Ht; simpl in Hf; [injection Hf as ->|done].
    simpl. rewrite (proj1 (st_tombstones _ Hst _ _ Ht)).
    destruct (decide (c = c')) as [->|Hne]; [|by rewrite lookup_insert_ne].
    rewrite lookup_insert_eq. simpl. rewrite Ht in Hp. simpl in Hp.
    rewrite Hb in *. congruence. }
  rewrite (IH d1 _ Hst1 H Hp1). f_equal. destruct (decide (c = c')) as [->|Hne].
  - rewrite list_filter_filter. apply list_filter_iff. intros p. simpl.
    rewrite not_elem_of_cons. naive_solver.
  - apply list_filter_iff. intros p. rewrite not_elem_of_cons. naive_solver.
Qed.

Lemma initialize_pending c targets d d' t :
  store_inv d → tombstones d !! c = Some t → gt_targets_initialized t = false →
  initialize_gc_targets_in_txn [c] targets d = (Ok tt, d') →
  ∃ l, pending d' c = Some l ∧ ∀ w, w ∈ l ↔ w ∈ targets.
Proof.
  intros Hst Ht Hini H. unfold initialize_gc_targets_in_txn, put_tombstone_in_txn in H.
  cbn [for_each] in H. cbv zeta in H.
  apply txn_bind_inv in H as [([]&d1&H1&H)|(e&_&?)]; [|done]. db_inv H.
  db_step H1 Hf; rewrite (find_tombstone_run _ _ Hst), Ht in Hf;
    apply pair_equal_spec in Hf as [Hf <-]; simplify_eq/=. rewrite Hini in H1. db_inv H1.
  eexists. unfold pending. simpl. destruct (st_tombstones _ Hst _ _ Ht) as [Hk _].
  rewrite Hk, lookup_insert_eq. simpl. split; [done|].
  intros w. by rewrite sort_by_key_perm, elem_of_elements, elem_of_list_to_set.
Qed.

Lemma finalize_pending c d d' :
  store_inv d → finalize_tombstones_in_txn [c] d = (Ok tt, d') →
  pending d c = Some [] ∧ tombstones d' = delete c (tombstones d).
Proof.
  intros Hst H. unfold finalize_tombstones_in_txn in H. cbn [for_each] in H.
  apply txn_bind_inv in H as [([]&d1&H1&H)|(e&_&?)]; [|done]. db_inv H.
  db_step H1 Hf; rewrite (find_tombstone_run _ _ Hst) in Hf;
    apply pair_equal_spec in Hf as [Hf <-].
  db_inv H1. bools. destruct (tombstones d !! c) as [t|] eqn:Ht; simplify_eq/=.
  unfold pending. rewrite Ht. simpl.
  by repeat match goal with Hx : _ _ = _ |- _ => rewrite Hx; clear Hx end.
Qed.

(** The deletion protocol.  If the delete targets of a fresh tombstone are
    chosen, acknowledgements are applied and the tombstone is then finalized,
    every chosen target has acknowledged the deletion of that chunk. *)
Theorem finalize_after_acks c targets acks d t d1 d2 d3 :
  store_inv d → tombstones d !! c = Some t → gt_targets_initialized t = false →
  initialize_gc_targets_in_txn [c] targets d = (Ok tt, d1) →
  acknowledge_gc_deletes_in_txn acks d1 = (Ok tt, d2) →
  finalize_tombstones_in_txn [c] d2 = (Ok tt, d3) →
  (∀ w, w ∈ targets → (c, w) ∈ acks) ∧ tombstones d3 !! c = None.
Proof.
  intros Hst Ht Hini H1 H2 H3.
  destruct (initialize_pending _ _ _ _ _ Hst Ht Hini H1) as (l&Hl&Hel).
  assert (store_inv d1) as Hst1 by (by eapply initialize_store).
  assert (store_inv d2) as Hst2 by (by eapply acknowledge_store).
  destruct (finalize_pending _ _ _ Hst2 H3) as [Hp Hd].
  rewrite (acknowledge_pending _ _ _ _ _ Hst1 H2 Hl) in Hp. injection Hp as Hnil.
  split; [|by rewrite Hd, lookup_delete_eq].
  intros w Hw%Hel. destruct (decide ((c, w) ∈ acks)) as [|Hn]; [done|]. exfalso.
  apply (not_elem_of_nil w). rewrite <-Hnil. by apply list_elem_of_filter.
Qed.

Lemma finalize_after_acks_witness :
  let d := (tombstone_gc_batch_in_txn [11] (fresh_store 0)).2 in
  let d1 := (initialize_gc_targets_in_txn [11] [1; 2] d).2 in
  let d2 := (acknowledge_gc_deletes_in_txn [(11, 2); (11, 1)] d1).2 in
  ∃ d3, finalize_tombstones_in_txn [11] d2 = (Ok tt, d3) ∧ tombstones d3 !! 11 = None.
Proof.
  intros d d1 d2.
  assert (store_inv d) as Hst.
  { destruct (tombstone_batch_run [11] (fresh_store 0) (sm_store _ (fresh_store_sm 0)))
      as (l&n&d'&Hrun&_&Hst&_). unfold d. rewrite Hrun. exact Hst. }
  exists (finalize_tombstones_in_txn [11] d2).2.
  assert (finalize_tombstones_in_txn [11] d2 =
          (Ok tt, (finalize_tombstones_in_txn [11] d2).2)) as H3 by reflexivity.
  split; [exact H3|].
  exact (proj2 (finalize_after_acks 11 [1; 2] [(11, 2); (11, 1)] d (mkGcTombstone 11 false [])
    d1 d2 _ Hst eq_refl eq_refl eq_refl eq_refl H3)).
Defined.

(** ** Writers *)

(** [put_inode_cas] writes only the row it names, only when the caller's
    generation is current, advances the generation by exactly one, and
    changes nothing but mode, owner and times; refused, it writes nothing. *)
Theorem put_inode_cas_spec g inode d :
  match put_inode_cas_in_txn g inode d with
  | (Ok i, d') =>
      i = inode ∧ d' = upd_inodes <[i_id inode := inode]> d ∧
      ∃ current, inodes d !! i_id inode = Some current ∧ i_generation current = g ∧
        i_generation inode = g + 1 ∧ g < U64_MAX ∧
        i_link_count inode = i_link_count current ∧ data_of inode = data_of current
  | (Err _, d') => d' = d
  end.
Proof.
  destruct (put_inode_cas_in_txn g inode d) as [r d'] eqn:H.
  unfold put_inode_cas_in_txn in H.
  db_step H H1; db_inv H1; [|done]. db_step H H2; db_inv H2; [|done].
  destruct (checked_add g 1) as [n|] eqn:Hn; [|by db_inv H].
  apply checked_add_Some in Hn as [-> Hn]. db_step H H3; db_inv H3.
  db_step H H4; db_inv H4; [|done]. db_step H H5; db_inv H5; [|done]. db_inv H.
  apply check_generation_ok in H2. unfold data_or_lifecycle_changed in *. bools.
  split_and!; try done. exists x. split_and!; try done; [by injection H3 as <-|lia|].
  unfold data_of. destruct x, inode; simpl in *. by subst.
Qed.

(** A commit under a write reservation is safe from collection: when it
    succeeds, every local chunk of the new manifest is live and not
    tombstoned, the inode's head is the committed row, and the reservation is
    consumed. *)
Theorem reserved_commit_safe ticket g inode m d i' d' :
  store_inv d → store_room d →
  (∀ current, inodes d !! i_id inode = Some current → i_generation current = g →
              client_inode current inode) →
  commit_reserved_in_txn ticket g inode m d = (Ok i', d') →
  inodes d' !! i_id inode = Some i' ∧ reservations d' !! ticket = None ∧
  ∀ c, c ∈ local_chunks m → live d' c ∧ tombstones d' !! c = None.
Proof.
  intros Hst Hroom Hder H.
  assert (store_inv d') as Hst' by (by eapply commit_reserved_store).
  unfold commit_reserved_in_txn, reservation_in_txn, abort_reservation_in_txn in H.
  rewrite txn_bind_gets in H. db_step H H1; db_inv H1. db_step H H2; db_inv H2.
  db_step H H3; db_inv H3. apply txn_bind_inv in H as [(i&d1&H4&H)|(e&_&?)]; [|done].
  assert (inodes d1 !! i_id inode = Some i ∧
          ∃ mid, i_manifest_id i = Some mid ∧ manifests d1 !! mid = Some m) as (Hi&mid&Hmid&Hm).
  { unfold commit_inode_manifest_in_txn in H4. db_inv H4.
    destruct (put_manifest_cases _ _ _ _ Hm) as [(?&?&->)|(mid&?&?&?&->)]; simplify_eq/=.
    rewrite lookup_insert_eq. split; [done|]. exists mid. by rewrite lookup_insert_eq. }
  db_inv H. simpl. split; [done|]. split; [apply lookup_delete_eq|].
  intros c Hc. assert (live (upd_reservations (delete ticket) d1) c) as Hl
    by (left; by exists (i_id inode), i', mid, m).
  split; [done|]. destruct (tombstones d1 !! c) as [t|] eqn:Ht; [|done].
  by destruct (st_tombstones _ Hst' _ _ Ht) as [_ []].
Qed.

(** A file with one write in flight: inode 2 at generation 1, chunk 42
    reserved under ticket 99. *)
Definition example_reserved : Db :=
  (reserve_chunks_in_txn 99 2 1 [42] 9000 (msm_store example_machine)).2.
Definition example_head : Inode :=
  set_generation 2 (new_node 2 Regular 420 0 0 None (example_now 1%nat)).
Definition example_manifest : Manifest := mkManifest 2 2 10 [(0, Local 0 10 42)].

Lemma example_reserved_store : store_inv example_reserved ∧ store_room example_reserved.
Proof.
  split.
  - eapply (reserve_store 99 2 1 [42] 9000 (msm_store example_machine));
      [apply (reachable_sm _ example_reachable)|].
    unfold example_reserved. apply surjective_pairing.
  - apply room_check_ok. vm_compute. reflexivity.
Qed.

Lemma reserved_commit_safe_witness :
  ∃ i' d', commit_reserved_in_txn 99 1 example_head example_manifest example_reserved
             = (Ok i', d') ∧ live d' 42 ∧ tombstones d' !! 42 = None.
Proof.
  destruct (commit_reserved_in_txn 99 1 example_head example_manifest example_reserved)
    as [[i'|e] d'] eqn:Hrun; [|exfalso; vm_compute in Hrun; discriminate Hrun].
  exists i', d'. split; [reflexivity|].
  refine (proj2 (proj2 (reserved_commit_safe 99 1 example_head example_manifest example_reserved
    i' d' (proj1 example_reserved_store) (proj2 example_reserved_store) _ Hrun)) 42 _).
  - intros current Hc _. vm_compute in Hc. injection Hc as <-. split; [repeat split|].
    intros f it [= <-]. discriminate.
  - vm_compute. left.
Defined.

(** ** Flushes *)

Lemma derive_clean f h :
  lf_backing_mode f = UfsBacked →
  let l := derive (set_lf_data_state UfsClean (set_lf_op_state OpNone f)) h h in
  l = LClean ∨ l = LExternal.
Proof.
  intros Hb. unfold derive. simpl. rewrite Hb, N.ltb_irrefl. simpl.
  case_bool_decide; auto.
Qed.

(** A committed flush installs exactly the published object: only the
    flusher that holds the current intent and generation can commit; the
    file's data then is one range of that object covering its size, its label
    is clean, the intent is cleared, and the generation advances. *)
Theorem commit_flush_clean g id fid pub d i' d' :
  store_inv d → commit_flush_in_txn g id fid pub d = (Ok i', d') →
  ∃ i it, inodes d !! id = Some i ∧ i_generation i = g ∧ i_flush_intent i = Some it ∧
    fi_flush_id it = fid ∧ inodes d' = <[id := i']> (inodes d) ∧
    i_flush_intent i' = None ∧ i_last_error i' = None ∧ i_ufs i' = Some pub ∧
    i_size i' = i_size i ∧ i_head_gen i' = fi_snapshot_gen it ∧
    i_ufs_gen i' = i_head_gen i' ∧ i_generation i' = sat_add g 1 ∧
    (i_locality i' = LClean ∨ i_locality i' = LExternal) ∧
    match i_manifest_id i' with
    | None => i_size i' = 0
    | Some mid => ∃ m ver, manifests d' !! mid = Some m ∧ i_ufs_base_version i' = Some ver ∧
        m_size m = i_size i' ∧
        iter (m_extents m) = [UfsRange 0 (i_size i') (uo_key pub) ver 0]
    end.
Proof.
  intros Hst H. unfold commit_flush_in_txn in H.
  db_step H H1; db_inv H1. db_step H H2; db_inv H2. db_step H H3; db_inv H3.
  db_step H H4; db_inv H4. assert (Hid := ns_id _ _ (st_ns _ Hst) _ _ Hi). subst id.
  apply matching_flush_intent_Ok in H3 as [H3 Hfid].
  assert (Hfl := st_flush _ Hst _ _ Hi). unfold flush_ok in Hfl. rewrite H3 in Hfl.
  destruct Hfl as (Hhead&_&f&Hf&_&Hback&_). rewrite Hf in H4. injection H4 as <-.
  apply check_generation_ok in H2.
  db_step H Hc; cbv zeta in Hc; simpl in Hc;
    (destruct (N.eqb_spec (i_head_gen x) (fi_snapshot_gen x1)) as [_|]; [|done]);
    destruct (install_clean_cases _ _ _ _ _ _ _ Hc)
      as [[-> (?&?)]|(mid&ver&?&Hs&Hcase)]; simplify_eq/=.
  db_inv H. exists x, x1. simpl. destruct Hs as [Hino _].
  rewrite Hino, Hhead. split_and!; try done; [by apply derive_clean|].
  destruct Hcase as [(?&->&_)|(n&_&->&_&->)]; [done|].
  eexists _, ver. simpl. by rewrite lookup_insert_eq.
Qed.

(** A dirty file backed by the underlying file system, with a flush begun. *)
Definition example_dirty_inode : Inode :=
  set_locality_fields (Some (mkLocalityFields UfsBacked Dirty OpNone FluxCreated))
    (set_size 10 (new_node 2 Regular 420 0 0 None (example_now 1%nat))).
Definition example_dirty : Db := upd_inodes <[2 := example_dirty_inode]> (msm_store example_machine).
Definition example_intent : FlushIntent := mkFlushIntent 77 1 5 None 6.
Definition example_flushing : Db := (begin_flush_in_txn 1 2 example_intent example_dirty).2.
Definition example_published : UfsObject := mkUfsObject "k" 10 (Some "v1") None.

Lemma example_flushing_store : store_inv example_flushing.
Proof.
  eapply (begin_flush_store 1 2 example_intent example_dirty); [|apply surjective_pairing].
  eapply (store_put_same _ 2 (new_node 2 Regular 420 0 0 None (example_now 1%nat)));
    [apply (reachable_sm _ example_reachable)|vm_compute; reflexivity|reflexivity
    |repeat split|by eapply flush_ok_idle|reflexivity].
Qed.

Lemma commit_flush_clean_witness :
  ∃ i' d', commit_flush_in_txn 2 2 77 example_published example_flushing = (Ok i', d') ∧
           i_flush_intent i' = None ∧ i_ufs i' = Some example_published ∧ i_generation i' = 3.
Proof.
  destruct (commit_flush_in_txn 2 2 77 example_published example_flushing)
    as [[i'|e] d'] eqn:Hrun; [|exfalso; vm_compute in Hrun; discriminate Hrun].
  exists i', d'. split; [reflexivity|].
  destruct (commit_flush_clean 2 2 77 example_published example_flushing i' d'
    example_flushing_store Hrun) as (i&it&_&_&_&_&_&Hnone&_&Hufs&_&_&_&Hgen&_).
  split; [exact Hnone|]. split; [exact Hufs|]. exact Hgen.
Defined.

(** A flusher whose intent is no longer the current one, or whose
    generation is stale, is refused and writes nothing, both when it tries to
    commit and when it reports a conflict. *)
Theorem stale_flush_refused g id fid pub error d i :
  inodes d !! id = Some i →
  i_generation i ≠ g ∨ (∀ it, i_flush_intent i = Some it → fi_flush_id it ≠ fid) →
  ∃ e, commit_flush_in_txn g id fid pub d = (Err e, d) ∧
       fail_flush_conflict_in_txn g id fid error d = (Err e, d).
Proof.
  intros Hi Hstale. unfold commit_flush_in_txn, fail_flush_conflict_in_txn.
  do 2 (erewrite (txn_bind_ok (get_inode_raw id)) by (unfold get_inode_raw, reads; by rewrite Hi)).
  unfold check_generation. destruct (N.eqb_spec (i_generation i) g) as [Hg|Hg]; cbn [negb].
  - destruct Hstale as [?|Hno]; [done|]. exists Busy.
    assert (matching_flush_intent i fid = Err Busy) as Hb.
    { unfold matching_flush_intent. destruct (i_flush_intent i) as [it|]; [|done].
      by rewrite (proj2 (N.eqb_neq _ _)) by auto. }
    split; (erewrite (txn_bind_ok (lift (Ok tt))) by reflexivity); by rewrite Hb.
  - eexists. split; (erewrite (txn_bind_err (lift (Err _))) by reflexivity); reflexivity.
Qed.

Lemma stale_flush_refused_witness :
  ∃ i e, inodes example_flushing !! 2 = Some i ∧
    commit_flush_in_txn 2 2 78 example_published example_flushing = (Err e, example_flushing).
Proof.
  destruct (inodes example_flushing !! 2) as [i|] eqn:Hi;
    [|exfalso; vm_compute in Hi; discriminate Hi].
  destruct (stale_flush_refused 2 2 78 example_published "x" example_flushing i Hi) as (e&He&_).
  - right. intros it Hit Heq. vm_compute in Hi. injection Hi as <-. injection Hit as <-.
    discriminate Heq.
  - exists i, e. split; [reflexivity|exact He].
Defined.
