(* ===== verification/GcLive.v ===== *)
(** * Progress of concurrent collection

    [FluxClient::run_concurrent_gc_pass] ([crates/client/src/lib.rs]) run
    again and again over the embedded metadata store and any chunk store that
    is its own delete target, with nobody else at work: within a number of
    passes that the state bounds, every chunk that nothing referred to is
    gone. *)

From S2P Require Import MetaDb Namespace InodeData Gc GcInv Ledger Apply HeedStore Frame MetaStore ChunkStore Ufs Client ClientFlush Programs GcRace.

Local Open Scope N_scope.

(** ** The transactions of a reclaim, when they succeed *)

Definition with_tombstones (T : gmap N GcTombstone) (d : Db) : Db := upd_tombstones (λ _, T) d.

Lemma with_tombstones_same d : with_tombstones (tombstones d) d = d.
Proof. by destruct d. Qed.
Lemma with_with T T' d : with_tombstones T' (with_tombstones T d) = with_tombstones T' d.
Proof. by destruct d. Qed.

Lemma initialize_run chunks d :
  store_inv d → (∀ c, c ∈ chunks → is_Some (tombstones d !! c)) →
  ∃ T, initialize_gc_targets_in_txn chunks [0] d = (Ok tt, with_tombstones T d) ∧
    ∀ c, T !! c = if decide (c ∈ chunks)
                  then (λ t, if gt_targets_initialized t then t else mkGcTombstone c true [0]) <$> tombstones d !! c
                  else tombstones d !! c.
Proof.
  revert d. induction chunks as [|c chunks IH]; intros d Hst Hin.
  { exists (tombstones d). rewrite with_tombstones_same. done. }
  destruct (Hin c (list_elem_of_here _ _)) as [t Ht]. unfold initialize_gc_targets_in_txn in *. cbv zeta in *.
  set (body := λ chunk, _) in *. cbn [for_each].
  assert (∃ T1, body c d = (Ok tt, with_tombstones T1 d) ∧ store_inv (with_tombstones T1 d) ∧
    ∀ x, T1 !! x = if decide (x = c) then Some (if gt_targets_initialized t then t else mkGcTombstone c true [0])
                   else tombstones d !! x) as (T1&Hb&Hst1&HT1).
  { unfold body. rewrite (txn_bind_ok _ _ _ t d) by (by rewrite (find_tombstone_run _ _ Hst), Ht).
    destruct (st_tombstones _ Hst _ _ Ht) as [Hk _]. destruct (gt_targets_initialized t) eqn:Hi; cbn [negb when].
    - exists (tombstones d). rewrite with_tombstones_same. split_and!; [done..|]. intros x. case_decide; by subst.
    - exists (<[c := mkGcTombstone c true [0]]> (tombstones d)). rewrite Hk. split_and!.
      + done.
      + by apply (store_put_tombstone d (mkGcTombstone c true [0])).
      + intros x. case_decide; [subst; by rewrite lookup_insert_eq|by rewrite lookup_insert_ne]. }
  rewrite (txn_bind_ok _ _ _ _ _ Hb). destruct (IH (with_tombstones T1 d) Hst1) as (T&->&HT).
  { intros x Hx. cbn. rewrite HT1. case_decide; [eauto|]. apply Hin. by right. }
  exists T. rewrite with_with. split; [done|]. intros x. rewrite HT. cbn. rewrite HT1.
  destruct (decide (x = c)) as [->|Hne].
  - rewrite (decide_True _ _ (list_elem_of_here c chunks)), Ht. cbn. case_decide; [|done]. cbn.
    by destruct (gt_targets_initialized t) eqn:Hi; [rewrite Hi|].
  - assert (x ∈ c :: chunks ↔ x ∈ chunks) as Hiff by set_solver. by repeat case_decide; try tauto.
Qed.

Lemma acknowledge_run acks d :
  store_inv d → (∀ c w, (c, w) ∈ acks → ∃ t, tombstones d !! c = Some t ∧ gt_targets_initialized t = true) →
  ∃ T, acknowledge_gc_deletes_in_txn acks d = (Ok tt, with_tombstones T d) ∧
    ∀ c, T !! c = (λ t, mkGcTombstone (gt_chunk t) (gt_targets_initialized t)
                          (filter (λ w, (c, w) ∉ acks) (gt_pending_targets t))) <$> tombstones d !! c.
Proof.
  revert d. induction acks as [|[c w] acks IH]; intros d Hst Hin.
  { exists (tombstones d). rewrite with_tombstones_same. split; [done|]. intros c.
    destruct (tombstones d !! c) as [[]|]; [|done]. cbn. do 2 f_equal. symmetry. apply filter_all. intros ? _.
    apply not_elem_of_nil. }
  destruct (Hin c w (list_elem_of_here _ _)) as (t&Ht&Hi). unfold acknowledge_gc_deletes_in_txn in *. cbn [for_each fst snd].
  set (t1 := mkGcTombstone c true (filter (λ p, p ≠ w) (gt_pending_targets t))).
  destruct (st_tombstones _ Hst _ _ Ht) as [Hk _].
  rewrite (txn_bind_ok _ _ d tt (with_tombstones (<[c := t1]> (tombstones d)) d)).
  2: { rewrite (txn_bind_ok _ _ _ t d) by (by rewrite (find_tombstone_run _ _ Hst), Ht). rewrite Hi, Hk. done. }
  destruct (IH (with_tombstones (<[c := t1]> (tombstones d)) d)) as (T&->&HT).
  { by apply (store_put_tombstone d t1). }
  { intros x v Hx. cbn. destruct (decide (x = c)) as [->|]; [rewrite lookup_insert_eq; by eexists|].
    rewrite lookup_insert_ne by done. apply (Hin x v). by right. }
  exists T. rewrite with_with. split; [done|]. intros x. rewrite HT. cbn.
  destruct (decide (x = c)) as [->|Hne].
  - rewrite lookup_insert_eq, Ht. cbn. rewrite Hi, Hk, list_filter_filter. do 2 f_equal. apply list_filter_iff. intros p.
    rewrite not_elem_of_cons. naive_solver.
  - rewrite lookup_insert_ne by done. destruct (tombstones d !! x) as [t'|]; [|done]. cbn. do 2 f_equal.
    apply list_filter_iff. intros p. rewrite not_elem_of_cons. naive_solver.
Qed.

Lemma finalize_run chunks d :
  store_inv d → NoDup chunks →
  (∀ c, c ∈ chunks → ∃ t, tombstones d !! c = Some t ∧ gt_targets_initialized t = true ∧ gt_pending_targets t = []) →
  ∃ T, finalize_tombstones_in_txn chunks d = (Ok tt, with_tombstones T d) ∧
    ∀ c, T !! c = if decide (c ∈ chunks) then None else tombstones d !! c.
Proof.
  intros Hst Hn. revert d Hst. induction Hn as [|c chunks Hc Hn IH]; intros d Hst Hin.
  { exists (tombstones d). rewrite with_tombstones_same. done. }
  destruct (Hin c (list_elem_of_here _ _)) as (t&Ht&Hi&Hp). unfold finalize_tombstones_in_txn in *. cbn [for_each].
  assert ((tombstone ← find_tombstone c;
    _ ← fail_if (negb (gt_targets_initialized tombstone) || negb (bool_decide (gt_pending_targets tombstone = []))) Busy;
    modify (upd_tombstones (delete c))) d = (Ok tt, with_tombstones (delete c (tombstones d)) d)) as Hb.
  { rewrite (txn_bind_ok _ _ _ t d) by (by rewrite (find_tombstone_run _ _ Hst), Ht). by rewrite Hi, Hp. }
  rewrite (txn_bind_ok _ _ _ _ _ Hb). destruct (IH (with_tombstones (delete c (tombstones d)) d)) as (T&->&HT).
  { apply store_tombstones; [done|]. intros x t' [_ Hx]%lookup_delete_Some. by apply (st_tombstones _ Hst). }
  { intros x Hx. cbn. rewrite lookup_delete_ne by (by intros ->). apply Hin. by right. }
  exists T. rewrite with_with. split; [done|]. intros x. rewrite HT. cbn. destruct (decide (x = c)) as [->|Hne].
  - rewrite lookup_delete_eq. rewrite (decide_True _ _ (list_elem_of_here c chunks)). by case_decide.
  - rewrite lookup_delete_ne by done. assert (x ∈ c :: chunks ↔ x ∈ chunks) as Hiff by set_solver.
    by repeat case_decide; try tauto.
Qed.

Section progress.
Context {hash : bytes → ChunkId} {Ct U : Type} `{!ChunkStore hash Ct}.
Context (clock : nat → Z) (ms : N) (debug : MetaRaftResponse → string).
#[local] Instance live_meta : MetaStore Db := heed_meta clock ms debug.
Abbreviation Cl := (FluxClient Db Ct U).

Definition absent (k : Ct) (c : ChunkId) : Prop := ∃ e, cs_get k c = Err e.

(** A tombstone that waits for no target but the store. *)
Definition own_targets (t : GcTombstone) : Prop :=
  gt_targets_initialized t = true → ∀ w, w ∈ gt_pending_targets t → w = 0.
(** The targets a reclaim deletes from. *)
Definition due (t : GcTombstone) : list WorkerTargetId :=
  if gt_targets_initialized t then gt_pending_targets t else [0].

Lemma own_due t w : own_targets t → w ∈ due t → w = 0.
Proof using.
  unfold own_targets, due. destruct (gt_targets_initialized t); [auto|]. intros _ Hw. by apply list_elem_of_singleton in Hw.
Qed.

Lemma delete_targets_run chunk pending (c : Cl) :
  (∀ w, w ∈ pending → w = 0) → cs_wf (fc_chunks c) →
  ∃ k, delete_targets one_target chunk pending c = (Ok ((λ w, (chunk, w)) <$> pending, false), set_chunks k c) ∧ cs_wf k ∧
    (∀ x, x ≠ chunk → cs_get k x = cs_get (fc_chunks c) x) ∧
    (pending = [] → k = fc_chunks c) ∧ (pending ≠ [] ∨ absent (fc_chunks c) chunk → absent k chunk).
Proof using.
  revert c. induction pending as [|w pending IH]; intros c Hw Hwf; cbn [delete_targets].
  { exists (fc_chunks c). split_and!; [by destruct c|done..|]. by intros [|]. }
  rewrite (Hw w (list_elem_of_here _ _)).
  destruct (cs_delete_law (fc_chunks c) chunk Hwf) as (k1&Hdel&Hwf1&Habs&Hold).
  unfold match_with, on_chunks. cbn [one_target delete_from_target]. cbn [N.eqb negb]. rewrite Hdel.
  destruct (IH (set_chunks k1 c)) as (k&Hrun&Hwf2&Hold2&_&Habs2); [intros x Hx; apply Hw; by right|done|].
  exists k. rewrite (txn_bind_ok _ _ _ _ _ Hrun). split_and!; [by destruct c|done| |done|].
  - intros x Hx. rewrite Hold2 by done. by apply Hold.
  - intros _. apply Habs2. by right.
Qed.

Fixpoint due_acks (ts : list GcTombstone) : list (ChunkId * WorkerTargetId) :=
  match ts with [] => [] | t :: ts => ((λ w, (gt_chunk t, w)) <$> due t) ++ due_acks ts end.

Lemma elem_of_due_acks ts x w : (x, w) ∈ due_acks ts ↔ ∃ t, t ∈ ts ∧ gt_chunk t = x ∧ w ∈ due t.
Proof using.
  induction ts as [|t ts IH]; cbn [due_acks].
  { split; [by intros ?%elem_of_nil|by intros (t&?%elem_of_nil&_)]. }
  rewrite elem_of_app, IH, list_elem_of_fmap. split.
  - intros [(w'&[= -> ->]&Hw)|(t'&Hin&Hx&Hw)]; [exists t; by split_and!; [left|..]|exists t'; by split_and!; [right|..]].
  - intros (t'&[->|Hin]%elem_of_cons&<-&Hw); [left; by exists w|right; by exists t'].
Qed.

Lemma delete_tombstones_run ts (c : Cl) :
  Forall own_targets ts → cs_wf (fc_chunks c) →
  ∃ k, delete_tombstones one_target [0] ts c = (Ok (due_acks ts, gt_chunk <$> ts), set_chunks k c) ∧ cs_wf k ∧
    (∀ x, x ∉ gt_chunk <$> ts → cs_get k x = cs_get (fc_chunks c) x) ∧
    (∀ x, absent (fc_chunks c) x ∨ (∃ t, t ∈ ts ∧ gt_chunk t = x ∧ due t ≠ []) → absent k x).
Proof using.
  revert c. induction ts as [|t ts IH]; intros c Hown Hwf; cbn [delete_tombstones].
  { exists (fc_chunks c). split_and!; [by destruct c|done|done|]. by intros x [|(t&?%elem_of_nil&_)]. }
  apply Forall_cons in Hown as [Ht Hown]. fold (due t).
  destruct (delete_targets_run (gt_chunk t) (due t) c) as (k1&Hrun1&Hwf1&Hold1&Hsame1&Habs1); [by intros w; apply own_due|done|].
  destruct (IH (set_chunks k1 c) Hown Hwf1) as (k&Hrun&Hwf2&Hold&Habs). cbn [fc_chunks set_chunks] in *.
  exists k.
  rewrite (txn_bind_ok _ _ _ _ _ Hrun1). cbv beta iota. rewrite (txn_bind_ok _ _ _ _ _ Hrun). cbv beta iota.
  split_and!; [by destruct c|done| |].
  - intros x Hx. cbn [fmap list_fmap] in Hx. apply not_elem_of_cons in Hx as [Hne Hx]. rewrite Hold by done. by apply Hold1.
  - intros x Hx. apply Habs. destruct Hx as [[e Hx]|(t'&[->|Hin]%elem_of_cons&<-&Hd)].
    + left. destruct (decide (x = gt_chunk t)) as [->|Hne]; [apply Habs1; right; by exists e|].
      exists e. by rewrite Hold1.
    + left. apply Habs1. by left.
    + right. by exists t'.
Qed.

(** A write transaction of the client that succeeds, and one that is skipped
    for an empty list. *)
Lemma meta_step {A} (m : M A) (c : Cl) a d' :
  gc_lease (fc_meta c) = None → m (fc_meta c) = (Ok a, d') → on_meta (with_write_txn m) c = (Ok a, set_meta d' c).
Proof using. intros Hl Hm. unfold on_meta, with_write_txn. by rewrite Hl, Hm. Qed.

Lemma meta_step_unless {X} (xs : list X) (m : M unit) (c : Cl) d' :
  gc_lease (fc_meta c) = None → m (fc_meta c) = (Ok tt, d') → (xs = [] → d' = fc_meta c) →
  when (negb (bool_decide (xs = []))) (on_meta (with_write_txn m)) c = (Ok tt, set_meta d' c).
Proof using.
  intros Hl Hm Hnil. case_bool_decide as Hx; cbn [negb when]; [|by apply meta_step].
  rewrite (Hnil Hx). by destruct c.
Qed.

(** What the three transactions make of the table. *)
Lemma reclaim_rows ts d :
  store_inv d → NoDup (gt_chunk <$> ts) → (∀ t, t ∈ ts → tombstones d !! gt_chunk t = Some t) →
  let acks := due_acks ts in
  let un := gt_chunk <$> filter (λ t, gt_targets_initialized t = false) ts in
  ∃ T1 T2 T3, initialize_gc_targets_in_txn un [0] d = (Ok tt, with_tombstones T1 d) ∧
    acknowledge_gc_deletes_in_txn acks (with_tombstones T1 d) = (Ok tt, with_tombstones T2 d) ∧
    finalize_tombstones_in_txn (gt_chunk <$> ts) (with_tombstones T2 d) = (Ok tt, with_tombstones T3 d) ∧
    store_inv (with_tombstones T3 d) ∧
    ∀ x, T3 !! x = if decide (x ∈ gt_chunk <$> ts) then None else tombstones d !! x.
Proof using.
  intros Hst Hnd Hrows acks un. assert (Hacks := elem_of_due_acks ts). fold acks in Hacks. destruct (initialize_run un d Hst) as (T1&Hinit&HT1).
  { intros x (t&->&[_ Hin]%list_elem_of_filter)%list_elem_of_fmap. rewrite (Hrows _ Hin). eauto. }
  assert (store_inv (with_tombstones T1 d)) as Hst1 by (by eapply initialize_store).
  assert (∀ t, t ∈ ts → ∃ t', T1 !! gt_chunk t = Some t' ∧ gt_targets_initialized t' = true ∧ gt_pending_targets t' = due t) as Hd1.
  { intros t Hin. rewrite HT1, (Hrows _ Hin). unfold due. destruct (gt_targets_initialized t) eqn:Hi; cbn; rewrite ?Hi.
    - exists t. case_decide; done.
    - rewrite decide_True; [by eexists|]. apply list_elem_of_fmap. exists t. split; [done|]. by apply list_elem_of_filter. }
  destruct (acknowledge_run acks (with_tombstones T1 d) Hst1) as (T2&Hack&HT2).
  { intros x w (t&Hin&<-&_)%Hacks. destruct (Hd1 t Hin) as (t'&?&?&_). by exists t'. }
  rewrite with_with in Hack. cbn [tombstones with_tombstones upd_tombstones] in HT2.
  assert (store_inv (with_tombstones T2 d)) as Hst2 by (by eapply acknowledge_store).
  destruct (finalize_run (gt_chunk <$> ts) (with_tombstones T2 d) Hst2 Hnd) as (T3&Hfin&HT3).
  { intros x (t&->&Hin)%list_elem_of_fmap. destruct (Hd1 t Hin) as (t'&Ht'&Hi&Hp). cbn. rewrite HT2, Ht'.
    eexists. split_and!; [done|done|]. cbn. rewrite Hp. apply filter_none. intros w Hw Hnot. apply Hnot, Hacks. by exists t. }
  rewrite with_with in Hfin. exists T1, T2, T3. split_and!; [done..|by eapply finalize_store|].
  intros x. rewrite HT3. case_decide as Hx; [done|]. cbn. rewrite HT2, HT1, decide_False.
  - destruct (tombstones d !! x) as [[]|]; [|done]. cbn. do 2 f_equal. apply filter_all. intros w _ (t&Hin&<-&_)%Hacks.
    apply Hx. by apply list_elem_of_fmap_2.
  - intros (t&->&[_ Hin]%list_elem_of_filter)%list_elem_of_fmap. apply Hx. by apply list_elem_of_fmap_2.
Qed.

(** One reclaim of rows of the table. *)
Lemma reclaim_run ts (c : Cl) :
  store_inv (fc_meta c) → gc_lease (fc_meta c) = None → cs_wf (fc_chunks c) →
  NoDup (gt_chunk <$> ts) → Forall own_targets ts →
  (∀ t, t ∈ ts → tombstones (fc_meta c) !! gt_chunk t = Some t) →
  ∃ n T k, reclaim_tombstones one_target ts c = (Ok n, set_meta (with_tombstones T (fc_meta c)) (set_chunks k c)) ∧
    store_inv (with_tombstones T (fc_meta c)) ∧ cs_wf k ∧
    (∀ x, T !! x = if decide (x ∈ gt_chunk <$> ts) then None else tombstones (fc_meta c) !! x) ∧
    (∀ x, x ∉ gt_chunk <$> ts → cs_get k x = cs_get (fc_chunks c) x) ∧
    (∀ x, absent (fc_chunks c) x ∨ (∃ t, t ∈ ts ∧ gt_chunk t = x ∧ due t ≠ []) → absent k x).
Proof using.
  intros Hst Hlease Hwf Hnd Hown Hrows. unfold reclaim_tombstones.
  rewrite (txn_bind_ok (read_chunks _) _ _ [0] c eq_refl). cbv zeta.
  destruct (reclaim_rows ts (fc_meta c) Hst Hnd Hrows) as (T1&T2&T3&H1&H2&H3&Hst3&HT3).
  set (d := fc_meta c) in *. set (c1 := set_meta (with_tombstones T1 d) c).
  destruct (delete_tombstones_run ts c1 Hown Hwf) as (k&Hdel&Hwf'&Hold&Habs).
  rewrite (txn_bind_ok _ _ c tt c1).
  2: { apply meta_step_unless; [done|exact H1|]. intros Hnil. rewrite Hnil in H1. exact (eq_sym (f_equal snd H1)). }
  rewrite (txn_bind_ok _ _ _ _ _ Hdel). cbv beta iota.
  rewrite (txn_bind_ok _ _ _ tt (set_meta (with_tombstones T2 d) (set_chunks k c1))).
  2: { apply meta_step_unless; [done|exact H2|]. intros Hnil. rewrite Hnil in H2. exact (eq_sym (f_equal snd H2)). }
  rewrite (txn_bind_ok _ _ _ tt (set_meta (with_tombstones T3 d) (set_meta (with_tombstones T2 d) (set_chunks k c1)))).
  2: { apply meta_step_unless; [done|exact H3|]. intros Hnil. rewrite Hnil in H3. exact (eq_sym (f_equal snd H3)). }
  by eexists _, T3, k.
Qed.

(** ** One pass *)

Record quiet (c : Cl) : Prop := {
  q_store : store_inv (fc_meta c);
  q_lease : gc_lease (fc_meta c) = None;
  q_wf : cs_wf (fc_chunks c);
  q_own x t : tombstones (fc_meta c) !! x = Some t → own_targets t
}.

(** Nothing becomes live, what is live is as it was, what is absent stays so. *)
Record swept_on (c c' : Cl) : Prop := {
  sw_live x : live (fc_meta c') x → live (fc_meta c) x;
  sw_kept x : live (fc_meta c') x → cs_get (fc_chunks c') x = cs_get (fc_chunks c) x;
  sw_absent x : absent (fc_chunks c) x → absent (fc_chunks c') x
}.
Lemma swept_refl c : swept_on c c.
Proof using. by split. Qed.
Lemma swept_trans c1 c2 c3 : swept_on c1 c2 → swept_on c2 c3 → swept_on c1 c3.
Proof using.
  intros [A1 A2 A3] [B1 B2 B3]. split; [auto| |auto]. intros x Hx. rewrite B2 by done. auto.
Qed.

Lemma sweeps_live d d' x : sweeps d d' → live d' x → live d x.
Proof using.
  intros [H1 _ _ _ H5 H6] [(id&i&mid&m&Hi&Hmid&Hm&Hx)|(t&r&Hr&Hx)]; rewrite ?H1 in *.
  - left. exists id, i, mid, m. auto.
  - right. exists t, r. split; [|done]. by eapply lookup_weaken.
Qed.

Lemma expire_run limit d :
  store_inv d → gc_lease d = None →
  ∃ d', heed_expire_chunk_reservations ms limit d = (Ok tt, d') ∧ store_inv d' ∧ gc_lease d' = None ∧
    tombstones d' = tombstones d ∧ ∀ x, live d' x → live d x.
Proof using.
  intros Hst Hl. unfold heed_expire_chunk_reservations, with_write_txn. rewrite Hl.
  destruct (expire_reservations_in_txn ms limit d) as [r d'] eqn:Hrun.
  assert (Hst' := expire_store _ _ _ _ _ Hst Hrun).
  assert (is_ok r = true ∧ gc_lease d' = None ∧ tombstones d' = tombstones d ∧ ∀ x, live d' x → live d x)
    as (Hr&Hl'&Ht&Hlive).
  { unfold expire_reservations_in_txn, abort_reservation_in_txn in Hrun.
    destruct (limit =? 0); [by injection Hrun as <- <-|]. rewrite txn_bind_gets in Hrun. cbv zeta in Hrun.
    erewrite txn_bind_ok in Hrun by apply for_each_modify. injection Hrun as <- <-. rewrite fold_upd_reservations.
    split_and!; [done..|]. intros x [Hx|(t&r'&Hx&Hin)]; [by left|right]. cbn in Hx. rewrite foldl_delete in Hx.
    apply map_lookup_filter_Some in Hx as [Hx _]. by exists t, r'. }
  destruct r as [n|]; [|done]. exists d'. unfold mbind, txn_bind. rewrite Hrun. done.
Qed.

Lemma rows_listed d t : store_inv d → t ∈ list_tombstones d → tombstones d !! gt_chunk t = Some t.
Proof using.
  intros Hst Hin. unfold list_tombstones in Hin. rewrite sort_by_key_perm, list_elem_of_fmap in Hin.
  destruct Hin as ([k t']&->&Hk%elem_of_kv_sorted). cbn. by destruct (st_tombstones _ Hst _ _ Hk) as [-> _].
Qed.
Lemma list_tombstones_perm d :
  store_inv d → gt_chunk <$> list_tombstones d ≡ₚ (map_to_list (tombstones d)).*1.
Proof using.
  intros Hst. unfold list_tombstones. rewrite sort_by_key_perm, kv_sorted_perm, <-list_fmap_compose.
  erewrite list_fmap_ext; [done|]. intros i [k t'] Hi. cbn.
  apply list_elem_of_lookup_2, elem_of_map_to_list in Hi. by destruct (st_tombstones _ Hst _ _ Hi).
Qed.
Lemma listed_NoDup d : store_inv d → NoDup (gt_chunk <$> list_tombstones d).
Proof using. intros Hst. rewrite list_tombstones_perm by done. apply NoDup_fst_map_to_list. Qed.

(** A reclaim of listed tombstones, within a pass. *)
Lemma reclaim_quiet ts (c : Cl) :
  quiet c → NoDup (gt_chunk <$> ts) → (∀ t, t ∈ ts → t ∈ list_tombstones (fc_meta c)) →
  ∃ n c', reclaim_tombstones one_target ts c = (Ok n, c') ∧ quiet c' ∧ swept_on c c' ∧
    fc_gc_cursor c' = fc_gc_cursor c ∧
    (∀ x, tombstones (fc_meta c') !! x = if decide (x ∈ gt_chunk <$> ts) then None else tombstones (fc_meta c) !! x) ∧
    (∀ t, t ∈ ts → due t ≠ [] → absent (fc_chunks c') (gt_chunk t)).
Proof using.
  intros [Hst Hl Hwf Hown] Hnd Hin.
  assert (∀ t, t ∈ ts → tombstones (fc_meta c) !! gt_chunk t = Some t) as Hrows.
  { intros t Ht. apply rows_listed; [done|]. by apply Hin. }
  assert (Forall own_targets ts) as Howns by (apply Forall_forall; intros t Ht; eapply Hown; by apply Hrows).
  destruct (reclaim_run ts c Hst Hl Hwf Hnd Howns Hrows) as (n&T&k&Hrun&Hst'&Hwf'&HT&Hold&Habs).
  eexists n, _. split; [exact Hrun|]. split_and!; [|split; cbn|done|done|].
  - split; cbn; [done..|]. intros x t. rewrite HT. case_decide; [done|]. apply Hown.
  - done.
  - intros x Hx. apply Hold. intros (t&->&Ht)%list_elem_of_fmap.
    by destruct (st_tombstones _ Hst _ _ (Hrows t Ht)) as [_ []].
  - intros x Hx. apply Habs. by left.
  - intros t Ht Hd. apply Habs. right. by exists t.
Qed.

Section pass.
Context (batch : N) (Hbatch : 0 < batch < U64_MAX).

(** With tombstones waiting, a pass removes some of them. *)
Lemma pass_waiting (c : Cl) :
  quiet c → tombstones (fc_meta c) ≠ ∅ →
  ∃ r c', run_concurrent_gc_pass one_target batch c = (Ok r, c') ∧ quiet c' ∧ swept_on c c' ∧
    fc_gc_cursor c' = fc_gc_cursor c ∧ (size (tombstones (fc_meta c')) < size (tombstones (fc_meta c)))%nat.
Proof using Hbatch.
  intros Hq Hne. unfold run_concurrent_gc_pass. destruct (N.eqb_spec batch 0) as [|_]; [lia|].
  destruct (expire_run batch (fc_meta c) (q_store _ Hq) (q_lease _ Hq)) as (d1&Hexp&Hst1&Hl1&Ht1&Hlive1).
  set (c1 := set_meta d1 c).
  assert (quiet c1) as Hq1 by (destruct Hq; split; cbn; [done..|by rewrite Ht1]).
  assert (swept_on c c1) as Hsw1 by (by split).
  rewrite (txn_bind_ok _ _ c tt c1) by (unfold on_meta; cbn [live_meta heed_meta ms_expire_chunk_reservations]; by rewrite Hexp).
  rewrite (txn_bind_ok (read_meta _) _ c1 (list_tombstones d1) c1) by done.
  assert (list_tombstones d1 ≠ []) as Hlist.
  { intros Hnil. apply Hne. rewrite <-Ht1. apply map_to_list_empty_iff, (fmap_nil_inv fst), Permutation_nil_r.
    by rewrite <-list_tombstones_perm, Hnil. }
  rewrite bool_decide_false by done. cbn [negb].
  set (ts := take (N.to_nat batch) (list_tombstones d1)).
  destruct (reclaim_quiet ts c1 Hq1) as (n&c'&Hrun&Hq'&Hsw'&Hcur&HT&_).
  { assert (Hnd := listed_NoDup d1 Hst1). rewrite <-(take_drop (N.to_nat batch) (list_tombstones d1)), fmap_app in Hnd.
    by apply NoDup_app in Hnd as []. }
  { intros t Ht. by eapply elem_of_take in Ht as (i&Hi&_); eapply list_elem_of_lookup_2. }
  rewrite (txn_bind_ok _ _ _ _ _ Hrun). eexists _, c'. split_and!; [done|done|by eapply swept_trans|done|].
  destruct (list_tombstones d1) as [|t0 rest] eqn:Hl0; [done|].
  assert (t0 ∈ ts) as Ht0 by (unfold ts; destruct (N.to_nat batch) eqn:Hb; [lia|left]).
  assert (tombstones (fc_meta c) !! gt_chunk t0 = Some t0) as Hrow.
  { rewrite <-Ht1. apply rows_listed; [done|]. rewrite Hl0. left. }
  apply map_subset_size. split.
  - apply map_subseteq_spec. intros x t. rewrite HT. case_decide; [done|]. cbn. by rewrite Ht1.
  - intros Hsub. eapply lookup_weaken in Hrow; [|exact Hsub]. rewrite HT, decide_True in Hrow; [done|].
    by apply list_elem_of_fmap_2.
Qed.

Lemma batch_run cands d :
  store_inv d → gc_lease d = None →
  ∃ b d', tombstone_gc_batch_in_txn cands d = (Ok b, d') ∧ store_inv d' ∧ gc_lease d' = None ∧
    (∀ x, live d' x → live d x) ∧ (∀ x, x ∈ cands → ¬ live d x → x ∈ gb_tombstoned_chunks b) ∧
    ∀ x, tombstones d' !! x = if decide (x ∈ gb_tombstoned_chunks b) then Some (mkGcTombstone x false []) else tombstones d !! x.
Proof using.
  intros Hst Hl. destruct (tombstone_batch_run cands d Hst) as (l&rm&d'&Hrun&Hl'&Hst'&_&_&HT).
  exists (mkGcBatch l rm), d'. split_and!; [done|done| | |by intros x ??; apply Hl'|done].
  - assert (dispatch (λ _, 0%Z) (TombstoneGcBatch cands) d = (Ok (RGcBatch (mkGcBatch l rm)), d')) as Hd.
    { cbn [dispatch]. unfold respond, try_catch. by rewrite Hrun. }
    apply (framed_run _ _ _ _ (dispatch_framed (λ _, 0%Z) (TombstoneGcBatch cands) eq_refl)) in Hd.
    unfold aux in Hd. injection Hd as _ _ _ _ Hlease. by rewrite Hlease.
  - intros x. apply sweeps_live. by eapply (batch_sweeps cands d (mkGcBatch l rm)).
Qed.

(** Without tombstones, a pass works off one page: its unreferenced chunks
    are gone afterwards, and no tombstone is left. *)
Lemma pass_page (c : Cl) :
  quiet c → tombstones (fc_meta c) = ∅ →
  ∃ r c' l, run_concurrent_gc_pass one_target batch c = (Ok r, c') ∧ quiet c' ∧ swept_on c c' ∧
    tombstones (fc_meta c') = ∅ ∧ cs_list (fc_chunks c) = Ok l ∧
    let page := page_of (sort_dedup l) (fc_gc_cursor c) batch in
    fc_gc_cursor c' = cp_next_cursor page ∧
    ∀ x, x ∈ cp_chunks page → ¬ live (fc_meta c) x → absent (fc_chunks c') x.
Proof using Hbatch.
  intros Hq Hempty. unfold run_concurrent_gc_pass. destruct (N.eqb_spec batch 0) as [|Hb0]; [lia|].
  destruct (expire_run batch (fc_meta c) (q_store _ Hq) (q_lease _ Hq)) as (d1&Hexp&Hst1&Hl1&Ht1&Hlive1).
  set (c1 := set_meta d1 c). destruct (cs_list_law (fc_chunks c) (q_wf _ Hq)) as (l&Hlist&_).
  rewrite (txn_bind_ok _ _ c tt c1) by (unfold on_meta; cbn [live_meta heed_meta ms_expire_chunk_reservations]; by rewrite Hexp).
  assert (list_tombstones d1 = []) as Hnil.
  { unfold list_tombstones. rewrite Ht1, Hempty. done. }
  rewrite (txn_bind_ok (read_meta _) _ c1 [] c1) by (unfold read_meta; cbn; unfold heed_list_gc_tombstones; by rewrite Hnil).
  rewrite bool_decide_true by done. cbn [negb].
  rewrite (txn_bind_ok (gets _) _ _ _ _ eq_refl). change (fc_gc_cursor c1) with (fc_gc_cursor c).
  set (page := page_of (sort_dedup l) (fc_gc_cursor c) batch).
  rewrite (txn_bind_ok (read_chunks _) _ c1 page c1).
  2: { unfold read_chunks, list_chunks_page. change (fc_chunks c1) with (fc_chunks c). rewrite Hlist.
       by rewrite (proj2 (N.eqb_neq _ _) Hb0). }
  rewrite (txn_bind_ok (modify _) _ _ _ _ eq_refl).
  destruct (batch_run (cp_chunks page) d1 Hst1 Hl1) as (b&d2&Hrun&Hst2&Hl2&Hlive2&Hdead&HT2).
  set (c2 := set_meta d2 (set_gc_cursor (cp_next_cursor page) c1)).
  rewrite (txn_bind_ok _ _ _ b c2) by (by apply meta_step).
  rewrite (txn_bind_ok (read_meta _) _ c2 (list_tombstones d2) c2) by done.
  assert (quiet c2) as Hq2.
  { destruct Hq. split; cbn; [done..|]. intros x t. rewrite HT2, Ht1, Hempty.
    case_decide; [|by rewrite lookup_empty]. by intros [= <-]. }
  assert (swept_on c c2) as Hsw2 by (split; cbn; auto).
  set (ts := filter (λ t, gt_chunk t ∈ gb_tombstoned_chunks b) (list_tombstones d2)).
  assert (∀ x, x ∈ gb_tombstoned_chunks b → mkGcTombstone x false [] ∈ ts) as Hts.
  { intros x Hx. apply list_elem_of_filter. split; [done|]. unfold list_tombstones. rewrite sort_by_key_perm.
    apply list_elem_of_fmap. exists (x, mkGcTombstone x false []). split; [done|]. apply elem_of_kv_sorted.
    by rewrite HT2, decide_True. }
  destruct (reclaim_quiet ts c2 Hq2) as (n&c'&Hre&Hq'&Hsw'&Hcur&HT&Hgone).
  { eapply sublist_NoDup; [by apply (listed_NoDup d2)|]. apply fmap_sublist, sublist_filter. }
  { by intros t [_ ?]%list_elem_of_filter. }
  rewrite (txn_bind_ok _ _ _ _ _ Hre).
  eexists _, c', l. split_and!; [done|done|by eapply swept_trans| |done|done|].
  - apply map_eq. intros x. rewrite lookup_empty, HT. case_decide as Hx; [done|]. cbn. rewrite HT2, Ht1, Hempty, lookup_empty.
    case_decide as Hin; [|done]. destruct Hx. apply list_elem_of_fmap. eexists. by split; [|by apply Hts].
  - intros x Hx Hnl. apply (Hgone (mkGcTombstone x false [])); [|done]. apply Hts, Hdead; [done|]. auto.
Qed.

(** ** Passes one after the other, each of which must succeed *)

Fixpoint gc_passes (n : nat) : txn Cl FluxError unit :=
  match n with
  | O => mret tt
  | S n => _ ← run_concurrent_gc_pass one_target batch; gc_passes n
  end.

Lemma passes_app n1 n2 c c1 r : gc_passes n1 c = (Ok tt, c1) → gc_passes n2 c1 = r → gc_passes (n1 + n2) c = r.
Proof using.
  revert c. induction n1 as [|n1 IH]; intros c H1 H2; [by injection H1 as ->|]. cbn [gc_passes Nat.add] in *.
  apply txn_bind_inv in H1 as [(x&c2&Hp&H1)|(e&_&[=])]. rewrite (txn_bind_ok _ _ _ _ _ Hp). by apply IH.
Qed.

Lemma drain (c : Cl) :
  quiet c → ∃ n c', (n ≤ size (tombstones (fc_meta c)))%nat ∧ gc_passes n c = (Ok tt, c') ∧ quiet c' ∧ swept_on c c' ∧
    fc_gc_cursor c' = fc_gc_cursor c ∧ tombstones (fc_meta c') = ∅.
Proof using Hbatch.
  remember (size (tombstones (fc_meta c))) as m eqn:Hm. revert c Hm.
  induction (lt_wf m) as [m _ IH]; intros c -> Hq.
  destruct (decide (tombstones (fc_meta c) = ∅)) as [He|Hne].
  { exists 0%nat, c. split_and!; [lia|done|done|apply swept_refl|done|done]. }
  destruct (pass_waiting c Hq Hne) as (r&c1&Hp&Hq1&Hsw1&Hcur1&Hlt).
  destruct (IH _ Hlt c1 eq_refl Hq1) as (n&c'&Hn&Hrun&Hq'&Hsw'&Hcur&He').
  exists (S n), c'. cbn [gc_passes]. rewrite (txn_bind_ok _ _ _ _ _ Hp).
  split_and!; [lia|done|done|by eapply swept_trans|congruence|done].
Qed.

Lemma page_spec (chunks : list N) cursor :
  let rest := filter (λ x, after_cursor cursor x = true) chunks in
  page_of chunks cursor batch =
    if (batch <? N.of_nat (length rest)) then mkChunkPage (take (N.to_nat batch) rest) (last (take (N.to_nat batch) rest))
    else mkChunkPage rest None.
Proof using Hbatch.
  intros rest. unfold page_of. fold rest. rewrite take_take, sat_add_small, Nat.min_l by lia. rewrite length_take.
  destruct (N.ltb_spec batch (N.of_nat (length rest))) as [Hlt|Hge].
  - assert (batch <? N.of_nat (N.to_nat (batch + 1) `min` length rest) = true) as -> by (apply N.ltb_lt; lia). done.
  - assert (batch <? N.of_nat (N.to_nat (batch + 1) `min` length rest) = false) as -> by (apply N.ltb_ge; lia).
    by rewrite take_ge by lia.
Qed.

(** The chunks a cursor has not passed, and the sweep of all of them. *)
Definition ahead (c : Cl) : list ChunkId :=
  match cs_list (fc_chunks c) with
  | Ok l => filter (λ x, after_cursor (fc_gc_cursor c) x = true) (sort_dedup l)
  | Err _ => []
  end.

Lemma present_dec k x : absent k x ∨ ∃ data, cs_get k x = Ok data.
Proof using. unfold absent. destruct (cs_get k x); eauto. Qed.

Lemma elem_of_ahead c x :
  cs_wf (fc_chunks c) → x ∈ ahead c ↔ after_cursor (fc_gc_cursor c) x = true ∧ ∃ data, cs_get (fc_chunks c) x = Ok data.
Proof using.
  intros Hwf. unfold ahead. destruct (cs_list_law _ Hwf) as (l&->&Hl). by rewrite list_elem_of_filter, elem_of_sort_dedup, Hl.
Qed.
Lemma ahead_sorted c : StronglySorted N.lt (ahead c).
Proof using.
  unfold ahead. destruct (cs_list _); [|constructor]. apply StronglySorted_filter, sort_dedup_sorted.
Qed.

Lemma ahead_shrinks (c c' : Cl) cursor k :
  quiet c → quiet c' → swept_on c c' → last (take (S k) (ahead c)) = Some cursor → fc_gc_cursor c' = Some cursor →
  ahead c' ⊆ drop (S k) (ahead c).
Proof using.
  clear Hbatch.
  intros Hq Hq' Hsw Hlast Hcur x. rewrite elem_of_ahead by apply Hq'. rewrite Hcur. intros [Hx [data Hget]].
  assert (x ∈ ahead c) as Hin.
  { apply elem_of_ahead; [apply Hq|]. split.
    - assert (cursor ∈ ahead c) as Hc.
      { apply last_Some_elem_of, elem_of_take in Hlast as (i&Hi&_). by eapply list_elem_of_lookup_2. }
      apply elem_of_ahead in Hc as [Hc _]; [|apply Hq]. unfold after_cursor in *. destruct (fc_gc_cursor c); [|done].
      bools. rewrite N.ltb_lt in *. lia.
    - destruct (present_dec (fc_chunks c) x) as [Ha|]; [|done]. apply (sw_absent _ _ Hsw) in Ha as [e He]. congruence. }
  rewrite <-(sorted_filter_drop (ahead c) k cursor (ahead_sorted c) Hlast). by apply list_elem_of_filter.
Qed.

Lemma sweep_ahead (c : Cl) :
  quiet c → tombstones (fc_meta c) = ∅ →
  ∃ n c', (n ≤ length (ahead c) + 1)%nat ∧ gc_passes n c = (Ok tt, c') ∧ quiet c' ∧ swept_on c c' ∧
    tombstones (fc_meta c') = ∅ ∧ fc_gc_cursor c' = None ∧
    ∀ x, after_cursor (fc_gc_cursor c) x = true → ¬ live (fc_meta c) x → absent (fc_chunks c') x.
Proof using Hbatch.
  remember (length (ahead c)) as m eqn:Hm. revert c Hm.
  induction (lt_wf m) as [m _ IH]; intros c -> Hq He.
  destruct (pass_page c Hq He) as (r&c1&l&Hp&Hq1&Hsw1&He1&Hl&Hcur&Hgone).
  assert (ahead c = filter (λ x, after_cursor (fc_gc_cursor c) x = true) (sort_dedup l)) as Hahead by (unfold ahead; by rewrite Hl).
  rewrite page_spec, <-Hahead in Hcur, Hgone.
  assert (∀ x, after_cursor (fc_gc_cursor c) x = true → x ∉ ahead c → absent (fc_chunks c1) x) as Hmissing.
  { intros x Hx Hnot. apply (sw_absent _ _ Hsw1). destruct (present_dec (fc_chunks c) x) as [|Hpres]; [done|].
    destruct Hnot. by apply elem_of_ahead; [apply Hq|]. }
  destruct (N.ltb_spec batch (N.of_nat (length (ahead c)))) as [Hlt|Hge]; cbn [cp_chunks cp_next_cursor] in *.
  2: { exists 1%nat, c1. cbn [gc_passes]. rewrite (txn_bind_ok _ _ _ _ _ Hp). split_and!; [lia|done..|].
       intros x Hx Hnl. destruct (decide (x ∈ ahead c)); auto. }
  destruct (N.to_nat batch) as [|k] eqn:Hk; [lia|]. destruct (last (take (S k) (ahead c))) as [cursor|] eqn:Hlast.
  2: { apply last_None in Hlast. apply (f_equal length) in Hlast. rewrite length_take in Hlast. cbn [length] in Hlast. lia. }
  assert (Hsub := ahead_shrinks c c1 cursor k Hq Hq1 Hsw1 Hlast Hcur).
  assert (length (ahead c1) < length (ahead c))%nat as Hlen.
  { assert (length (ahead c1) ≤ length (drop (S k) (ahead c)))%nat; [|rewrite length_drop in *; lia].
    apply submseteq_length, NoDup_submseteq; [apply sorted_NoDup, ahead_sorted|done]. }
  destruct (IH _ Hlen c1 eq_refl Hq1 He1) as (n&c'&Hn&Hrun&Hq'&Hsw'&He'&Hcur'&Hrest).
  exists (S n), c'. cbn [gc_passes]. rewrite (txn_bind_ok _ _ _ _ _ Hp).
  split_and!; [lia|done|done|by eapply swept_trans|done|done|]. intros x Hx Hnl.
  destruct (after_cursor (Some cursor) x) eqn:Hax.
  { apply Hrest; [by rewrite Hcur|]. intros Hlive. by apply Hnl, (sw_live _ _ Hsw1). }
  apply (sw_absent _ _ Hsw'). destruct (decide (x ∈ ahead c)) as [Hin|]; [|auto]. apply Hgone; [|done].
  rewrite <-(take_drop (S k) (ahead c)) in Hin. apply elem_of_app in Hin as [|Hin]; [done|].
  rewrite <-(sorted_filter_drop (ahead c) k cursor (ahead_sorted c) Hlast) in Hin.
  apply list_elem_of_filter in Hin as [Hin _]. cbn in Hax. congruence.
Qed.
End pass.

End progress.

(** ** A store with an orphan *)

From S2P Require Import Pack ApplyInv ClientData Open GcSystem.

#[local] Instance orphan_meta : MetaStore Db := heed_meta (λ _, 7%Z) 1000 (λ _, "").
#[local] Instance orphan_chunks : ChunkStore toy_hash PackStore := pack_chunk_store toy_hash toy_hash_width.

Definition orphan_client : FluxClient Db PackStore unit :=
  client_new (sh_meta race_orphan) (sh_chunks race_orphan) tt.

