(* ===== verification/Fuse.v ===== *)
(** * The FUSE front end ([crates/fuse/src/lib.rs])

    Every handler of [FluxFs] is a call of the client and a reply.  A name of
    the kernel is its bytes; [to_str] tells whether they are UTF-8.  The
    buffer of a [readdir] reply belongs to the [fuser] library: whether it
    takes one more entry is a parameter. *)

From S2P Require Import Prelude Types Bytes Authz ChunkStore Ufs MetaDb Ledger MetaStore Client ClientIo ClientCalls ClientFlush.

Local Open Scope N_scope.

(** ** Values of the protocol *)

Inductive Errno := ENOENT | EEXIST | ENOTDIR | EISDIR | ENOTEMPTY | ENODATA | ENOSPC | EPERM | EOPNOTSUPP
  | EAGAIN | EROFS | EINVAL | EACCES | EIO | ERANGE.
#[export] Instance Errno_eq_dec : EqDecision Errno.
Proof. solve_decision. Defined.

Definition fuse_errno (e : FluxError) : Errno :=
  match e with
  | NotFound => ENOENT
  | AlreadyExists => EEXIST
  | NotDirectory => ENOTDIR
  | IsDirectory => EISDIR
  | NotEmpty => ENOTEMPTY
  | NoData => ENODATA
  | NoSpace => ENOSPC
  | NotPermitted => EPERM
  | Types.Capability _ => EOPNOTSUPP
  | Busy => EAGAIN
  | CasFailed _ _ => EAGAIN
  | ReadOnly => EROFS
  | InvalidArg _ => EINVAL
  | Types.Unauthenticated _ | Unauthorized _ => EACCES
  | _ => EIO
  end.

(** ** Times

    A [SystemTime] is a number of nanoseconds around the epoch, with seconds
    of 64 bits; an inode's time is an [i64] of milliseconds. *)

Abbreviation SystemTime := Z (only parsing).
Definition NANOS_PER_MS : Z := 1000000.
Definition I64_MAX : Z := (2 ^ 63 - 1)%Z.
Definition systime_in_range (t : SystemTime) : bool :=
  (- 2 ^ 63 * 1000000000 <=? t)%Z && (t <? 2 ^ 63 * 1000000000)%Z.

Definition ms_to_systime (ms : Z) : SystemTime :=
  if (0 <=? ms)%Z then (ms * NANOS_PER_MS)%Z
  else let t := (0 - Z.abs ms * NANOS_PER_MS)%Z in if systime_in_range t then t else 0%Z.

(** [i64::try_from(..).unwrap_or(i64::MAX)] of a duration's milliseconds. *)
Definition clamp_ms (nanos : Z) : Z := Z.min (nanos / NANOS_PER_MS) I64_MAX.

Definition system_time_to_ms (time : SystemTime) : Z :=
  if (0 <=? time)%Z then clamp_ms time else (- clamp_ms (- time))%Z.

Inductive TimeOrNow := SpecificTime (t : SystemTime) | Now.
Definition time_or_now_to_ms (now : SystemTime) (t : TimeOrNow) : Z :=
  match t with Now => system_time_to_ms now | SpecificTime st => system_time_to_ms st end.

(** ** Attributes *)

Inductive FuseFileType := FDirectory | FRegularFile | FSymlink.
Definition fuse_kind (t : FileType) : FuseFileType :=
  match t with Directory => FDirectory | Regular => FRegularFile | Symlink => FSymlink end.

Record FileAttr := mkFileAttr {
  fa_ino : N; fa_size : N; fa_blocks : N;
  fa_atime : SystemTime; fa_mtime : SystemTime; fa_ctime : SystemTime; fa_crtime : SystemTime;
  fa_kind : FuseFileType; fa_perm : N; fa_nlink : N; fa_uid : N; fa_gid : N;
  fa_rdev : N; fa_blksize : N; fa_flags : N
}.

(** [size.div_ceil(512)]; the mode keeps its twelve permission bits. *)
Definition attr (ino : Inode) : FileAttr :=
  let ctime := ms_to_systime (i_ctime_ms ino) in
  mkFileAttr (i_id ino) (i_size ino) (i_size ino / 512 + (if i_size ino mod 512 =? 0 then 0 else 1))
    (ms_to_systime (i_atime_ms ino)) (ms_to_systime (i_mtime_ms ino)) ctime ctime
    (fuse_kind (i_file_type ino)) (N.land (i_mode ino) 4095) (i_link_count ino) (i_uid ino) (i_gid ino) 0 4096 0.

(** ** Replies *)

Record DirEntry := mkDirEntry { de_ino : N; de_offset : N; de_kind : FuseFileType; de_name : string }.

Inductive Reply :=
  | ReplyEntry (ttl_secs : N) (a : FileAttr) (generation : N)
  | ReplyAttr (ttl_secs : N) (a : FileAttr)
  | ReplyOk
  | ReplyData (data : bytes)
  | ReplySize (size : N)
  | ReplyOpened (fh : N)
  | ReplyCreated (ttl_secs : N) (a : FileAttr) (generation fh : N)
  | ReplyWritten (n : N)
  | ReplyDirectory (entries : list DirEntry)
  | ReplyError (e : Errno).

Definition TTL : N := 1.
Definition reply_entry (ino : Inode) : Reply := ReplyEntry TTL (attr ino) 0.
Definition reply_attr (ino : Inode) : Reply := ReplyAttr TTL (attr ino).

(** The caller of a request. *)
Record FuseRequest := mkFuseRequest { fq_uid : N; fq_gid : N }.

(** [OsStr::to_str]. *)
Definition to_str (name : string) : option string := if utf8_valid (str_bytes name) then Some name else None.

(** [RENAME_NOREPLACE], and the flags outside it. *)
Definition RENAME_NOREPLACE : N := 1.
Definition unsupported_rename (flags : N) : bool := negb (N.ldiff flags RENAME_NOREPLACE =? 0).

Definition xattr_mode (flags : Z) : XattrSetMode :=
  if (flags =? 1)%Z then Create else if (flags =? 2)%Z then Replace else Upsert.
(** [flags & !0x3 != 0 || flags == 0x3]. *)
Definition bad_xattr_flags (flags : Z) : bool :=
  negb (Z.ldiff flags 3 =? 0)%Z || (flags =? 3)%Z.

(** The two steps of an attribute read: the length for a buffer of none. *)
Definition sized_reply (value : bytes) (size : N) : Reply :=
  if size =? 0 then ReplySize (N.of_nat (length value) mod 2 ^ 32)
  else if N.of_nat (length value) <=? size then ReplyData value
  else ReplyError ERANGE.

Definition xattr_list (names : list string) : bytes := concat ((λ n, str_bytes n ++ [x00]%byte) <$> names).

(** ** Handlers *)

Section handlers.
Context {hash : bytes → ChunkId} {Mt Ct U : Type}.
Context `{!MetaStore Mt, !ChunkStore hash Ct}.
Context (ufs : option (Ufs U)).
(** The clocks of the handler and of the client, and the fresh ids that the
    client draws during a call. *)
Context (sys_now : SystemTime) (now : Z) (ticket : WriteTicketId) (op_id : RequestOpId) (flush_id : FlushId) (ids : nat → RequestOpId).

Abbreviation Cl := (FluxClient Mt Ct U).
Abbreviation C := (txn Cl FluxError).
Abbreviation H := (Cl → Reply * Cl).

Definition replying {A} (f : A → Reply) (m : C A) : H := λ c,
  match m c with (Ok a, c) => (f a, c) | (Err e, c) => (ReplyError (fuse_errno e), c) end.
Definition refuse (e : Errno) : H := λ c, (ReplyError e, c).
(** [let Some(name) = name.to_str() else { reply.error(e); return }]. *)
Definition with_str (e : Errno) (name : string) (f : string → H) : H :=
  match to_str name with Some name => f name | None => refuse e end.

Definition fuse_lookup (parent : InodeId) (name : string) : H :=
  with_str ENOENT name (λ name, replying reply_entry (client_lookup ufs now op_id parent name)).

Definition fuse_getattr (ino : InodeId) : H := replying reply_attr (read_meta (ms_get_inode ino)).

Definition fuse_setattr (ino : InodeId) (mode uid gid size : option N) (atime mtime : option TimeOrNow) : H :=
  let attrs := mkInodeSetAttr mode uid gid size
    (time_or_now_to_ms sys_now <$> atime) (time_or_now_to_ms sys_now <$> mtime) in
  replying reply_attr (setattr now ticket op_id ino attrs).

Definition fuse_mkdir (req : FuseRequest) (parent : InodeId) (name : string) (mode : N) : H :=
  with_str ENOENT name (λ name, replying reply_entry (mkdir ufs parent name mode (fq_uid req) (fq_gid req))).

Definition fuse_unlink (parent : InodeId) (name : string) : H :=
  with_str ENOENT name (λ name, replying (λ _, ReplyOk) (client_unlink ufs parent name)).

Definition fuse_rmdir (parent : InodeId) (name : string) : H :=
  with_str ENOENT name (λ name, replying (λ _, ReplyOk) (client_rmdir ufs parent name)).

Definition fuse_symlink (req : FuseRequest) (parent : InodeId) (link_name target : string) : H :=
  match to_str link_name, to_str target with
  | Some link_name, Some target =>
      replying reply_entry (client_symlink ufs parent link_name target (fq_uid req) (fq_gid req))
  | _, _ => refuse EINVAL
  end.

Definition fuse_readlink (ino : InodeId) : H := replying (λ target, ReplyData (str_bytes target)) (readlink ino).

Definition fuse_rename (parent : InodeId) (name : string) (newparent : InodeId) (newname : string) (flags : N) : H :=
  match to_str name, to_str newname with
  | Some name, Some newname =>
      if unsupported_rename flags then refuse EOPNOTSUPP else
      replying (λ _, ReplyOk)
        (client_rename ufs parent name newparent newname (N.land flags RENAME_NOREPLACE =? RENAME_NOREPLACE))
  | _, _ => refuse ENOENT
  end.

Definition fuse_link (ino newparent : InodeId) (newname : string) : H :=
  with_str ENOENT newname (λ newname, replying reply_entry (client_link ufs ino newparent newname)).

Definition fuse_setxattr (ino : InodeId) (name : string) (value : bytes) (flags : Z) (position : N) : H :=
  with_str EINVAL name (λ name,
    if negb (position =? 0) || bad_xattr_flags flags then refuse EINVAL
    else replying (λ _, ReplyOk) (client_set_xattr ufs ino name value (xattr_mode flags))).

Definition fuse_getxattr (ino : InodeId) (name : string) (size : N) : H :=
  with_str EINVAL name (λ name, replying (λ value, sized_reply value size) (client_get_xattr ino name)).

Definition fuse_listxattr (ino : InodeId) (size : N) : H :=
  replying (λ names, sized_reply (xattr_list names) size) (client_list_xattrs ino).

Definition fuse_removexattr (ino : InodeId) (name : string) : H :=
  with_str EINVAL name (λ name, replying (λ _, ReplyOk) (client_remove_xattr ufs ino name)).

Definition fuse_open (ino : InodeId) : H := λ c,
  match read_meta (ms_get_inode ino) c with
  | (Ok inode, c) =>
      if bool_decide (i_file_type inode = Regular) then replying (λ _, ReplyOpened 0) (open_inode_handle ino) c
      else (ReplyError EISDIR, c)
  | (Err e, c) => (ReplyError (fuse_errno e), c)
  end.

(** The handle is opened after the file was created; an error of the second
    step leaves the file. *)
Definition fuse_create (req : FuseRequest) (parent : InodeId) (name : string) (mode : N) : H :=
  with_str ENOENT name (λ name c,
    match create_file ufs parent name mode (fq_uid req) (fq_gid req) c with
    | (Ok ino, c) => replying (λ _, ReplyCreated TTL (attr ino) 0 0) (open_inode_handle (i_id ino)) c
    | (Err e, c) => (ReplyError (fuse_errno e), c)
    end).

Definition fuse_read (ino : InodeId) (offset size : N) : H := replying ReplyData (read_at ufs ino offset size).

Definition fuse_write (ino : InodeId) (offset : N) (data : bytes) : H :=
  replying ReplyWritten (write_at ufs now ticket op_id ino offset data).

Definition fuse_flush (ino : InodeId) : H := λ c, (ReplyOk, c).
Definition fuse_release (ino : InodeId) : H := replying (λ _, ReplyOk) (close_inode_handle ino).
Definition fuse_fsync (ino : InodeId) : H := replying (λ _, ReplyOk) (flush_inode ufs flush_id ids ino).

(** *** Directories *)

(** Whether the reply's buffer takes an entry after those it holds. *)
Context (fits : list DirEntry → DirEntry → bool).

(** [reply.add]: the buffer, and whether it was full. *)
Definition add (buffer : list DirEntry) (e : DirEntry) : list DirEntry * bool :=
  if fits buffer e then (buffer ++ [e], false) else (buffer, true).

(** The loop over the children; [i] counts them. *)
Fixpoint readdir_children (offset i : N) (entries : list Dentry) (buffer : list DirEntry) (m : Mt) : list DirEntry :=
  match entries with
  | [] => buffer
  | d :: entries =>
      let next := i + 3 in
      if next <=? offset then readdir_children offset (i + 1) entries buffer m else
      match ms_get_inode (d_child d) m with
      | Err _ => readdir_children offset (i + 1) entries buffer m
      | Ok child =>
          let '(buffer, full) := add buffer (mkDirEntry (d_child d) next (fuse_kind (i_file_type child)) (d_name d)) in
          if full : bool then buffer else readdir_children offset (i + 1) entries buffer m
      end
  end.

Definition fuse_readdir (ino : InodeId) (offset : N) : H := λ c,
  match client_readdir ufs now ids ino c with
  | (Err e, c) => (ReplyError (fuse_errno e), c)
  | (Ok entries, c) =>
      let '(buffer, full) := if offset <? 1 then add [] (mkDirEntry ino 1 FDirectory ".") else ([], false) in
      if full : bool then (ReplyDirectory buffer, c) else
      let '(buffer, full) := if offset <? 2 then add buffer (mkDirEntry ino 2 FDirectory "..") else (buffer, false) in
      if full : bool then (ReplyDirectory buffer, c) else
      (ReplyDirectory (readdir_children offset 0 entries buffer (fc_meta c)), c)
  end.

(** What the kernel does with it: ask again from the last offset it was given
    until a reply is empty. *)
Fixpoint list_directory (fuel : nat) (ino : InodeId) (offset : N) (c : Cl) : option (list DirEntry) :=
  match fuel with
  | O => None
  | S fuel =>
      match fuse_readdir ino offset c with
      | (ReplyDirectory [], _) => Some []
      | (ReplyDirectory entries, c) =>
          match last entries with
          | Some e => (λ rest, entries ++ rest) <$> list_directory fuel ino (de_offset e) c
          | None => None
          end
      | _ => None
      end
  end.
End handlers.

(** ** Listing a directory *)

Lemma sorted_after {A} (f : A → N) (l : list A) k e :
  StronglySorted (λ a b, f a < f b) l → last (take (S k) l) = Some e → filter (λ x, f e < f x) l = drop (S k) l.
Proof.
  intros Hs Hl. rewrite <-(take_drop (S k) l) in Hs |- * at 1.
  assert (e ∈ take (S k) l) as He by (by apply last_Some_elem_of).
  rewrite filter_app, (filter_none _ (take (S k) l)), (filter_all _ (drop (S k) l)); [done| |].
  - intros x Hx. by apply (StronglySorted_app_1_elem_of (λ a b, f a < f b) _ _ e x Hs).
  - intros x Hx Hlt. apply last_Some in Hl as [l' Hl]. rewrite Hl in Hx, Hs.
    apply elem_of_app in Hx as [Hx| ->%list_elem_of_singleton]; [|lia].
    rewrite <-app_assoc in Hs. assert (f x < f e); [|lia].
    apply (StronglySorted_app_1_elem_of (λ a b, f a < f b) _ _ x e Hs); [done|]. by left.
Qed.

Section listing.
Context {hash : bytes → ChunkId} {Mt Ct U : Type}.
Context `{!MetaStore Mt, !ChunkStore hash Ct}.
Context (now : Z) (ids : nat → RequestOpId) (fits : list DirEntry → DirEntry → bool).
Abbreviation Cl := (FluxClient Mt Ct U).

(** As much of a list as the buffer takes. *)
Fixpoint fill_buffer (buffer l : list DirEntry) : list DirEntry :=
  match l with [] => buffer | e :: l => if fits buffer e then fill_buffer (buffer ++ [e]) l else buffer end.

Lemma fill_prefix buffer l : ∃ k, fill_buffer buffer l = buffer ++ take k l ∧ (∀ e l', l = e :: l' → fits buffer e = true → k ≠ 0%nat).
Proof using.
  revert buffer. induction l as [|e l IH]; intros buffer; cbn [fill_buffer].
  { exists 0%nat. rewrite app_nil_r. done. }
  destruct (fits buffer e) eqn:Hf; [|exists 0%nat; rewrite app_nil_r; split; [done|congruence]].
  destruct (IH (buffer ++ [e])) as (k&->&_). exists (S k). rewrite <-app_assoc. done.
Qed.

(** The children, as the reply shows them. *)
Fixpoint children (i : N) (entries : list Dentry) (m : Mt) : list DirEntry :=
  match entries with
  | [] => []
  | d :: entries =>
      match ms_get_inode (d_child d) m with
      | Ok child => [mkDirEntry (d_child d) (i + 3) (fuse_kind (i_file_type child)) (d_name d)]
      | Err _ => []
      end ++ children (i + 1) entries m
  end.

Lemma readdir_children_fill offset i entries buffer m :
  readdir_children fits offset i entries buffer m =
  fill_buffer buffer (filter (λ e, offset < de_offset e) (children i entries m)).
Proof using.
  revert i buffer. induction entries as [|d entries IH]; intros i buffer; [done|]. cbn [readdir_children children].
  destruct (N.leb_spec (i + 3) offset) as [Hle|Hlt].
  - rewrite IH. f_equal. destruct (ms_get_inode _ _); cbn [app]; [|done]. rewrite filter_cons, decide_False; [done|cbn; lia].
  - destruct (ms_get_inode _ _) as [child|]; cbn [app]; [|apply IH].
    rewrite filter_cons, decide_True by (cbn; lia). cbn [fill_buffer]. unfold add. destruct (fits buffer _); [|done]. apply IH.
Qed.

Definition whole_listing (ino : InodeId) (entries : list Dentry) (m : Mt) : list DirEntry :=
  mkDirEntry ino 1 FDirectory "." :: mkDirEntry ino 2 FDirectory ".." :: children 0 entries m.

Lemma children_after i entries m e : e ∈ children i entries m → i + 3 ≤ de_offset e.
Proof using.
  revert i. induction entries as [|d entries IH]; intros i; [by intros ?%elem_of_nil|]. cbn [children].
  intros [He|He%IH]%elem_of_app; [|lia]. destruct (ms_get_inode _ _); [|by apply elem_of_nil in He].
  apply list_elem_of_singleton in He as ->. cbn. lia.
Qed.

Lemma children_sorted i entries m : StronglySorted (λ a b, de_offset a < de_offset b) (children i entries m).
Proof using.
  revert i. induction entries as [|d entries IH]; intros i; [constructor|]. cbn [children].
  destruct (ms_get_inode _ _); [|apply IH]. cbn. constructor; [apply IH|].
  apply Forall_forall. intros e He%children_after. cbn. lia.
Qed.

Lemma whole_sorted ino entries m : StronglySorted (λ a b, de_offset a < de_offset b) (whole_listing ino entries m).
Proof using.
  unfold whole_listing. repeat constructor; [apply children_sorted|..]; cbn;
    apply Forall_forall; intros e He%children_after; cbn; lia.
Qed.

Lemma readdir_fill ino offset (c : Cl) entries :
  ms_readdir ino (fc_meta c) = Ok entries →
  fuse_readdir None now ids fits ino offset c =
    (ReplyDirectory (fill_buffer [] (filter (λ e, offset < de_offset e) (whole_listing ino entries (fc_meta c)))), c).
Proof using.
  intros Hr. unfold fuse_readdir, client_readdir. rewrite (txn_bind_ok (mret tt) _ _ _ _ eq_refl).
  unfold read_meta. rewrite Hr. unfold whole_listing. rewrite !filter_cons. cbn [de_offset].
  destruct (N.ltb_spec offset 1) as [H1|H1].
  { rewrite (proj2 (N.ltb_lt offset 2)), !decide_True by lia. cbn [fill_buffer]. unfold add. destruct (fits [] _); [|done].
    cbn [app]. destruct (fits [_] _); [|done]. cbn [app]. by rewrite readdir_children_fill. }
  rewrite (decide_False (P := offset < 1)) by lia. destruct (N.ltb_spec offset 2) as [H2|H2].
  { rewrite decide_True by lia. cbn [fill_buffer]. unfold add. destruct (fits [] _); [|done].
    cbn [app]. by rewrite readdir_children_fill. }
  rewrite decide_False by lia. by rewrite readdir_children_fill.
Qed.

(** C21: listing a directory.  A caller that asks again from the last offset
    until a reply is empty, over a directory that does not change and with a
    buffer that takes at least one entry, gets the two dots and then every
    child whose inode can be read exactly once, in the order of the
    directory, after at most one call for each entry and one more. *)
Theorem listing_complete ino (c : Cl) entries fuel :
  (∀ e, fits [] e = true) → ms_readdir ino (fc_meta c) = Ok entries → (length entries + 3 ≤ fuel)%nat →
  list_directory None now ids fits fuel ino 0 c = Some (whole_listing ino entries (fc_meta c)).
Proof using.
  intros Hfits Hr Hfuel. set (all := whole_listing ino entries (fc_meta c)).
  assert (∀ fuel offset, let rest := filter (λ e, offset < de_offset e) all in (length rest < fuel)%nat →
    list_directory None now ids fits fuel ino offset c = Some rest) as Hloop.
  { clear fuel Hfuel. induction fuel as [|fuel IH]; intros offset rest Hlen; [lia|]. cbn [list_directory].
    rewrite (readdir_fill ino offset c entries Hr). fold all. fold rest.
    destruct (fill_prefix [] rest) as (k&->&Hk). cbn [app]. destruct rest as [|e0 rest'] eqn:Hrest; [by rewrite take_nil|].
    destruct k as [|k]; [by destruct (Hk e0 rest')|]. destruct (take (S k) (e0 :: rest')) as [|x xs] eqn:Ht; [done|].
    rewrite <-Ht, <-Hrest in *. destruct (last (take (S k) rest)) as [e|] eqn:Hl.
    2: { apply last_None in Hl. by rewrite Ht in Hl. }
    assert (filter (λ x, de_offset e < de_offset x) all = drop (S k) rest) as Hnext.
    { rewrite <-(sorted_after de_offset rest k e).
      - unfold rest. rewrite list_filter_filter. apply list_filter_iff. intros y. split; [|tauto]. intros Hy. split; [done|].
        apply last_Some_elem_of, elem_of_take in Hl as (i&Hi&_). apply list_elem_of_lookup_2, list_elem_of_filter in Hi as [? _]. lia.
      - apply StronglySorted_filter, whole_sorted.
      - done. }
    rewrite IH; rewrite Hnext; [cbn; by rewrite take_drop|]. rewrite length_drop. rewrite Hrest in *. cbn [length] in *. lia. }
  assert (filter (λ e, 0 < de_offset e) all = all) as Hall.
  { apply filter_all. intros e [->|[->|He%children_after]%elem_of_cons]%elem_of_cons; cbn; lia. }
  rewrite Hloop; rewrite Hall; [done|]. unfold all, whole_listing. cbn [length].
  assert (length (children 0 entries (fc_meta c)) ≤ length entries)%nat; [|lia]. generalize 0. clear.
  induction entries as [|d entries IH]; intros i; [done|]. cbn [children]. rewrite length_app. specialize (IH (i + 1)).
  destruct (ms_get_inode _ _); cbn; lia.
Qed.
End listing.

(** ** Times and attributes *)

(** A time that was shown to the kernel and comes back unchanged is stored
    unchanged, before and after the epoch; only the least [i64] moves, by one
    millisecond. *)
Theorem times_roundtrip ms :
  (- 2 ^ 63 < ms ≤ I64_MAX)%Z → system_time_to_ms (ms_to_systime ms) = ms.
Proof.
  unfold I64_MAX. intros Hms. unfold ms_to_systime, system_time_to_ms, clamp_ms, I64_MAX, NANOS_PER_MS.
  destruct (Z.leb_spec 0 ms) as [Hpos|Hneg].
  - rewrite (proj2 (Z.leb_le 0 (ms * 1000000))) by lia. rewrite Z.div_mul by done. lia.
  - assert (systime_in_range (0 - Z.abs ms * 1000000) = true) as ->.
    { unfold systime_in_range. apply andb_true_iff. rewrite Z.leb_le, Z.ltb_lt. lia. }
    rewrite (proj2 (Z.leb_gt 0 _)) by lia.
    replace (- (0 - Z.abs ms * 1000000))%Z with (Z.abs ms * 1000000)%Z by lia. rewrite Z.div_mul by done. lia.
Qed.

(** The caller's side of [listxattr]: the names up to each NUL. *)
Fixpoint split_nul (name : bytes) (l : bytes) : list bytes :=
  match l with
  | [] => []
  | b :: l => if Byte.eqb b x00 then name :: split_nul [] l else split_nul (name ++ [b]) l
  end.

Lemma split_nul_name name n rest :
  ¬ (x00%byte ∈ n) → split_nul name (n ++ x00%byte :: rest) = (name ++ n) :: split_nul [] rest.
Proof.
  revert name. induction n as [|b n IH]; intros name Hn; cbn [app split_nul]; [by rewrite app_nil_r|].
  apply not_elem_of_cons in Hn as [Hb Hn]. destruct (Byte.eqb b x00) eqn:He.
  - apply Byte.byte_dec_bl in He. congruence.
  - rewrite IH, <-app_assoc by done. done.
Qed.

(** Reading the list of attributes takes two calls: the first tells the
    length, and a buffer of that length gets the names, each of which can be
    told from the next. *)
Theorem xattr_two_calls names :
  Forall (λ n, ¬ (x00%byte ∈ str_bytes n)) names →
  let len := N.of_nat (length (xattr_list names)) in
  0 < len < 2 ^ 32 →
  sized_reply (xattr_list names) 0 = ReplySize len ∧
  sized_reply (xattr_list names) len = ReplyData (xattr_list names) ∧
  split_nul [] (xattr_list names) = str_bytes <$> names.
Proof.
  intros Hn len Hlen. unfold sized_reply. fold len. rewrite N.mod_small, (proj2 (N.eqb_neq len 0)), N.leb_refl by lia.
  split_and!; [done..|]. clear len Hlen. unfold xattr_list. induction Hn as [|n names Hn _ IH]; [done|].
  cbn [fmap list_fmap concat]. rewrite <-app_assoc. cbn [app]. rewrite split_nul_name by done. by rewrite IH.
Qed.

(** ** A directory that changes while it is listed *)

From S2P Require Import Pack Apply Open Machine.

#[local] Instance shown_meta : MetaStore Db := heed_meta (λ _, 7%Z) 1000 (λ _, "").
#[local] Instance shown_chunks : ChunkStore toy_hash PackStore := pack_chunk_store toy_hash toy_hash_width.

Definition touch_file (name : string) (d : Db) : Db :=
  (dispatch (λ _, 7%Z) (CreateOp ROOT_INODE name Regular 420 0 0 None) d).2.
(** Three files, and a reply that holds three entries. *)
Definition three_files : FluxClient Db PackStore unit :=
  client_new (touch_file "c" (touch_file "b" (touch_file "a" (fresh_store 0)))) new_store tt.
Definition three_slots (buffer : list DirEntry) (_ : DirEntry) : bool := (length buffer <? 3)%nat.

Definition shown (offset : N) (c : FluxClient Db PackStore unit) : list string :=
  match (fuse_readdir None 7%Z (λ _, 1) three_slots ROOT_INODE offset c).1 with
  | ReplyDirectory l => de_name <$> l
  | _ => []
  end.

Lemma listing_complete_witness :
  ∃ entries, ms_readdir ROOT_INODE (fc_meta three_files) = Ok entries ∧
    list_directory None 7%Z (λ _, 1) three_slots 6 ROOT_INODE 0 three_files =
      Some (whole_listing ROOT_INODE entries (fc_meta three_files)).
Proof.
  assert (match ms_readdir ROOT_INODE (fc_meta three_files) with Ok l => length l | Err _ => 9%nat end = 3%nat) as Hlen.
  { vm_compute. reflexivity. }
  destruct (ms_readdir ROOT_INODE (fc_meta three_files)) as [entries|e] eqn:Hr.
  - exists entries. split; [reflexivity|]. apply (listing_complete 7%Z (λ _, 1) three_slots ROOT_INODE three_files entries 6).
    + intros e. reflexivity.
    + exact Hr.
    + lia.
  - discriminate Hlen.
Defined.

