(* ===== verification/Streams.v ===== *)
(** * Streams of bytes in and out of a file

    [write_from_reader] and [read_to_writer] of the client, which the commands
    that copy files use: what was streamed in is what comes out, over every
    metadata store and chunk store that satisfies its laws. *)

From S2P Require Import Prelude Types Bytes Extents Keys ChunkStore Ufs MetaDb Namespace InodeData Gc.
From S2P Require Import Ledger Membership MetaStore Client ClientIo ClientCalls Pack ClientData.

Local Open Scope N_scope.

(** What a reader gives up to its end. *)
Fixpoint stream_data (blocks : list bytes) : bytes :=
  match blocks with
  | [] | [] :: _ => []
  | block :: blocks => block ++ stream_data blocks
  end.

Lemma stream_data_concat blocks : Forall (λ b, b ≠ []) blocks → stream_data blocks = concat blocks.
Proof. induction 1 as [|[|x b] blocks Hb _ IH]; [done|done|]. cbn. by rewrite IH. Qed.

(** Writing at the end appends. *)
Lemma write_bytes_end data old : write_bytes (N.of_nat (length old)) data old = old ++ data.
Proof.
  unfold write_bytes, splice, resize. rewrite Nat2N.id.
  replace (Nat.max _ _) with (length old + length data)%nat by lia.
  rewrite (take_ge old) by lia. rewrite take_app_length, drop_ge; [by rewrite app_nil_r|].
  rewrite length_app, length_replicate. lia.
Qed.

Section streams.
Context {hash : bytes → ChunkId} {Mt Ct U : Type}.
Context `{!MetaStore Mt, !ChunkStore hash Ct}.
Context (ufs : option (Ufs U)) (us : U) (rd_sub : reads_agree (reader ufs us)).
Context (D : bytes → Prop) (now : Z) (ino : InodeId).
Abbreviation Cl := (FluxClient Mt Ct U).

(** A well-formed file that holds [data], over stores in order. *)
Definition file_holds (data : bytes) (c : Cl) : Prop :=
  ∃ inode man, fc_ufs_state c = us ∧ ms_get_inode ino (fc_meta c) = Ok inode ∧ i_id inode = ino ∧
    file_ok ufs us (fc_meta c) (fc_chunks c) inode man ∧ i_size inode = N.of_nat (length data) ∧
    read_all ufs ino c = (Ok data, c) ∧ cs_wf (fc_chunks c) ∧ collision_free D (fc_chunks c).

(** Every write of the stream finds room for the chunks that it stages. *)
Fixpoint stream_room (tickets ops : nat → N) (offset : N) (blocks : list bytes) (c : Cl) : Prop :=
  match blocks with
  | [] | [] :: _ => True
  | block :: blocks =>
      (∀ inode man, ms_get_inode ino (fc_meta c) = Ok inode → current_manifest (fc_meta c) inode = Ok man →
        put_room (fc_chunks c) (write_chunks ufs us (fc_chunks c) inode man offset block) ∧
        Forall D (write_chunks ufs us (fc_chunks c) inode man offset block)) ∧
      ∀ n c', write_at ufs now (tickets O) (ops O) ino offset block c = (Ok n, c') →
        stream_room (λ i, tickets (S i)) (λ i, ops (S i)) (offset + N.of_nat (length block)) blocks c'
  end.

Lemma write_loop_ok tickets ops old blocks c n c' :
  file_holds old c → stream_room tickets ops (N.of_nat (length old)) blocks c →
  write_from_reader_loop ufs now tickets ops ino (N.of_nat (length old)) blocks c = (Ok n, c') →
  n = N.of_nat (length (old ++ stream_data blocks)) ∧ file_holds (old ++ stream_data blocks) c'.
Proof using rd_sub.
  revert tickets ops old c. induction blocks as [|[|x block] blocks IH]; intros tickets ops old c Hf Hroom H;
    cbn [write_from_reader_loop] in H.
  1,2: injection H as <- <-; cbn [stream_data]; by rewrite app_nil_r.
  destruct Hf as (inode&man&Hus&Hi&Hid&Hf&Hsz&Hold&Hwf&HD). destruct Hroom as [Hroom Hnext].
  destruct (Hroom inode man Hi (fo_manifest _ _ _ _ _ _ Hf)) as [Hr HF].
  apply txn_bind_inv in H as [(k&c1&H1&H)|(e&_&?)]; [|done].
  pose proof (Hnext _ _ H1) as Hnext1.
  destruct (write_at_reads ufs us rd_sub D now (tickets 0%nat) (ops 0%nat) ino (N.of_nat (length old)) (x :: block)
    c k c1 inode man old) as (_&Hread&(inode'&man'&Hi'&Hid'&Hsz'&Hf')&Hus'&Hwf'&HD'); [done..|].
  apply txn_bind_inv in H as [(off&c2&H2&H)|(e&_&?)]; [|done].
  apply pair_equal_spec in H2 as [[-> _]%ok_or_Ok%checked_add_Some <-]. rewrite write_bytes_end in Hread.
  replace (N.of_nat (length old) + N.of_nat (length (x :: block))) with (N.of_nat (length (old ++ x :: block)))
    in H, Hnext1 by (rewrite length_app; lia).
  change (stream_data ((x :: block) :: blocks)) with ((x :: block) ++ stream_data blocks). rewrite app_assoc.
  eapply IH; [|exact Hnext1|exact H]. exists inode', man'. split_and!; try done.
  rewrite Hsz', Hsz, length_app. lia.
Qed.

(** Emptying a file stages nothing. *)
Lemma truncate_none k man : truncate_chunks k man 0 = [].
Proof.
  unfold truncate_chunks. destruct (iter (m_extents man)) as [|e l]; [done|].
  cbn [truncate_extents]. by rewrite (proj2 (N.leb_le 0 _)) by lia.
Qed.

Lemma write_stream_ok tickets ops old blocks c n c' :
  file_holds old c →
  (∀ i c1, truncate now (tickets O) (ops O) ino 0 c = (Ok i, c1) →
    stream_room (λ i, tickets (S i)) (λ i, ops (S i)) 0 blocks c1) →
  write_from_reader ufs now tickets ops ino blocks c = (Ok n, c') →
  n = N.of_nat (length (stream_data blocks)) ∧ file_holds (stream_data blocks) c'.
Proof using rd_sub.
  intros (inode&man&Hus&Hi&Hid&Hf&Hsz&Hold&Hwf&HD) Hroom H. unfold write_from_reader in H.
  apply txn_bind_inv in H as [(i&c1&H1&H)|(e&_&?)]; [|done]. specialize (Hroom _ _ H1).
  destruct (truncate_reads ufs us rd_sub D now (tickets 0%nat) (ops 0%nat) ino 0 c i c1 inode man old)
    as (Hread&Hi'&Hsz'&(man'&Hf')&Hid'&Hus'&Hwf'&HD'); [done..| | |done|done|].
  1,2: rewrite truncate_none; done.
  eapply (write_loop_ok _ _ [] blocks c1); [|exact Hroom|exact H]. exists i, man'. by split_and!.
Qed.

(** A stream out of the file. *)
Lemma read_loop_ok inode man c rounds offset :
  let f := content ufs us (fc_chunks c) (i_ufs inode) (m_extents man) in
  fc_ufs_state c = us → ms_get_inode ino (fc_meta c) = Ok inode →
  file_ok ufs us (fc_meta c) (fc_chunks c) inode man →
  offset ≤ i_size inode → (N.to_nat (i_size inode - offset) ≤ rounds)%nat →
  read_to_writer_loop ufs rounds ino (i_size inode) offset (slice f 0 (N.to_nat offset)) c =
    (Ok (i_size inode, slice f 0 (N.to_nat (i_size inode))), c).
Proof using rd_sub.
  intros f Hus Hi Hf. revert offset. induction rounds as [|rounds IH]; intros offset Hle Hr; cbn [read_to_writer_loop].
  { replace offset with (i_size inode) by lia. done. }
  destruct (N.leb_spec (i_size inode) offset) as [Hge|Hlt].
  { replace offset with (i_size inode) by lia. done. }
  set (len := N.min (i_size inode - offset) CHUNK_SIZE).
  assert (0 < len ∧ len ≤ i_size inode - offset) as [Hl1 Hl2] by (unfold len, CHUNK_SIZE; lia).
  assert (read_at ufs ino offset len c = (Ok (slice f offset (N.to_nat len)), c)) as Hread.
  { unfold read_at. rewrite (txn_bind_ok _ _ c inode c) by (unfold read_meta; by rewrite Hi).
    unfold view. rewrite Hus, (read_range_ok ufs us rd_sub _ _ _ man) by done.
    replace (N.min (offset + len) (i_size inode) - offset) with len by lia. done. }
  rewrite (txn_bind_ok _ _ _ _ _ Hread).
  rewrite bool_decide_false by (intros E; apply (f_equal length) in E; rewrite length_slice in E; cbn in E; lia).
  rewrite (txn_bind_ok _ _ c tt c) by done. rewrite length_slice, N2Nat.id.
  rewrite (txn_bind_ok _ _ c (offset + len) c).
  2: { pose proof (fw_u64 _ _ _ _ _ (fo_wf _ _ _ _ _ _ Hf)). unfold lift.
       by rewrite (proj2 (checked_add_Some _ _ _ _)) by (split; [done|lia]). }
  rewrite <-(N2Nat.id offset) at 3. rewrite <-(N.add_0_l (N.of_nat (N.to_nat offset))), slice_app.
  replace (N.to_nat offset + N.to_nat len)%nat with (N.to_nat (offset + len)) by lia. apply IH; lia.
Qed.

Lemma read_stream_ok data c :
  file_holds data c → read_to_writer ufs ino c = (Ok (N.of_nat (length data), data), c).
Proof using rd_sub.
  intros (inode&man&Hus&Hi&Hid&Hf&Hsz&Hold&_). unfold read_to_writer.
  rewrite (txn_bind_ok _ _ c inode c) by (unfold read_meta; by rewrite Hi).
  rewrite bool_decide_false by (rewrite (fw_type _ _ _ _ _ (fo_wf _ _ _ _ _ _ Hf)); naive_solver).
  rewrite (txn_bind_ok _ _ c tt c) by done.
  rewrite (read_all_ok ufs us rd_sub _ _ _ _ Hus Hi Hf) in Hold. injection Hold as Hold.
  pose proof (read_loop_ok inode man c (N.to_nat (i_size inode)) 0 Hus Hi Hf) as Hloop. cbn zeta in Hloop.
  change (slice _ 0 (N.to_nat 0)) with (@nil byte) in Hloop. rewrite Hloop by lia. by rewrite Hold, Hsz.
Qed.
End streams.
