(* ===== verification/Cli.v ===== *)
(** * The file system commands ([crates/fluxfs/src/cluster_cli.rs])

    [fluxfs fs ...] and [fluxfs admin ...]: every command is a run over a
    client without a UFS, the standard output and the local files.  Connecting
    is left out.  A command is a function of its [World]; [None] means that the
    fuel of a path resolution ran out. *)

From stdpp Require Import pretty.
From S2P Require Import Prelude Types Bytes Keys ChunkStore Ufs MetaDb Ledger MetaStore Client ClientIo ClientCalls.

Local Open Scope N_scope.

(** ** Numbers as text *)

(** [ParseIntError], as it prints. *)
Definition EMPTY_NUMBER : string := "cannot parse integer from empty string".
Definition INVALID_DIGIT : string := "invalid digit found in string".
Definition NUMBER_TOO_LARGE : string := "number too large to fit in target type".

Definition digit_value (radix : N) (c : Ascii.ascii) : option N :=
  let n := Ascii.N_of_ascii c in
  if (48 <=? n) && (n <? 48 + radix) then Some (n - 48) else None.

(** [u32::from_str_radix] for a radix of at most ten: in each place the digit
    is looked at before the overflow of the number. *)
Fixpoint u32_digits (radix acc : N) (s : string) : result string N :=
  match s with
  | EmptyString => Ok acc
  | String c s' =>
      match digit_value radix c with
      | None => Err INVALID_DIGIT
      | Some d =>
          let acc' := acc * radix + d in
          if U32_MAX <? acc' then Err NUMBER_TOO_LARGE else u32_digits radix acc' s'
      end
  end.
Definition u32_from_str_radix (radix : N) (s : string) : result string N :=
  match s with
  | EmptyString => Err EMPTY_NUMBER
  | String c EmptyString => if bool_decide (c = PLUS) then Err INVALID_DIGIT else u32_digits radix 0 s
  | String c s' => if bool_decide (c = PLUS) then u32_digits radix 0 s' else u32_digits radix 0 s
  end.

(** A string as [{:?}] shows it; of the characters outside ASCII only printable
    ones are covered. *)
Definition escape_debug (c : Ascii.ascii) : string :=
  let n := Ascii.N_of_ascii c in
  let backslash := Ascii.ascii_of_N 92 in
  if (n =? 34) || (n =? 92) then String backslash (String c "")
  else if n =? 0 then String backslash "0"
  else if n =? 9 then String backslash "t"
  else if n =? 10 then String backslash "n"
  else if n =? 13 then String backslash "r"
  else if (n <? 32) || (n =? 127) then
    String backslash ("u{" +:+ (if n <? 16 then "" else String (hex_digit (n / 16)) "") +:+ String (hex_digit (n mod 16)) "}")
  else String c "".
Fixpoint escape_all (s : string) : string :=
  match s with EmptyString => "" | String c s => escape_debug c +:+ escape_all s end.
Definition debug_text (s : string) : string :=
  let quote := String (Ascii.ascii_of_N 34) "" in quote +:+ escape_all s +:+ quote.

Definition parse_mode (value : string) : result string N :=
  let value := default value (strip_prefix "0o" value) in
  match u32_from_str_radix 8 value with
  | Ok mode => Ok (N.land mode 4095)
  | Err error => Err ("invalid octal mode " +:+ debug_text value +:+ ": " +:+ error)
  end.

Definition numeric (what value : string) : result string N :=
  match u32_from_str_radix 10 value with
  | Ok n => Ok n
  | Err _ => Err ("invalid numeric " +:+ what +:+ " " +:+ debug_text value)
  end.

Definition parse_owner (value : string) : result string (N * option N) :=
  let '(uid, gid) := match split_once COLON value with
    | Some (uid, gid) => (uid, Some gid)
    | None => (value, None)
    end in
  uid ← numeric "uid" uid;
  match gid with
  | Some gid => gid ← numeric "gid" gid; Ok (uid, Some gid)
  | None => Ok (uid, None)
  end.

(** [{:04o}], and padding on the left and on the right. *)
Definition octal_digit (n : N) : Ascii.ascii := Ascii.ascii_of_N (48 + n).
Fixpoint octal_digits (places : nat) (n : N) (s : string) : string :=
  match places with
  | O => s
  | S places => octal_digits places (n / 8) (String (octal_digit (n mod 8)) s)
  end.
(** A [u32] has at most eleven octal digits. *)
Fixpoint octal_places (fuel : nat) (n : N) : nat :=
  match fuel with
  | O => O
  | S fuel => if n =? 0 then O else S (octal_places fuel (n / 8))
  end.
Definition fmt_04o (n : N) : string := octal_digits (Nat.max 4 (octal_places 11 n)) n "".

Fixpoint spaces (n : nat) : string :=
  match n with O => "" | S n => String (Ascii.ascii_of_N 32) (spaces n) end.
Definition pad_left (width : nat) (s : string) : string := spaces (width - String.length s) +:+ s.
Definition pad_right (width : nat) (s : string) : string := s +:+ spaces (width - String.length s).

Definition file_type_char (t : FileType) : string :=
  match t with Directory => "d" | Regular => "-" | Symlink => "l" end.
Definition file_type_debug (t : FileType) : string :=
  match t with Directory => "Directory" | Regular => "Regular" | Symlink => "Symlink" end.
Definition locality_debug (l : LocalityLabel) : string :=
  match l with
  | LDirty => "Dirty" | LFlushing => "Flushing" | LClean => "Clean"
  | LExternal => "External" | LEphemeral => "Ephemeral" | LDirtyConflict => "DirtyConflict"
  end.
Definition bool_text (b : bool) : string := if b then "true" else "false".

(** ** Commands *)

Inductive FsCommand :=
  | Ls (path : string)
  | Stat (path : string)
  | Lstat (path : string)
  | Readlink (path : string)
  | Cat (path : string)
  | Get (source local : string)
  | Put (local destination : string) (overwrite : bool) (mode : N)
  | Mkdir (path : string) (mode : N)
  | Rm (path : string)
  | Ln (source destination : string) (symbolic : bool)
  | RmdirCmd (path : string)
  | Mv (source destination : string) (no_replace : bool)
  | Chmod (mode : N) (path : string)
  | Chown (owner path : string)
  | Touch (path : string) (mode : N)
  | TruncateCmd (size : N) (path : string)
  | Getxattr (path name : string) (output : option string) (no_follow : bool)
  | Listxattr (path : string) (no_follow : bool)
  | Setxattr (path name : string) (value value_file : option string) (create replace no_follow : bool)
  | Removexattr (path name : string) (no_follow : bool).

Inductive AdminCommand := Status | Workers.

(** [anyhow::Error]: an error of the client, or a text. *)
Inductive CliError := Flux (e : FluxError) | Other (message : string).

(** What a command wrote to the standard output. *)
Inductive Output := Line (s : string) | Raw (b : bytes).

Section commands.
Context {hash : bytes → ChunkId} {Mt Ct U : Type}.
Context `{!MetaStore Mt, !ChunkStore hash Ct}.

Record World := mkWorld {
  w_client : FluxClient Mt Ct U;
  w_out : list Output;
  w_files : gmap string bytes
}.
Definition set_client (c : FluxClient Mt Ct U) (w : World) : World := mkWorld c (w_out w) (w_files w).

Definition cmd (A : Type) : Type := World → option (result CliError A * World).
#[global] Instance cmd_ret : MRet cmd := λ A a w, Some (Ok a, w).
#[global] Instance cmd_bind : MBind cmd := λ A B f m w,
  match m w with
  | None => None
  | Some (Ok a, w) => f a w
  | Some (Err e, w) => Some (Err e, w)
  end.
Definition fail {A} (e : CliError) : cmd A := λ w, Some (Err e, w).
Definition text_result {A} (r : result string A) : cmd A :=
  match r with Ok a => mret a | Err e => fail (Other e) end.

(** A call of the client, its error passed on or handed back. *)
Definition attempt_client {A} (m : FluxClient Mt Ct U → option (Result A * FluxClient Mt Ct U)) : cmd (Result A) :=
  λ w, match m (w_client w) with
       | None => None
       | Some (r, c) => Some (Ok r, set_client c w)
       end.
Definition by_path {A} (m : FluxClient Mt Ct U → option (Result A * FluxClient Mt Ct U)) : cmd A :=
  r ← attempt_client m;
  match r with Ok a => mret a | Err e => fail (Flux e) end.
Definition on_client {A} (m : txn (FluxClient Mt Ct U) FluxError A) : cmd A := by_path (run m).

Definition emit (o : Output) : cmd unit := λ w,
  Some (Ok tt, mkWorld (w_client w) (w_out w ++ [o]) (w_files w)).
Definition println (s : string) : cmd unit := emit (Line s).

(** Local files; [io_error path] is the failure of a write to [path]. *)
Context (io_error : string → option string).

Definition read_local (context path : string) : cmd bytes := λ w,
  match w_files w !! path with
  | Some b => Some (Ok b, w)
  | None => Some (Err (Other (context +:+ path)), w)
  end.
Definition write_local (context path : string) (b : bytes) : cmd unit := λ w,
  match io_error path with
  | Some _ => Some (Err (Other (context +:+ path)), w)
  | None => Some (Ok tt, mkWorld (w_client w) (w_out w) (<[path := b]> (w_files w)))
  end.
(** The writer of a file that is open: it takes all bytes.  What a stream that
    fails had written before is left out. *)
Definition fill_local (path : string) (b : bytes) : cmd unit := λ w,
  Some (Ok tt, mkWorld (w_client w) (w_out w) (<[path := b]> (w_files w))).

(** The clock, the ids that path resolutions and writes draw, the name of a
    temporary file, the fuel of resolutions, and how reads cut a file. *)
Context (now : Z) (ids : nat → nat → RequestOpId) (tickets ops : nat → N) (random_hex : string).
Context (fuel : nat) (blocks_of : bytes → list bytes).

Abbreviation no_ufs := (None : option (Ufs U)).
Definition lookup_file (path : string) : FluxClient Mt Ct U → option (Result Inode * FluxClient Mt Ct U) :=
  lookup_path no_ufs now (ids 0%nat) fuel path.
Definition current_uid : N := 0.
Definition current_gid : N := 0.
Definition now_ms_u64 : N := Z.to_N (Z.max now 0).

Definition print_inode (path : string) (i : Inode) : cmd unit :=
  _ ← println ("path=" +:+ path);
  _ ← println ("inode=" +:+ pretty (i_id i));
  _ ← println ("type=" +:+ file_type_debug (i_file_type i));
  _ ← println ("mode=" +:+ fmt_04o (N.land (i_mode i) 4095));
  _ ← println ("uid=" +:+ pretty (i_uid i));
  _ ← println ("gid=" +:+ pretty (i_gid i));
  _ ← println ("size=" +:+ pretty (i_size i));
  _ ← println ("generation=" +:+ pretty (i_generation i));
  _ ← println ("locality=" +:+ locality_debug (i_locality i));
  _ ← println ("atime_ms=" +:+ pretty (i_atime_ms i));
  _ ← println ("mtime_ms=" +:+ pretty (i_mtime_ms i));
  println ("ctime_ms=" +:+ pretty (i_ctime_ms i)).

(** The children of a listing, each looked up on its own. *)
Fixpoint ls_children (entries : list Dentry) (m : Mt) : Result (list (string * Inode)) :=
  match entries with
  | [] => Ok []
  | d :: entries =>
      child ← ms_get_inode (d_child d) m;
      rest ← ls_children entries m;
      Ok ((d_name d, child) :: rest)
  end.

Definition ls_line (x : string * Inode) : string :=
  file_type_char (i_file_type x.2) +:+ " " +:+ fmt_04o (N.land (i_mode x.2) 4095) +:+ " "
  +:+ pad_left 10 (pretty (i_size x.2)) +:+ " " +:+ pad_left 6 (pretty (i_uid x.2)) +:+ ":"
  +:+ pad_right 6 (pretty (i_gid x.2)) +:+ " " +:+ x.1.

Fixpoint print_lines (l : list string) : cmd unit :=
  match l with [] => mret tt | s :: l => _ ← println s; print_lines l end.

Definition ls (path : string) : cmd unit :=
  inode ← by_path (lookup_file path);
  if bool_decide (i_file_type inode = Regular) then print_inode path inode else
  entries ← on_client (client_readdir no_ufs now (ids 0%nat) (i_id inode));
  entries ← on_client (read_meta (ls_children entries));
  print_lines (ls_line <$> sort_by_name fst entries).

(** ** Putting a file

    The bytes go to a temporary file beside the destination, which a rename
    then puts in its place; a failure removes the temporary file. *)
Definition temporary_name : string := ".fluxfs-put-" +:+ random_hex.

(** The part that writes, once the destination is known. *)
Definition put_beside (file : bytes) (parent : Inode) (destination_name : string) (overwrite : bool) (mode : N) : cmd N :=
  temporary ← on_client (create_file no_ufs (i_id parent) temporary_name mode current_uid current_gid);
  result ← attempt_client (run (
    bytes ← write_from_reader no_ufs now tickets ops (i_id temporary) (blocks_of file);
    _ ← client_rename no_ufs (i_id parent) temporary_name (i_id parent) destination_name (negb overwrite);
    mret bytes));
  match result with
  | Ok bytes => mret bytes
  | Err e =>
      _ ← attempt_client (run (client_unlink no_ufs (i_id parent) temporary_name));
      fail (Flux e)
  end.

Definition put_atomic (local destination : string) (overwrite : bool) (mode : N) : cmd N :=
  found ← attempt_client (lookup_file destination);
  _ ← (match found with
       | Ok inode =>
           if negb overwrite then fail (Flux AlreadyExists)
           else if bool_decide (i_file_type inode ≠ Regular) then fail (Flux IsDirectory)
           else mret tt
       | Err NotFound => mret tt
       | Err error => fail (Flux error)
       end);
  file ← read_local "open local file " local;
  '(parent, destination_name) ← by_path (resolve_parent no_ufs now (ids 1%nat) fuel destination);
  put_beside file parent destination_name overwrite mode.

(** ** [FsArgs::run] *)

Definition only_mode (mode : N) := mkInodeSetAttr (Some mode) None None None None None.
Definition only_owner (uid : N) (gid : option N) := mkInodeSetAttr None (Some uid) gid None None None.
Definition only_size (size : N) := mkInodeSetAttr None None None (Some size) None None.
Definition only_times (t : Z) := mkInodeSetAttr None None None None (Some t) (Some t).

Definition touch (path : string) (mode : N) : cmd unit :=
  found ← attempt_client (lookup_file path);
  inode ← (match found with
           | Ok inode => mret inode
           | Err NotFound => by_path (create_file_path no_ufs now ids fuel path mode current_uid current_gid)
           | Err error => fail (Flux error)
           end);
  inode ← on_client (setattr now (tickets 0%nat) (ops 0%nat) (i_id inode) (only_times now));
  println ("touch ok: " +:+ path +:+ " mtime_ms=" +:+ pretty (i_mtime_ms inode)).

Definition setxattr (path name : string) (value value_file : option string) (create replace no_follow : bool) :
    cmd unit :=
  if create && replace then fail (Other "--create and --replace are mutually exclusive") else
  value ← (match value, value_file with
           | Some value, None => mret (str_bytes value)
           | None, Some file => read_local "read " file
           | Some _, Some _ => fail (Other "provide either VALUE or --value-file, not both")
           | None, None => fail (Other "provide VALUE or --value-file")
           end);
  let mode := if create then Create else if replace then Replace else Upsert in
  _ ← by_path ((if no_follow then lset_xattr_path else set_xattr_path) no_ufs now ids fuel path name value mode);
  println ("setxattr ok: " +:+ path +:+ " " +:+ name +:+ " bytes=" +:+ pretty (N.of_nat (length value))).

Definition set_path (path : string) (attrs : InodeSetAttr) : cmd Inode :=
  by_path (setattr_path no_ufs now ids fuel (tickets 0%nat) (ops 0%nat) path attrs).

Definition fs_run (command : FsCommand) : cmd unit :=
  match command with
  | Ls path => ls path
  | Stat path => inode ← by_path (lookup_file path); print_inode path inode
  | Lstat path => inode ← by_path (lstat_path no_ufs now (ids 0%nat) fuel path); print_inode path inode
  | Readlink path => target ← by_path (readlink_path no_ufs now ids fuel path); println target
  | Cat path =>
      inode ← by_path (lookup_file path);
      '(_, b) ← on_client (read_to_writer no_ufs (i_id inode));
      emit (Raw b)
  | Get source local =>
      inode ← by_path (lookup_file source);
      _ ← write_local "create local file " local [];
      '(n, b) ← on_client (read_to_writer no_ufs (i_id inode));
      _ ← fill_local local b;
      println ("get ok: " +:+ source +:+ " -> " +:+ local +:+ " bytes=" +:+ pretty n)
  | Put local destination overwrite mode =>
      n ← put_atomic local destination overwrite mode;
      println ("put ok: " +:+ local +:+ " -> " +:+ destination +:+ " bytes=" +:+ pretty n)
  | Mkdir path mode =>
      inode ← by_path (mkdir_path no_ufs now ids fuel path mode current_uid current_gid);
      println ("mkdir ok: " +:+ path +:+ " inode=" +:+ pretty (i_id inode))
  | Rm path => _ ← by_path (unlink_path no_ufs now ids fuel path); println ("rm ok: " +:+ path)
  | Ln source destination symbolic =>
      inode ← by_path (if symbolic : bool
                       then symlink_path no_ufs now ids fuel source destination current_uid current_gid
                       else link_path no_ufs now ids fuel source destination);
      println ("ln ok: " +:+ source +:+ " -> " +:+ destination +:+ " inode=" +:+ pretty (i_id inode)
               +:+ " symbolic=" +:+ bool_text symbolic)
  | RmdirCmd path => _ ← by_path (rmdir_path no_ufs now ids fuel path); println ("rmdir ok: " +:+ path)
  | Mv source destination no_replace =>
      inode ← by_path (rename_path no_ufs now ids fuel source destination no_replace);
      println ("mv ok: " +:+ source +:+ " -> " +:+ destination +:+ " inode=" +:+ pretty (i_id inode))
  | Chmod mode path =>
      inode ← set_path path (only_mode mode);
      println ("chmod ok: " +:+ path +:+ " mode=" +:+ fmt_04o (i_mode inode))
  | Chown owner path =>
      '(uid, gid) ← text_result (parse_owner owner);
      inode ← set_path path (only_owner uid gid);
      println ("chown ok: " +:+ path +:+ " uid=" +:+ pretty (i_uid inode) +:+ " gid=" +:+ pretty (i_gid inode))
  | Touch path mode => touch path mode
  | TruncateCmd size path =>
      inode ← set_path path (only_size size);
      println ("truncate ok: " +:+ path +:+ " size=" +:+ pretty (i_size inode))
  | Getxattr path name output no_follow =>
      value ← by_path ((if no_follow : bool then lget_xattr_path else get_xattr_path) no_ufs now ids fuel path name);
      match output with
      | Some output => write_local "write " output value
      | None => emit (Raw value)
      end
  | Listxattr path no_follow =>
      names ← by_path ((if no_follow : bool then llist_xattrs_path else list_xattrs_path) no_ufs now ids fuel path);
      print_lines names
  | Setxattr path name value value_file create replace no_follow =>
      setxattr path name value value_file create replace no_follow
  | Removexattr path name no_follow =>
      _ ← by_path ((if no_follow : bool then lremove_xattr_path else remove_xattr_path) no_ufs now ids fuel path name);
      println ("removexattr ok: " +:+ path +:+ " " +:+ name)
  end.

(** ** [AdminArgs::run] *)

Definition live_at (now : N) (r : WorkerRegistration) : bool := now <? wr_lease_deadline_ms r.

Definition print_worker (now : N) (r : WorkerRegistration) : string :=
  let tab := String (Ascii.ascii_of_N 9) "" in
  pretty (wr_id r) +:+ tab +:+ (if live_at now r then "live" else "expired") +:+ tab
  +:+ wr_endpoint r +:+ tab +:+ wr_failure_domain r +:+ tab +:+ pretty (wr_available_bytes r) +:+ tab
  +:+ pretty (wr_lease_deadline_ms r).

Definition WORKERS_HEADER : string :=
  let tab := String (Ascii.ascii_of_N 9) "" in
  "ID" +:+ tab +:+ "STATE" +:+ tab +:+ "ENDPOINT" +:+ tab +:+ "FAILURE_DOMAIN" +:+ tab
  +:+ "AVAILABLE" +:+ tab +:+ "LEASE_EXPIRES_MS".

(** The sum of a release build, which wraps around. *)
Definition status_line (now : N) (root : Inode) (membership : WorkerMembership) : string :=
  let live := filter (λ r, Is_true (live_at now r)) (wm_workers membership) in
  let available := foldr N.add 0 (wr_available_bytes <$> live) mod 2 ^ 64 in
  let state := if (2 <=? length live)%nat then "ok" else "degraded" in
  "cluster " +:+ state +:+ ": root_generation=" +:+ pretty (i_generation root)
  +:+ " membership_epoch=" +:+ pretty (wm_epoch membership) +:+ " workers_live="
  +:+ pretty (N.of_nat (length live)) +:+ "/" +:+ pretty (N.of_nat (length (wm_workers membership)))
  +:+ " available_bytes=" +:+ pretty available.

(** [membership] is the answer of the metadata server. *)
Definition admin_run (membership : WorkerMembership) (command : AdminCommand) : cmd unit :=
  match command with
  | Status =>
      root ← on_client (read_meta (ms_get_inode ROOT_INODE));
      println (status_line now_ms_u64 root membership)
  | Workers =>
      _ ← println WORKERS_HEADER;
      print_lines (print_worker now_ms_u64 <$> sort_by_key wr_id (wm_workers membership))
  end.
End commands.

(** ** Modes as text *)

(** The mode that [ls] and [stat] print is read back by [chmod] as the same
    permission bits. *)
Theorem mode_roundtrip mode : mode < 4096 → parse_mode (fmt_04o mode) = Ok mode.
Proof.
  intros Hm. assert (forallb (λ k, match parse_mode (fmt_04o (N.of_nat k)) with Ok m => m =? N.of_nat k | Err _ => false end)
    (seq 0 4096) = true) as H by (vm_compute; reflexivity).
  rewrite forallb_forall in H. specialize (H (N.to_nat mode)). rewrite N2Nat.id in H.
  destruct (parse_mode (fmt_04o mode)) as [m|e]; [|specialize (H ltac:(apply in_seq; lia)); done].
  f_equal. apply N.eqb_eq, H, in_seq. lia.
Qed.
