(* ===== verification/CliPut.v ===== *)
(** * Copying a file in: [fluxfs fs put]

    [put_atomic] over the embedded metadata store and any chunk store: the
    destination is bound to a file with exactly the bytes of the local file,
    or nothing but the temporary name changes. *)

From S2P Require Import Prelude Types Bytes Extents Keys ChunkStore Ufs MetaDb Namespace NamespaceInv InodeData Gc.
From S2P Require Import Ledger Apply HeedStore Frame Membership MetaStore Client ClientPath ClientIo ClientCalls.
From S2P Require Import Open Machine Rename Refine NsProps ClientData Streams Cli.

Local Open Scope N_scope.

(** ** Resolution without a UFS reads only *)

Lemma resolve_loop_pure {St} (lookup : nat → InodeId → string → txn St FluxError Inode) get_root :
  (∀ i p n s, (lookup i p n s).2 = s) → (∀ s, (get_root s).2 = s) →
  ∀ fuel i follow pending resolved inode n s r s',
  resolve_loop lookup get_root fuel i follow pending resolved inode n s = Some (r, s') → s' = s.
Proof.
  intros Hl Hr fuel. induction fuel as [|fuel IH]; intros i follow pending resolved inode n s r s' H; [done|].
  cbn [resolve_loop] in H. destruct pending as [|part pending]; [by simplify_eq|].
  pose proof (Hl i (i_id inode) part s) as E. destruct (lookup _ _ _ s) as [[child|e] s1]; cbn in E; subst s1; [|by simplify_eq].
  case_match; [|case_match; [by simplify_eq|by eapply IH]].
  case_match; [by simplify_eq|]. destruct (i_symlink_target child) as [target|]; [|by simplify_eq].
  destruct (append_symlink_target _ target) as [expanded|e]; [|by simplify_eq].
  pose proof (Hr s) as E. destruct (get_root s) as [[root|e] s1]; cbn in E; subst s1; [|by simplify_eq]. by eapply IH.
Qed.

Section reads.
Context {hash : bytes → ChunkId} {Mt Ct U : Type} `{!MetaStore Mt, !ChunkStore hash Ct}.
Abbreviation Cl := (FluxClient Mt Ct U).
Abbreviation no_ufs := (None : option (Ufs U)).

Lemma lookup_pure now id p n (c : Cl) : (client_lookup no_ufs now id p n c).2 = c.
Proof.
  unfold client_lookup. cbn. unfold mbind, txn_bind. destruct (ms_lookup p n (fc_meta c)) as [i|[]]; done.
Qed.

Lemma lookup_path_pure now ids fuel path (c : Cl) r c' :
  lookup_path no_ufs now ids fuel path c = Some (r, c') → c' = c.
Proof.
  unfold lookup_path, resolve, resolve_path. destruct (path_components path); [|by intros [= _ <-]].
  unfold read_meta. destruct (ms_get_inode ROOT_INODE (fc_meta c)); [|by intros [= _ <-]].
  apply resolve_loop_pure; [|done]. intros. apply lookup_pure.
Qed.

Lemma resolve_parent_pure now ids fuel path (c : Cl) r c' :
  resolve_parent no_ufs now ids fuel path c = Some (r, c') → c' = c.
Proof.
  unfold resolve_parent. destruct (path_components path) as [parts|]; [|by intros [= _ <-]].
  destruct (list.last parts); [|by intros [= _ <-]].
  destruct (lookup_path _ _ _ _ _ c) as [[[parent|e] c1]|] eqn:H; [..|done]; apply lookup_path_pure in H as ->;
    [case_bool_decide|]; by intros [= _ <-].
Qed.

(** Both end. *)
Lemma lookup_path_total now ids path (c : Cl) :
  ∃ fuel r, ∀ fuel', (fuel ≤ fuel')%nat → lookup_path no_ufs now ids fuel' path c = Some (r, c).
Proof.
  destruct (resolve_terminates (λ i, client_lookup no_ufs now (ids i)) (read_meta (ms_get_inode ROOT_INODE))
    path true c) as (fuel&[r c']&H).
  pose proof (lookup_path_pure now ids fuel path c r c' (H fuel (le_n _))) as ->. by exists fuel, r.
Qed.

Lemma resolve_parent_total now ids path (c : Cl) :
  ∃ fuel r, ∀ fuel', (fuel ≤ fuel')%nat → resolve_parent no_ufs now ids fuel' path c = Some (r, c).
Proof.
  unfold resolve_parent. destruct (path_components path) as [parts|e]; [|by exists O, (Err e)].
  destruct (list.last parts) as [name|]; [|by exists O, (Err (InvalidArg "root has no parent name"))].
  destruct (lookup_path_total now ids ("/" +:+ join "/" (take (pred (length parts)) parts)) c) as (fuel&[parent|e]&H).
  - exists fuel, (if bool_decide (i_file_type parent ≠ Directory) then Err NotDirectory else Ok (parent, name)).
    intros fuel' Hle. rewrite (H _ Hle). by case_bool_decide.
  - exists fuel, (Err e). intros fuel' Hle. by rewrite (H _ Hle).
Qed.
End reads.

(** ** Renaming, from its success alone *)

(** The name tables and the manifests that a bump of a directory and the
    removal of a destination leave. *)
Lemma bump_manifests t p e : framed manifests (load_and_bump_parent_dir t p e).
Proof. unfold load_and_bump_parent_dir, get_inode_raw, put_inode_raw. frame. Qed.

Lemma remove_destination_manifests now k dest : framed manifests (rename_remove_destination now k dest).
Proof.
  unfold rename_remove_destination, delete_dentry, remove_inode_link_in_txn, next_generation, put_inode_raw,
    delete_inode_in_txn, abort_reservation_in_txn, get_inode_raw. frame.
Qed.

Lemma remove_destination_names now k dest d d' :
  rename_remove_destination now k dest d = (Ok tt, d') →
  dentries d' = match dest with Some _ => delete k (dentries d) | None => dentries d end.
Proof.
  unfold rename_remove_destination. destruct dest as [id|]; [|by intros [= <-]]. intros H.
  db_step H H1; db_inv H1. db_step H H2; db_inv H2.
  change (delete k (dentries d)) with (dentries (upd_dentries (delete k) d)). eapply framed_run; [|exact H].
  case_match; [apply delete_inode_framed|apply remove_link_framed].
Qed.

Lemma rename_commit_moves now eop op on enp np nn src dest d i d' :
  rename_commit now eop op on enp np nn src dest d = (Ok i, d') →
  manifests d' = manifests d ∧ dentries d' = <[(np, nn) := i_id src]> (delete (op, on) (dentries d)) ∧
  i = set_ctime_ms (now 3%nat) (set_generation (sat_add (i_generation src) 1) src) ∧
  inodes d' !! i_id src = Some i.
Proof.
  intros H. unfold rename_commit in H.
  apply txn_bind_inv in H as [(i1&d1&H1&H)|(e&_&?)]; [|done].
  pose proof (framed_run _ _ _ _ (bump_manifests _ _ _) H1) as Hm1. apply bump_names in H1.
  apply txn_bind_inv in H as [([]&d2&H2&H)|(e&_&?)]; [|done].
  assert (manifests d2 = manifests d1 ∧ dentries d2 = dentries d1) as [Hm2 Hn2].
  { split; (eapply framed_run; [|exact H2]; apply framed_when, framed_bind; [|intros; apply framed_ret]).
    - apply bump_manifests.
    - apply bump_framed. }
  apply txn_bind_inv in H as [([]&d3&H3&H)|(e&_&?)]; [|done].
  pose proof (framed_run _ _ _ _ (remove_destination_manifests _ _ _) H3) as Hm3.
  apply remove_destination_names in H3. db_inv H. cbn. split_and!; [congruence| |done|by rewrite lookup_insert_eq].
  rewrite H3. destruct dest; rewrite Hn2, H1; [|done]. by rewrite delete_delete, insert_delete_eq.
Qed.

Lemma rename_moves now eop op on enp np nn no_replace src d i d' :
  rename_in_txn now eop op on enp np nn no_replace d = (Ok i, d') →
  dentries d !! (op, on) = Some (i_id src) → inodes d !! i_id src = Some src →
  manifests d' = manifests d ∧
  (∃ g ct, inodes d' !! i_id src = Some (set_ctime_ms ct (set_generation g src))) ∧
  ((d' = d ∧ ((op, on) = (np, nn) ∨ dentries d !! (np, nn) = Some (i_id src))) ∨
   (dentries d' = <[(np, nn) := i_id src]> (delete (op, on) (dentries d)) ∧
    (no_replace = true → dentries d !! (np, nn) = None))).
Proof.
  intros H Hold Hsrc. unfold rename_in_txn in H.
  assert (∃ g ct, inodes d !! i_id src = Some (set_ctime_ms ct (set_generation g src))) as Hsame.
  { exists (i_generation src), (i_ctime_ms src). rewrite Hsrc. by destruct src. }
  db_step H H1; db_inv H1. db_step H H2; db_inv H2.
  rewrite (txn_bind_ok _ _ d (Some (i_id src)) d) in H by (unfold get_dentry, gets; by rewrite Hold).
  rewrite (txn_bind_ok _ _ d (i_id src) d) in H by done.
  rewrite (txn_bind_ok _ _ d src d) in H by (unfold get_inode_raw, reads; by rewrite Hsrc).
  db_step H H6; db_inv H6. db_step H H7; assert (x3 = d) as -> by (by db_inv H7). clear H7.
  db_step H H8; db_inv H8. db_step H H9; db_inv H9. db_step H H10; db_inv H10.
  case_bool_decide as Hkey; [db_inv H; eauto 10|].
  apply txn_bind_inv in H as [(b&dx&H11&H)|(e&_&?)]; [|done]. assert (dx = d) as -> by (by db_inv H11). clear H11.
  db_step H H12; db_inv H12. db_step H H13; db_inv H13. db_step H H14; db_inv H14.
  case_bool_decide as Hdest; [db_inv H; eauto 10|].
  db_step H Hc; destruct (check_destination_cases _ _ _ _ _ Hc) as [-> _].
  apply rename_commit_moves in H as (Hm&Hd&->&Hnew). split_and!; [done|eauto|]. right. split; [done|].
  intros ->. cbn in Hb0. by bools.
Qed.

(** ** The client over the embedded store *)

Section put.
Context {hash : bytes → ChunkId} {Ct U : Type} `{!ChunkStore hash Ct}.
Context (clock : nat → Z) (ms : N) (debug : MetaRaftResponse → string).
#[local] Existing Instance heed_meta.
#[local] Instance store : MetaStore Db := heed_meta clock ms debug.
Abbreviation Cl := (FluxClient Db Ct U).
Abbreviation no_ufs := (None : option (Ufs U)).
Abbreviation names c := (dentries (fc_meta c)).

Lemma set_meta_id (c : Cl) : set_meta (fc_meta c) c = c.
Proof. by destruct c. Qed.

(** A write transaction of the store, as a call of the client. *)
Lemma on_heed_inv {A} (m : M A) (c : Cl) r c' :
  on_meta (with_write_txn m) c = (r, c') →
  ((∃ e, r = Err e) ∧ c' = c) ∨ ∃ a d', r = Ok a ∧ m (fc_meta c) = (Ok a, d') ∧ c' = set_meta d' c.
Proof.
  unfold on_meta. destruct (with_write_txn m (fc_meta c)) as [r1 d1] eqn:H. intros [= <- <-].
  apply write_txn_inv in H as [[-> He]|(a&->&H)]; [|eauto 10]. left. by rewrite set_meta_id.
Qed.

Lemma on_heed_names {A} (m : M A) x : framed dentries m → keeps (λ c : Cl, names c = x) (on_meta (with_write_txn m)).
Proof.
  intros Hf c r c' <- [[_ ->]|(a&d'&_&H&->)]%on_heed_inv; [done|]. exact (framed_run _ _ _ _ Hf H).
Qed.

Lemma write_ops_framed :
  (∀ t i g l e, framed dentries (reserve_chunks_in_txn t i g l e)) ∧
  (∀ t g i m, framed dentries (commit_reserved_in_txn t g i m)) ∧
  (∀ t, framed dentries (abort_reservation_in_txn t)) ∧
  (∀ g i, framed dentries (put_inode_cas_in_txn g i)).
Proof. unfold reserve_chunks_in_txn, commit_reserved_in_txn, put_inode_cas_in_txn. split_and!; frame_op dentries. Qed.

Lemma commit_staged_names ticket op_id g inode man staged x :
  keeps (λ c : Cl, names c = x) (commit_staged_manifest ticket op_id g inode man staged).
Proof.
  unfold commit_staged_manifest. apply keeps_bind; [apply on_heed_names, write_ops_framed|]. intros _ c r c' Hc H.
  unfold or_abort in H. set (m := _ ← put_staged staged; _) in H.
  assert (keeps (λ c : Cl, names c = x) m) as Hk.
  { apply keeps_bind; [|intros; apply on_heed_names, write_ops_framed]. apply keeps_for_each. intros eb _.
    apply keeps_bind; [|intros; apply keeps_fail_if]. intros c3 r3 c4 H3 H4. unfold on_chunks in H4.
    destruct (cs_put _ _). by simplify_eq. }
  destruct (m c) as [[a|e] c3] eqn:Hm; apply Hk in Hm; try done; simplify_eq; [done|].
  destruct (on_meta _ c3) as [r4 c4] eqn:Ha. eapply on_heed_names in Ha; [exact Ha|apply write_ops_framed|done].
Qed.

Lemma view_names {A} (f : Cl → Result A) x : keeps (λ c : Cl, names c = x) (view f).
Proof. by intros c r c' Hc [= <- <-]. Qed.
Lemma read_meta_names {A} (f : Db → Result A) x : keeps (λ c : Cl, names c = x) (read_meta f).
Proof. by intros c r c' Hc [= <- <-]. Qed.

Create HintDb names.
#[local] Hint Resolve view_names read_meta_names commit_staged_names keeps_fail_if keeps_lift keeps_ret keeps_throw : names.

Lemma write_at_names now ticket op_id ino offset data x :
  keeps (λ c : Cl, names c = x) (write_at no_ufs now ticket op_id ino offset data).
Proof.
  unfold write_at, write_chunked. case_bool_decide; [auto with names|].
  do 5 (apply keeps_bind; [auto with names|intros]). case_match. apply keeps_bind; auto with names.
Qed.

Lemma truncate_names now ticket op_id ino size x : keeps (λ c : Cl, names c = x) (truncate now ticket op_id ino size).
Proof.
  unfold truncate, setattr, truncate_locked. apply keeps_bind; [auto with names|]. intros inode. cbn [sa_size].
  case_bool_decide; [auto with names|]. case_match; [|cbn; auto with names].
  apply keeps_bind; [auto with names|]. intros _. apply keeps_bind; [auto with names|]. intros [man staged]. auto with names.
Qed.

Lemma write_stream_names now tickets ops ino blocks x :
  keeps (λ c : Cl, names c = x) (write_from_reader no_ufs now tickets ops ino blocks).
Proof.
  unfold write_from_reader. apply keeps_bind; [apply truncate_names|]. intros _.
  generalize 0 at 1. generalize (λ i, tickets (S i)) (λ i, ops (S i)). intros ts os offset.
  revert ts os offset. induction blocks as [|[|b block] blocks IH]; intros ts os offset;
    cbn [write_from_reader_loop]; [auto with names..|].
  apply keeps_bind; [apply write_at_names|]. intros _. apply keeps_bind; [auto with names|]. intros. apply IH.
Qed.

(** ** Creating, moving and removing a name *)

Lemma guard_inode_pure id (c : Cl) r c' : guard_inode id c = (r, c') → c' = c.
Proof.
  unfold guard_inode, read_meta, mbind, txn_bind. case_match; simplify_eq; [by intros [= <- <-]|by intros [= <- <-]].
Qed.
Lemma guard_name_pure p n (c : Cl) r c' : guard_name p n c = (r, c') → c' = c.
Proof.
  unfold guard_name, read_meta, mbind, txn_bind. case_match; simplify_eq; [by intros [= <- <-]|by intros [= <- <-]].
Qed.

Lemma create_file_inv parent name mode uid gid (c : Cl) r c' :
  create_file no_ufs parent name mode uid gid c = (r, c') →
  ((∃ e, r = Err e) ∧ c' = c) ∨
  ∃ i d', r = Ok i ∧ create_in_txn clock None parent name Regular mode uid gid (fc_meta c) = (Ok i, d') ∧
    c' = set_meta d' c.
Proof.
  unfold create_file. intros H. apply txn_bind_inv in H as [([]&c1&[= <-]&H)|(e&[= ]&_)].
  apply txn_bind_inv in H as [([]&c2&H2&H)|(e&H2&->)]; apply guard_inode_pure in H2 as ->; [|eauto].
  by apply on_heed_inv.
Qed.

Lemma rename_inv op on np nn no_replace (c : Cl) r c' :
  client_rename no_ufs op on np nn no_replace c = (r, c') →
  ((∃ e, r = Err e) ∧ c' = c) ∨
  ∃ i d', r = Ok i ∧ rename_in_txn clock None op on None np nn no_replace (fc_meta c) = (Ok i, d') ∧ c' = set_meta d' c.
Proof.
  unfold client_rename. intros H. apply txn_bind_inv in H as [([]&c1&[= <-]&H)|(e&[= ]&_)].
  apply txn_bind_inv in H as [([]&c2&H2&H)|(e&H2&->)]; apply guard_inode_pure in H2 as ->; [|eauto].
  apply txn_bind_inv in H as [([]&c2&H2&H)|(e&H2&->)]; apply guard_name_pure in H2 as ->; [|eauto].
  apply txn_bind_inv in H as [([]&c2&H2&H)|(e&H2&->)]; apply guard_inode_pure in H2 as ->; [|eauto].
  apply txn_bind_inv in H as [(dest&c2&[= <- <-]&H)|(e&[= ]&_)].
  apply txn_bind_inv in H as [([]&c2&H2&H)|(e&H2&->)].
  - assert (c2 = c) as -> by (by destruct (lookup_name (fc_meta c) np nn) as [?|[]]; injection H2). by apply on_heed_inv.
  - left. split; [by eauto|]. by destruct (lookup_name (fc_meta c) np nn) as [?|[]]; injection H2.
Qed.

Lemma unlink_inv p n (c : Cl) r c' :
  client_unlink no_ufs p n c = (r, c') →
  ((∃ e, r = Err e) ∧ c' = c) ∨ (r = Ok tt ∧ names c' = delete (p, n) (names c)).
Proof.
  unfold client_unlink. intros H. apply txn_bind_inv in H as [([]&c1&[= <-]&H)|(e&[= ]&_)].
  apply txn_bind_inv in H as [([]&c2&H2&H)|(e&H2&->)]; apply guard_inode_pure in H2 as ->; [|eauto].
  apply txn_bind_inv in H as [([]&c2&H2&H)|(e&H2&->)]; apply guard_name_pure in H2 as ->; [|eauto].
  apply on_heed_inv in H as [?|([]&d'&->&H&->)]; [by left|]. right. split; [done|]. cbn.
  unfold unlink_in_txn in H. db_step H H1; db_inv H1. db_step H H2; db_inv H2.
  db_step H H3; db_inv H3. db_step H H4; db_inv H4.
  apply txn_bind_inv in H as [(ip&d1&H5&H)|(e&_&?)]; [|done]. apply bump_names in H5.
  db_step H H6; db_inv H6. rewrite <-H5. change (delete (p, n) (dentries d1)) with (dentries (upd_dentries (delete (p, n)) d1)).
  eapply framed_run; [|exact H]. apply remove_link_framed.
Qed.

(** ** The temporary file *)

Lemma no_ufs_agree (us : U) : reads_agree (reader no_ufs us).
Proof. by intros read key obj off len d [=]. Qed.

Context (D : bytes → Prop).
Abbreviation holds c ino data := (file_holds no_ufs (fc_ufs_state c) D ino data c).

Lemma create_new_node p n mode uid gid d i d' :
  create_in_txn clock None p n Regular mode uid gid d = (Ok i, d') →
  ∃ id t, i = new_node id Regular mode uid gid None t.
Proof.
  intros H. unfold create_in_txn, create_node_in_txn in H.
  repeat (apply txn_bind_inv in H as [(?&?&_&H)|(?&_&[=])]). injection H as <- _. eauto.
Qed.

Lemma created_holds p n mode uid gid (c : Cl) i d' :
  ns_inv (fc_meta c) → room (fc_meta c) → cs_wf (fc_chunks c) → collision_free D (fc_chunks c) →
  create_in_txn clock None p n Regular mode uid gid (fc_meta c) = (Ok i, d') →
  names (set_meta d' c) = <[(p, n) := i_id i]> (names c) ∧ inodes (fc_meta c) !! i_id i = None ∧
  holds (set_meta d' c) (i_id i) [].
Proof.
  intros Hns Hroom Hwf HD H. pose proof (create_then_lookup _ _ _ _ _ _ _ _ _ _ _ Hns Hroom H) as (Hl&_&Hfresh&_&Hn).
  assert (inodes d' !! i_id i = Some i) as Hi.
  { unfold lookup_name in Hl. rewrite Hn, lookup_insert_eq in Hl. cbn in Hl.
    destruct (inodes d' !! p) as [ip|]; [|done]. cbn in Hl. case_bool_decide; [done|]. cbn in Hl.
    destruct (inodes d' !! i_id i); [|done]. by injection Hl as ->. }
  destruct (create_new_node _ _ _ _ _ _ _ _ H) as (id&t&->). cbn in Hi. split_and!; [done..|].
  exists (new_node id Regular mode uid gid None t), (Manifest_empty id 1).
  assert (file_ok no_ufs (fc_ufs_state c) (fc_meta (set_meta d' c)) (fc_chunks (set_meta d' c))
    (new_node id Regular mode uid gid None t) (Manifest_empty id 1)) as Hf.
  { split; [done| |done]. split; try done; [intros e He|intros o l ch He|intros e He]; by apply elem_of_nil in He. }
  assert (ms_get_inode id (fc_meta (set_meta d' c)) = Ok (new_node id Regular mode uid gid None t)) as Hg.
  { cbn. unfold heed_get_inode. by rewrite Hi. }
  split_and!; try done. exact (read_all_ok no_ufs (fc_ufs_state c) (no_ufs_agree _) _ (set_meta d' c) _ _ eq_refl Hg Hf).
Qed.

(** A change of the generation and the time of a change leaves the bytes. *)
Lemma touched_holds (c : Cl) ino data inode d' g ct :
  holds c ino data → inodes (fc_meta c) !! ino = Some inode → manifests d' = manifests (fc_meta c) →
  inodes d' !! ino = Some (set_ctime_ms ct (set_generation g inode)) → holds (set_meta d' c) ino data.
Proof.
  intros (i&man&_&Hi&Hid&Hf&Hsz&Hread&Hwf&HD) Hino Hm Hi'. cbn in Hi. unfold heed_get_inode in Hi.
  rewrite Hino in Hi. injection Hi as <-. set (inode' := set_ctime_ms _ _) in *.
  assert (file_ok no_ufs (fc_ufs_state c) d' (fc_chunks c) inode' man) as Hf'.
  { destruct Hf as [Hman [] He]. split; [|by split|done]. rewrite <-Hman. unfold current_manifest.
    change (i_manifest_id inode') with (i_manifest_id inode). cbn. unfold heed_get_manifest. by rewrite Hm. }
  assert (ms_get_inode ino (fc_meta (set_meta d' c)) = Ok inode') as Hg by (cbn; unfold heed_get_inode; by rewrite Hi').
  exists inode', man. split_and!; try done.
  assert (ms_get_inode ino (fc_meta c) = Ok inode) as Hg0 by (cbn; unfold heed_get_inode; by rewrite Hino).
  rewrite (read_all_ok no_ufs (fc_ufs_state c) (no_ufs_agree _) _ c _ _ eq_refl Hg0 Hf) in Hread.
  rewrite (read_all_ok no_ufs (fc_ufs_state c) (no_ufs_agree _) _ (set_meta d' c) _ _ eq_refl Hg Hf').
  apply pair_equal_spec in Hread as [<- _]. done.
Qed.

(** ** The command *)

Context (io_error : string → option string) (now : Z) (ids : nat → nat → RequestOpId) (tickets ops : nat → N).
Context (random_hex : string) (blocks_of : bytes → list bytes).
(** Reading a file from its start to its end gives its bytes. *)
Context (blocks_whole : ∀ b, stream_data (blocks_of b) = b).
Abbreviation W := (World (Mt := Db) (Ct := Ct) (U := U)).
Abbreviation tmp := (temporary_name random_hex).

(** The chunk store has room for the file, once its temporary exists in the
    directory [p]. *)
Definition room_to_put (p : N) (mode : N) (data : bytes) (c : Cl) : Prop :=
  ∀ t c1 i c2, create_file no_ufs p tmp mode 0 0 c = (Ok t, c1) →
    truncate now (tickets O) (ops O) (i_id t) 0 c1 = (Ok i, c2) →
    stream_room no_ufs (fc_ufs_state c) D now (i_id t) (λ i, tickets (S i)) (λ i, ops (S i)) 0 (blocks_of data) c2.

(** What [put] may leave behind: [parent] and [name] are the destination. *)
Definition put_outcome (parent : N) (name : string) (overwrite : bool) (data : bytes) (c : Cl) (r : result CliError N) (c' : Cl) : Prop :=
  match r with
  | Ok n =>
      n = N.of_nat (length data) ∧ ∃ t, inodes (fc_meta c) !! t = None ∧
      names c' = <[(parent, name) := t]> (names c) ∧
      (overwrite = false → names c !! (parent, name) = None) ∧
      read_to_writer no_ufs t c' = (Ok (n, data), c')
  | Err _ =>
      names c' = names c ∨
      ∃ t, names c !! (parent, tmp) = None ∧ names c' = <[(parent, tmp) := t]> (names c)
  end.

(** The end of a successful put. *)
Lemma put_renamed p name overwrite data (c c1 : Cl) t i d' :
  ns_inv (fc_meta c) → names c !! (p, tmp) = None → inodes (fc_meta c) !! t = None →
  names c1 = <[(p, tmp) := t]> (names c) → holds c1 t data →
  rename_in_txn clock None p tmp None p name (negb overwrite) (fc_meta c1) = (Ok i, d') →
  put_outcome p name overwrite data c (Ok (N.of_nat (length data))) (set_meta d' c1).
Proof.
  intros Hns Hnone Hfresh Hn Hh H. split; [done|]. exists t. split; [done|].
  assert (∃ src, inodes (fc_meta c1) !! t = Some src ∧ i_id src = t) as (src&Hsrc&Hid).
  { destruct Hh as (src&?&_&Hi&Hid&_). exists src. split; [|done]. cbn in Hi. unfold heed_get_inode in Hi.
    by destruct (inodes (fc_meta c1) !! t); simplify_eq/=. }
  assert (names c !! (p, name) ≠ Some t) as Hother.
  { intros Hc. apply (ns_entry _ _ Hns) in Hc as (_&[? ?]&_). congruence. }
  subst t. apply (rename_moves _ _ _ _ _ _ _ _ src) in H as (Hm&(g&ct&Hi')&Hcase); [|by rewrite Hn, lookup_insert_eq|done].
  assert (dentries d' = <[(p, name) := i_id src]> (names c) ∧ (overwrite = false → names c !! (p, name) = None)) as [Hd Hrep].
  { destruct Hcase as [[-> Hsame]|[-> Hrep]].
    - destruct (decide (name = tmp)) as [->|Hne]; [done|]. destruct Hsame as [?|Hsame]; [congruence|].
      rewrite Hn, lookup_insert_ne in Hsame by congruence. done.
    - rewrite Hn, delete_insert_id by done. split; [done|]. intros ->. specialize (Hrep eq_refl).
      destruct (decide (name = tmp)) as [->|Hne]; [done|]. by rewrite Hn, lookup_insert_ne in Hrep by congruence. }
  split_and!; [done|done|]. apply (read_stream_ok no_ufs (fc_ufs_state c1) (no_ufs_agree _) D).
  by eapply touched_holds.
Qed.

Lemma cleanup_names p (c c1 c2 : Cl) r t :
  names c !! (p, tmp) = None → names c1 = <[(p, tmp) := t]> (names c) →
  client_unlink no_ufs p tmp c1 = (r, c2) →
  names c2 = names c ∨ ∃ t, names c !! (p, tmp) = None ∧ names c2 = <[(p, tmp) := t]> (names c).
Proof.
  intros Hnone Hn [[_ ->]|[_ ->]]%unlink_inv; [by eauto|]. left. by rewrite Hn, delete_insert_id.
Qed.

(** A created name was free. *)
Lemma create_absent p n mode uid gid d i d' :
  create_in_txn clock None p n Regular mode uid gid d = (Ok i, d') → dentries d !! (p, n) = None.
Proof.
  intros H. unfold create_in_txn, create_node_in_txn in H.
  db_step H H1; db_inv H1. db_step H H2; db_inv H2. db_step H H3; db_inv H3. by destruct (dentries d !! (p, n)).
Qed.

(** Steps of a command. *)
Lemma cmd_bind_ok {A B} (m : cmd A) (k : A → cmd B) (w w1 : W) a : m w = Some (Ok a, w1) → (m ≫= k) w = k a w1.
Proof. intros H. unfold mbind, cmd_bind. by rewrite H. Qed.
Lemma cmd_bind_err {A B} (m : cmd A) (k : A → cmd B) (w w1 : W) e :
  m w = Some (Err e, w1) → (m ≫= k) w = Some (Err e, w1).
Proof. intros H. unfold mbind, cmd_bind. by rewrite H. Qed.

Lemma attempt_run {A} (m : Cl → option (Result A * Cl)) (w : W) r c' :
  m (w_client w) = Some (r, c') → attempt_client m w = Some (Ok r, set_client c' w).
Proof. intros H. unfold attempt_client. by rewrite H. Qed.
Lemma by_path_run {A} (m : Cl → option (Result A * Cl)) (w : W) r c' :
  m (w_client w) = Some (r, c') →
  by_path m w = Some (match r with Ok a => Ok a | Err e => Err (Flux e) end, set_client c' w).
Proof.
  intros H. unfold by_path. rewrite (cmd_bind_ok _ _ _ _ _ (attempt_run _ _ _ _ H)). by destruct r.
Qed.

Lemma set_set_client c c' (w : W) : set_client c' (set_client c w) = set_client c' w.
Proof. done. Qed.

(** Writing the temporary file and moving it. *)
Lemma write_and_move p name overwrite mode data (c : Cl) t d1 r c2 :
  ns_inv (fc_meta c) → names c !! (p, tmp) = None → inodes (fc_meta c) !! i_id t = None → room_to_put p mode data c →
  create_file no_ufs p tmp mode 0 0 c = (Ok t, set_meta d1 c) →
  names (set_meta d1 c) = <[(p, tmp) := i_id t]> (names c) → holds (set_meta d1 c) (i_id t) [] →
  (bytes ← write_from_reader no_ufs now tickets ops (i_id t) (blocks_of data);
   _ ← client_rename no_ufs p tmp p name (negb overwrite);
   mret bytes) (set_meta d1 c) = (r, c2) →
  match r with
  | Ok n => put_outcome p name overwrite data c (Ok n) c2
  | Err _ => names c2 = names (set_meta d1 c)
  end.
Proof using blocks_whole.
  intros Hns Hnone Hfresh Hput Hcreate Hn Hh H.
  apply txn_bind_inv in H as [(n&c1&Hw&H)|(e&Hw&->)]; pose proof (write_stream_names _ _ _ _ _ _ _ _ _ eq_refl Hw) as Hn1; [|done].
  apply (write_stream_ok no_ufs (fc_ufs_state c) (no_ufs_agree _) D) with (old := []) in Hw as [-> Hh1];
    [|exact Hh|intros i c3 Ht; exact (Hput _ _ _ _ Hcreate Ht)].
  rewrite blocks_whole in Hh1, H. assert (fc_ufs_state c1 = fc_ufs_state c) as Hus by (by destruct Hh1 as (?&?&?&_)).
  apply txn_bind_inv in H as [(i&c3&Hr&H)|(e&Hr&->)]; apply rename_inv in Hr.
  - injection H as <- <-. destruct Hr as [[[? ?] _]|(i'&d'&_&Hr&->)]; [done|]. rewrite <-Hus in Hh1.
    eapply put_renamed; [done..| | |exact Hr]; [congruence|done].
  - destruct Hr as [[_ ->]|(?&?&?&_)]; [|done]. done.
Qed.

Lemma put_beside_ok data parent name overwrite mode (w : W) :
  ns_inv (fc_meta (w_client w)) → room (fc_meta (w_client w)) → cs_wf (fc_chunks (w_client w)) →
  collision_free D (fc_chunks (w_client w)) → room_to_put (i_id parent) mode data (w_client w) →
  ∃ r c', put_beside now tickets ops random_hex blocks_of data parent name overwrite mode w = Some (r, set_client c' w) ∧
    put_outcome (i_id parent) name overwrite data (w_client w) r c'.
Proof using blocks_whole.
  intros Hns Hroom Hwf HD Hput. unfold put_beside, on_client. set (c := w_client w) in *.
  destruct (create_file no_ufs (i_id parent) tmp mode current_uid current_gid c) as [r1 c1] eqn:Hcreate.
  assert (run (create_file no_ufs (i_id parent) tmp mode current_uid current_gid) (w_client w) = Some (r1, c1)) as Hrun
    by (unfold run; by rewrite <-Hcreate).
  apply by_path_run in Hrun. pose proof Hcreate as Hc.
  apply create_file_inv in Hc as [[[e ->] ->]|(t&d1&->&Hc&->)].
  { rewrite (cmd_bind_err _ _ _ _ _ Hrun). exists (Err (Flux e)), c. split; [done|]. by left. }
  rewrite (cmd_bind_ok _ _ _ _ _ Hrun). clear Hrun.
  destruct (created_holds _ _ _ _ _ c t d1 Hns Hroom Hwf HD Hc) as (Hn&Hfresh&Hholds).
  assert (names c !! (i_id parent, tmp) = None) as Hnone by (by eapply create_absent).
  match goal with |- context [attempt_client (run ?m) ≫= _] => set (move := m) end.
  destruct (move (set_meta d1 c)) as [r2 c2] eqn:Hmove.
  assert (run move (w_client (set_client (set_meta d1 c) w)) = Some (r2, c2)) as Hrun by (unfold run; by rewrite <-Hmove).
  rewrite (cmd_bind_ok _ _ _ _ _ (attempt_run _ _ _ _ Hrun)). clear Hrun. cbn zeta.
  apply (write_and_move _ _ _ mode) in Hmove; [|done..]. destruct r2 as [n|e]; [by exists (Ok n), c2|].
  destruct (client_unlink no_ufs (i_id parent) tmp c2) as [r3 c3] eqn:Hun.
  assert (run (client_unlink no_ufs (i_id parent) tmp) (w_client (set_client c2 w)) = Some (r3, c3)) as Hrun
    by (unfold run; by rewrite <-Hun).
  rewrite set_set_client, (cmd_bind_ok _ _ _ _ _ (attempt_run _ _ _ _ Hrun)). exists (Err (Flux e)), c3.
  split; [done|]. rewrite Hn in Hmove. by eapply cleanup_names.
Qed.

(** What is left to do when the parent is known to be [r2]. *)
Definition put_resolved (local : string) (r2 : Result (Inode * string)) (overwrite : bool) (mode : N) (w : W) :
    option (result CliError N * W) :=
  match w_files w !! local with
  | None => Some (Err (Other ("open local file " +:+ local)), w)
  | Some file =>
      match r2 with
      | Ok (parent, name) => put_beside now tickets ops random_hex blocks_of file parent name overwrite mode w
      | Err e => fail (Flux e) w
      end
  end.

(** The command, once both resolutions have enough fuel. *)
Lemma put_atomic_runs fuel local destination overwrite mode (w : W) r1 r2 :
  lookup_path no_ufs now (ids 0%nat) fuel destination (w_client w) = Some (r1, w_client w) →
  resolve_parent no_ufs now (ids 1%nat) fuel destination (w_client w) = Some (r2, w_client w) →
  put_atomic now ids tickets ops random_hex fuel blocks_of local destination overwrite mode w =
  match r1 with
  | Ok i => if negb overwrite then fail (Flux AlreadyExists) w
            else if bool_decide (i_file_type i ≠ Regular) then fail (Flux IsDirectory) w
            else put_resolved local r2 overwrite mode w
  | Err NotFound => put_resolved local r2 overwrite mode w
  | Err e => fail (Flux e) w
  end.
Proof.
  intros H1 H2. assert (set_client (w_client w) w = w) as Hw by (by destruct w). unfold put_atomic.
  rewrite (cmd_bind_ok _ _ _ w r1) by (unfold attempt_client, lookup_file; by rewrite H1, Hw).
  assert (∀ file, (by_path (resolve_parent no_ufs now (ids 1%nat) fuel destination) ≫= λ '(parent, name),
    put_beside now tickets ops random_hex blocks_of file parent name overwrite mode) w =
    match r2 with
    | Ok (parent, name) => put_beside now tickets ops random_hex blocks_of file parent name overwrite mode w
    | Err e => fail (Flux e) w
    end) as Hrest.
  { intros file. apply by_path_run in H2. rewrite Hw in H2. unfold mbind, cmd_bind. rewrite H2. by destruct r2 as [[]|]. }
  assert ((file ← read_local "open local file " local;
           '(parent, name) ← by_path (resolve_parent no_ufs now (ids 1%nat) fuel destination);
           put_beside now tickets ops random_hex blocks_of file parent name overwrite mode) w =
          put_resolved local r2 overwrite mode w) as Hres.
  { unfold put_resolved, read_local. unfold mbind at 1, cmd_bind at 1. by destruct (w_files w !! local). }
  destruct r1 as [i|[]]; try exact Hres; try done. destruct overwrite; [|done]. cbn [negb]. by case_bool_decide.
Qed.

End put.

(** ** Witness: a file into the root directory *)

From S2P Require Import Pack.

Definition put_bytes : bytes := [x61; x62; x63]%byte.
Definition one_block (b : bytes) : list bytes := match b with [] => [] | _ => [b] end.
Lemma one_block_whole b : stream_data (one_block b) = b.
Proof. destruct b as [|x b]; [done|]. cbn. by rewrite app_nil_r. Qed.

#[local] Instance put_store : MetaStore Db := heed_meta example_now 1000 (λ _, "").
#[local] Instance put_chunks : ChunkStore toy_hash PackStore := pack_chunk_store toy_hash toy_hash_width.
Definition put_client : FluxClient Db PackStore unit := client_new (msm_store example_machine) new_store tt.
Definition put_world : World := mkWorld put_client [] {["local" := put_bytes]}.
Abbreviation put_ids := (λ i j : nat, N.of_nat i + 10 * N.of_nat j).
Definition put_created : result FluxError Inode * FluxClient Db PackStore unit :=
  Client.create_file None ROOT_INODE (temporary_name "00") 420 0 0 put_client.

Definition put_temporary : Inode := new_node 3 Regular 420 0 0 None (example_now 1%nat).

Lemma put_room_for :
  room_to_put example_now 1000 (λ _, "") (λ b, b = put_bytes) 5%Z (λ i, N.of_nat i) (λ i, N.of_nat i) "00" one_block
    ROOT_INODE 420 put_bytes put_client.
Proof.
  intros t c1 i c2 Hc Ht. assert (put_created = (Ok t, c1)) as Hp by exact Hc. clear Hc.
  assert (c1 = put_created.2) as -> by (by rewrite Hp).
  apply (f_equal fst) in Hp. vm_compute in Hp. injection Hp as <-.
  assert (ms_get_inode 3 (fc_meta put_created.2) = Ok put_temporary) as Hi by (vm_compute; reflexivity).
  apply (truncate_inv _ _ _ _ _ _ _ _ put_temporary (Manifest_empty 3 1) Hi eq_refl) in Ht
    as [(_&_&->)|(?&?&?&Hne&_)]; [|by destruct Hne].
  split; [|by intros]. intros inode man Hi' Hman.
  assert (Ok inode = Ok put_temporary) as [= ->] by (rewrite <-Hi; symmetry; exact Hi').
  assert (man = Manifest_empty 3 1) as -> by (injection Hman as <-; reflexivity).
  assert (write_chunks None tt new_store put_temporary (Manifest_empty 3 1) 0 put_bytes = [put_bytes]) as Hchunks
    by (vm_compute; reflexivity).
  change (fc_ufs_state put_client) with tt.
  assert (fc_chunks put_created.2 = new_store) as -> by (vm_compute; reflexivity). rewrite Hchunks. split.
  - split; [by apply (small_room _ _ 1)|done].
  - by apply Forall_singleton.
Qed.

Abbreviation put_copy fuel :=
  (put_atomic 5%Z put_ids (λ i, N.of_nat i) (λ i, N.of_nat i) "00" fuel one_block "local" "/copy" false 420 put_world).

