(* ===== verification/Mount.v ===== *)
(** * Mounting ([crates/fluxfs/src/main.rs])

    What [fluxfs mount] decides and does around the FUSE session: which UFS
    and which chunk store it opens, the identity of the mount in its data
    directory, the recovery before serving and the collector thread beside it.
    Opening sockets, LMDB and OpenDAL operators is left out. *)

From S2P Require Import Prelude Types Bytes Extents Keys Authz ChunkStore Ufs UfsRead MetaDb Namespace Ledger Apply HeedStore.
From S2P Require Import Frame MetaStore Client ClientFlush.

Local Open Scope N_scope.

(** ** The UFS of a mount *)

Record S3Options := mkS3Options {
  s3_endpoint : string;
  s3_bucket : string;
  s3_region : string;
  s3_access_key : string;
  s3_secret_key : string;
  s3_root : option string
}.

Inductive UfsTarget := LocalUfs (path : string) | S3Ufs (opts : S3Options).

Section environment.
Context (env : string → option string).

Definition env_req (key : string) : Result string :=
  ok_or (UfsErr ("missing env " +:+ key +:+ "; run scripts/dev-minio.sh and export FLUXFS_UFS_*")) (env key).

Definition from_env : Result S3Options :=
  endpoint ← env_req "FLUXFS_UFS_ENDPOINT";
  bucket ← env_req "FLUXFS_UFS_BUCKET";
  let region := default "us-east-1" (env "FLUXFS_UFS_REGION") in
  access_key ← env_req "FLUXFS_UFS_ACCESS_KEY";
  secret_key ← env_req "FLUXFS_UFS_SECRET_KEY";
  let root := match env "FLUXFS_UFS_ROOT" with Some "" | None => None | Some s => Some s end in
  Ok (mkS3Options endpoint bucket region access_key secret_key root).

(** [anyhow::Error] by its message, or the error of the UFS. *)
Definition open_ufs_uri (uri : string) : result (string + FluxError) UfsTarget :=
  match strip_prefix "file://" uri with
  | Some path => Ok (LocalUfs path)
  | None =>
      match strip_prefix "s3://" uri with
      | Some rest =>
          let rest := trim_start SLASH rest in
          let '(bucket, prefix) := match split_once SLASH rest with
            | Some (b, p) => (b, trim_end SLASH (trim_start SLASH p))
            | None => (rest, "")
            end in
          if bool_decide (bucket = "") then Err (inl ("s3 URI missing bucket: " +:+ uri)) else
          match from_env with
          | Err e => Err (inr e)
          | Ok opts =>
              Ok (S3Ufs (mkS3Options (s3_endpoint opts) bucket (s3_region opts) (s3_access_key opts)
                          (s3_secret_key opts) (if bool_decide (prefix = "") then s3_root opts else Some prefix)))
          end
      | None => Err (inl ("unsupported --ufs URI (want file:///path or s3://bucket[/prefix]): " +:+ uri))
      end
  end.

(** The arms of [Cmd::Mount]: a mount is ephemeral or has one UFS. *)
Definition mount_ufs (no_ufs : bool) (ufs : option string) (data_dir : string) (memory disk : N) (dir : option string) :
    result (string + FluxError) (option (UfsTarget * ReadPathConfig)) :=
  match no_ufs, ufs with
  | true, None => Ok None
  | false, Some uri => target ← open_ufs_uri uri; Ok (Some (target, for_mount data_dir memory disk dir))
  | true, Some _ => Err (inl "pass either --no-ufs or --ufs, not both")
  | false, None => Err (inl "mount requires --no-ufs (Ephemeral) or --ufs <uri> (UFS-backed)")
  end.
End environment.

(** ** The chunk store of a mount *)

Inductive ChunkMode := Discovered (meta_addr : string) | LocalRf2 | FixedWorkers (urls : list string).

(** [run_mount] and [run_orphan_gc_cmd]. *)
Definition chunk_mode (chunk_workers : list string) (meta_addr : option string) : result string ChunkMode :=
  match chunk_workers, meta_addr with
  | [], Some addr => Ok (Discovered addr)
  | [], None => Ok LocalRf2
  | _, _ =>
      if negb (length chunk_workers =? 3)%nat
      then Err ("multi-process v0 requires exactly three --chunk-worker URLs; got "
                +:+ pretty (N.of_nat (length chunk_workers)))
      else Ok (FixedWorkers chunk_workers)
  end.

(** ** The identity of a mount *)

(** The encodings of the characters that [str::trim] removes. *)
Definition WHITESPACE : list bytes :=
  (λ l : list N, byte_of <$> l) <$>
  [[9]; [10]; [11]; [12]; [13]; [32]; [194; 133]; [194; 160]; [225; 154; 128];
   [226; 128; 128]; [226; 128; 129]; [226; 128; 130]; [226; 128; 131]; [226; 128; 132]; [226; 128; 133];
   [226; 128; 134]; [226; 128; 135]; [226; 128; 136]; [226; 128; 137]; [226; 128; 138];
   [226; 128; 168]; [226; 128; 169]; [226; 128; 175]; [226; 129; 159]; [227; 128; 128]]%list.

Fixpoint strip_bytes (p l : bytes) : option bytes :=
  match p, l with
  | [], _ => Some l
  | x :: p, y :: l => if bool_decide (x = y) then strip_bytes p l else None
  | _ :: _, [] => None
  end.
Fixpoint strip_any (ps : list bytes) (l : bytes) : option bytes :=
  match ps with
  | [] => None
  | p :: ps => match strip_bytes p l with Some l' => Some l' | None => strip_any ps l end
  end.
(** As long as one of the patterns [ps] is in front; each takes a byte. *)
Fixpoint trim_front (fuel : nat) (ps : list bytes) (l : bytes) : bytes :=
  match fuel with
  | O => l
  | S fuel => match strip_any ps l with Some l' => trim_front fuel ps l' | None => l end
  end.
Definition trim (l : bytes) : bytes :=
  let l := trim_front (length l) WHITESPACE l in
  reverse (trim_front (length l) (reverse <$> WHITESPACE) (reverse l)).

Abbreviation SESSION_FILE := "mount-session-id".
Inductive SessionCall := SessionCreate | SessionWrite | SessionSync | SessionSyncDir.

Section session.
(** The calls that fail, what a failed write has left in the file, and the
    file that another process creates between the check and the creation. *)
Context (fails : SessionCall → option string) (leftover : bytes) (raced : option bytes).

Definition read_existing (dir : gmap string bytes) : result string bytes :=
  match dir !! SESSION_FILE with
  | None => Err "read mount session id mount-session-id"
  | Some b =>
      if negb (utf8_valid b) then Err "read mount session id mount-session-id" else
      let session_id := trim b in
      if bool_decide (session_id = []) then Err "mount session id mount-session-id is empty" else Ok session_id
  end.

Definition load_mount_session_id (random : RequestOpId) (dir : gmap string bytes) :
    result string bytes * gmap string bytes :=
  if is_some (dir !! SESSION_FILE) then (read_existing dir, dir) else
  let session_id := str_bytes (RequestOpId_to_hex random) in
  match raced, fails SessionCreate with
  | Some b, _ => let dir := <[SESSION_FILE := b]> dir in (read_existing dir, dir)
  | None, Some _ => (Err "create mount session id mount-session-id", dir)
  | None, None =>
      match fails SessionWrite with
      | Some _ => (Err "write mount session id", <[SESSION_FILE := leftover]> dir)
      | None =>
          let dir := <[SESSION_FILE := session_id ++ [byte_of 10]]> dir in
          match fails SessionSync, fails SessionSyncDir with
          | Some _, _ => (Err "fsync mount session id", dir)
          | None, Some _ => (Err "fsync mount data directory", dir)
          | None, None => (Ok session_id, dir)
          end
      end
  end.
End session.

(** ** Before and beside the session *)

Abbreviation BACKGROUND_GC_BATCH := 32.
Abbreviation BACKGROUND_GC_IDLE := 5000.
Abbreviation BACKGROUND_GC_BUSY := 200.

Section mount.
Context {hash : bytes → ChunkId} {Mt Ct U : Type}.
Context `{!MetaStore Mt, !ChunkStore hash Ct}.
Context (ufs : option (Ufs U)) (targets : GcTargets Ct).
Abbreviation Cl := (FluxClient Mt Ct U).
Abbreviation C := (txn Cl FluxError).

(** The two lines it prints: whether a lease was released, and the flush
    report. *)
Definition reconcile_before_mount (ids : nat → nat → RequestOpId) : C (bool * option FlushRecoveryReport) :=
  _ ← recover_open_session;
  released ← release_interrupted_gc_lease;
  if is_some ufs then report ← reconcile_flushes ufs ids; mret (released, Some report)
  else mret (released, None).

(** One turn of the collector thread: the time that it then waits.  A pass
    that fails is printed. *)
Definition background_pass (c : Cl) : N * Cl :=
  match run_concurrent_gc_pass targets BACKGROUND_GC_BATCH c with
  | (Ok report, c) =>
      (if (0 <? og_removed_chunks report) || (0 <? og_removed_manifests report)
       then BACKGROUND_GC_BUSY else BACKGROUND_GC_IDLE, c)
  | (Err _, c) => (BACKGROUND_GC_IDLE, c)
  end.

(** [sleep_interruptible]: the time slept; [stop i] is the flag before the
    [i]-th slice of a tenth of a second. *)
Fixpoint sleep_interruptible (fuel : nat) (stop : nat → bool) (left : N) : N :=
  match fuel with
  | O => 0
  | S fuel =>
      if (0 <? left) && negb (stop O) then
        let step := N.min 100 left in
        step + sleep_interruptible fuel (λ i, stop (S i)) (left - step)
      else 0
  end.
End mount.

(** ** The identity lasts *)

(** A visible ASCII character is no part of a white space. *)
Definition visible (b : byte) : bool := (33 <=? Byte.to_N b) && (Byte.to_N b <=? 126).

Lemma visible_front b l :
  visible b = true → strip_any WHITESPACE (b :: l) = None ∧ strip_any (reverse <$> WHITESPACE) (b :: l) = None.
Proof. by destruct b. Qed.

Lemma trim_front_visible fuel ps b l : strip_any ps (b :: l) = None → trim_front fuel ps (b :: l) = b :: l.
Proof. intros H. destruct fuel; [done|]. cbn. by rewrite H. Qed.

Lemma trim_line l : l ≠ [] → Forall (λ b, visible b = true) l → trim (l ++ [byte_of 10]) = l ∧ trim l = l.
Proof.
  intros Hne Hl. destruct l as [|b l]; [done|]. pose proof (Forall_cons_1 _ _ _ Hl) as [Hb _].
  destruct (visible_front b (l ++ [byte_of 10]) Hb) as [H1 _]. destruct (visible_front b l Hb) as [H2 _].
  assert (∃ x r, reverse (b :: l) = x :: r ∧ visible x = true) as (x&r&Hr&Hx).
  { destruct (reverse (b :: l)) as [|x r] eqn:E; [by apply (f_equal length) in E; rewrite length_reverse in E|].
    exists x, r. split; [done|]. rewrite Forall_forall in Hl. apply Hl, elem_of_reverse. rewrite E. left. }
  destruct (visible_front x r Hx) as [_ H3].
  assert (strip_any (reverse <$> WHITESPACE) (byte_of 10 :: x :: r) = Some (x :: r)) as H4 by done.
  unfold trim. cbn zeta. generalize dependent (reverse <$> WHITESPACE). generalize dependent WHITESPACE.
  generalize (byte_of 10). intros nl ws H1 H2 rws H3 H4. split.
  - cbn [app]. rewrite (trim_front_visible _ _ b) by done. change (b :: l ++ [nl]) with ((b :: l) ++ [nl]).
    rewrite reverse_app, Hr, length_app, Nat.add_comm. cbn [length Nat.add].
    change (reverse [nl] ++ x :: r) with (nl :: x :: r). cbn [trim_front]. rewrite H4, H3.
    by rewrite <-Hr, reverse_involutive.
  - rewrite (trim_front_visible _ _ b), Hr, trim_front_visible by done. by rewrite <-Hr, reverse_involutive.
Qed.

Lemma hex_visible l : Forall (λ b, visible b = true) (str_bytes (hex_encode l)).
Proof.
  assert (∀ n, n < 16 → visible (Ascii.byte_of_ascii (hex_digit n)) = true) as Hd.
  { intros n Hn. destruct n as [|p]; [done|]. do 4 (destruct p as [p|p|]; try done); lia. }
  induction l as [|b l IH]; [constructor|].
  change (str_bytes (hex_encode (b :: l))) with (Ascii.byte_of_ascii (hex_digit (Byte.to_N b / 16))
    :: Ascii.byte_of_ascii (hex_digit (Byte.to_N b mod 16)) :: str_bytes (hex_encode l)).
  constructor; [|constructor; [|done]]; apply Hd.
  - apply N.Div0.div_lt_upper_bound. pose proof (Byte.to_N_bounded b). lia.
  - by apply N.mod_lt.
Qed.

Lemma visible_utf8 l tail : Forall (λ b, visible b = true) l → utf8_valid tail = true → utf8_valid (l ++ tail) = true.
Proof.
  intros Hl Ht. induction Hl as [|b l Hb _ IH]; [done|]. cbn [app utf8_valid].
  unfold visible in Hb. rewrite (proj2 (N.ltb_lt (Byte.to_N b) 0x80)); [done|]. bools. lia.
Qed.

(** A mount keeps its identity.  Once the id of a data directory has been
    handed out, every later start gets the same id, whatever its random id,
    its failures and the races of its own calls would have been. *)
Theorem session_lasts fails leftover raced random dir id dir' :
  load_mount_session_id fails leftover raced random dir = (Ok id, dir') →
  ∀ fails2 leftover2 raced2 random2,
    load_mount_session_id fails2 leftover2 raced2 random2 dir' = (Ok id, dir').
Proof.
  intros H fails2 leftover2 raced2 random2. unfold load_mount_session_id in H |- *.
  destruct (dir !! SESSION_FILE) as [b|] eqn:Hb; cbn [is_some] in H.
  { injection H as H <-. rewrite Hb. cbn [is_some]. by rewrite H. }
  destruct raced as [b|].
  { injection H as H <-. rewrite lookup_insert_eq. cbn [is_some]. by rewrite H. }
  destruct (fails SessionCreate), (fails SessionWrite), (fails SessionSync), (fails SessionSyncDir); try done.
  injection H as <- <-. rewrite lookup_insert_eq. cbn [is_some]. unfold read_existing. rewrite lookup_insert_eq.
  pose proof (hex_visible (be_bytes 16 random)) as Hv. fold (RequestOpId_to_hex random) in Hv.
  assert (str_bytes (RequestOpId_to_hex random) ≠ []) as Hne.
  { intros E%(f_equal length). unfold RequestOpId_to_hex in E.
    by rewrite str_bytes_length, hex_encode_length, be_bytes_length in E. }
  rewrite visible_utf8 by (done || by vm_compute). cbn [negb]. rewrite (proj1 (trim_line _ Hne Hv)).
  by rewrite bool_decide_false.
Qed.

Lemma session_lasts_witness :
  ∀ fails2 leftover2 raced2 random2,
    load_mount_session_id fails2 leftover2 raced2 random2
      (load_mount_session_id (λ _, None) [] None 7 ∅).2
    = (Ok (str_bytes (RequestOpId_to_hex 7)), (load_mount_session_id (λ _, None) [] None 7 ∅).2).
Proof. apply (session_lasts (λ _, None) [] None 7 ∅). reflexivity. Defined.

(** A start that is cut off between the creation of the file and the write
    leaves an empty file, and every later start fails until it is removed. *)
Theorem session_torn e random dir :
  dir !! SESSION_FILE = None →
  let dir' := (load_mount_session_id (λ c, match c with SessionWrite => Some e | _ => None end) [] None random dir).2 in
  ∀ fails leftover raced random2,
    load_mount_session_id fails leftover raced random2 dir' = (Err "mount session id mount-session-id is empty", dir').
Proof.
  intros H dir' fails leftover raced random2. assert (dir' = <[SESSION_FILE := []]> dir) as ->.
  { unfold dir', load_mount_session_id. by rewrite H. }
  unfold load_mount_session_id, read_existing. by rewrite !lookup_insert_eq.
Qed.

(** A sleep that nothing stops lasts as long as it was asked to, and no sleep
    lasts longer. *)
Theorem sleep_bounds fuel stop left :
  sleep_interruptible fuel stop left ≤ left ∧
  ((∀ i, stop i = false) → (N.to_nat left ≤ fuel)%nat → sleep_interruptible fuel stop left = left).
Proof.
  revert stop left. induction fuel as [|fuel IH]; intros stop left; cbn [sleep_interruptible]; [lia|].
  destruct (N.ltb_spec 0 left) as [Hl|Hl]; cbn [andb]; [|lia].
  destruct (IH (λ i, stop (S i)) (left - N.min 100 left)) as [H1 H2].
  destruct (stop 0%nat) eqn:Hs; cbn [negb]; split; [lia|intros H; specialize (H 0%nat); congruence|lia|].
  intros H Hf. rewrite H2; [lia|intros i; apply H|lia].
Qed.

(** ** Recovery *)

Section recovery.
Context {hash : bytes → ChunkId} {Ct U : Type} `{!ChunkStore hash Ct}.
Context (clock : nat → Z) (ms : N) (debug : MetaRaftResponse → string) (ufs : option (Ufs U)).
#[local] Instance mount_store : MetaStore Db := heed_meta clock ms debug.
Abbreviation Cl := (FluxClient Db Ct U).

(** C38: a lease that a collection left behind keeps a mount from starting.
    The recovery of the session comes first and is refused as busy, so the
    lease, which the next step would release, stays, and so does the failure
    at every later attempt. *)
Theorem lease_blocks_mount ids (c : Cl) lease session :
  gc_lease (fc_meta c) = Some lease → fc_open_session_id c = Some session →
  reconcile_before_mount ufs ids c = (Err Busy, c).
Proof.
  intros Hl Hs. unfold reconcile_before_mount.
  rewrite (txn_bind_err _ _ c Busy c); [done|]. unfold recover_open_session, open_session_id.
  rewrite (txn_bind_ok _ _ c session c) by (unfold mbind, txn_bind, gets, lift; by rewrite Hs).
  rewrite (txn_bind_err _ _ c Busy c); [done|]. unfold on_meta. cbn. unfold heed_recover_session, with_write_txn.
  rewrite Hl. cbn. by destruct c.
Qed.

Abbreviation cleared session := (λ d : Db, ∀ id, (id, session) ∉ open_presences d).

Lemma delete_inode_clears session id : keeps (cleared session) (delete_inode_in_txn id).
Proof.
  unfold delete_inode_in_txn, abort_reservation_in_txn. apply keeps_bind; [apply keeps_gets|]. intros rs.
  apply keeps_bind; [apply keeps_for_each; intros r _; apply keeps_when, keeps_modify; done|]. intros _.
  apply keeps_bind; [apply keeps_gets|]. intros xs.
  apply keeps_bind; [apply keeps_for_each; intros x _; apply keeps_modify; done|]. intros _.
  apply keeps_bind; [apply keeps_gets|]. intros os.
  apply keeps_bind; [apply keeps_for_each; intros k _; apply keeps_modify|intros _; apply keeps_modify; done].
  intros d Hd id' Hin. cbn in Hin. apply (Hd id'). set_solver.
Qed.

Lemma recover_session_clears session d d' :
  recover_session_in_txn session d = (Ok tt, d') → cleared session d'.
Proof.
  unfold recover_session_in_txn. intros H. apply txn_bind_inv in H as [([]&d0&H0&H)|(e&_&?)]; [|done].
  apply pair_equal_spec in H0 as [_ <-]. rewrite txn_bind_gets in H.
  apply txn_bind_inv in H as [([]&d1&H1&H)|(e&_&?)]; [|done].
  assert (cleared session d1) as Hc.
  { rewrite for_each_modify in H1. injection H1 as <-. rewrite fold_upd_open_presences. intros id Hin. cbn in Hin.
    apply elem_of_difference in Hin as [Hin Hno]. apply Hno, elem_of_list_to_set, list_elem_of_filter.
    split; [done|by apply elem_of_elements]. }
  refine (keeps_for_each (cleared session) _ _ _ _ _ _ Hc H). intros x _. unfold reap_unlinked_inode_if_unopened_in_txn.
  apply keeps_bind; [apply keeps_gets|]. intros [i|]; [|apply keeps_ret].
  apply keeps_bind; [apply keeps_gets|]. intros b. apply keeps_when, delete_inode_clears.
Qed.

(** A recovery that succeeds without a UFS leaves no open file of this mount
    and no lease. *)
Theorem mount_recovers ids (c : Cl) session released c' :
  fc_open_session_id c = Some session → is_none ufs = true →
  reconcile_before_mount ufs ids c = (Ok (released, None), c') →
  cleared session (fc_meta c') ∧ gc_lease (fc_meta c') = None ∧ fc_open_inode_counts c' = ∅.
Proof.
  intros Hs Hu H. unfold reconcile_before_mount, recover_open_session, open_session_id in H.
  apply txn_bind_inv in H as [([]&c1&H1&H)|(e&_&?)]; [|done].
  rewrite (txn_bind_ok _ _ c session c) in H1 by (unfold mbind, txn_bind, gets, lift; by rewrite Hs).
  apply txn_bind_inv in H1 as [([]&c2&H2&H1)|(e&_&?)]; [|done]. injection H1 as <-.
  assert (cleared session (fc_meta c2) ∧ gc_lease (fc_meta c2) = None) as [Hc Hl].
  { unfold on_meta in H2. cbn in H2. unfold heed_recover_session in H2.
    destruct (with_write_txn _ _) as [r d'] eqn:Hw. injection H2 as -> <-. cbn.
    pose proof Hw as Hnone. unfold with_write_txn in Hnone.
    apply write_txn_inv in Hw as [[_ [? ?]]|([]&_&Hw)]; [done|]. split; [exact (recover_session_clears _ _ _ Hw)|].
    destruct (gc_lease (fc_meta c)) eqn:Hl; [done|]. rewrite <-Hl. eapply framed_run; [|exact Hw].
    unfold recover_session_in_txn, reap_unlinked_inode_if_unopened_in_txn, delete_inode_in_txn, abort_reservation_in_txn. frame. }
  assert (release_interrupted_gc_lease (set_counts ∅ c2) = (Ok false, set_counts ∅ c2)) as Hrel.
  { unfold release_interrupted_gc_lease. rewrite (txn_bind_ok _ _ _ None (set_counts ∅ c2)); [done|].
    unfold read_meta. cbn. unfold heed_current_gc_plan. by rewrite Hl. }
  rewrite (txn_bind_ok _ _ _ _ _ Hrel) in H. destruct ufs; [done|]. injection H as _ <-. done.
Qed.
End recovery.

(** ** Witness: a store with a lease *)

From S2P Require Import Membership Pack.

#[local] Instance lease_store : MetaStore Db := heed_meta (λ _, 7%Z) 1000 (λ _, "").
#[local] Instance lease_chunks : ChunkStore toy_hash PackStore := pack_chunk_store toy_hash toy_hash_width.
Definition leased_client : FluxClient Db PackStore unit :=
  with_open_session "m" (client_new (upd_gc_lease (λ _, Some 4) empty_db) new_store tt).

Lemma lease_blocks_mount_witness :
  reconcile_before_mount None (λ _ _, 1) leased_client = (Err Busy, leased_client).
Proof. apply (lease_blocks_mount (λ _, 7%Z) 1000 (λ _, "") None (λ _ _, 1) leased_client 4 "m"); reflexivity. Defined.
